(* ===== verification/_CoqProject ===== *)
-Q . S2P
Prelude.v
EventQueue.v
WmWorld.v
LbUtils.v
SubmissionUtils.v
WmCommands.v
WmReal.v
SubmitRequest.v
SubmitProps.v
CancelRequest.v
Dispatcher.v
Recovery.v
Sample.v
WmWitnesses.v
Machine.v
SqlUtil.v
SqlVarint.v
SqlUtf.v
SqlBitvec.v
SqlRowset.v
SqlHash.v
SqlMem.v
SqlRecord.v
FileText.v
FileContainer.v
FileLayout.v
FileRules.v
FileList.v
FileOps.v
FileRemove.v
FileCrash.v
FileSafety.v
FileWays.v
FileReading.v
FileSpec.v
FileSequence.v
FileOwner.v
FileCompact.v
SmallAds.v
IdTables.v
IdContainer.v
IdSpec.v
Aborted.v
SizeFile.v
TimerEvent.v
Timer.v
LogMonitor.v
