(* ===== verification/Prelude.v ===== *)
(** * Verification library of the gLite Workload Management System

    The system takes the descriptions of jobs from users and brings the jobs to computing
    elements. Four of its parts are modelled here, each as the code writes it, with the
    theorems that make it correct.

    ** The parts and how they interact

    - The workload manager (src/org.glite.wms.core/src) reads commands that the WMProxy
      service has left in a job directory, makes requests of them, and runs the requests
      from an event queue. A request plans its job, hands it to the job controller or to
      ICE, waits for what a collection or a DAG waits for, is retried, or is cancelled;
      what it does is logged to the Logging and Bookkeeping service, from which the state
      is recovered when the manager starts.
    - The commands between the services (src/org.glite.wms.common/src/utilities,
      wm_commands.cpp) are ClassAds that the clients build and the manager reads.
    - The job controller and the log monitor (src/org.glite.wms.jobsubmission/src/common
      and src/logmonitor) keep the jobs they follow in a list of ClassAds in a file. The
      list is a file container, which several processes open at once and which survives
      their interruption; over it are the repository of job identifiers with its tables,
      the list of the jobs that Condor has aborted, and the timers of the log monitor.
      Beside each log of Condor is a file with the position up to which it was read.
    - ICE keeps its jobs in an SQLite database, whose source is part of the repository
      (src/org.glite.wms.ice/src/iceDb/sqlite/sqlite3.c). Of the engine the files model
      the utilities, the sets and tables it works with, and the record format.

    ** The files

    Shared: Prelude.v (this file: tactics, lemmas on lists and options) and Machine.v
    (integers of the widths of C with their wrap-around, bytes, character tables).

    The workload manager. The handlers are functions of one state, [world] of WmWorld.v
    (event queue, requests, token files, logging contexts, what has been sent), in a monad
    with exceptions, cleanups and external calls; ClassAds, the clock, the planner and
    the Logging and Bookkeeping client are interfaces whose answers an oracle gives, so
    that the theorems hold for all of them.
    - EventQueue.v: events.cpp. [sys] and [step] interleave the clients, the clock and
      the workers around the critical sections of the worker loop.
    - LbUtils.v: lb_utils.cpp; SubmissionUtils.v: submission_utils.cpp; WmCommands.v:
      wm_commands.cpp; WmReal.v: wm_real.cpp.
    - SubmitRequest.v: submit_request.cpp, with its theorems in SubmitProps.v;
      CancelRequest.v: cancel_request.cpp and match_request.cpp; Dispatcher.v:
      dispatcher_utils.cpp; Recovery.v: recovery.cpp.
    - Sample.v and WmWitnesses.v: an instance of the interfaces, and runs on it.

    The storage engine: SqlUtil.v (util.c), SqlVarint.v (the variable-length integers of
    util.c), SqlUtf.v (utf.c), SqlBitvec.v (bitvec.c), SqlRowset.v (rowset.c), SqlHash.v
    (hash.c), SqlMem.v (the memory cell [Mem], vdbemem.c, the collations of main.c) and
    SqlRecord.v (the record format of vdbeaux.c and OP_MakeRecord). Structures with
    pointers are heaps where the code shares them ([SqlHash]) and inductive values where
    each node has one owner.

    The file container: filecontainer.cpp of src/org.glite.wms.common/src/utilities, of
    which file_container.cpp of the job submission is a copy in another namespace.
    - FileText.v: numbers, fields and offsets. FileContainer.v: the state [St] is the
      bytes of the file, the stream with its flags, the object with its cached copies of
      the header, and the number of writes that still reach the file; every operation is
      in the monad [E], and ends with a status or a result, or is not defined.
    - FileLayout.v, FileRules.v, FileList.v, FileOps.v, FileRemove.v: [disk] is a file as
      records, [list_of] the list in it, and the weakest preconditions [wp] of the accesses
      and of the operations have a second postcondition for what a write that is the last
      one leaves. FileCrash.v, FileSafety.v, FileWays.v: the recovery from every such disk.
      FileReading.v: the operations that read.
    - FileSpec.v: the container as a list for processes that take turns ([Sys],
      [reachable], [spec]), and its crash safety.
    - FileSequence.v: filelist.cpp, filelist.h and filelist_iterator.cpp, the interface of
      a standard list over the container. FileCompact.v: compaction. FileOwner.v: objects
      that have such a list as a member ([Owner]), the monad of their operations, the loop
      over the list ([each]) and sequences of requests to them.
    - IdTables.v: the list of nodes with two sorted vectors of pointer_id.cpp and
      id_compare.h, and the container in memory of ram_container.cpp. IdContainer.v:
      id_container.cpp, on the tables and the list in the file at once. IdSpec.v: its
      requests as those to a map of jobs. SmallAds.v: a small ClassAd library for the
      witnesses.
    - Aborted.v: AbortedContainer.cpp of src/logmonitor, a map in memory over a list of
      identifiers. TimerEvent.v: TimeoutEvent of Timer.cpp, the events of Condor as ads.
      Timer.v: Timer of the same file, a multimap of EventQueue.v over a list of ads.
      LogMonitor.v: the processing of what has expired, of CondorMonitor.cpp, and what
      the event processors of src/logmonitor/processer do to the timers. SizeFile.v:
      SizeFile.cpp, a file of lines on the streams of FileText.v with the rules of
      FileOwner.v.

    ** What the theorems show

    - Refinement: the file container is a list and the repository of jobs a map under
      every sequence of operations, with other processes taking turns or opening the file
      again (container_refines_list, repository_serves_specification,
      ram_container_refines_map, aborted_container_refines_set, timers_survive_restarts);
      the position file of a log is a field that is kept and a current one
      (size_file_refines_pair); the page bitmap, the hash table and the row set are a set,
      a map and a set that is drained in order (bitvec_refines_set, hash_refines_map,
      rowset_refines).
    - Crash safety: after whatever write an addition or a removal is cut short, the next
      process finds the list before or after it, but for one point between two writes
      that is described exactly (add_data_crash_safe, remove_data_crash_safe), and but for
      the first element, whose interrupted addition or removal leaves a file that cannot
      be opened any more (empty_list_not_recovered; the runs of
      interrupted_container_is_lost); and every reachable file is well laid out
      (container_wellformed). What is found after an update of a position file that
      stopped at any character is interrupted_update.
    - Safety of the manager: tokens, limits, proxies, cancellations, recovery and DAGs
      (token_at_delivery, inadmissible_not_delivered, cancelled_not_delivered,
      resubmission_limits, recovery_respects_limbo, dag_plan_only_eligible,
      collection_cancel_waits), and of its queue under every interleaving
      (entries_conserved, taken_in_order, dispatcher_never_lost, lb_log_attempts).
    - Round trips, bounds and orders: varint_roundtrip, record_roundtrip,
      record_compare_decoded, translate_text, translate_fits, mem_compare_order,
      command_roundtrip, constructor_indexes_file, iterators_walk_list,
      compaction_keeps_data, fl_erase_gives_next, timeout_restored.
    - What the code gets wrong, for every input or on a run (compaction_can_go_unnoticed,
      interrupted_container_is_lost, erase_and_remove_can_throw, longer_header_loses_fields
      and two_workers_can_crash are runs): empty_list_not_recovered,
      ram_insert_leaves_entry, refresh_never_rebuilds, compaction_can_go_unnoticed,
      erase_and_remove_can_throw, usage_is_not_restored, members_are_not_restored,
      longer_header_loses_fields, two_workers_can_crash, limbo_falls_through,
      cancel_ignores_done, malformed_jobid_stops_manager.

    ** Bounds and fuel

    Loops whose recursion is not structural have a fuel that the caller computes from the
    state, and the theorems state results and not only what holds of them. A container
    whose list is followed for longer than its file has characters is going round: the
    loops of FileContainer.v, FileSequence.v and FileOwner.v have the length of the file as
    fuel ([list_of_length]), and so has the reading of the header of a position file. The eviction loop of the container in memory erases an
    entry on each round. [probe_fuel] is the number of slots of a bitmap, [set_fuel] more
    than its levels; [lb_log] tries 21 times. Positions in a file are less than 2^63, the
    counter of a time stamp less than 2^16, row sets have less than 2^40 entries (the
    forty buckets of the sort), a hash table as many elements as an [int] counts. [s_budget]
    is the number of writes that reach the file: [None] for all of them.

    ** What is not modelled

    - Code outside the repository: the ClassAd library, Logging and Bookkeeping, the
      matchmaking behind [Plan], Condor, the Globus and gSOAP libraries. They are
      interfaces; [JobAds], [EventAds] and [TimerAds] state the laws of ClassAds that the
      objects with ads in a file rely on, [UserLogLaws] those of Condor's events,
      [TimeLaws] that of the C library's times, and [ReplansLaws] that setting the number of
      replans leaves the counts of the retries.
    - The clock within one operation: an operation reads it once, also where the source
      reads it twice. Names and texts that are C strings have no null character.
    - Processes within one operation: the locks of the file containers and of the event
      queue make each operation, or each critical section, one step.
    - The rest of SQLite (pager, b-tree, virtual machine, parser), ICE itself, the WMProxy
      service, the user interface, what the event processors of the log monitor do besides the timers, the purger,
      the information supermarket, configuration and logging: each is listed with its
      reason among the components. Within the parts that are modelled, diagnostic output,
      the dump of a damaged container, and the job ad that an identifier reads from a file
      of its own are left out. *)

From stdpp Require Export base list gmap strings numbers sorting.
From Stdlib Require Export ZArith Lia Bool Ascii.

#[global] Open Scope Z_scope.

(** ** Tactics shared by the development *)

(** Split every hypothesis that is a conjunction or an existential, and every
    boolean conjunction or comparison, into its propositional content. *)
Ltac breflect :=
  repeat match goal with
  | H : _ && _ = true |- _ => apply andb_true_iff in H as [??]
  | H : _ || _ = false |- _ => apply orb_false_iff in H as [??]
  | H : negb _ = true |- _ => apply negb_true_iff in H
  | H : negb _ = false |- _ => apply negb_false_iff in H
  | H : (_ <? _) = true |- _ => apply Z.ltb_lt in H
  | H : (_ <? _) = false |- _ => apply Z.ltb_ge in H
  | H : (_ <=? _) = true |- _ => apply Z.leb_le in H
  | H : (_ <=? _) = false |- _ => apply Z.leb_gt in H
  | H : (_ =? _) = true |- _ => apply Z.eqb_eq in H
  | H : (_ =? _) = false |- _ => apply Z.eqb_neq in H
  end.

(** Case analysis on the first test of the goal, with the test remembered. *)
Ltac case_test :=
  match goal with
  | |- context [if ?b then _ else _] =>
      let E := fresh "E" in destruct b eqn:E
  end.

(** Case analysis on every test of the goal, closing the arithmetic cases. *)
Ltac case_tests := repeat (case_test; breflect); try lia.

(** The same on a hypothesis. *)
Ltac case_test_in H :=
  match type of H with
  | context [if ?b then _ else _] =>
      let E := fresh "E" in destruct b eqn:E
  | context [match ?b with _ => _ end] =>
      let E := fresh "E" in destruct b eqn:E
  end.

(** ** Lists *)

Section lists.
Context {A : Type}.
Implicit Types (l : list A) (p : A → bool).

(** The longest prefix whose elements pass a test, and the rest. *)
Fixpoint span p l : list A * list A :=
  match l with
  | [] => ([], [])
  | x :: r => if p x then let '(a, b) := span p r in (x :: a, b) else ([], l)
  end.

Lemma span_app p l : (span p l).1 ++ (span p l).2 = l.
Proof.
  induction l as [|x l IH]; simpl; [done|].
  destruct (p x); [|done]. destruct (span p l); simpl in *. by rewrite IH.
Qed.

Lemma span_prefix p l : Forall (λ x, p x = true) (span p l).1.
Proof.
  induction l as [|x l IH]; simpl; [constructor|].
  destruct (p x) eqn:E; [|constructor].
  destruct (span p l); simpl in *. by constructor.
Qed.

Lemma span_head p l x r : (span p l).2 = x :: r → p x = false.
Proof.
  induction l as [|y l IH]; simpl; [done|].
  destruct (p y) eqn:E.
  - destruct (span p l); simpl in *. exact IH.
  - simpl. by intros [= -> ->].
Qed.

Lemma StronglySorted_app_iff (R : relation A) l1 l2 :
  StronglySorted R (l1 ++ l2) ↔
    StronglySorted R l1 ∧ StronglySorted R l2 ∧ (∀ x y, x ∈ l1 → y ∈ l2 → R x y).
Proof.
  induction l1 as [|x l1 IH]; simpl.
  - split; [intros H; split_and!; [constructor|done|set_solver]|by intros (_&?&_)].
  - split.
    + intros [H1 H2]%StronglySorted_inv. apply IH in H1 as (?&?&Hx).
      rewrite Forall_app in H2. destruct H2 as [H2 H3].
      split_and!; [by constructor|done|].
      intros a b [->|Ha]%elem_of_cons Hb; [|by apply Hx].
      by eapply Forall_forall in H3.
    + intros (H1&H2&Hx). apply StronglySorted_inv in H1 as [H1 H3].
      constructor; [apply IH; split_and!; [done..|set_solver]|].
      apply Forall_app; split; [done|]. apply Forall_forall. set_solver.
Qed.
End lists.
