(* ===== verification/EventQueue.v ===== *)
(** * The workload manager's event queue

    Models src/org.glite.wms.core/src/events.cpp and events.h: the two
    multimaps of pending closures, the two scheduling operations and the loop
    every worker thread runs. *)

From S2P Require Import Prelude.

(** ** std::multimap

    A multimap of the C++ standard library as the list of its entries in
    iteration order.  [insert] descends to the left exactly when the new key
    compares before the entry, so it places the new entry in front of the first
    entry its key compares before. *)
Section Multimap.
Context {K V : Type} (comp : K → K → bool).

Fixpoint mm_insert (k : K) (v : V) (l : list (K * V)) : list (K * V) :=
  match l with
  | [] => [(k, v)]
  | e :: r => if comp k e.1 then (k, v) :: e :: r else e :: mm_insert k v r
  end.

(** [insert(first, last)]: the entries in turn. *)
Fixpoint mm_insert_range (xs l : list (K * V)) : list (K * V) :=
  match xs with
  | [] => l
  | (k, v) :: r => mm_insert_range r (mm_insert k v l)
  end.

(** The entries before and from [lower_bound(k)], the first entry that does
    not compare before [k]. *)
Definition mm_lower_bound (k : K) (l : list (K * V)) : list (K * V) * list (K * V) :=
  span (λ e, comp e.1 k) l.

Lemma mm_insert_Permutation k v l : mm_insert k v l ≡ₚ (k, v) :: l.
Proof.
  induction l as [|e l IH]; simpl; [done|].
  destruct (comp k e.1); [done|]. rewrite IH. constructor.
Qed.

Lemma mm_insert_range_Permutation xs l : mm_insert_range xs l ≡ₚ xs ++ l.
Proof.
  revert l; induction xs as [|[k v] xs IH]; intros l; simpl; [done|].
  rewrite IH, mm_insert_Permutation. by rewrite Permutation_middle.
Qed.

(** Insertion keeps a multimap sorted by any total preorder the comparison
    agrees with. *)
Lemma mm_insert_sorted (R : relation (K * V)) `{!Transitive R} k v l :
  (∀ e, comp k e.1 = true → R (k, v) e) →
  (∀ e, comp k e.1 = false → R e (k, v)) →
  StronglySorted R l → StronglySorted R (mm_insert k v l).
Proof.
  intros Ht Hf. induction 1 as [|e l Hs IH Hall]; simpl; [repeat constructor|].
  destruct (comp k e.1) eqn:E.
  - apply Ht in E. constructor; [by constructor|].
    constructor; [done|]. eapply Forall_impl; [exact Hall|]. intros y Hy. by transitivity e.
  - constructor; [done|]. rewrite mm_insert_Permutation.
    constructor; [by apply Hf|done].
Qed.

Lemma mm_insert_elem k v l : (k, v) ∈ mm_insert k v l.
Proof. rewrite mm_insert_Permutation. by left. Qed.
End Multimap.

(** ** The queues *)

(** [struct TimePriority] *)
Record TimePriority := mkTP { tp_time : Z; tp_priority : Z }.

#[export] Instance TimePriority_eq_dec : EqDecision TimePriority.
Proof. solve_decision. Defined.

(** [struct time_first] *)
Definition time_first (lhs rhs : TimePriority) : bool :=
  tp_time lhs <=? tp_time rhs.

(** [struct priority_first] *)
Definition priority_first (lhs rhs : TimePriority) : bool :=
  (tp_priority lhs <? tp_priority rhs)
  || ((tp_priority lhs =? tp_priority rhs) && (tp_time lhs <? tp_time rhs)).

(** Priorities of events.h: the lower the number, the higher the priority. *)
Definition submit_priority : Z := 60.
Definition cancel_priority : Z := 50.
Definition replanner_priority : Z := 40.
Definition match_priority : Z := 30.
Definition dispatcher_priority : Z := 20.
Definition ism_priority : Z := 10.
Definition debug_priority : Z := 0.

Section Events.
Context {T : Type}.
Notation entry := (TimePriority * T)%type.

(** [struct Events::Impl], without the mutex and the condition, which the
    step relation below accounts for. *)
Record Impl := mkImpl {
  shutdown : bool;
  ready : list entry;
  waiting : list entry;
}.

(** [Events::Events] *)
Definition new_Events : Impl := mkImpl false [] [].

(** [expired_to_ready] *)
Definition expired_to_ready (now : Z) (w r : list entry) : list entry * list entry :=
  let comp := mkTP now 0 in
  let '(expired, rest) := mm_lower_bound time_first comp w in
  (rest, mm_insert_range priority_first expired r).

(** [Events::ready_size], [Events::waiting_size] *)
Definition ready_size (st : Impl) : Z := Z.of_nat (length (ready st)).
Definition waiting_size (st : Impl) : Z := Z.of_nat (length (waiting st)).

(** [Events::schedule]; [now] is the time read before the lock is taken. *)
Definition schedule (now : Z) (f : T) (priority : Z) (st : Impl) : Impl :=
  mkImpl (shutdown st)
    (mm_insert priority_first (mkTP now priority) f (ready st)) (waiting st).

(** [Events::schedule_at] *)
Definition schedule_at (f : T) (t : Z) (priority : Z) (st : Impl) : Impl :=
  mkImpl (shutdown st) (ready st)
    (mm_insert time_first (mkTP t priority) f (waiting st)).

(** [Events::stop] *)
Definition stop (st : Impl) : Impl := mkImpl true (ready st) (waiting st).

(** ** The worker loop

    [Events::run] releases the lock at three points only: in the wait for an
    entry, in the timed wait for the first waiting entry to expire, and after
    an entry has been taken.  The code between two such points runs as one
    step; its outcome says where the worker is afterwards. *)
Inductive outcome :=
| Exit                              (* left the loop *)
| Wait                              (* in [cond.wait] *)
| TimedWait (until : Z)             (* in [cond.timed_wait] *)
| Take (tp : TimePriority) (f : T)  (* an entry taken, lock released *)
| Undefined.                        (* [begin()] of an empty multimap read *)

(** From the test [while (!shutdown && ready.empty())] on. *)
Definition run_ready_test (st : Impl) : outcome * Impl :=
  if negb (shutdown st) && bool_decide (ready st = []) then
    match waiting st with
    | [] => (Undefined, st)
    | (tp, _) :: _ => (TimedWait (tp_time tp), st)
    end
  else if shutdown st then (Exit, st)
  else match ready st with
    | [] => (Undefined, st)
    | (tp, f) :: r => (Take tp f, mkImpl (shutdown st) r (waiting st))
    end.

Definition move_expired (now : Z) (st : Impl) : Impl :=
  let '(w, r) := expired_to_ready now (waiting st) (ready st) in
  mkImpl (shutdown st) r w.

(** From the test of the first wait on. *)
Definition run_locked (now : Z) (st : Impl) : outcome * Impl :=
  if negb (shutdown st) && bool_decide (ready st = []) && bool_decide (waiting st = [])
  then (Wait, st)
  else if shutdown st then (Exit, st)
  else run_ready_test (move_expired now st).

(** From the return of [timed_wait] on. *)
Definition run_timed (now : Z) (st : Impl) : outcome * Impl :=
  run_ready_test (move_expired now st).

(** ** The two orders the queues keep *)

Definition time_le (x y : entry) : Prop := tp_time x.1 ≤ tp_time y.1.

(** Stated on the numbers, as events.h gives them: the lower number is the
    higher priority and comes first, the older time among equals. *)
Definition prio_le (x y : entry) : Prop :=
  tp_priority x.1 < tp_priority y.1
  ∨ tp_priority x.1 = tp_priority y.1 ∧ tp_time x.1 ≤ tp_time y.1.

#[local] Instance time_le_trans : Transitive time_le.
Proof. unfold time_le; intros x y z; lia. Qed.

#[local] Instance prio_le_trans : Transitive prio_le.
Proof. unfold prio_le; intros x y z; lia. Qed.

Record queues_ok (st : Impl) : Prop := {
  ready_sorted : StronglySorted prio_le (ready st);
  waiting_sorted : StronglySorted time_le (waiting st);
}.

Lemma ready_insert_sorted tp f (l : list entry) :
  StronglySorted prio_le l → StronglySorted prio_le (mm_insert priority_first tp f l).
Proof.
  apply mm_insert_sorted; [apply _| |]; intros e He;
    unfold prio_le; unfold priority_first in He; simpl.
  - rewrite orb_true_iff, andb_true_iff, !Z.ltb_lt, Z.eqb_eq in He. lia.
  - rewrite orb_false_iff, andb_false_iff, !Z.ltb_ge, Z.eqb_neq in He. lia.
Qed.

Lemma ready_insert_range_sorted (xs l : list entry) :
  StronglySorted prio_le l →
  StronglySorted prio_le (mm_insert_range priority_first xs l).
Proof.
  revert l; induction xs as [|[tp f] xs IH]; intros l Hl; simpl; [done|].
  by apply IH, ready_insert_sorted.
Qed.

Lemma waiting_insert_sorted tp f (l : list entry) :
  StronglySorted time_le l → StronglySorted time_le (mm_insert time_first tp f l).
Proof.
  apply mm_insert_sorted; [apply _| |]; intros e He; unfold time_le, time_first in *;
    breflect; simpl; lia.
Qed.

(** The expired entries are the ones whose time has come: with [<=] as the
    order of the waiting multimap, [lower_bound(now)] is the first entry later
    than [now]. *)
Lemma expired_split now (w : list entry) :
  StronglySorted time_le w →
  let '(a, b) := mm_lower_bound time_first (mkTP now 0) w in
  w = a ++ b ∧ Forall (λ e, tp_time e.1 ≤ now) a ∧ Forall (λ e, now < tp_time e.1) b.
Proof.
  intros Hw. unfold mm_lower_bound.
  pose proof (span_app (λ e, time_first e.1 (mkTP now 0)) w) as Happ.
  pose proof (span_prefix (λ e, time_first e.1 (mkTP now 0)) w) as Hpre.
  pose proof (span_head (λ e, time_first e.1 (mkTP now 0)) w) as Hhd.
  destruct (span _ w) as [a b]; simpl in *. split_and!; [done| |].
  - eapply Forall_impl; [exact Hpre|]. unfold time_first; simpl. intros e He. by breflect.
  - rewrite <- Happ, StronglySorted_app_iff in Hw. destruct Hw as (_&Hb&_).
    destruct b as [|e b]; [constructor|].
    specialize (Hhd e b eq_refl). unfold time_first in Hhd; simpl in Hhd. breflect.
    apply StronglySorted_inv in Hb as [_ Hb]. constructor; [done|].
    eapply Forall_impl; [exact Hb|]. unfold time_le; intros y Hy. simpl in Hy. lia.
Qed.

Lemma move_expired_ok now st : queues_ok st → queues_ok (move_expired now st).
Proof.
  intros [Hr Hw]. unfold move_expired, expired_to_ready.
  pose proof (expired_split now (waiting st) Hw) as Hs.
  destruct (mm_lower_bound _ _ _) as [a b]. destruct Hs as (E&_&_).
  constructor; simpl; [by apply ready_insert_range_sorted|].
  rewrite E, StronglySorted_app_iff in Hw. naive_solver.
Qed.

Lemma move_expired_Permutation now st :
  ready (move_expired now st) ++ waiting (move_expired now st) ≡ₚ ready st ++ waiting st.
Proof.
  unfold move_expired, expired_to_ready, mm_lower_bound.
  pose proof (span_app (λ e, time_first e.1 (mkTP now 0)) (waiting st)) as Happ.
  destruct (span _ _) as [a b]; simpl in *.
  rewrite mm_insert_range_Permutation, <- Happ. by solve_Permutation || (rewrite !app_assoc; f_equiv; apply Permutation_app_comm).
Qed.

Lemma move_expired_shutdown now st : shutdown (move_expired now st) = shutdown st.
Proof. unfold move_expired. by destruct (expired_to_ready _ _ _). Qed.

(** Nothing that is ready after the move is in the future. *)
Lemma move_expired_past now st :
  queues_ok st → Forall (λ e, tp_time e.1 ≤ now) (ready st) →
  Forall (λ e, tp_time e.1 ≤ now) (ready (move_expired now st)).
Proof.
  intros [_ Hw] Hr. unfold move_expired, expired_to_ready.
  pose proof (expired_split now (waiting st) Hw) as Hs.
  destruct (mm_lower_bound _ _ _) as [a b]. destruct Hs as (_&Ha&_). simpl.
  rewrite mm_insert_range_Permutation. by apply Forall_app.
Qed.

Lemma schedule_ok now f p st : queues_ok st → queues_ok (schedule now f p st).
Proof. intros [Hr Hw]. constructor; simpl; [by apply ready_insert_sorted|done]. Qed.

Lemma schedule_at_ok f t p st : queues_ok st → queues_ok (schedule_at f t p st).
Proof. intros [Hr Hw]. constructor; simpl; [done|by apply waiting_insert_sorted]. Qed.
End Events.

Arguments Impl T : clear implicits.
Arguments outcome T : clear implicits.

Create HintDb events.
#[export] Hint Resolve move_expired_ok schedule_ok schedule_at_ok : events.

(** ** The worker threads and their interleavings *)

Section System.
Context {T : Type}.
Notation entry := (TimePriority * T)%type.

(** Where a worker thread is between two steps. *)
Inductive worker :=
| AtTop                 (* about to test [while (!shutdown)] *)
| InWait                (* in [cond.wait] *)
| InTimedWait           (* in [cond.timed_wait] *)
| Running (f : T)       (* executing the closure it took *)
| Exited
| Crashed.              (* behaviour undefined *)

Record sys := mkSys {
  s_q : Impl T;
  s_now : Z;                      (* the clock *)
  s_workers : list worker;
  s_scheduled : list entry;       (* every entry ever scheduled *)
  s_taken : list (Z * entry);     (* every entry taken, with the clock *)
}.

Definition settle (s : sys) (i : nat) (o : outcome T) (q : Impl T) : sys :=
  let at_ w tk := mkSys q (s_now s) (<[i := w]> (s_workers s)) (s_scheduled s) tk in
  match o with
  | Exit => at_ Exited (s_taken s)
  | Wait => at_ InWait (s_taken s)
  | TimedWait _ => at_ InTimedWait (s_taken s)
  | Take tp f => at_ (Running f) ((s_now s, (tp, f)) :: s_taken s)
  | Undefined => at_ Crashed (s_taken s)
  end.

(** One step: a client schedules, the clock advances, or a worker runs from
    one release of the lock to the next.  A wait may return at any moment
    (notified or not), as condition variables do. *)
Inductive step : sys → sys → Prop :=
| step_tick s now' :
    s_now s ≤ now' →
    step s (mkSys (s_q s) now' (s_workers s) (s_scheduled s) (s_taken s))
| step_schedule s f p t :
    t ≤ s_now s →                 (* read before the lock is taken *)
    step s (mkSys (schedule t f p (s_q s)) (s_now s) (s_workers s)
              ((mkTP t p, f) :: s_scheduled s) (s_taken s))
| step_schedule_at s f t p :
    step s (mkSys (schedule_at f t p (s_q s)) (s_now s) (s_workers s)
              ((mkTP t p, f) :: s_scheduled s) (s_taken s))
| step_stop s :
    step s (mkSys (stop (s_q s)) (s_now s) (s_workers s) (s_scheduled s) (s_taken s))
| step_exit s i :
    s_workers s !! i = Some AtTop → shutdown (s_q s) = true →
    step s (settle s i Exit (s_q s))
| step_enter s i o q :
    s_workers s !! i = Some AtTop → shutdown (s_q s) = false →
    run_locked (s_now s) (s_q s) = (o, q) → step s (settle s i o q)
| step_wake s i o q :
    s_workers s !! i = Some InWait →
    run_locked (s_now s) (s_q s) = (o, q) → step s (settle s i o q)
| step_wake_timed s i o q :
    s_workers s !! i = Some InTimedWait →
    run_timed (s_now s) (s_q s) = (o, q) → step s (settle s i o q)
| step_return s i f (bad_alloc : bool) :
    s_workers s !! i = Some (Running f) →
    step s (mkSys (if bad_alloc then stop (s_q s) else s_q s) (s_now s)
              (<[i := AtTop]> (s_workers s)) (s_scheduled s) (s_taken s)).

Definition init (now : Z) (workers : nat) : sys :=
  mkSys new_Events now (replicate workers AtTop) [] [].

Definition reachable (now : Z) (workers : nat) : sys → Prop :=
  rtc step (init now workers).

(** A worker's section leaves the queues ordered, loses no entry, and takes
    the first ready entry, which is not in the future. *)
Record section_ok (now : Z) (st : Impl T) (o : outcome T) (st' : Impl T) : Prop := {
  so_queues : queues_ok st';
  so_past : Forall (λ e, tp_time e.1 ≤ now) (ready st');
  so_shutdown : shutdown st' = shutdown st;
  so_entries : ready st ++ waiting st ≡ₚ
    match o with Take tp f => [(tp, f)] | _ => [] end ++ ready st' ++ waiting st';
  so_take : ∀ tp f, o = Take tp f →
    shutdown st = false ∧ tp_time tp ≤ now ∧ Forall (prio_le (tp, f)) (ready st');
  so_timed : ∀ t, o = TimedWait t → waiting st' ≠ [];
  so_undef : o = Undefined → ready st = [] ∧ waiting st = [];
}.

Lemma run_ready_test_section now st :
  queues_ok st → Forall (λ e, tp_time e.1 ≤ now) (ready st) →
  section_ok now st (run_ready_test st).1 (run_ready_test st).2.
Proof.
  intros Hok Hp. unfold run_ready_test.
  destruct st as [sd r w]; simpl in *.
  destruct sd; simpl; [by constructor|].
  destruct r as [|[tp f] r]; simpl.
  - destruct w as [|[tp f] w]; by constructor.
  - destruct Hok as [Hr Hw]; simpl in *. inversion Hp; subst; simpl in *.
    apply StronglySorted_inv in Hr as [Hr Hall]. constructor; simpl; try done.
    by intros tp' f' [= <- <-].
Qed.

Lemma run_timed_section now st :
  queues_ok st → Forall (λ e, tp_time e.1 ≤ now) (ready st) →
  section_ok now st (run_timed now st).1 (run_timed now st).2.
Proof.
  intros Hok Hp. unfold run_timed.
  destruct (run_ready_test_section now (move_expired now st)) as [H1 H2 H3 H4 H5 H6 H7].
  { by apply move_expired_ok. } { by apply move_expired_past. }
  rewrite move_expired_Permutation, ?move_expired_shutdown in *.
  constructor; try done.
  intros Hu. destruct (H7 Hu) as [E1 E2].
  pose proof (move_expired_Permutation now st) as HP. rewrite E1, E2 in HP.
  apply Permutation_nil_l in HP. symmetry in HP. by apply app_eq_nil in HP.
Qed.

Lemma run_locked_section now st :
  queues_ok st → Forall (λ e, tp_time e.1 ≤ now) (ready st) →
  section_ok now st (run_locked now st).1 (run_locked now st).2
    ∧ (run_locked now st).1 ≠ Undefined.
Proof.
  intros Hok Hp. unfold run_locked.
  destruct (negb (shutdown st) && bool_decide (ready st = [])
            && bool_decide (waiting st = [])) eqn:E; [by split; [constructor|]|].
  destruct (shutdown st) eqn:Es; [by split; [constructor|]|].
  pose proof (run_timed_section now st Hok Hp) as Hs.
  split; [exact Hs|]. intros Hu.
  destruct (so_undef _ _ _ _ Hs Hu) as [E1 E2]. rewrite E1, E2 in E. simpl in E. congruence.
Qed.

(** The invariant of the queue under every interleaving. *)
Record sys_ok (s : sys) : Prop := {
  ok_queues : queues_ok (s_q s);
  ok_ready_past : Forall (λ e, tp_time e.1 ≤ s_now s) (ready (s_q s));
  ok_taken_past : Forall (λ x : Z * entry, tp_time x.2.1 ≤ x.1 ≤ s_now s) (s_taken s);
  ok_entries : s_scheduled s ≡ₚ (s_taken s).*2 ++ ready (s_q s) ++ waiting (s_q s);
}.

Lemma settle_ok s i o q :
  sys_ok s → section_ok (s_now s) (s_q s) o q → sys_ok (settle s i o q).
Proof.
  intros [H1 H2 H3 H4] [S1 S2 S3 S4 S5 S6 S7].
  destruct o; simpl in *; try (constructor; simpl; try done; by rewrite <- S4).
  destruct (S5 tp f eq_refl) as (_&?&_).
  constructor; simpl; [done|done|constructor; [simpl; lia|done]|].
  rewrite H4, S4. simpl. by rewrite <- Permutation_middle.
Qed.

Lemma step_ok s s' : sys_ok s → step s s' → sys_ok s'.
Proof.
  intros Hok Hst. pose proof Hok as [H1 H2 H3 H4]. destruct Hst.
  - constructor; simpl; try done.
    + eapply Forall_impl; [exact H2|]. simpl; lia.
    + eapply Forall_impl; [exact H3|]. simpl; lia.
  - constructor; simpl; [by apply schedule_ok| |done|].
    + rewrite mm_insert_Permutation. by constructor.
    + rewrite mm_insert_Permutation, H4. simpl. by rewrite <- !Permutation_middle.
  - constructor; simpl; [by apply schedule_at_ok|done|done|].
    rewrite mm_insert_Permutation, H4. by rewrite <- !Permutation_middle.
  - constructor; try done. by destruct H1.
  - apply settle_ok; [done|]. by constructor.
  - apply settle_ok; [done|]. destruct (run_locked_section (s_now s) (s_q s)) as [Hs _]; [done..|].
    by rewrite H5 in Hs.
  - apply settle_ok; [done|]. destruct (run_locked_section (s_now s) (s_q s)) as [Hs _]; [done..|].
    by rewrite H0 in Hs.
  - apply settle_ok; [done|]. pose proof (run_timed_section (s_now s) (s_q s)) as Hs.
    rewrite H0 in Hs. by apply Hs.
  - destruct bad_alloc; constructor; try done. by destruct H1.
Qed.

Lemma reachable_ok now n s : reachable now n s → sys_ok s.
Proof.
  intros Hr. assert (sys_ok (init now n)) as H0 by (repeat constructor).
  revert H0. induction Hr; eauto using step_ok.
Qed.
End System.

Arguments sys T : clear implicits.
Arguments worker T : clear implicits.

(** ** Properties of the queue *)

Section Properties.
Context {T : Type}.
Implicit Types (s : sys T) (st : Impl T).

(** With one worker, nobody else can empty the queues while it sleeps in the
    timed wait. *)
Definition timed_wait_justified s : Prop :=
  length (s_workers s) = 1%nat ∧ Crashed ∉ s_workers s ∧
  (InTimedWait ∈ s_workers s → ready (s_q s) ++ waiting (s_q s) ≠ []).

Lemma settle_workers s i o q :
  s_workers (settle s i o q) =
  <[i := match o with
         | Exit => Exited | Wait => InWait | TimedWait _ => InTimedWait
         | Take _ f => Running f | Undefined => Crashed end]> (s_workers s).
Proof. by destruct o. Qed.

Lemma settle_q s i o q : s_q (settle s i o q) = q.
Proof. by destruct o. Qed.

Lemma settle_justified s i o q w :
  timed_wait_justified s → s_workers s !! i = Some w →
  section_ok (s_now s) (s_q s) o q → o ≠ Undefined →
  timed_wait_justified (settle s i o q).
Proof.
  intros (Hl&Hc&Ht) Hi Hs Ho. unfold timed_wait_justified.
  rewrite settle_workers, settle_q, length_insert. split; [done|].
  destruct (s_workers s) as [|w0 [|w1 ws]]; [done| |done].
  destruct i as [|i]; [|by destruct i]. simpl.
  split; [set_unfold; destruct o; naive_solver|].
  intros Hin. destruct o; try (set_unfold; naive_solver).
  pose proof (so_timed _ _ _ _ Hs until eq_refl) as Hw. by intros [_ ?]%app_eq_nil.
Qed.

Lemma step_justified s s' :
  sys_ok s → timed_wait_justified s → step s s' → timed_wait_justified s'.
Proof.
  intros [H1 H2 H3 H4] Hj Hst. destruct Hst; try done.
  - destruct Hj as (?&?&?). split_and!; try done. simpl. intros _ E.
    apply app_eq_nil in E as [E _].
    pose proof (mm_insert_Permutation priority_first (mkTP t p) f (ready (s_q s))) as HP.
    rewrite E in HP. by apply Permutation_nil_cons in HP.
  - destruct Hj as (?&?&?). split_and!; try done. simpl. intros _ E.
    apply app_eq_nil in E as [_ E].
    pose proof (mm_insert_Permutation time_first (mkTP t p) f (waiting (s_q s))) as HP.
    rewrite E in HP. by apply Permutation_nil_cons in HP.
  - eapply settle_justified; [done|exact H| |done]. by constructor.
  - destruct (run_locked_section (s_now s) (s_q s) H1 H2) as [Hs Hu].
    rewrite H5 in Hs, Hu. by eapply settle_justified.
  - destruct (run_locked_section (s_now s) (s_q s) H1 H2) as [Hs Hu].
    rewrite H0 in Hs, Hu. by eapply settle_justified.
  - pose proof (run_timed_section (s_now s) (s_q s) H1 H2) as Hs. rewrite H0 in Hs.
    eapply settle_justified; [done|exact H|done|]. intros ->.
    destruct (so_undef _ _ _ _ Hs eq_refl) as [E1 E2].
    destruct Hj as (_&_&Ht). apply Ht; [|by rewrite E1, E2].
    by eapply list_elem_of_lookup_2.
  - destruct Hj as (Hl&Hc&Ht). unfold timed_wait_justified; simpl.
    rewrite length_insert. split; [done|].
    destruct (s_workers s) as [|w0 [|w1 ws]]; [done| |done].
    destruct i as [|i]; [|by destruct i]. simpl in *. set_unfold. naive_solver.
Qed.

(** C4. No entry is lost and none runs twice: under every interleaving of
    clients, clock and worker threads, the entries ever scheduled are, as a
    multiset, the ones taken for execution plus the ones still queued. *)
Theorem entries_conserved now n s :
  reachable now n s →
  s_scheduled s ≡ₚ (s_taken s).*2 ++ ready (s_q s) ++ waiting (s_q s).
Proof. intros Hr. apply (ok_entries _ (reachable_ok _ _ _ Hr)). Qed.

(** C28. No entry runs before its time, and the ready queue stays ordered by
    (priority, time): when a worker takes an entry, no entry left in the ready
    queue has a higher priority, or the same priority and an earlier time. *)
Theorem taken_in_order now n s s' c tp f :
  reachable now n s → step s s' → s_taken s' = (c, (tp, f)) :: s_taken s →
  c = s_now s ∧ tp_time tp ≤ c ∧ Forall (prio_le (tp, f)) (ready (s_q s')).
Proof.
  intros Hr Hst. pose proof (reachable_ok _ _ _ Hr) as [H1 H2 _ _].
  assert (∀ i o q, section_ok (s_now s) (s_q s) o q →
    s_taken (settle s i o q) = (c, (tp, f)) :: s_taken s →
    c = s_now s ∧ tp_time tp ≤ c ∧ Forall (prio_le (tp, f)) (ready (s_q (settle s i o q))))
    as Hgen.
  { intros i o q Hs Heq. destruct o; simpl in Heq;
      try (exfalso; apply (f_equal length) in Heq; simpl in Heq; lia).
    injection Heq as <- <- <-.
    destruct (so_take _ _ _ _ Hs _ _ eq_refl) as (_&?&?). by rewrite settle_q. }
  destruct Hst; simpl; intros Heq;
    try (exfalso; apply (f_equal length) in Heq; simpl in Heq; lia).
  - destruct (run_locked_section (s_now s) (s_q s) H1 H2) as [Hs _].
    rewrite H3 in Hs. by eapply Hgen.
  - destruct (run_locked_section (s_now s) (s_q s) H1 H2) as [Hs _].
    rewrite H0 in Hs. by eapply Hgen.
  - pose proof (run_timed_section (s_now s) (s_q s) H1 H2) as Hs. rewrite H0 in Hs.
    by eapply Hgen.
Qed.

(** With a single worker thread the loop never reads the first entry of an
    empty queue, whatever the clients schedule and whenever the waits return. *)
Theorem single_worker_safe now s : reachable now 1 s → Crashed ∉ s_workers s.
Proof.
  intros Hr.
  assert (timed_wait_justified (init (T:=T) now 1)) as H0.
  { split_and!; simpl; [done|set_solver|]. intros Hin. set_solver. }
  assert (sys_ok (init (T:=T) now 1)) as Hok by (repeat constructor).
  enough (timed_wait_justified s) as (_&?&_) by done.
  revert H0 Hok. unfold reachable in Hr. induction Hr; eauto using step_justified, step_ok.
Qed.
End Properties.

(** Two tasks' worth of data for the concrete runs below. *)
Definition sample_wait : sys nat :=
  mkSys (schedule_at 7%nat 5 submit_priority new_Events) 0
    [InTimedWait; InTimedWait] [(mkTP 5 submit_priority, 7%nat)] [].

Lemma sample_wait_reachable : reachable (T:=nat) 0 2 sample_wait.
Proof.
  unfold reachable, init. eapply rtc_l; [apply (step_schedule_at _ 7%nat 5 submit_priority)|].
  eapply rtc_l; [by eapply (step_enter _ 0%nat)|].
  eapply rtc_l; [by eapply (step_enter _ 1%nat)|].
  reflexivity.
Qed.

(** C39. With two worker threads the timed wait can read the first entry of an
    empty queue: both sleep until the only waiting entry expires, the first to
    return takes it, and the second finds both queues empty, where the loop
    evaluates [waiting.begin()->first.time] without a test. *)
Theorem two_workers_can_crash :
  ∃ s : sys nat, reachable 0 2 s ∧ Crashed ∈ s_workers s.
Proof.
  eexists. split.
  - eapply rtc_trans; [exact sample_wait_reachable|].
    eapply rtc_l; [by apply (step_tick _ 5)|].
    eapply rtc_l; [by eapply (step_wake_timed _ 0%nat)|].
    eapply rtc_l; [by eapply (step_wake_timed _ 1%nat)|].
    reflexivity.
  - simpl. set_solver.
Qed.

Section MoreProperties.
Context {T : Type}.
Implicit Types (s : sys T) (st : Impl T).

(** After [stop] no worker takes another entry. *)
Theorem stop_is_final s s' :
  shutdown (s_q s) = true → rtc step s s' →
  shutdown (s_q s') = true ∧ s_taken s' = s_taken s.
Proof.
  intros Hsd Hr. induction Hr as [|s s1 s' Hst _ IH]; [done|].
  assert (shutdown (s_q s1) = true ∧ s_taken s1 = s_taken s) as [H1 H2].
  { clear IH. destruct Hst; simpl in *; try done; try (rewrite Hsd in *; done).
    - unfold run_locked in H0. rewrite Hsd in H0. simpl in H0.
      injection H0 as <- <-. done.
    - unfold run_timed, run_ready_test in H0. rewrite move_expired_shutdown, Hsd in H0.
      simpl in H0. injection H0 as <- <-. simpl. by rewrite move_expired_shutdown.
    - by destruct bad_alloc. }
  destruct (IH H1) as [H3 H4]. by rewrite H4.
Qed.

(** No expired entry waits while a worker is free: unless the queue is
    stopped, a worker that enters its loop, or returns from either wait, takes
    an entry as soon as one is ready or one waiting entry's time has come. *)
Theorem worker_takes_expired now st :
  queues_ok st → shutdown st = false →
  ready st ≠ [] ∨ (∃ e, e ∈ waiting st ∧ tp_time e.1 ≤ now) →
  (∃ tp f, (run_locked now st).1 = Take tp f) ∧ (∃ tp f, (run_timed now st).1 = Take tp f).
Proof.
  intros [Hr Hw] Hsd Hne.
  assert (ready (move_expired now st) ≠ []) as Hready.
  { unfold move_expired, expired_to_ready.
    pose proof (expired_split now (waiting st) Hw) as Hs.
    destruct (mm_lower_bound _ _ _) as [a b]. destruct Hs as (E&Ha&Hb). simpl.
    intros En. pose proof (mm_insert_range_Permutation priority_first a (ready st)) as HP.
    rewrite En in HP. apply Permutation_nil_l, eq_sym, app_eq_nil in HP as [-> Er].
    destruct Hne as [?|(e&He&Hle)]; [done|].
    rewrite E in He. simpl in He. eapply Forall_forall in Hb; [|exact He]. lia. }
  assert (∃ tp f, (run_timed now st).1 = Take tp f) as Ht.
  { unfold run_timed, run_ready_test. rewrite move_expired_shutdown, Hsd. simpl.
    destruct (ready (move_expired now st)) as [|[tp f] r]; [done|]. simpl. eauto. }
  split; [|exact Ht]. unfold run_locked. rewrite Hsd. simpl.
  destruct (bool_decide (ready st = []) && bool_decide (waiting st = [])) eqn:E; [|exact Ht].
  apply andb_true_iff in E as [E1%bool_decide_eq_true E2%bool_decide_eq_true].
  destruct Hne as [?|(e&He&_)]; [done|]. rewrite E2 in He. set_solver.
Qed.

(** Requests of one priority are served first come, first served: a new
    entry is queued behind every ready entry of its priority that is not
    later, and ahead of every entry of a lower priority. *)
Theorem schedule_fifo now f p st :
  queues_ok st → Forall (λ e, tp_time e.1 ≤ now) (ready st) →
  ∃ before after,
    ready st = before ++ after ∧
    ready (schedule now f p st) = before ++ (mkTP now p, f) :: after ∧
    Forall (λ e, tp_priority e.1 ≤ p) before ∧ Forall (λ e, p < tp_priority e.1) after.
Proof.
  intros [Hr _] Hp. simpl. revert Hr Hp.
  induction (ready st) as [|e l IH]; simpl; intros Hr Hp; [by exists [], []|].
  apply StronglySorted_inv in Hr as [Hr Hall]. inversion Hp as [|?? He Hp']; subst.
  unfold priority_first at 1. simpl.
  destruct ((p <? tp_priority e.1) || ((p =? tp_priority e.1) && (now <? tp_time e.1))) eqn:E.
  - exists [], (e :: l). split_and!; try done.
    assert (p < tp_priority e.1) as Hlt.
    { apply orb_true_iff in E as [E|E]; breflect; lia. }
    constructor; [done|]. eapply Forall_impl; [exact Hall|].
    unfold prio_le. intros x Hx. simpl in Hx. lia.
  - destruct (IH Hr Hp') as (b&a&->&->&Hb&Ha).
    exists (e :: b), a. split_and!; try done.
    constructor; [|done]. apply orb_false_iff in E as [E _]. by breflect.
Qed.
End MoreProperties.

(** ** Concrete runs *)

(** One worker, and one entry just scheduled. *)
Definition sample_ready : sys nat :=
  mkSys (schedule 0 7%nat submit_priority new_Events) 0
    [AtTop] [(mkTP 0 submit_priority, 7%nat)] [].

Lemma sample_ready_reachable : reachable (T:=nat) 0 1 sample_ready.
Proof.
  unfold reachable, init.
  eapply rtc_l; [apply (step_schedule _ 7%nat submit_priority 0); reflexivity|reflexivity].
Qed.

Definition sample_taken : sys nat :=
  mkSys (mkImpl false [] []) 0 [Running 7%nat]
    [(mkTP 0 submit_priority, 7%nat)] [(0, (mkTP 0 submit_priority, 7%nat))].

Lemma entries_conserved_witness :
  s_scheduled sample_wait ≡ₚ
    (s_taken sample_wait).*2 ++ ready (s_q sample_wait) ++ waiting (s_q sample_wait).
Proof. exact (entries_conserved 0 2 sample_wait sample_wait_reachable). Defined.

Lemma taken_in_order_witness :
  step sample_ready sample_taken ∧ 0 = s_now sample_ready ∧
  Forall (prio_le (mkTP 0 submit_priority, 7%nat)) (ready (s_q sample_taken)).
Proof.
  assert (step sample_ready sample_taken) as H
    by exact (step_enter sample_ready 0%nat (Take (mkTP 0 submit_priority) 7%nat)
                (mkImpl false [] []) eq_refl eq_refl eq_refl).
  pose proof (taken_in_order 0 1 sample_ready sample_taken 0 (mkTP 0 submit_priority) 7%nat
                sample_ready_reachable H eq_refl) as (H1&_&H2).
  exact (conj H (conj H1 H2)).
Defined.

Lemma single_worker_safe_witness : Crashed ∉ s_workers sample_ready.
Proof. exact (single_worker_safe 0 sample_ready sample_ready_reachable). Defined.

Lemma stop_is_final_witness :
  let s := mkSys (stop (schedule 0 7%nat submit_priority new_Events)) 0 [AtTop] [] [] in
  let s' := mkSys (s_q s) 0 [Exited] [] [] in
  shutdown (s_q s) = true ∧ rtc step s s' ∧ s_taken s' = s_taken s.
Proof.
  intros s s'.
  assert (rtc step s s') as H
    by exact (rtc_once _ _ (step_exit s 0%nat eq_refl eq_refl)).
  split; [reflexivity|]. split; [exact H|]. exact (proj2 (stop_is_final s s' eq_refl H)).
Defined.

Lemma worker_takes_expired_witness :
  let st := schedule_at 7%nat 5 submit_priority new_Events in
  (∃ tp f, (run_locked 5 st).1 = Take tp f).
Proof.
  intros st. refine (proj1 (worker_takes_expired 5 st _ eq_refl _)).
  - split; repeat constructor.
  - right. eexists. split; [apply list_elem_of_here|]. simpl. lia.
Defined.

Lemma schedule_fifo_witness :
  let st := schedule 0 7%nat submit_priority new_Events in
  ∃ before after, ready st = before ++ after ∧
    ready (schedule 1 8%nat submit_priority st)
    = before ++ (mkTP 1 submit_priority, 8%nat) :: after.
Proof.
  intros st.
  destruct (schedule_fifo 1 8%nat submit_priority st) as (b&a&H1&H2&_).
  - split; repeat constructor.
  - repeat constructor. simpl. lia.
  - exists b, a. exact (conj H1 H2).
Defined.
