(* ===== verification/WmWorld.v ===== *)
(** * The world of the workload manager

    The state the request handlers of src/org.glite.wms.core/src share (event
    queue, requests under way, token files, logging contexts, what was sent to
    other services) and the monad they run in.  The libraries and services
    outside the repository (ClassAds, the JDL and job-id libraries, the Logging
    and Bookkeeping client, the planner's helpers, the clock) are interfaces:
    every value they return is read from an oracle indexed by the number of
    external calls made so far, so a theorem holds for all their behaviours. *)

From S2P Require Import Prelude.
From S2P Require Import EventQueue.

(** ** Libraries *)

(** What an expression of a ClassAd evaluates to. *)
Inductive attr_value (A : Type) :=
| AString (s : string)
| AInt (z : Z)
| ABool (b : bool)
| AReal (x : Z)                           (* a double, as its 64 bits *)
| AAd (a : A)
| AList (size : nat).
Arguments AString {A} s.
Arguments AInt {A} z.
Arguments ABool {A} b.
Arguments AReal {A} x.
Arguments AAd {A} a.
Arguments AList {A} size.

(** [classad::ClassAd] and the access functions of glite::wmsutils and
    glite::jdl the handlers use.  An accessor that can fail returns an option. *)
Class ClassAds := {
  ad : Type;
  ad_empty : ad;                                  (* ClassAd() *)
  Insert : ad → string → attr_value ad → ad;      (* Insert, InsertAttr *)
  evaluate : ad → string → option (attr_value ad); (* None: undefined or error *)
  parse_classad : string → option ad;             (* None: ClassAdError *)
  unparse_classad : ad → string;
  (* glite::jdl *)
  get_edg_jobid : ad → option string;
  get_lb_sequence_code_ad : ad → option string;
  get_x509_user_proxy : ad → option string;
  get_expiry_time : ad → option Z;
  get_shallow_retry_count : ad → option Z;
  get_retry_count : ad → option Z;
  get_replans_count : ad → option Z;
  get_ce_id : ad → option string;
  get_ceinfo_host_name : ad → string;
  get_input_sandbox_path : ad → option string;
  set_lb_sequence_code : ad → string → ad;
  set_replans_count : ad → Z → ad;
  set_edg_previous_matches : ad → list string → ad;
  set_edg_previous_matches_ex : ad → list (string * Z) → ad;
  CE_INFO_HOST : string;                          (* JDLPrivate::CE_INFO_HOST *)
  (* jdl::DAGAd: the nodes with their descriptions, and the edges *)
  dag_nodes : ad → list (string * ad);
  dag_edges : ad → list (string * string);
}.

(** Typed evaluation: [EvaluateAttrString] and its like, and the conversions of
    [evaluate_attribute] and [evaluate_expression]. *)
Section Evaluate.
Context `{CA : ClassAds}.
Definition evaluate_string (a : ad) (e : string) : option string :=
  match evaluate a e with Some (AString s) => Some s | _ => None end.
Definition evaluate_int (a : ad) (e : string) : option Z :=
  match evaluate a e with Some (AInt z) => Some z | _ => None end.
Definition evaluate_bool (a : ad) (e : string) : option bool :=
  match evaluate a e with Some (ABool b) => Some b | _ => None end.
Definition evaluate_classad (a : ad) (e : string) : option ad :=
  match evaluate a e with Some (AAd b) => Some b | _ => None end.
Definition evaluate_list_size (a : ad) (e : string) : option nat :=
  match evaluate a e with Some (AList n) => Some n | _ => None end.
End Evaluate.

(** The first attribute name of a dotted expression. *)
Fixpoint path_head (p : string) : string :=
  match p with
  | EmptyString => EmptyString
  | String c r => if bool_decide (c = "."%char) then EmptyString else String c (path_head r)
  end.

(** ASCII case-insensitive comparison: of attribute names and strings in the
    ClassAd language, boost [iequals], C [tolower]. *)
Definition ascii_lower (c : ascii) : ascii :=
  let n := Ascii.nat_of_ascii c in
  if decide (65 ≤ n ≤ 90)%nat then Ascii.ascii_of_nat (n + 32) else c.

Fixpoint string_lower (s : string) : string :=
  match s with
  | EmptyString => EmptyString
  | String c r => String (ascii_lower c) (string_lower r)
  end.

Definition iequals (a b : string) : bool := bool_decide (string_lower a = string_lower b).

(** Documented behaviour of the ClassAd library: an inserted attribute evaluates
    to its value, a dotted expression selects inside a nested ad, and the other
    attributes keep theirs. *)
Class ClassAdLaws `{CA : ClassAds} : Prop := {
  evaluate_insert a n v : path_head n = n → evaluate (Insert a n v) n = Some v;
  evaluate_insert_ad a n b p :
    path_head n = n → evaluate (Insert a n (AAd b)) (n +:+ "." +:+ p) = evaluate b p;
  evaluate_insert_ne a n v e :
    iequals n (path_head e) = false → evaluate (Insert a n v) e = evaluate a e;
  evaluate_empty e : evaluate ad_empty e = None;
}.

(** Documented behaviour of the access functions of glite::jdl: setting the number of
    replans changes that attribute and none of the retry counts. *)
Class ReplansLaws `{CA : ClassAds} : Prop := {
  get_set_replans_count a n : get_replans_count (set_replans_count a n) = Some n;
  get_retry_set_replans a n : get_retry_count (set_replans_count a n) = get_retry_count a;
  get_shallow_set_replans a n :
    get_shallow_retry_count (set_replans_count a n) = get_shallow_retry_count a;
}.

(** The configuration read through configuration::Configuration, and the naming
    scheme of job directories. *)
Class Config := {
  lbproxy : bool;
  host_proxy_file : string;
  sandbox_staging_path : string;
  token_file : string;
  ice_input : string;
  jc_input : string;
  wm_input : string;
  expiry_period : Z;
  match_retry_period : Z;
  max_retry_count : Z;
  max_shallow_retry_count : Z;
  queue_size : Z;
  pid_string : string;                 (* lexical_cast of getpid() *)
  submit_file_dir : string;            (* normalize_path(jc()->submit_file_dir()) *)
  jobid_ok : string → bool;            (* the JobId constructor accepts it *)
  default_jobid : string;              (* JobId() *)
  match_jobid : string;                (* JobId(Hostname(localhost), 6000, _) *)
  token_regex_match : string → bool;   (* regex_match(leaf, token_file + "_.*") *)
  lexical_cast_float : string → option Z;  (* int(lexical_cast<float>(s)) *)
  EDG_WLL_SEQ_ABORT : string;
  get_reduced_part : string → string;
  to_filename : string → string;
}.

(** ** Logging and Bookkeeping data *)

(** Job states ([edg_wll_JobStatCode]) *)
Inductive job_state :=
| JOB_UNDEF | JOB_SUBMITTED | JOB_WAITING | JOB_READY | JOB_SCHEDULED | JOB_RUNNING
| JOB_DONE | JOB_CLEARED | JOB_ABORTED | JOB_CANCELLED | JOB_UNKNOWN | JOB_PURGED.

Inductive lb_source :=
| SOURCE_USER_INTERFACE | SOURCE_NETWORK_SERVER | SOURCE_WORKLOAD_MANAGER
| SOURCE_BIG_HELPER | SOURCE_JOB_SUBMISSION | SOURCE_LOG_MONITOR | SOURCE_LRMS.

Inductive done_status := DONE_OK | DONE_FAILED | DONE_CANCELLED.
Inductive enqueued_result := ENQUEUED_START | ENQUEUED_OK | ENQUEUED_FAIL.
Inductive resub_result := WILLRESUB | WONTRESUB | SHALLOW.
Inductive stat_jobtype := STAT_SIMPLE | STAT_DAG | STAT_COLLECTION.

#[export] Instance job_state_eq_dec : EqDecision job_state.
Proof. solve_decision. Defined.
#[export] Instance lb_source_eq_dec : EqDecision lb_source.
Proof. solve_decision. Defined.
#[export] Instance done_status_eq_dec : EqDecision done_status.
Proof. solve_decision. Defined.
#[export] Instance enqueued_result_eq_dec : EqDecision enqueued_result.
Proof. solve_decision. Defined.
#[export] Instance resub_result_eq_dec : EqDecision resub_result.
Proof. solve_decision. Defined.
#[export] Instance stat_jobtype_eq_dec : EqDecision stat_jobtype.
Proof. solve_decision. Defined.

(** The part of [edg_wll_Event] that depends on its type *)
Inductive event_kind :=
| EvEnQueued (result : enqueued_result) (job : string)
| EvDone (status_code : done_status)
| EvCancel
| EvMatch (dest_id : string)
| EvResubmission (result : resub_result)
| EvUserTag (name value : string) (timestamp : Z)
| EvOther (type : Z).

Record lb_event := mkEvent { ev_source : lb_source; ev_kind : event_kind }.

(** [edg_wll_JobStat]: the state, the job type, and the children with their
    states when asked for ([None]: the [children] pointer is null). *)
Record job_stat := mkStat {
  js_state : job_state;
  js_jobtype : stat_jobtype;
  js_children : option (list (string * job_state));
}.

(** The logging calls of the LB producer library the manager makes. *)
Inductive log_call :=
| LogDeQueued (from local_jobid : string)
| LogCancelREQ (reason : string)
| LogCancelDONE (reason : string)
| LogDoneCANCELLED (reason : string) (code : Z)
| LogPending (reason : string)
| LogAbort (reason : string)
| LogResubmissionSHALLOW (reason tag : string)
| LogResubmissionWILLRESUB (reason tag : string)
| LogUserTag (name value : string)
| LogMatch (ce_id : string)
| LogTransferSTART (dest : lb_source) (host instance job reason dest_jobid : string)
| LogTransferOK (dest : lb_source) (host instance job reason dest_jobid : string)
| LogRunning (host : string)
| LogDoneOK (reason : string) (code : Z)
| LogEnQueuedSTART (queue job reason : string)
| LogEnQueuedOK (queue job reason : string)
| LogEnQueuedFAIL (queue job reason : string).

(** An event query: the conditions on type (the alternatives) and on source,
    for one job. *)
Record event_query := mkQuery {
  q_job : string;
  q_types : list string;
  q_sources : list lb_source;
}.

(** A logging context [edg_wll_Context]: the job it logs for, the sequence code
    it was set with, the source, and the proxy. *)
Record lb_context := mkCtx {
  cx_job : string;
  cx_sequence_code : string;
  cx_source : lb_source;
  cx_proxy : string;
}.

(** ** Errors *)

Inductive exn :=
| CannotCreateLBContext (errcode : Z)
| LB_QueryFailed
| LB_QueryTemporarilyFailed
| MissingProxy (what : string)
| InvalidProxy (what : string)
| HitMaxRetryCount (n : Z)
| HitJobRetryCount (n : Z)
| HitMaxShallowCount (n : Z)
| HitJobShallowCount (n : Z)
| CannotRetrieveJDL
| CannotCreateToken (what : string)
| CannotDeliverFatal (what : string)
| JobDirError (what : string)
| HelperError (what : string)
| ManipulationException (what : string)
| InvalidArgument (what : string)
| GliteException (what : string)          (* glite::wmsutils::exception::Exception *)
| ClassAdError (what : string)
| MatchError (what : string)
| StdException (what : string)
| UnknownException
| AssertionFailed.                        (* assert: the process ends *)

Inductive res (A : Type) := Ok (a : A) | Throw (e : exn).
Arguments Ok {A} a.
Arguments Throw {A} e.

(** ** Effects on other services, newest first in the trace *)

Inductive target := ToICE | ToJC.

Inductive effect :=
| FLog (ctx : nat) (job : string) (call : log_call) (error : Z)
| FSetJob (ctx : nat) (job seq : string) (error : Z)
| FSleep (seconds : Z)
| FQuery (q : event_query) (error : Z)
| FDeliver (t : target) (contents : string) (ok : bool)
| FCreate (path : string)
| FUnlink (path : string)
| FRename (from to : string) (error : Z)
| FPurge (job how : string)
| FUnregisterProxy (job : string)
| FRemoveInput (item : nat).              (* InputItem::remove_from_input *)

(** ** Requests under way *)

Inductive checkpoint := START | LIMBO | PENDING.

#[export] Instance checkpoint_eq_dec : EqDecision checkpoint.
Proof. solve_decision. Defined.

(** The closures handed over as [m_cleanup]: removal of the request from the
    input, or of a node from its parent's pending set. *)
Inductive cleanup :=
| RemoveInput (item : nat)
| RemoveNodeFromCollection (node_name : string) (parent : nat).

(** The closures put in the event queue, by the object they hold a pointer to. *)
Inductive task :=
| TSubmit (r : nat)                       (* SubmitProcessor *)
| TSubmitNull                             (* SubmitProcessor on a null state *)
| TCancel (r : nat)                       (* CancelProcessor *)
| TMatch (r : nat)                        (* MatchProcessor *)
| TDumpISM
| TDispatcher.

Section World.
Context `{CA : ClassAds}.

(** [struct SubmitState]; a context pointer is an index in [w_ctxs]. *)
Record SubmitState := mkSubmit {
  m_command : string;
  m_id : string;
  m_sequence_code : string;
  m_x509_proxy : string;
  m_lb_context : nat;
  m_cleanup : cleanup;
  m_last_checkpointing : checkpoint;
  m_collection_pending : list string;   (* std::set<std::string>, sorted *)
  m_created_at : Z;
  m_ad : ad;
  m_destroyed : bool;                   (* ~SubmitState has run *)
}.

(** [struct CancelState] *)
Record CancelState := mkCancel {
  c_id : string;
  c_lb_context : nat;
  c_cleanup : cleanup;
}.

(** [struct MatchState] *)
Record MatchState := mkMatch {
  x_command_ad : ad;
  x_id : string;
  x_cleanup : cleanup;
}.

Record world := mkWorld {
  w_tick : nat;                         (* external calls made so far *)
  w_trace : list effect;
  w_files : gset string;                (* the token files that exist *)
  w_ctxs : list lb_context;
  w_queue : Impl task;
  w_submits : list SubmitState;
  w_cancels : list CancelState;
  w_matches : list MatchState;
}.

(** ** Services: what an external call returns, by call number *)
Class Services := {
  sv_time : nat → Z;                              (* std::time(0) *)
  sv_InitContext : nat → Z;
  sv_SetParam : nat → Z;
  sv_SetLoggingJob : nat → string → string → Z;
  sv_log : nat → log_call → Z;
  sv_query : nat → event_query → Z * list lb_event;
  sv_status : nat → string → option job_stat;     (* None: the call failed *)
  sv_sequence_code : nat → option string;         (* edg_wll_GetSequenceCode *)
  sv_GetLoggingJob : nat → Z;                     (* error code *)
  sv_GetProxy : nat → string → option string;     (* glite_renewal_GetProxy *)
  sv_read_proxy : nat → string → option (option Z); (* None: missing; Some None:
                                                   not a certificate; else the sign
                                                   of X509_cmp_current_time *)
  sv_create_file : nat → string → bool;           (* opening for writing works *)
  sv_rename_errno : nat → string → string → Z;    (* 0, or the errno of a failure
                                                   other than a missing source *)
  sv_deliver : nat → option string;               (* JobDir::deliver; Some: error *)
  sv_plan : nat → ad → res ad;                    (* Plan *)
  sv_bulk_mm : nat → ad → res (list (ad * ad) * list string); (* do_bulk_mm: the
                                                   (planned, adapted) ads of the matched
                                                   jobs, and the nodes left pending *)
  sv_match : nat → ad → string → Z → bool → res bool;
  sv_read_dir : nat → string → bool;              (* the directory can be listed *)
  sv_condor_log : nat → string → option string;   (* log file named in the ClassAd file *)
  EDG_WLL_ERROR_GSS : Z;
}.

(** ** The monad *)

Definition M (A : Type) : Type := world → res A * world.

#[global] Instance M_ret : MRet M := λ A a w, (Ok a, w).
#[global] Instance M_bind : MBind M := λ A B f m w,
  match m w with
  | (Ok a, w') => f a w'
  | (Throw e, w') => (Throw e, w')
  end.

Lemma bind_run {A B} (m : M A) (f : A → M B) w :
  (m ≫= f) w = match m w with
               | (Ok a, w') => f a w'
               | (Throw e, w') => (Throw e, w')
               end.
Proof. done. Qed.

Definition throw {A} (e : exn) : M A := λ w, (Throw e, w).
Definition get : M world := λ w, (Ok w, w).
Definition modify (f : world → world) : M unit := λ w, (Ok tt, f w).

(** [try m catch ...]: the handler says which exceptions it catches. *)
Definition catch {A} (m : M A) (h : exn → option (M A)) : M A := λ w,
  match m w with
  | (Ok a, w') => (Ok a, w')
  | (Throw e, w') => match h e with Some k => k w' | None => (Throw e, w') end
  end.

Definition lift {A} (r : res A) : M A := λ w, (r, w).

Definition of_option {A} (e : exn) (o : option A) : M A :=
  match o with Some a => mret a | None => throw e end.

Definition add_effect (f : effect) (w : world) : world :=
  mkWorld (w_tick w) (f :: w_trace w) (w_files w) (w_ctxs w) (w_queue w)
    (w_submits w) (w_cancels w) (w_matches w).
Definition set_files (fs : gset string) (w : world) : world :=
  mkWorld (w_tick w) (w_trace w) fs (w_ctxs w) (w_queue w)
    (w_submits w) (w_cancels w) (w_matches w).
Definition set_ctxs (cs : list lb_context) (w : world) : world :=
  mkWorld (w_tick w) (w_trace w) (w_files w) cs (w_queue w)
    (w_submits w) (w_cancels w) (w_matches w).
Definition set_queue (q : Impl task) (w : world) : world :=
  mkWorld (w_tick w) (w_trace w) (w_files w) (w_ctxs w) q
    (w_submits w) (w_cancels w) (w_matches w).
Definition set_submits (ss : list SubmitState) (w : world) : world :=
  mkWorld (w_tick w) (w_trace w) (w_files w) (w_ctxs w) (w_queue w)
    ss (w_cancels w) (w_matches w).
Definition set_cancels (cs : list CancelState) (w : world) : world :=
  mkWorld (w_tick w) (w_trace w) (w_files w) (w_ctxs w) (w_queue w)
    (w_submits w) cs (w_matches w).
Definition set_matches (ms : list MatchState) (w : world) : world :=
  mkWorld (w_tick w) (w_trace w) (w_files w) (w_ctxs w) (w_queue w)
    (w_submits w) (w_cancels w) ms.

Definition emit (f : effect) : M unit := modify (add_effect f).

(** An external call: read the oracle, advance the call number. *)
Definition external {A} (f : nat → A) : M A := λ w,
  (Ok (f (w_tick w)),
   mkWorld (S (w_tick w)) (w_trace w) (w_files w) (w_ctxs w) (w_queue w)
     (w_submits w) (w_cancels w) (w_matches w)).
End World.

Arguments M {CA} A.

(** ** Reasoning about computations

    [steps R m]: running [m] relates the worlds before and after by [R], however
    it ends.  For a preorder [R] this composes along the structure of the code;
    a relation is [quiet] when the traffic with the Logging and Bookkeeping
    service stays inside it. *)

(** Effects that only concern logging. *)
Definition lb_traffic (f : effect) : bool :=
  match f with FLog _ _ _ _ | FSetJob _ _ _ _ | FSleep _ | FQuery _ _ => true | _ => false end.

Section Steps.
Context `{CA : ClassAds}.

Definition tick (w : world) : world :=
  mkWorld (S (w_tick w)) (w_trace w) (w_files w) (w_ctxs w) (w_queue w)
    (w_submits w) (w_cancels w) (w_matches w).

Class Quiet (R : relation world) : Prop := {
  quiet_refl : ∀ w, R w w;
  quiet_trans : ∀ w1 w2 w3, R w1 w2 → R w2 w3 → R w1 w3;
  quiet_tick : ∀ w, R w (tick w);
  quiet_ctxs : ∀ w cs, R w (set_ctxs cs w);
  quiet_lb : ∀ w f, lb_traffic f = true → R w (add_effect f w);
}.

Definition steps (R : relation world) {A} (m : M A) : Prop := ∀ w, R w (m w).2.

Section Rules.
Context (R : relation world) `{!Quiet R}.

Lemma steps_ret {A} (a : A) : steps R (mret a).
Proof. intros w. apply quiet_refl. Qed.

Lemma steps_throw {A} e : steps R (throw (A:=A) e).
Proof. intros w. apply quiet_refl. Qed.

Lemma steps_get : steps R get.
Proof. intros w. apply quiet_refl. Qed.

Lemma steps_lift {A} (r : res A) : steps R (lift r).
Proof. intros w. apply quiet_refl. Qed.

Lemma steps_of_option {A} e (o : option A) : steps R (of_option e o).
Proof. destruct o; [apply steps_ret|apply steps_throw]. Qed.

Lemma steps_external {A} (f : nat → A) : steps R (external f).
Proof. intros w. apply quiet_tick. Qed.

Lemma steps_bind {A B} (m : M A) (f : A → M B) :
  steps R m → (∀ a, steps R (f a)) → steps R (m ≫= f).
Proof.
  intros Hm Hf w. unfold mbind, M_bind. specialize (Hm w).
  destruct (m w) as [[a|e] w']; simpl in *; [|done].
  eapply quiet_trans; [exact Hm|apply Hf].
Qed.

Lemma steps_catch {A} (m : M A) h :
  steps R m → (∀ e k, h e = Some k → steps R k) → steps R (catch m h).
Proof.
  intros Hm Hh w. unfold catch. specialize (Hm w).
  destruct (m w) as [[a|e] w']; simpl in *; [done|].
  destruct (h e) as [k|] eqn:E; simpl; [|done].
  eapply quiet_trans; [exact Hm|by apply (Hh e)].
Qed.

Lemma steps_modify f : (∀ w, R w (f w)) → steps R (modify f).
Proof. intros H w. apply H. Qed.

Lemma steps_emit f : (∀ w, R w (add_effect f w)) → steps R (emit f).
Proof. intros H w. apply H. Qed.

Lemma steps_emit_lb f : lb_traffic f = true → steps R (emit f).
Proof. intros H w. by apply quiet_lb. Qed.

Lemma steps_modify_ctxs (f : world → list lb_context) :
  steps R (modify (λ w, set_ctxs (f w) w)).
Proof. intros w. apply quiet_ctxs. Qed.
End Rules.

(** The trace grows by effects that satisfy a test. *)
Definition adds (P : effect → bool) (w w' : world) : Prop :=
  ∃ new, w_trace w' = new ++ w_trace w ∧ Forall (λ f, P f = true) new.

Lemma adds_emit (P : effect → bool) f w : P f = true → adds P w (add_effect f w).
Proof. intros H. exists [f]. split; [done|by constructor]. Qed.

Lemma adds_same (P : effect → bool) w w' : w_trace w' = w_trace w → adds P w w'.
Proof. intros H. exists []. split; [done|constructor]. Qed.

Lemma adds_trans (P : effect → bool) w1 w2 w3 : adds P w1 w2 → adds P w2 w3 → adds P w1 w3.
Proof.
  intros (n1&E1&F1) (n2&E2&F2). exists (n2 ++ n1).
  rewrite E2, E1, app_assoc. split; [done|]. by apply Forall_app.
Qed.

#[global] Instance adds_quiet P :
  (∀ f, lb_traffic f = true → P f = true) → Quiet (adds P).
Proof.
  intros HP. constructor.
  - intros w. by apply adds_same.
  - apply adds_trans.
  - intros w. by apply adds_same.
  - intros w cs. by apply adds_same.
  - intros w f Hf. apply adds_emit. auto.
Qed.

(** A component of the world that logging does not touch stays the same. *)
Definition keeps {X} (f : world → X) (w w' : world) : Prop := f w' = f w.

Lemma keeps_quiet {X} (f : world → X) :
  (∀ w, f (tick w) = f w) → (∀ w cs, f (set_ctxs cs w) = f w) →
  (∀ w e, f (add_effect e w) = f w) → Quiet (keeps f).
Proof. unfold keeps. intros H1 H2 H3. constructor; intros; congruence. Qed.

#[global] Instance keeps_files : Quiet (keeps w_files).
Proof. by apply keeps_quiet. Qed.
#[global] Instance keeps_queue : Quiet (keeps w_queue).
Proof. by apply keeps_quiet. Qed.
#[global] Instance keeps_submits : Quiet (keeps w_submits).
Proof. by apply keeps_quiet. Qed.
#[global] Instance keeps_cancels : Quiet (keeps w_cancels).
Proof. by apply keeps_quiet. Qed.

(** The external calls are counted. *)
Definition later (w w' : world) : Prop := (w_tick w ≤ w_tick w')%nat.

#[global] Instance later_quiet : Quiet later.
Proof. unfold later. constructor; simpl; lia. Qed.

#[global] Instance meet_quiet R1 R2 :
  Quiet R1 → Quiet R2 → Quiet (λ w w', R1 w w' ∧ R2 w w').
Proof.
  intros [? T1 ? ? ?] [? T2 ? ? ?]. constructor; intros; split; auto; naive_solver eauto.
Qed.
End Steps.

Create HintDb steps.
#[export] Hint Resolve steps_ret steps_throw steps_get steps_lift steps_of_option
  steps_external steps_modify_ctxs : steps.
#[export] Hint Extern 0 (Quiet _) => typeclasses eauto : steps.
#[export] Hint Extern 1 (steps _ (emit (FLog _ _ _ _))) => apply steps_emit_lb : steps.
#[export] Hint Extern 1 (steps _ (emit (FSetJob _ _ _ _))) => apply steps_emit_lb : steps.
#[export] Hint Extern 1 (steps _ (emit (FSleep _))) => apply steps_emit_lb : steps.
#[export] Hint Extern 1 (steps _ (emit (FQuery _ _))) => apply steps_emit_lb : steps.

#[export] Hint Extern 1 (steps (adds _) (modify _)) =>
  (intros ?; apply adds_same; reflexivity) : steps.

#[export] Hint Extern 1 (steps (keeps _) (modify _)) =>
  (intros ?; unfold keeps; reflexivity) : steps.
#[export] Hint Extern 1 (steps (keeps _) (emit _)) =>
  (intros ?; unfold keeps; reflexivity) : steps.
#[export] Hint Extern 1 (steps later (modify _)) => (intros ?; apply Nat.le_refl) : steps.
#[export] Hint Extern 1 (steps later (emit _)) => (intros ?; apply Nat.le_refl) : steps.

(** Follow the structure of the code; leaves are closed by the hints. *)
Ltac walk_step :=
  first
  [ progress cbv zeta
  | solve [eauto with steps]
  | apply steps_bind; [try typeclasses eauto| |intros ?]
  | apply steps_catch; [try typeclasses eauto| |intros ? ? ?; repeat case_match; simplify_eq]
  | progress (repeat case_match) ].
Ltac walk := repeat walk_step.

(** ** The exceptions of a computation

    [raises P m]: an exception [m] ends with satisfies [P]. *)

Section Raises.
Context `{CA : ClassAds}.

Definition raises (P : exn → Prop) {A} (m : M A) : Prop :=
  ∀ w e, (m w).1 = Throw e → P e.

Context (P : exn → Prop).

Lemma raises_ret {A} (a : A) : raises P (mret a).
Proof. by intros w e. Qed.

Lemma raises_get : raises P get.
Proof. by intros w e. Qed.

Lemma raises_modify f : raises P (modify f).
Proof. by intros w e. Qed.

Lemma raises_emit f : raises P (emit f).
Proof. by intros w e. Qed.

Lemma raises_external {A} (f : nat → A) : raises P (external f).
Proof. by intros w e. Qed.

Lemma raises_throw {A} e : P e → raises P (throw (A:=A) e).
Proof. by intros H w e' [= <-]. Qed.

Lemma raises_bind {A B} (m : M A) (f : A → M B) :
  raises P m → (∀ a, raises P (f a)) → raises P (m ≫= f).
Proof.
  intros Hm Hf w e. rewrite bind_run. specialize (Hm w).
  destruct (m w) as [[a|x] w']; simpl in *; [apply Hf|].
  intros [= <-]. by apply Hm.
Qed.
End Raises.

Create HintDb raises.
#[export] Hint Resolve raises_ret raises_get raises_modify raises_emit raises_external
  raises_throw : raises.
Ltac walk_raises :=
  repeat first
  [ progress cbv zeta
  | solve [eauto with raises]
  | apply raises_bind; [|intros ?]
  | progress (repeat case_match) ].
