(* ===== verification/LbUtils.v ===== *)
(** * Logging and Bookkeeping utilities of the workload manager

    Models src/org.glite.wms.core/src/lb_utils.cpp: logging contexts, event and
    status queries, the classification of events and states, and the logging
    functions with their retries. *)

From S2P Require Import Prelude.
From S2P Require Import EventQueue.
From S2P Require Import WmWorld.

(** ** Error numbers (errno.h) *)

Definition ENOENT : Z := 2.
Definition EAGAIN : Z := 11.
Definition ENOTCONN : Z := 107.
Definition ETIMEDOUT : Z := 110.
Definition ECONNREFUSED : Z := 111.

(** [is_retryable] *)
Definition is_retryable (error : Z) : bool :=
  (error =? ETIMEDOUT) || (error =? ENOTCONN) || (error =? ECONNREFUSED)
  || (error =? EAGAIN).

Definition one_minute : Z := 60.

(** A 32-bit signed [int]. *)
Definition int32 (z : Z) : Z := (z + 2147483648) `mod` 4294967296 - 2147483648.

(** ** Classification of events *)

(** The events from the last one that passes the test on, as a reverse
    [find_if] and [(++it).base()] find them; [None] is [events.end()]. *)
Fixpoint from_last {A} (p : A → bool) (l : list A) : option (list A) :=
  match l with
  | [] => None
  | x :: r => match from_last p r with
              | Some s => Some s
              | None => if p x then Some l else None
              end
  end.

Definition is_deep_resubmission (e : lb_event) : bool :=
  match ev_kind e with EvResubmission WILLRESUB => true | _ => false end.

Definition is_shallow_resubmission (e : lb_event) : bool :=
  match ev_kind e with EvResubmission SHALLOW => true | _ => false end.

Definition find_last_deep_resubmission (events : list lb_event) : option (list lb_event) :=
  from_last is_deep_resubmission events.

Definition count_if {A} (p : A → bool) (l : list A) : Z :=
  Z.of_nat (length (List.filter p l)).

(** [get_retry_counts] *)
Definition get_retry_counts (events : list lb_event) : Z * Z :=
  let deep_count := count_if is_deep_resubmission events in
  let last_deep_resubmission :=
    match find_last_deep_resubmission events with
    | Some s => s
    | None => events
    end in
  (deep_count, count_if is_shallow_resubmission last_deep_resubmission).

Definition is_enqueued_to_jc (e : lb_event) : bool :=
  match ev_kind e with
  | EvEnQueued _ _ => bool_decide (ev_source e = SOURCE_WORKLOAD_MANAGER)
  | _ => false
  end.

Definition is_cancelled_event (e : lb_event) : bool :=
  match ev_kind e with EvCancel => true | _ => false end.

Definition is_done_event (e : lb_event) : bool :=
  match ev_kind e with
  | EvDone _ => bool_decide (ev_source e = SOURCE_LOG_MONITOR)
  | _ => false
  end.

Definition find_last_enqueued_to_jc (events : list lb_event) := from_last is_enqueued_to_jc events.
Definition find_last_cancelled (events : list lb_event) := from_last is_cancelled_event events.
Definition find_last_done (events : list lb_event) := from_last is_done_event events.

(** [is_last_done] *)
Definition is_last_done (events : list lb_event) (status_code : done_status) : bool :=
  match find_last_done events with
  | Some (e :: _) => match ev_kind e with
                     | EvDone c => bool_decide (c = status_code)
                     | _ => false
                     end
  | _ => false
  end.

(** [is_last_cancelled_by_wm] *)
Definition is_last_cancelled_by_wm (events : list lb_event) : bool :=
  match find_last_cancelled events with
  | Some (e :: _) => bool_decide (SOURCE_WORKLOAD_MANAGER = ev_source e)
  | _ => false
  end.

(** [is_last_enqueued_by_wm] *)
Definition is_last_enqueued_by_wm (events : list lb_event) (result : enqueued_result) : bool :=
  match find_last_enqueued_to_jc events with
  | Some (e :: _) => match ev_kind e with
                     | EvEnQueued r _ => bool_decide (r = result)
                     | _ => false
                     end
  | _ => false
  end.

(** ** Classification of states; a null status is [None] *)

Definition in_state (s : job_state) (status : option job_stat) : bool :=
  match status with Some st => bool_decide (js_state st = s) | None => false end.

Definition is_submitted := in_state JOB_SUBMITTED.
Definition is_waiting := in_state JOB_WAITING.
Definition is_ready := in_state JOB_READY.
Definition is_done := in_state JOB_DONE.
Definition is_cancelled := in_state JOB_CANCELLED.
Definition is_aborted := in_state JOB_ABORTED.

(** [in_limbo] *)
Definition in_limbo (status : option job_stat) (events : list lb_event) : bool :=
  let last_enqueued_by_wm_is_start := is_last_enqueued_by_wm events ENQUEUED_START in
  (is_ready status && last_enqueued_by_wm_is_start)
  || (is_done status && is_last_done events DONE_FAILED && last_enqueued_by_wm_is_start).

Section LbUtils.
Context `{CA : ClassAds} {CF : Config} {SV : Services}.

(** [get_previous_matches] *)
Definition get_previous_matches (events : list lb_event) : list (string * Z) :=
  omap (λ e, match ev_kind e with
             | EvUserTag name value timestamp =>
                 if iequals name CE_INFO_HOST then Some (value, int32 timestamp) else None
             | _ => None
             end) events.

(** ** Contexts *)

Definition ctx_lookup (c : nat) (w : world) : lb_context :=
  default (mkCtx "" "" SOURCE_WORKLOAD_MANAGER "") (w_ctxs w !! c).

(** [edg_wll_SetLoggingJob] or its proxy variant on a context; the user name
    of the proxy variant is looked up by the OpenSSL library. *)
Definition set_logging_job (c : nat) (id seq : string) : M Z :=
  e ← external (λ n, sv_SetLoggingJob n id seq);
  emit (FSetJob c id seq e);;
  (if e =? 0 then
     modify (λ w, let cx := ctx_lookup c w in
       set_ctxs (<[c := mkCtx id seq (cx_source cx) (cx_proxy cx)]> (w_ctxs w)) w)
   else mret tt);;
  mret e.

(** [create_context] *)
Definition create_context (id x509_proxy sequence_code : string) (source : lb_source) : M nat :=
  e0 ← external sv_InitContext;
  if negb (e0 =? 0) then throw (CannotCreateLBContext e0) else
  w ← get;
  let c := length (w_ctxs w) in
  modify (λ w, set_ctxs (w_ctxs w ++ [mkCtx "" "" source x509_proxy]) w);;
  e1 ← external sv_SetParam;
  e2 ← external sv_SetParam;
  e3 ← external sv_SetParam;
  e4 ← set_logging_job c id sequence_code;
  let errcode := Z.lor (Z.lor (Z.lor (Z.lor e0 e1) e2) e3) e4 in
  if negb (errcode =? 0) then throw (CannotCreateLBContext errcode) else mret c.

(** [change_logging_job]: the error code is ignored. *)
Definition change_logging_job (c : nat) (sequence_code id : string) : M unit :=
  _ ← set_logging_job c id sequence_code; mret tt.

(** [change_logging_src] (lb_utils.h) *)
Definition change_logging_src (c : nat) (source : lb_source) : M unit :=
  _ ← external sv_SetParam;
  modify (λ w, let cx := ctx_lookup c w in
    set_ctxs (<[c := mkCtx (cx_job cx) (cx_sequence_code cx) source (cx_proxy cx)]> (w_ctxs w)) w).

(** ** Queries *)

(** [do_query_events] *)
Definition do_query_events (q : event_query) (enoent_is_error : bool) : M (list lb_event) :=
  r ← external (λ n, sv_query n q);
  let '(error, events) := r in
  emit (FQuery q error);;
  if (error =? 0) || (negb enoent_is_error && (error =? ENOENT)) then mret events
  else if is_retryable error then throw LB_QueryTemporarilyFailed
  else throw LB_QueryFailed.

Definition get_cancel_events (id : string) : M (list lb_event) :=
  do_query_events
    (mkQuery id ["ENQUEUED"; "CANCEL"] [SOURCE_WORKLOAD_MANAGER]) false.

Definition get_recovery_events (id : string) : M (list lb_event) :=
  do_query_events
    (mkQuery id ["ENQUEUED"; "DONE"] [SOURCE_WORKLOAD_MANAGER; SOURCE_LOG_MONITOR]) false.

Definition get_interesting_events (id : string) : M (list lb_event) :=
  do_query_events
    (mkQuery id ["MATCH"; "RESUBMISSION"; "USERTAG"]
       [SOURCE_WORKLOAD_MANAGER; SOURCE_BIG_HELPER]) true.

(** [get_original_jdl]: the first non-empty JDL of an accepted enqueue event. *)
Fixpoint first_enqueued_jdl (events : list lb_event) : string :=
  match events with
  | [] => ""
  | e :: r => match ev_kind e with
              | EvEnQueued ENQUEUED_OK job =>
                  if bool_decide (job = "") then first_enqueued_jdl r else job
              | _ => first_enqueued_jdl r
              end
  end.

Definition get_original_jdl (id : string) : M string :=
  let q := mkQuery id ["ENQUEUED"] [SOURCE_NETWORK_SERVER] in
  r ← external (λ n, sv_query n q);
  let '(error, events) := r in
  emit (FQuery q error);;
  if error =? 0 then mret (first_enqueued_jdl events)
  else if is_retryable error then throw LB_QueryTemporarilyFailed
  else throw LB_QueryFailed.

(** [get_last_matched_ceid] *)
Definition get_last_matched_ceid (id : string) : M string :=
  events ← do_query_events (mkQuery id ["MATCH"] [SOURCE_WORKLOAD_MANAGER]) false;
  mret (match last events with
        | Some e => match ev_kind e with EvMatch dest_id => dest_id | _ => "" end
        | None => ""
        end).

(** [get_user_x509_proxy] *)
Definition get_user_x509_proxy (id : string) : M string :=
  p ← external (λ n, sv_GetProxy n id);
  mret (match p with
        | Some proxy => proxy
        | None => sandbox_staging_path +:+ "/" +:+ get_reduced_part id +:+ "/"
                  +:+ to_filename id +:+ "/user.proxy"
        end).

Definition get_lb_sequence_code : M string :=
  s ← external sv_sequence_code; mret (default "" s).

(** [job_status] with a context, and the overload that creates one. *)
Definition job_status (id : string) (context : option nat) : M (option job_stat) :=
  match context with
  | Some _ => external (λ n, sv_status n id)
  | None => mret None
  end.

Definition job_status_new_context (id : string) : M (option job_stat) :=
  x509_proxy ← get_user_x509_proxy id;
  c ← create_context id x509_proxy "" SOURCE_WORKLOAD_MANAGER;
  external (λ n, sv_status n id).

(** ** Logging with retries *)

(** One call of the bound logging function on a context. *)
Definition log_f (call : log_call) (c : nat) : M Z :=
  e ← external (λ n, sv_log n call);
  w ← get;
  emit (FLog c (cx_job (ctx_lookup c w)) call e);;
  mret e.

Definition retries : nat := 10.

(** The inner loop of [lb_log], on the host context. *)
Fixpoint lb_log_host (i : nat) (call : log_call) (host : nat) (lb_error : Z) : M bool :=
  if lb_error =? 0 then mret true else
  match i with
  | O => mret false
  | S i =>
      if negb (is_retryable lb_error) then mret false
      else
        emit (FSleep one_minute);;
        e ← log_f call host;
        lb_log_host i call host e
  end.

(** The context for the host proxy that both branches of the outer loop
    create; [None] is the [break]. *)
Definition host_context (user : nat) : M (option nat) :=
  s ← external sv_sequence_code;
  match s with
  | None => mret None
  | Some sequence_code =>
      e ← external sv_GetLoggingJob;
      if negb (e =? 0) then mret None else
      w ← get;
      c ← create_context (cx_job (ctx_lookup user w)) host_proxy_file sequence_code
            SOURCE_WORKLOAD_MANAGER;
      mret (Some c)
  end.

(** The outer loop of [lb_log]. *)
Fixpoint lb_log_loop (i : nat) (call : log_call) (user : nat) (lb_error : Z) : M bool :=
  if lb_error =? 0 then mret true else
  match i with
  | O => mret false
  | S i =>
      h ← host_context user;
      match h with
      | None => mret false
      | Some host =>
          if lb_error =? EDG_WLL_ERROR_GSS then
            e ← log_f call host;
            lb_log_host retries call host e
          else if negb (is_retryable lb_error) then mret false
          else
            emit (FSleep one_minute);;
            e ← log_f call host;
            lb_log_loop i call user e
      end
  end.

(** [lb_log] *)
Definition lb_log (call : log_call) (user_context : nat) : M bool :=
  e ← log_f call user_context;
  lb_log_loop retries call user_context e.

(** ** The logging functions.  The functions with and without [Proxy] in their
    name are the two transports of the same event. *)

Definition log_dequeued (c : nat) (from : string) := lb_log (LogDeQueued from "") c.
Definition log_cancel_req (c : nat) := lb_log (LogCancelREQ "") c.
Definition log_cancelled (c : nat) := lb_log (LogCancelDONE "") c.
Definition log_done_cancelled (c : nat) := lb_log (LogDoneCANCELLED "Aborted by user" 0) c.
Definition log_pending (c : nat) (reason : string) := lb_log (LogPending reason) c.
Definition log_abort (c : nat) (reason : string) := lb_log (LogAbort reason) c.
Definition log_resubmission_shallow (c : nat) (token_file : string) :=
  lb_log (LogResubmissionSHALLOW "token still exists" token_file) c.
Definition log_resubmission_deep_disabled (c : nat) :=
  lb_log (LogResubmissionWILLRESUB "shallow resubmission is disabled" "") c.
Definition log_resubmission_deep (c : nat) (token_file : string) :=
  lb_log (LogResubmissionWILLRESUB "token was grabbed" token_file) c.
Definition log_usertag (c : nat) (name value : string) := lb_log (LogUserTag name value) c.
Definition log_match (c : nat) (ce_id : string) := lb_log (LogMatch ce_id) c.
Definition log_transfer_start (c : nat) (logfile : string) :=
  lb_log (LogTransferSTART SOURCE_WORKLOAD_MANAGER "localhost" logfile
            "unavailable" "unavailable" "unavailable") c.
Definition log_transfer_ok (c : nat) (logfile rsl reason : string) :=
  lb_log (LogTransferOK SOURCE_LOG_MONITOR "localhost" logfile rsl reason "unavailable") c.
Definition log_running (c : nat) (host : string) := lb_log (LogRunning host) c.
Definition log_done_ok (c : nat) (reason : string) (retcode : Z) :=
  lb_log (LogDoneOK reason retcode) c.
Definition log_enqueued_start (c : nat) (to : string) := lb_log (LogEnQueuedSTART to "" "") c.
Definition log_enqueued_ok (c : nat) (to ad : string) := lb_log (LogEnQueuedOK to ad "") c.
Definition log_enqueued_fail (c : nat) (to ad reason : string) :=
  lb_log (LogEnQueuedFAIL to ad reason) c.
End LbUtils.

(** ** Logging stays within every quiet relation *)

Section LbSteps.
Context `{CA : ClassAds} {CF : Config} {SV : Services}.
Context (R : relation world) `{!Quiet R}.

Lemma steps_set_logging_job c id seq : steps R (set_logging_job c id seq).
Proof. unfold set_logging_job. walk. Qed.

Lemma steps_create_context id p s src : steps R (create_context id p s src).
Proof.
  unfold create_context. walk; auto using steps_set_logging_job.
Qed.

Lemma steps_change_logging_job c s id : steps R (change_logging_job c s id).
Proof. unfold change_logging_job. walk; auto using steps_set_logging_job. Qed.

Lemma steps_change_logging_src c src : steps R (change_logging_src c src).
Proof. unfold change_logging_src. walk. Qed.

Lemma steps_do_query q b : steps R (do_query_events q b).
Proof. unfold do_query_events. walk. Qed.

Lemma steps_get_original_jdl id : steps R (get_original_jdl id).
Proof. unfold get_original_jdl. walk. Qed.

Lemma steps_get_user_x509_proxy id : steps R (get_user_x509_proxy id).
Proof. unfold get_user_x509_proxy. walk. Qed.

Lemma steps_get_lb_sequence_code : steps R get_lb_sequence_code.
Proof. unfold get_lb_sequence_code. walk. Qed.

Lemma steps_job_status id c : steps R (job_status id c).
Proof. unfold job_status. walk. Qed.

Lemma steps_job_status_new_context id : steps R (job_status_new_context id).
Proof.
  unfold job_status_new_context.
  walk; auto using steps_get_user_x509_proxy, steps_create_context.
Qed.

Lemma steps_log_f call c : steps R (log_f call c).
Proof. unfold log_f. walk. Qed.

Lemma steps_lb_log_host i call h e : steps R (lb_log_host i call h e).
Proof.
  revert e; induction i as [|i IH]; intros e; simpl; walk; auto using steps_log_f.
Qed.

Lemma steps_host_context u : steps R (host_context u).
Proof. unfold host_context. walk; auto using steps_create_context. Qed.

Lemma steps_lb_log_loop i call u e : steps R (lb_log_loop i call u e).
Proof.
  revert e; induction i as [|i IH]; intros e; cbn [lb_log_loop]; walk;
    auto using steps_log_f, steps_host_context, steps_lb_log_host.
Qed.

Lemma steps_lb_log call c : steps R (lb_log call c).
Proof. unfold lb_log. walk; auto using steps_log_f, steps_lb_log_loop. Qed.
End LbSteps.

#[export] Hint Resolve steps_set_logging_job steps_create_context steps_change_logging_job
  steps_change_logging_src steps_do_query steps_get_original_jdl steps_get_user_x509_proxy
  steps_get_lb_sequence_code steps_job_status steps_job_status_new_context steps_lb_log : steps.

(** ** Logging raises nothing but [CannotCreateLBContext] *)

Section LbRaises.
Context `{CA : ClassAds} {CF : Config} {SV : Services}.
Context (P : exn → Prop) (HP : ∀ code, P (CannotCreateLBContext code)).

Lemma raises_set_logging_job c id seq : raises P (set_logging_job c id seq).
Proof. unfold set_logging_job. walk_raises. Qed.

Lemma raises_change_logging_job c s id : raises P (change_logging_job c s id).
Proof. unfold change_logging_job. walk_raises; auto using raises_set_logging_job. Qed.

Lemma raises_create_context id p s src : raises P (create_context id p s src).
Proof. unfold create_context. walk_raises; auto using raises_set_logging_job. Qed.

Lemma raises_log_f call c : raises P (log_f call c).
Proof. unfold log_f. walk_raises. Qed.

Lemma raises_lb_log_host i call h e : raises P (lb_log_host i call h e).
Proof.
  revert e; induction i as [|i IH]; intros e; simpl; walk_raises; auto using raises_log_f.
Qed.

Lemma raises_host_context u : raises P (host_context u).
Proof. unfold host_context. walk_raises; auto using raises_create_context. Qed.

Lemma raises_lb_log call c : raises P (lb_log call c).
Proof.
  unfold lb_log. apply raises_bind; [apply raises_log_f|]. intros e.
  generalize retries; intros i. revert e.
  induction i as [|i IH]; intros e; cbn [lb_log_loop]; walk_raises;
    auto using raises_log_f, raises_host_context, raises_lb_log_host.
Qed.

Lemma raises_get_user_x509_proxy id : raises P (get_user_x509_proxy id).
Proof. unfold get_user_x509_proxy. walk_raises. Qed.

Lemma raises_get_lb_sequence_code : raises P get_lb_sequence_code.
Proof. unfold get_lb_sequence_code. walk_raises. Qed.
End LbRaises.

#[export] Hint Resolve raises_set_logging_job raises_change_logging_job raises_create_context
  raises_lb_log raises_get_user_x509_proxy raises_get_lb_sequence_code : raises.
#[export] Hint Extern 2 (_ ≠ AssertionFailed) => discriminate : raises.

(** ** The retries of [lb_log] *)

Section LbLog.
Context `{CA : ClassAds} {CF : Config} {SV : Services}.

(** The error codes of the logging attempts in a trace, newest first. *)
Definition attempts (tr : list effect) : list Z :=
  omap (λ f, match f with FLog _ _ _ e => Some e | _ => None end) tr.

Definition is_attempt (call : log_call) (f : effect) : Prop :=
  match f with FLog _ _ c _ => c = call | _ => lb_traffic f = true end.

(** How a logging loop that was entered with the error [err] of the latest
    attempt ends: at most [max] further attempts, each made after a failure,
    and a result that reports the last one. *)
Definition log_outcome (call : log_call) (max : nat) (err : Z) (m : M bool) : Prop :=
  ∀ w, ∃ new,
    w_trace (m w).2 = new ++ w_trace w ∧ Forall (is_attempt call) new ∧
    (length (attempts new) ≤ max)%nat ∧
    ∃ e es, attempts new ++ [err] = e :: es ∧ Forall (λ x, x ≠ 0) es ∧
      match (m w).1 with
      | Ok b => b = (e =? 0)
      | Throw x => e ≠ 0 ∧ ∃ code, x = CannotCreateLBContext code
      end.

Lemma log_outcome_ret call err n b : b = (err =? 0) → log_outcome call n err (mret b).
Proof.
  intros -> w. exists []. split_and!; [done|constructor|simpl; lia|].
  by exists err, [].
Qed.

Lemma log_outcome_weaken call n n' err m :
  (n ≤ n')%nat → log_outcome call n err m → log_outcome call n' err m.
Proof.
  intros Hn Hm w. destruct (Hm w) as (new&?&?&?&?). exists new. split_and!; [done..|lia|done].
Qed.

Lemma log_f_run call c w :
  log_f call c w =
  (Ok (sv_log (w_tick w) call),
   add_effect (FLog c (cx_job (ctx_lookup c (tick w))) call (sv_log (w_tick w) call)) (tick w)).
Proof. done. Qed.

(** Another attempt after a failed one. *)
Lemma log_outcome_retry call c n err (k : Z → M bool) :
  err ≠ 0 → (∀ e, log_outcome call n e (k e)) →
  log_outcome call (S n) err (e ← log_f call c; k e).
Proof.
  intros Herr Hk w. unfold log_f. rewrite !bind_run. simpl.
  set (e := sv_log (w_tick w) call).
  match goal with |- context [k e ?x] => set (w1 := x) end.
  destruct (Hk e w1) as (new&E&Ha&Hn&e'&es&Ee&Hes&Hr).
  exists (new ++ [FLog c (cx_job (ctx_lookup c (tick w))) call e]).
  unfold attempts in *. rewrite omap_app. simpl.
  split_and!; [rewrite E; by rewrite <- app_assoc| |rewrite length_app; simpl; lia|].
  { apply Forall_app; split; [done|]. by repeat constructor. }
  exists e', (es ++ [err]). rewrite Ee. split_and!; [done| |done].
  apply Forall_app; split; [done|]. by repeat constructor.
Qed.

Lemma log_outcome_emit call n err f (m : M bool) :
  attempts [f] = [] → is_attempt call f →
  log_outcome call n err m → log_outcome call n err (emit f;; m).
Proof.
  intros Hf Hc Hm w. rewrite !bind_run. simpl.
  destruct (Hm (add_effect f w)) as (new&E&Ha&Hn&Hr).
  exists (new ++ [f]). simpl in E. unfold attempts in *. rewrite omap_app, Hf, app_nil_r.
  split_and!; [by rewrite E, <- app_assoc|by apply Forall_app; repeat constructor|done|done].
Qed.

(** Creating the host context makes no attempt; it may fail with an exception. *)
Lemma host_context_trace call u w :
  ∃ new, w_trace (host_context u w).2 = new ++ w_trace w ∧ Forall (is_attempt call) new ∧
    attempts new = [] ∧
    match (host_context u w).1 with
    | Ok _ => True | Throw x => ∃ code, x = CannotCreateLBContext code end.
Proof.
  unfold host_context, create_context, set_logging_job, throw, get, external, emit, modify,
    mbind, M_bind, mret, M_ret.
  destruct (sv_sequence_code (w_tick w)) as [s|]; simpl; [|by exists []].
  destruct (negb _); simpl; [by exists []|].
  destruct (negb _); simpl; [exists []; split_and!; eauto|].
  match goal with |- context [sv_SetLoggingJob ?n ?a ?b] =>
    destruct (sv_SetLoggingJob n a b =? 0) end; simpl;
  (destruct (negb _); simpl; eexists [_]; split_and!; eauto; by repeat constructor).
Qed.

Lemma log_outcome_host call n err u (k : option nat → M bool) :
  err ≠ 0 → (∀ h, log_outcome call n err (k h)) →
  log_outcome call n err (h ← host_context u; k h).
Proof.
  intros Herr Hk w. rewrite !bind_run.
  destruct (host_context_trace call u w) as (n1&E1&A1&L1&R1).
  destruct (host_context u w) as [[h|x] w1]; simpl in *.
  - destruct (Hk h w1) as (n2&E2&A2&L2&e&es&Ee&R2).
    exists (n2 ++ n1). unfold attempts in *. rewrite omap_app, L1, app_nil_r.
    split_and!; [by rewrite E2, E1, app_assoc|by apply Forall_app|done|by exists e, es].
  - exists n1. split_and!; [done..|rewrite L1; simpl; lia|].
    exists err, []. by rewrite L1.
Qed.

Lemma lb_log_host_outcome i call h err : log_outcome call i err (lb_log_host i call h err).
Proof.
  revert err; induction i as [|i IH]; intros err; simpl.
  - destruct (err =? 0) eqn:E; by apply log_outcome_ret.
  - destruct (err =? 0) eqn:E; [by apply log_outcome_ret|].
    destruct (negb _); [by apply log_outcome_ret|].
    apply log_outcome_emit; [done..|]. breflect. by apply log_outcome_retry.
Qed.

Lemma lb_log_loop_outcome i call u err :
  log_outcome call (i + retries) err (lb_log_loop i call u err).
Proof.
  revert err; induction i as [|i IH]; intros err; cbn [lb_log_loop].
  - destruct (err =? 0) eqn:E; by apply log_outcome_ret.
  - destruct (err =? 0) eqn:E; [by apply log_outcome_ret|]. breflect.
    apply log_outcome_host; [done|]. intros [h|].
    2:{ apply log_outcome_ret. symmetry. by apply Z.eqb_neq. }
    destruct (err =? EDG_WLL_ERROR_GSS).
    + apply (log_outcome_retry _ _ (i + retries)); [done|]. intros e.
      apply log_outcome_weaken with (n := retries); [lia|apply lb_log_host_outcome].
    + destruct (negb _).
      { apply log_outcome_ret. symmetry. by apply Z.eqb_neq. }
      apply log_outcome_emit; [done..|]. apply log_outcome_retry; [done|]. exact IH.
Qed.

(** C29. Logging an event is attempted at least once and at most 21 times, always
    with the same event; every attempt but the last failed, so an event is
    never accepted twice, and [lb_log] returns true exactly when the last
    attempt was accepted.  The only exception it lets through is a failure to
    create the context for the host proxy, after a failed attempt. *)
Theorem lb_log_attempts call c w :
  ∃ new e es,
    w_trace (lb_log call c w).2 = new ++ w_trace w ∧ Forall (is_attempt call) new ∧
    attempts new = e :: es ∧ Forall (λ x, x ≠ 0) es ∧ (length (e :: es) ≤ 21)%nat ∧
    match (lb_log call c w).1 with
    | Ok b => b = (e =? 0)
    | Throw x => e ≠ 0 ∧ ∃ code, x = CannotCreateLBContext code
    end.
Proof.
  unfold lb_log. rewrite bind_run, log_f_run.
  set (e0 := sv_log (w_tick w) call). set (f := FLog _ _ _ e0).
  destruct (lb_log_loop_outcome retries call c e0 (add_effect f (tick w)))
    as (n1&E1&A1&L1&e&es&Ee&Hes&Hr).
  exists (n1 ++ [f]), e, es. unfold attempts in *. rewrite omap_app, E1, <- Ee, length_app.
  split_and!; [by rewrite <- app_assoc| |done|done| |done].
  - apply Forall_app; split; [done|]. by repeat constructor.
  - simpl. unfold retries in L1. lia.
Qed.
End LbLog.

(** ** Retry counts and event classification *)

Section Counts.
Implicit Types (events pre post : list lb_event) (p : lb_event → bool).

Lemma from_last_None {A} (p : A → bool) (l : list A) :
  from_last p l = None ↔ Forall (λ x, p x = false) l.
Proof.
  induction l as [|x l IH]; simpl; [by split; [constructor|]|].
  destruct (from_last p l) eqn:E.
  - split; [done|]. intros H. inversion_clear H as [|?? _ Hl]. by apply IH in Hl.
  - destruct (p x) eqn:Ep; split; try done.
    + intros H. inversion_clear H. congruence.
    + intros _. constructor; [done|]. by apply IH.
Qed.

Lemma from_last_app {A} (p : A → bool) (pre post : list A) x :
  p x = true → Forall (λ y, p y = false) post → from_last p (pre ++ x :: post) = Some (x :: post).
Proof.
  intros Hx Hp. induction pre as [|y pre IH]; simpl; [|by rewrite IH].
  apply from_last_None in Hp. by rewrite Hp, Hx.
Qed.

Lemma from_last_Some {A} (p : A → bool) (l s : list A) :
  from_last p l = Some s →
  ∃ (pre : list A) (x : A) (post : list A), l = pre ++ x :: post ∧ s = x :: post ∧ p x = true ∧ Forall (λ y, p y = false) post.
Proof.
  revert s; induction l as [|y l IH]; simpl; intros s; [done|].
  destruct (from_last p l) as [s'|] eqn:E.
  - intros [= <-]. destruct (IH s' eq_refl) as (pre&x&post&->&->&?&?). by exists (y :: pre), x, post.
  - destruct (p y) eqn:Ep; [|done]. intros [= <-].
    exists [], y, l. split_and!; try done. by apply from_last_None.
Qed.

Lemma count_if_app {A} (p : A → bool) (l k : list A) :
  count_if p (l ++ k) = count_if p l + count_if p k.
Proof. unfold count_if. rewrite List.filter_app, length_app. lia. Qed.

Lemma count_if_none {A} (p : A → bool) (l : list A) :
  Forall (λ x, p x = false) l → count_if p l = 0.
Proof. induction 1 as [|x l Hx _ IH]; [done|]. unfold count_if in *. simpl. by rewrite Hx. Qed.

(** The retry counts of a job: the deep count is the number of deep
    resubmissions, and the shallow count the number of shallow ones since the
    last deep one (since the beginning when there is none). *)
Theorem get_retry_counts_spec pre d post :
  is_deep_resubmission d = true → Forall (λ e, is_deep_resubmission e = false) post →
  get_retry_counts (pre ++ d :: post) =
    (1 + count_if is_deep_resubmission pre, count_if is_shallow_resubmission post) ∧
  get_retry_counts post = (0, count_if is_shallow_resubmission post).
Proof.
  intros Hd Hpost. unfold get_retry_counts, find_last_deep_resubmission.
  rewrite (from_last_app _ pre post d) by done.
  rewrite (proj2 (from_last_None _ post)) by done.
  rewrite count_if_app. rewrite (count_if_none is_deep_resubmission post Hpost).
  split; [|done].
  assert (count_if is_deep_resubmission (d :: post) = 1) as ->.
  { unfold count_if. simpl. rewrite Hd. simpl.
    pose proof (count_if_none _ _ Hpost) as H0. unfold count_if in H0. lia. }
  f_equal; [lia|]. unfold count_if. simpl.
  unfold is_deep_resubmission, is_shallow_resubmission in *.
  by destruct (ev_kind d) as [| | | |[]| |].
Qed.

(** What [is_last_done] reads: the code of the last DONE event the log monitor
    sent, whatever follows it. *)
Lemma is_last_done_spec pre post c code src :
  src = SOURCE_LOG_MONITOR → Forall (λ e, is_done_event e = false) post →
  is_last_done (pre ++ mkEvent src (EvDone c) :: post) code = bool_decide (c = code).
Proof.
  intros -> Hp. unfold is_last_done, find_last_done. by rewrite from_last_app.
Qed.

Lemma is_last_done_none events code :
  Forall (λ e, is_done_event e = false) events → is_last_done events code = false.
Proof.
  intros H. unfold is_last_done, find_last_done. by rewrite (proj2 (from_last_None _ _) H).
Qed.

(** A job waits in limbo only between the WM's "enqueued start" and the
    outcome of that enqueue: its last enqueue event from the WM is a start,
    and it is either ready, or done with the last DONE event a failure. *)
Theorem in_limbo_spec status events :
  in_limbo status events = true ↔
  (∃ pre src job post,
      events = pre ++ mkEvent src (EvEnQueued ENQUEUED_START job) :: post
      ∧ src = SOURCE_WORKLOAD_MANAGER ∧ Forall (λ e, is_enqueued_to_jc e = false) post)
  ∧ ∃ st, status = Some st ∧
      (js_state st = JOB_READY ∨
       js_state st = JOB_DONE ∧
       ∃ pre src post, events = pre ++ mkEvent src (EvDone DONE_FAILED) :: post
         ∧ src = SOURCE_LOG_MONITOR ∧ Forall (λ e, is_done_event e = false) post).
Proof.
  assert (is_last_enqueued_by_wm events ENQUEUED_START = true ↔
    ∃ pre src job post,
      events = pre ++ mkEvent src (EvEnQueued ENQUEUED_START job) :: post
      ∧ src = SOURCE_WORKLOAD_MANAGER ∧ Forall (λ e, is_enqueued_to_jc e = false) post) as Henq.
  { unfold is_last_enqueued_by_wm, find_last_enqueued_to_jc. split.
    - destruct (from_last _ _) as [s|] eqn:E; [|done].
      apply from_last_Some in E as (pre&x&post&->&->&Hx&Hp).
      destruct x as [src k]; unfold is_enqueued_to_jc in Hx; simpl in *.
      destruct k as [r job| | | | | |]; try done. apply bool_decide_eq_true in Hx as ->.
      intros ->%bool_decide_eq_true. by exists pre, SOURCE_WORKLOAD_MANAGER, job, post.
    - intros (pre&src&job&post&->&->&Hp). by rewrite from_last_app. }
  assert (is_last_done events DONE_FAILED = true ↔
    ∃ pre src post, events = pre ++ mkEvent src (EvDone DONE_FAILED) :: post
      ∧ src = SOURCE_LOG_MONITOR ∧ Forall (λ e, is_done_event e = false) post) as Hdone.
  { unfold is_last_done, find_last_done. split.
    - destruct (from_last _ _) as [s|] eqn:E; [|done].
      apply from_last_Some in E as (pre&x&post&->&->&Hx&Hp).
      destruct x as [src k]; unfold is_done_event in Hx; simpl in *.
      destruct k as [|c| | | | |]; try done. apply bool_decide_eq_true in Hx as ->.
      intros ->%bool_decide_eq_true. by exists pre, SOURCE_LOG_MONITOR, post.
    - intros (pre&src&post&->&->&Hp). by rewrite from_last_app. }
  unfold in_limbo, is_ready, is_done, in_state. rewrite <- Henq.
  rewrite orb_true_iff, !andb_true_iff. setoid_rewrite <- Hdone.
  destruct status as [st|]; [|naive_solver].
  rewrite !bool_decide_eq_true. naive_solver.
Qed.
End Counts.

Lemma get_retry_counts_spec_witness :
  get_retry_counts
    ([] ++ mkEvent SOURCE_WORKLOAD_MANAGER (EvResubmission WILLRESUB)
        :: [mkEvent SOURCE_WORKLOAD_MANAGER (EvResubmission SHALLOW)]) = (1, 1).
Proof.
  refine (proj1 (get_retry_counts_spec []
    (mkEvent SOURCE_WORKLOAD_MANAGER (EvResubmission WILLRESUB))
    [mkEvent SOURCE_WORKLOAD_MANAGER (EvResubmission SHALLOW)] eq_refl _)).
  repeat constructor.
Defined.
