(* ===== verification/SubmissionUtils.v ===== *)
(** * Submission utilities

    Models src/org.glite.wms.core/src/submission_utils.cpp: the job type, the
    token files of a job, the retry limits and the proxy checks. *)

From stdpp Require Import pretty.
From S2P Require Import Prelude.
From S2P Require Import EventQueue.
From S2P Require Import WmWorld.
From S2P Require Import LbUtils.

Inductive job_type_t := single | dag | collection.

#[export] Instance job_type_t_eq_dec : EqDecision job_type_t.
Proof. solve_decision. Defined.

Fixpoint drop_prefix (p s : string) : option string :=
  match p, s with
  | EmptyString, _ => Some s
  | String a p', String b s' => if bool_decide (a = b) then drop_prefix p' s' else None
  | String _ _, EmptyString => None
  end.

Section SubmissionUtils.
Context `{CA : ClassAds} {CF : Config} {SV : Services}.

(** [job_type] *)
Definition job_type (jdl : ad) : job_type_t :=
  match evaluate_string jdl "Type" with
  | Some type =>
      if bool_decide (type = "dag") then
        match evaluate_classad jdl "Nodes" with
        | Some nodes => match evaluate_list_size nodes "dependencies" with
                        | Some O => collection
                        | Some (S _) => dag
                        | None => single
                        end
        | None => single
        end
      else single
  | None => single
  end.

(** [fs::path] composition *)
Definition path_join (p q : string) : string := p +:+ "/" +:+ q.

Definition job_dir (id : string) : string :=
  path_join (path_join sandbox_staging_path (get_reduced_part id)) (to_filename id).

(** [get_cancel_token] *)
Definition get_cancel_token (id : string) : string :=
  path_join (job_dir id) "wm_cancel_token".

(** [get_reallyrunning_token] *)
Definition get_reallyrunning_token (id : string) (replans_count : Z) : string :=
  path_join (job_dir id) (token_file +:+ "_" +:+ pretty replans_count).

(** [check_shallow_count] *)
Definition check_shallow_count (jdl : ad) (count : Z) : res unit :=
  let job_shallow_count :=
    match get_shallow_retry_count jdl with
    | Some n => if n <? 0 then 0 else n
    | None => 0
    end in
  if job_shallow_count <=? count then Throw (HitJobShallowCount job_shallow_count) else
  let max_shallow_count :=
    if max_shallow_retry_count <? 0 then 0 else max_shallow_retry_count in
  if max_shallow_count <=? count then Throw (HitMaxShallowCount max_shallow_count)
  else Ok tt.

(** [check_deep_count] *)
Definition check_deep_count (jdl : ad) (count : Z) : res unit :=
  let job_retry_count :=
    match get_retry_count jdl with
    | Some n => if n <? 0 then 0 else n
    | None => 0
    end in
  if job_retry_count <=? count then Throw (HitJobRetryCount job_retry_count) else
  if max_retry_count <=? count then Throw (HitMaxRetryCount max_retry_count)
  else Ok tt.

(** [get_job_shallow_count] *)
Definition get_job_shallow_count (jdl : ad) : Z :=
  default 0 (get_shallow_retry_count jdl).

(** [shallow_resubmission_is_enabled] *)
Definition shallow_resubmission_is_enabled (jdl : ad) : bool :=
  negb (get_job_shallow_count jdl =? -1).

(** ** Files *)

Definition fs_exists (p : string) : M bool :=
  w ← get; mret (bool_decide (p ∈ w_files w)).

Definition unlink (p : string) : M unit :=
  emit (FUnlink p);; modify (λ w, set_files (w_files w ∖ {[p]}) w).

(** [::rename]; the result is 0 or [errno]. *)
Definition rename (from to : string) : M Z :=
  e ← external (λ n, sv_rename_errno n from to);
  w ← get;
  let r := if negb (e =? 0) then e
           else if bool_decide (from ∈ w_files w) then 0 else ENOENT in
  emit (FRename from to r);;
  (if r =? 0 then modify (λ w, set_files ({[to]} ∪ w_files w ∖ {[from]}) w) else mret tt);;
  mret r.

(** [create_token] *)
Definition create_token (p : string) : M unit :=
  ok ← external (λ n, sv_create_file n p);
  if negb ok then throw (CannotCreateToken p)
  else emit (FCreate p);; modify (λ w, set_files ({[p]} ∪ w_files w) w).

(** ** Proxies *)

(** [is_proxy_expired]; [read_proxy] tells a missing file from one that holds
    no certificate. *)
Definition is_proxy_expired (id : string) : M bool :=
  proxy_file ← get_user_x509_proxy id;
  r ← external (λ n, sv_read_proxy n proxy_file);
  match r with
  | None => throw (MissingProxy proxy_file)
  | Some None => throw (InvalidProxy proxy_file)
  | Some (Some cmp) => mret (cmp <=? 0)
  end.

(** [RemoveNodeFromCollection::operator()] *)
Definition remove_node_from_collection (node_name : string) (request : nat) : M unit :=
  modify (λ w, set_submits
    (alter (λ s, mkSubmit (m_command s) (m_id s) (m_sequence_code s) (m_x509_proxy s)
                   (m_lb_context s) (m_cleanup s) (m_last_checkpointing s)
                   (List.filter (λ n, negb (bool_decide (n = node_name))) (m_collection_pending s))
                   (m_created_at s) (m_ad s) (m_destroyed s)) request (w_submits w)) w).

(** [UnregisterProxy::operator()] *)
Definition unregister_proxy (id : string) : M unit := emit (FUnregisterProxy id).

(** The directory listing of a job directory: the leaves of the files in it. *)
Definition list_dir (dir : string) : M (option (list string)) :=
  ok ← external (λ n, sv_read_dir n dir);
  w ← get;
  mret (if ok : bool then Some (omap (drop_prefix (dir +:+ "/")) (elements (w_files w)))
        else None).

(** [purger::Purger], by the way it logs. *)
Definition purge (id how : string) : M unit := emit (FPurge id how).

(** The limit comments of submission_utils.cpp: a count passes exactly
    when it is below [max(0, min(job_count, max_count))], for the deep and for
    the shallow resubmissions. *)
Theorem retry_limits jdl count :
  0 ≤ count →
  (check_deep_count jdl count = Ok tt ↔
     count < Z.max 0 (Z.min (default 0 (get_retry_count jdl)) max_retry_count)) ∧
  (check_shallow_count jdl count = Ok tt ↔
     count < Z.max 0 (Z.min (default 0 (get_shallow_retry_count jdl)) max_shallow_retry_count)).
Proof.
  intros Hc. unfold check_deep_count, check_shallow_count. split.
  - destruct (get_retry_count jdl) as [n|]; simpl; [destruct (Z.ltb_spec n 0)|];
      case_tests; split; intros; (done || lia).
  - destruct (Z.ltb_spec max_shallow_retry_count 0);
      (destruct (get_shallow_retry_count jdl) as [n|]; simpl; [destruct (Z.ltb_spec n 0)|]);
      case_tests; split; intros; (done || lia).
Qed.
End SubmissionUtils.

(** ** Steps of the file operations *)

Section SubmissionSteps.
Context `{CA : ClassAds} {CF : Config} {SV : Services}.
Context (R : relation world) `{!Quiet R}.

Lemma steps_fs_exists p : steps R (fs_exists p).
Proof. unfold fs_exists. walk. Qed.

Lemma steps_is_proxy_expired id : steps R (is_proxy_expired id).
Proof. unfold is_proxy_expired. walk. Qed.
End SubmissionSteps.

#[export] Hint Resolve steps_fs_exists steps_is_proxy_expired : steps.
