(* ===== verification/WmCommands.v ===== *)
(** * Commands sent to the workload manager

    Models src/org.glite.wms.common/src/utilities/wm_commands.cpp: building,
    checking and reading the ClassAds that carry requests between the services,
    over the ClassAd interface of WmWorld. *)

From S2P Require Import Prelude.
From S2P Require Import EventQueue.
From S2P Require Import WmWorld.

Section WmCommands.
Context `{CA : ClassAds}.
Implicit Types (a jdl : ad) (e : string).

(** The type tests of the ClassAd language. *)
Definition isString a e : bool :=
  match evaluate a e with Some (AString _) => true | _ => false end.
Definition isClassad a e : bool :=
  match evaluate a e with Some (AAd _) => true | _ => false end.
Definition isInteger a e : bool :=
  match evaluate a e with Some (AInt _) => true | _ => false end.
Definition isBoolean a e : bool :=
  match evaluate a e with Some (ABool _) => true | _ => false end.
Definition isUndefined a e : bool :=
  match evaluate a e with None => true | _ => false end.
Definition equals_string a e (s : string) : bool :=
  match evaluate a e with Some (AString v) => iequals v s | _ => false end.

(** [command_is_valid]: the expression of [command_requirements] on the
    command. *)
Definition command_is_valid (command_ad : ad) : bool :=
  equals_string command_ad "version" "1.0.0"
  && isString command_ad "command"
  && isClassad command_ad "arguments"
  && ((equals_string command_ad "command" "jobsubmit"
       && isClassad command_ad "arguments.ad"
       && isString command_ad "arguments.ad.edg_jobid"
       && isString command_ad "arguments.ad.lb_sequence_code"
       && isString command_ad "arguments.ad.X509UserProxy")
      || (equals_string command_ad "command" "jobresubmit"
          && isString command_ad "arguments.id"
          && isString command_ad "arguments.lb_sequence_code")
      || (equals_string command_ad "command" "jobcancel"
          && isString command_ad "arguments.id"
          && isString command_ad "arguments.lb_sequence_code")
      || (equals_string command_ad "command" "match"
          && isClassad command_ad "arguments.ad"
          && isString command_ad "arguments.ad.CertificateSubject"
          && isString command_ad "arguments.file"
          && (isUndefined command_ad "arguments.number_of_results"
              || isInteger command_ad "arguments.number_of_results")
          && (isUndefined command_ad "arguments.include_brokerinfo"
              || isBoolean command_ad "arguments.include_brokerinfo"))).

(** The accessors; [None] is the exception of [evaluate_expression]. *)
Definition command_get_command (command_ad : ad) : option string :=
  string_lower <$> evaluate_string command_ad "command".

Definition submit_command_create (jdl : ad) : ad :=
  let result := Insert ad_empty "version" (AString "1.0.0") in
  let result := Insert result "command" (AString "jobsubmit") in
  let args := Insert ad_empty "ad" (AAd jdl) in
  Insert result "arguments" (AAd args).

Definition submit_command_get_ad (submit_command_ad : ad) : option ad :=
  evaluate_classad submit_command_ad "arguments.ad".

(** The ad taken out of the command. *)
Definition submit_command_remove_ad (submit_command_ad : ad) : option ad :=
  evaluate_classad submit_command_ad "arguments.ad".

Definition resubmit_command_create (job_id sequence_code : string) : ad :=
  let result := Insert ad_empty "version" (AString "1.0.0") in
  let result := Insert result "command" (AString "jobresubmit") in
  let args := Insert ad_empty "id" (AString job_id) in
  let args := Insert args "lb_sequence_code" (AString sequence_code) in
  Insert result "arguments" (AAd args).

Definition resubmit_command_get_id (command_ad : ad) : option string :=
  evaluate_string command_ad "arguments.id".

Definition resubmit_command_get_lb_sequence_code (command_ad : ad) : option string :=
  evaluate_string command_ad "arguments.lb_sequence_code".

Definition cancel_command_create (job_id : string) : ad :=
  let result := Insert ad_empty "version" (AString "1.0.0") in
  let result := Insert result "command" (AString "jobcancel") in
  let args := Insert ad_empty "id" (AString job_id) in
  Insert result "arguments" (AAd args).

Definition cancel_command_get_id (cancel_command_ad : ad) : option string :=
  evaluate_string cancel_command_ad "arguments.id".

Definition cancel_command_get_lb_sequence_code (command_ad : ad) : option string :=
  evaluate_string command_ad "arguments.lb_sequence_code".

Definition match_command_create (jdl : ad) (file : string) (number_of_results : Z)
    (include_brokerinfo : bool) : ad :=
  let result := Insert ad_empty "version" (AString "1.0.0") in
  let result := Insert result "command" (AString "match") in
  let args := Insert ad_empty "ad" (AAd jdl) in
  let args := Insert args "file" (AString file) in
  let args := Insert args "number_of_results" (AInt number_of_results) in
  let args := Insert args "include_brokerinfo" (ABool include_brokerinfo) in
  Insert result "arguments" (AAd args).

Definition match_command_get_ad (match_command_ad : ad) : option ad :=
  evaluate_classad match_command_ad "arguments.ad".

Definition match_command_get_file (match_command_ad : ad) : option string :=
  evaluate_string match_command_ad "arguments.file".

(** [InvalidValue] is caught: -1 and false stand for a missing value. *)
Definition match_command_get_number_of_results (match_command_ad : ad) : Z :=
  default (-1) (evaluate_int match_command_ad "arguments.number_of_results").

Definition match_command_get_include_brokerinfo (match_command_ad : ad) : bool :=
  default false (evaluate_bool match_command_ad "arguments.include_brokerinfo").
End WmCommands.

(** ** Evaluation of built ads *)

Section WmCommandLemmas.
Context `{CL : ClassAdLaws}.
Implicit Types (a b jdl : ad).

Lemma select a n b e p :
  path_head n = n → e = n +:+ "." +:+ p → evaluate (Insert a n (AAd b)) e = evaluate b p.
Proof. intros Hn ->. by apply evaluate_insert_ad. Qed.
End WmCommandLemmas.

(** The rest of a dotted expression after its first name. *)
Fixpoint path_tail (p : string) : string :=
  match p with
  | EmptyString => EmptyString
  | String c r => if bool_decide (c = "."%char) then r else path_tail r
  end.

(** Evaluate an expression on an ad built by insertions: skip the insertions of
    other attributes, return an inserted value, or select inside a nested ad. *)
Ltac ad_eval_step :=
  match goal with
  | |- context [evaluate ad_empty ?e] => rewrite (evaluate_empty e)
  | |- context [evaluate (Insert ?a ?n ?v) ?e] =>
      let same := eval vm_compute in (iequals n (path_head e)) in
      lazymatch same with
      | false => rewrite (evaluate_insert_ne a n v e) by (vm_compute; reflexivity)
      | true =>
          let p := eval vm_compute in (path_tail e) in
          lazymatch p with
          | EmptyString => rewrite (evaluate_insert a n v) by (vm_compute; reflexivity)
          | _ => match v with
                 | AAd ?b => rewrite (select a n b e p) by (vm_compute; reflexivity)
                 end
          end
      end
  end.
Ltac ad_eval := repeat ad_eval_step.

Ltac ad_unfold :=
  unfold command_is_valid, equals_string, isString, isClassad, isInteger, isBoolean, isUndefined,
    command_get_command, evaluate_string, evaluate_classad, evaluate_int, evaluate_bool.

Ltac ad_compare :=
  repeat match goal with
  | |- context [iequals ?x ?y] =>
      let v := eval vm_compute in (iequals x y) in
      replace (iequals x y) with v by (vm_compute; reflexivity)
  end; cbn [andb orb]; rewrite ?orb_false_r, ?andb_true_r.

Section WmCommandProperties.
Context `{CL : ClassAdLaws}.
Implicit Types (jdl : ad).

Lemma create_remove_ad jdl : submit_command_remove_ad (submit_command_create jdl) = Some jdl.
Proof. unfold submit_command_remove_ad, submit_command_create. cbv zeta. ad_unfold. by ad_eval. Qed.

(** What a client builds the manager reads back: a submit, resubmit or
    match command yields its command name and its arguments, a resubmit command
    is always valid, and a submit or match command is valid exactly when the
    job description has the attributes the manager requires of it. *)
Theorem command_roundtrip jdl id sequence_code file n bi :
  (command_get_command (submit_command_create jdl) = Some "jobsubmit"
   ∧ submit_command_get_ad (submit_command_create jdl) = Some jdl
   ∧ command_is_valid (submit_command_create jdl)
     = isString jdl "edg_jobid" && isString jdl "lb_sequence_code"
       && isString jdl "X509UserProxy") ∧
  (let cmd := resubmit_command_create id sequence_code in
   command_get_command cmd = Some "jobresubmit" ∧ resubmit_command_get_id cmd = Some id
   ∧ resubmit_command_get_lb_sequence_code cmd = Some sequence_code
   ∧ command_is_valid cmd = true) ∧
  (let cmd := match_command_create jdl file n bi in
   command_get_command cmd = Some "match" ∧ match_command_get_ad cmd = Some jdl
   ∧ match_command_get_file cmd = Some file
   ∧ match_command_get_number_of_results cmd = n
   ∧ match_command_get_include_brokerinfo cmd = bi
   ∧ command_is_valid cmd = isString jdl "CertificateSubject").
Proof.
  unfold submit_command_create, submit_command_get_ad, resubmit_command_create,
    resubmit_command_get_id, resubmit_command_get_lb_sequence_code, match_command_create,
    match_command_get_ad, match_command_get_file, match_command_get_number_of_results,
    match_command_get_include_brokerinfo; cbv zeta.
  ad_unfold. ad_eval. ad_compare. cbn [fmap option_fmap option_map default].
  by split_and!.
Qed.

(** A cancel command built by [cancel_command_create] is never valid: the
    requirements ask for [arguments.lb_sequence_code], which it does not set,
    and reading the sequence code back from it fails. *)
Theorem cancel_command_not_valid id :
  command_get_command (cancel_command_create id) = Some "jobcancel"
  ∧ cancel_command_get_id (cancel_command_create id) = Some id
  ∧ cancel_command_get_lb_sequence_code (cancel_command_create id) = None
  ∧ command_is_valid (cancel_command_create id) = false.
Proof.
  unfold cancel_command_create, cancel_command_get_id, cancel_command_get_lb_sequence_code.
  ad_unfold. ad_eval. ad_compare. by split_and!.
Qed.
End WmCommandProperties.
