(* ===== verification/WmReal.v ===== *)
(** * Delivery of planned jobs and cancellations

    Models src/org.glite.wms.core/src/wm_real.cpp: the class that hands a planned
    job to the job controller or to ICE, through their job directories, and logs
    the hand-over.  Planning ([Plan], the matchmaking helpers) and bulk
    matchmaking ([do_bulk_mm]) are read from the services. *)

From stdpp Require Import pretty.
From S2P Require Import Prelude.
From S2P Require Import EventQueue.
From S2P Require Import WmWorld.
From S2P Require Import LbUtils.
From S2P Require Import SubmissionUtils.

(** The full match of the regular expression [.+/cream-.+]: some character, then
    ["/cream-"], then some character. *)
Fixpoint has_infix_then_more (p s : string) : bool :=
  match drop_prefix p s with
  | Some (String _ _) => true
  | _ => match s with EmptyString => false | String _ r => has_infix_then_more p r end
  end.

Definition is_cream_ce_id (ce_id : string) : bool :=
  match ce_id with EmptyString => false | String _ r => has_infix_then_more "/cream-" r end.

Section WmReal.
Context `{CA : ClassAds} {CF : Config} {SV : Services}.

(** [submit_command_create] (of wm_real.cpp) *)
Definition submit_command_create (job_ad : ad) (is_replan : bool) : ad :=
  let result := Insert ad_empty "Protocol" (AString "1.0.0") in
  let result := Insert result "Command"
                  (AString (if is_replan then "Reschedule" else "Submit")) in
  let result := Insert result "Source" (AInt 2) in
  let args := Insert ad_empty "JobAd" (AAd job_ad) in
  Insert result "Arguments" (AAd args).

(** [JobDir::deliver] on one of the two job directories *)
Definition deliver (t : target) (contents : string) : M (option string) :=
  r ← external sv_deliver;
  emit (FDeliver t contents (bool_decide (r = None)));;
  mret r.

(** The last look at the cancel token before the hand-over: a cancelled job is
    withdrawn, and the result is true. *)
Definition withdraw_if_cancelled (context : nat) : M bool :=
  res ← external sv_GetLoggingJob;
  if res =? 0 then
    w ← get;
    let jobid := cx_job (ctx_lookup context w) in
    let cancel_token := get_cancel_token jobid in
    found ← fs_exists cancel_token;
    if found : bool then
      log_cancelled context;;
      unlink cancel_token;;
      purge jobid "force_dag_node_removal";;
      mret true
    else mret false
  else mret false.

(** The delivery to ICE or to the job controller, and its logging. *)
Definition hand_over (is_cream_ce : bool) (context : nat) (output ad_str : string) : M unit :=
  r ← deliver (if is_cream_ce then ToICE else ToJC) ad_str;
  match r with
  | None => log_enqueued_ok context output ad_str;; mret tt
  | Some error =>
      log_enqueued_fail context output ad_str error;;
      throw (CannotDeliverFatal error)
  end.

(** [WMReal::submit(planned_ad, context, is_replan)] *)
Definition submit_planned (planned_ad : ad) (context : nat) (is_replan : bool) : M unit :=
  ce_id ← of_option (ManipulationException "CEId") (get_ce_id planned_ad);
  log_match context ce_id;;
  let ce_info_hostname := get_ceinfo_host_name planned_ad in
  (if bool_decide (ce_info_hostname = "") then mret true
   else log_usertag context CE_INFO_HOST ce_info_hostname);;
  let is_cream_ce := is_cream_ce_id ce_id in
  let output := if is_cream_ce then ice_input else jc_input in
  log_enqueued_start context output;;
  sequence_code ← get_lb_sequence_code;
  let cmd := submit_command_create (set_lb_sequence_code planned_ad sequence_code) is_replan in
  let ad_str := unparse_classad cmd in
  cancelled ← withdraw_if_cancelled context;
  if cancelled : bool then mret tt else hand_over is_cream_ce context output ad_str.

(** [WMReal::submit(jdl, context, jw_template, is_replan)] *)
Definition wm_submit (jdl : ad) (context : nat) (is_replan : bool) : M unit :=
  sequence_code ← get_lb_sequence_code;
  let request_ad := set_lb_sequence_code jdl sequence_code in
  planned ← external (λ n, sv_plan n request_ad);
  planned_ad ← lift planned;
  submit_planned planned_ad context is_replan.

(** The loop of [WMReal::submit_collection] over the matched jobs. *)
Fixpoint submit_matched (context : nat) (sequence_code : string) (jobs : list (ad * ad))
    : M unit :=
  match jobs with
  | [] => mret tt
  | (planned_ad, adapted_ad) :: rest =>
      sandbox ← of_option (ManipulationException "InputSandboxPath")
                  (get_input_sandbox_path planned_ad);
      emit (FCreate (sandbox +:+ "/.BrokerInfo"));;
      job_id ← of_option (ManipulationException "edg_jobid") (get_edg_jobid planned_ad);
      change_logging_job context sequence_code job_id;;
      change_logging_src context SOURCE_NETWORK_SERVER;;
      log_enqueued_ok context wm_input (unparse_classad planned_ad);;
      change_logging_src context SOURCE_WORKLOAD_MANAGER;;
      (if shallow_resubmission_is_enabled planned_ad
       then create_token (get_reallyrunning_token job_id 0) else mret tt);;
      submit_planned adapted_ad context false;;
      submit_matched context sequence_code rest
  end.

Definition dag_find (jdl : ad) (node_name : string) : option ad :=
  snd <$> List.find (λ n, bool_decide (n.1 = node_name)) (dag_nodes jdl).

(** The loop over the nodes left pending. *)
Fixpoint enqueue_pending (jdl : ad) (context : nat) (pending : list string) : M unit :=
  match pending with
  | [] => mret tt
  | node_name :: rest =>
      node_jdl ← of_option AssertionFailed (dag_find jdl node_name);
      id ← of_option (ManipulationException "edg_jobid") (get_edg_jobid node_jdl);
      change_logging_job context "" id;;
      log_enqueued_ok context wm_input (unparse_classad node_jdl);;
      enqueue_pending jdl context rest
  end.

(** [WMReal::submit_collection]; [set_pending] stores the pending set in the
    object the caller passed by reference. *)
Definition submit_collection (jdl : ad) (context : nat) (set_pending : list string → M unit)
    : M unit :=
  r ← external (λ n, sv_bulk_mm n jdl);
  jp ← lift r;
  let '(jobs, pending) := jp in
  set_pending pending;;
  sequence_code ← get_lb_sequence_code;
  submit_matched context sequence_code jobs;;
  if bool_decide (pending = []) then mret tt else
  change_logging_src context SOURCE_NETWORK_SERVER;;
  enqueue_pending jdl context pending;;
  change_logging_src context SOURCE_WORKLOAD_MANAGER.

(** [cancel_command_create] (of wm_real.cpp); the condor log file is read from
    the ClassAd file written when the job was submitted. *)
Definition cancel_command_create (job_id sequence_code user_x509_proxy : string)
    (log_file : option string) : ad :=
  let result := Insert ad_empty "Protocol" (AString "1.0.0") in
  let result := Insert result "Command" (AString "Cancel") in
  let result := Insert result "Source" (AInt 2) in
  let args := Insert ad_empty "Force" (ABool false) in
  let args := match log_file with
              | Some f => if bool_decide (f = "") then args
                          else Insert args "LogFile" (AString f)
              | None => args
              end in
  let args := Insert args "ProxyFile" (AString user_x509_proxy) in
  let args := Insert args "SequenceCode" (AString sequence_code) in
  let args := Insert args "JobId" (AString job_id) in
  Insert result "Arguments" (AAd args).

(** [WMReal::cancel]: both components get the command, and a failure to
    deliver it is ignored. *)
Definition wm_cancel (id : string) (context : nat) : M unit :=
  sequence_code ← get_lb_sequence_code;
  proxy ← get_user_x509_proxy id;
  log_file ← external (λ n, sv_condor_log n id);
  let ad_str := unparse_classad (cancel_command_create id sequence_code proxy log_file) in
  deliver ToICE ad_str;;
  deliver ToJC ad_str;;
  mret tt.
End WmReal.
