(* ===== verification/SubmitRequest.v ===== *)
(** * Processing of submit and resubmit requests

    Models src/org.glite.wms.core/src/submit_request.cpp and submit_request.h:
    the state of a request, and the processor the event queue runs for it. *)

From stdpp Require Import pretty.
From S2P Require Import Prelude.
From S2P Require Import EventQueue.
From S2P Require Import WmWorld.
From S2P Require Import LbUtils.
From S2P Require Import SubmissionUtils.
From S2P Require Import WmCommands.
From S2P Require Import WmReal.

(** [e.what()] for the exceptions whose message the handlers use. *)
Definition what (e : exn) : string :=
  match e with
  | CannotCreateLBContext n => "cannot create LB context (" +:+ pretty n +:+ ")"
  | MissingProxy s | InvalidProxy s | CannotCreateToken s | CannotDeliverFatal s
  | JobDirError s | HelperError s | ManipulationException s | InvalidArgument s
  | GliteException s | ClassAdError s | MatchError s | StdException s => s
  | _ => ""
  end.

(** Colours of the DAG nodes (boost::default_color_type). *)
Inductive color := white_color | gray_color | green_color | red_color.

#[export] Instance color_eq_dec : EqDecision color.
Proof. solve_decision. Defined.

(** The substring after the last underscore ([substr(rfind('_') + 1)]): [acc] is
    what follows the last one met so far. *)
Fixpoint after_last_from (s acc : string) : string :=
  match s with
  | EmptyString => acc
  | String c r => after_last_from r (if bool_decide (c = "_"%char) then r else acc)
  end.
Definition after_last_underscore (s : string) : string := after_last_from s s.

Section SubmitRequest.
Context `{CA : ClassAds} {CF : Config} {SV : Services}.

(** ** The request objects *)

Definition get_submit (r : nat) : M SubmitState := λ w,
  match w_submits w !! r with
  | Some s => (Ok s, w)
  | None => (Throw AssertionFailed, w)
  end.

Definition update_submit (r : nat) (f : SubmitState → SubmitState) : M unit :=
  modify (λ w, set_submits (alter f r (w_submits w)) w).

Definition set_checkpoint (c : checkpoint) (s : SubmitState) : SubmitState :=
  mkSubmit (m_command s) (m_id s) (m_sequence_code s) (m_x509_proxy s) (m_lb_context s)
    (m_cleanup s) c (m_collection_pending s) (m_created_at s) (m_ad s) (m_destroyed s).
Definition set_pending (p : list string) (s : SubmitState) : SubmitState :=
  mkSubmit (m_command s) (m_id s) (m_sequence_code s) (m_x509_proxy s) (m_lb_context s)
    (m_cleanup s) (m_last_checkpointing s) p (m_created_at s) (m_ad s) (m_destroyed s).
Definition set_ad (a : ad) (s : SubmitState) : SubmitState :=
  mkSubmit (m_command s) (m_id s) (m_sequence_code s) (m_x509_proxy s) (m_lb_context s)
    (m_cleanup s) (m_last_checkpointing s) (m_collection_pending s) (m_created_at s) a
    (m_destroyed s).

(** [SubmitState::SubmitState]; taking the job ad out of a submit command that
    has none dereferences a null pointer. *)
Definition new_SubmitState (command_ad : ad) (cmd id sc proxy : string) (lb_c : nat)
    (cl : cleanup) (last_check : checkpoint) : M nat :=
  now ← external sv_time;
  a ← (if bool_decide (cmd = "jobsubmit")
       then of_option AssertionFailed (submit_command_remove_ad command_ad)
       else mret ad_empty);
  w ← get;
  modify (λ w, set_submits
    (w_submits w ++ [mkSubmit cmd id sc proxy lb_c cl last_check [] now a false]) w);;
  mret (length (w_submits w)).

(** ** The event queue as the handlers use it *)

Definition events_schedule (t : task) (priority : Z) : M unit :=
  now ← external sv_time;
  modify (λ w, set_queue (schedule now t priority (w_queue w)) w).

Definition events_schedule_at (t : task) (time priority : Z) : M unit :=
  modify (λ w, set_queue (schedule_at t time priority (w_queue w)) w).

(** [m_events.schedule_at( *this, std::time(0) + period, priority)] *)
Definition reschedule (t : task) (period priority : Z) : M unit :=
  now ← external sv_time;
  events_schedule_at t (now + period) priority.

(** [queue_new_submit_request] *)
Definition queue_new_submit_request (name jobid : string) (job_jdl : ad) (r : nat) : M unit :=
  s ← get_submit r;
  let job_jdl := set_lb_sequence_code job_jdl "" in
  let fake_command_ad := WmCommands.submit_command_create job_jdl in
  lb_context ← create_context jobid (m_x509_proxy s) "" SOURCE_WORKLOAD_MANAGER;
  n ← new_SubmitState fake_command_ad "jobsubmit" jobid "" (m_x509_proxy s) lb_context
        (RemoveNodeFromCollection name r) START;
  events_schedule (TSubmit n) submit_priority.

(** The destruction of a request: [~SubmitState] runs its cleanup. *)
Definition run_cleanup (c : cleanup) : M unit :=
  match c with
  | RemoveInput item => emit (FRemoveInput item)
  | RemoveNodeFromCollection name parent => remove_node_from_collection name parent
  end.

Definition destroy_submit (r : nat) : M unit :=
  s ← get_submit r;
  update_submit r (λ s, mkSubmit (m_command s) (m_id s) (m_sequence_code s) (m_x509_proxy s)
    (m_lb_context s) (m_cleanup s) (m_last_checkpointing s) (m_collection_pending s)
    (m_created_at s) (m_ad s) true);;
  run_cleanup (m_cleanup s).

Definition JobId (s : string) : M string :=
  if jobid_ok s then mret s else throw (StdException s).

(** ** Failing a request *)

(** [log_abort_for_child] *)
Definition log_abort_for_child (context : nat) (reason id : string) (s : job_state) : M unit :=
  if bool_decide (s = JOB_SUBMITTED) || bool_decide (s = JOB_WAITING) then
    id' ← JobId id;
    change_logging_job context EDG_WLL_SEQ_ABORT id';;
    log_abort context reason;;
    mret tt
  else mret tt.

(** The loop of [unrecoverable_collection]: a child in an undefined state ends
    it. *)
Fixpoint abort_children (context : nat) (msg : string) (children : list (string * job_state))
    : M unit :=
  match children with
  | [] => mret tt
  | (id, s) :: rest =>
      if bool_decide (s = JOB_UNDEF) then mret tt
      else log_abort_for_child context msg id s;; abort_children context msg rest
  end.

Definition unrecoverable_collection (r : nat) (msg : string) : M unit :=
  s ← get_submit r;
  cs ← job_status (m_id s) (Some (m_lb_context s));
  match cs with
  | None => mret tt
  | Some st =>
      match js_children st with
      | None => mret tt
      | Some children =>
          abort_children (m_lb_context s) msg children;;
          change_logging_job (m_lb_context s) EDG_WLL_SEQ_ABORT (m_id s)
      end
  end.

(** [unrecoverable] *)
Definition unrecoverable (r : nat) (msg : string) : M unit :=
  s ← get_submit r;
  (if bool_decide (job_type (m_ad s) = collection)
   then unrecoverable_collection r (m_id s +:+ " failed (" +:+ msg +:+ ")")
   else mret tt);;
  log_abort (m_lb_context s) msg;;
  unlink (get_cancel_token (m_id s)).

(** [SubmitProcessor::postpone] *)
Definition postpone (r : nat) (reason : string) (period : Z) : M unit :=
  (if bool_decide (reason = "") then mret tt
   else s ← get_submit r; log_pending (m_lb_context s) reason;; mret tt);;
  reschedule (TSubmit r) period submit_priority.

(** [retrieve_lb_info] *)
Definition retrieve_lb_info (jobid : string)
    : M (Z * Z * list (string * Z) * list string) :=
  events ← get_interesting_events jobid;
  let previous_matches := get_previous_matches events in
  let '(deep, shallow) := get_retry_counts events in
  mret (deep, shallow, previous_matches, previous_matches.*1).

(** [is_request_expired] *)
Definition is_request_expired (jdl : ad) (first_processed : Z) : M bool :=
  now ← external sv_time;
  mret (match get_expiry_time jdl with
        | None => expiry_period <? now - first_processed
        | Some expiry_time => expiry_time <? now
        end).

(** ** DAGs *)

(** Run [m], then [fin] however [m] ended: the destructors of its scope. *)
Definition finally {A} (m : M A) (fin : M unit) : M A := λ w,
  let '(r, w1) := m w in let '(_, w2) := fin w1 in (r, w2).

Definition node_jobid (jdl : ad) : M string :=
  id ← of_option (ManipulationException "edg_jobid") (get_edg_jobid jdl);
  JobId id.

Definition color_of (colors : gmap string color) (name : string) : color :=
  default white_color (colors !! name).

(** The body of the first loop over the vertices: the colour of a node from its state.
    The result is [None] when the function returns.  The status is dereferenced by a log
    statement before it is tested for null. *)
Definition assess_node (r : nat) (name : string) (node_jdl : ad) (colors : gmap string color)
    : M (option (gmap string color)) :=
  node_id ← node_jobid node_jdl;
  s ← get_submit r;
  status ← job_status node_id (Some (m_lb_context s));
  (match status with None => throw AssertionFailed | Some _ => mret tt end);;
  if is_aborted status || is_cancelled status then
    mret (Some (<[name := red_color]> colors))
  else if is_done status then
    catch
      (events ← get_recovery_events node_id;
       mret (Some (<[name := if is_last_done events DONE_OK then green_color
                             else gray_color]> colors)))
      (λ e, match e with
            | LB_QueryFailed => Some (mret None)
            | LB_QueryTemporarilyFailed =>
                Some (reschedule (TSubmit r) match_retry_period submit_priority;;
                      mret (Some colors))
            | _ => None
            end)
  else if is_submitted status then
    mret (Some (<[name := white_color]> colors))
  else mret (Some (<[name := gray_color]> colors)).

(** The first loop. *)
Fixpoint dag_assess (r : nat) (nodes : list (string * ad)) (colors : gmap string color)
    : M (option (gmap string color)) :=
  match nodes with
  | [] => mret (Some colors)
  | (name, node_jdl) :: rest =>
      c ← assess_node r name node_jdl colors;
      match c with
      | None => mret None
      | Some colors => dag_assess r rest colors
      end
  end.

Definition parents (jdl : ad) (name : string) : list string :=
  (List.filter (λ e : string * string, bool_decide (e.2 = name)) (dag_edges jdl)).*1.

(** A node one of whose parents has failed is aborted through a request of its
    own, which ends with the scope. *)
Definition abort_node (r : nat) (name : string) (node_jdl : ad) : M unit :=
  s ← get_submit r;
  let node_jdl := set_lb_sequence_code node_jdl "" in
  let fake_command_ad := WmCommands.submit_command_create node_jdl in
  node_id ← node_jobid node_jdl;
  lb_context ← create_context node_id (m_x509_proxy s) "" SOURCE_WORKLOAD_MANAGER;
  n ← new_SubmitState fake_command_ad "jobsubmit" node_id "" (m_x509_proxy s) lb_context
        (RemoveNodeFromCollection name r) START;
  finally (unrecoverable n "parents have aborted") (destroy_submit n).

(** [try queue_new_submit_request catch (CannotCreateLBContext)]: the colour of
    the node afterwards. *)
Definition try_queue (r : nat) (name : string) (node_jdl : ad) (on_success : color) : M color :=
  node_id ← node_jobid node_jdl;
  catch (queue_new_submit_request name node_id node_jdl r;; mret on_success)
    (λ e, match e with CannotCreateLBContext _ => Some (mret red_color) | _ => None end).

(** The body of the second loop, for one node: its new colour, and the flag that
    says that the DAG is complete. *)
Definition dag_visit (r : nat) (jdl : ad) (name : string) (node_jdl : ad)
    (colors : gmap string color) (completed_dag : bool) : M (gmap string color * bool) :=
  match color_of colors name with
  | gray_color => mret (colors, false)
  | white_color =>
      match parents jdl name with
      | [] =>
          c ← try_queue r name node_jdl gray_color;
          mret (<[name := c]> colors, false)
      | ps =>
          if existsb (λ p, bool_decide (color_of colors p = red_color)) ps then
            abort_node r name node_jdl;;
            mret (<[name := red_color]> colors, false)
          else if forallb (λ p, bool_decide (color_of colors p = green_color)) ps then
            c ← try_queue r name node_jdl white_color;
            mret (<[name := c]> colors, false)
          else mret (colors, false)
      end
  | _ => mret (colors, completed_dag)
  end.

(** The second loop: submit the nodes that are ready. *)
Fixpoint dag_plan (r : nat) (jdl : ad) (nodes : list (string * ad))
    (colors : gmap string color) (completed_dag : bool) : M (gmap string color * bool) :=
  match nodes with
  | [] => mret (colors, completed_dag)
  | (name, node_jdl) :: rest =>
      cc ← dag_visit r jdl name node_jdl colors completed_dag;
      let '(colors, completed_dag) := cc : gmap string color * bool in
      dag_plan r jdl rest colors completed_dag
  end.

Definition process_dag (r : nat) : M unit :=
  s ← get_submit r;
  let c := m_lb_context s in
  let na := "notapplicable" in
  (if bool_decide (START = m_last_checkpointing s) then
     log_match c "dagman";;
     log_enqueued_start c na;;
     log_enqueued_ok c na na;;
     log_transfer_start c "L&B";;
     log_transfer_ok c "L&B" na "DAG managed by WM";;
     log_running c "localhost";;
     mret tt
   else mret tt);;
  let nodes := dag_nodes (m_ad s) in
  colors ← dag_assess r nodes ∅;
  match colors with
  | None => mret tt
  | Some colors =>
      cc ← dag_plan r (m_ad s) nodes colors true;
      let '(colors, completed_dag) := cc : gmap string color * bool in
      if negb completed_dag then
        reschedule (TSubmit r) match_retry_period submit_priority;;
        update_submit r (set_checkpoint PENDING)
      else if forallb (λ n : string * ad, bool_decide (color_of colors n.1 = green_color)) nodes
      then log_done_ok c "DAG successfully completed" 0;; mret tt
      else log_abort c "DAG completed with failed jobs";; mret tt
  end.

(** ** Collections *)

Fixpoint queue_pending (r : nat) (jdl : ad) (pending : list string) : M unit :=
  match pending with
  | [] => mret tt
  | node_name :: rest =>
      node_jdl ← of_option AssertionFailed (dag_find jdl node_name);
      node_id ← node_jobid node_jdl;
      catch (queue_new_submit_request node_name node_id node_jdl r)
        (λ e, match e with CannotCreateLBContext _ => Some (mret tt) | _ => None end);;
      queue_pending r jdl rest
  end.

Definition process_collection (r : nat) : M unit :=
  s ← get_submit r;
  let first_time := bool_decide (START = m_last_checkpointing s) in
  (if first_time then
     submit_collection (m_ad s) (m_lb_context s) (λ p, update_submit r (set_pending p))
   else mret tt);;
  s ← get_submit r;
  if bool_decide (m_collection_pending s = []) then mret tt
  else if first_time then
    queue_pending r (m_ad s) (m_collection_pending s);;
    update_submit r (set_checkpoint PENDING);;
    reschedule (TSubmit r) match_retry_period submit_priority
  else mret tt.

(** ** Single jobs *)

(** The scan of the job directory for the reallyrunning tokens: the last token
    seen, and whether there was one. *)
Fixpoint scan_tokens (r : nat) (dir : string) (leaves : list string)
    (found : option string) : M (option string) :=
  match leaves with
  | [] => mret found
  | leaf :: rest =>
      if token_regex_match leaf then
        match found with
        | None => scan_tokens r dir rest (Some (path_join dir leaf))
        | Some _ =>
            unrecoverable r (path_join dir leaf +:+
              ": at least two shallow resubmit tokens are present at the same time!");;
            scan_tokens r dir rest found
        end
      else scan_tokens r dir rest found
  end.

(** The limbo checkpoint; [false] is the return on a failed query. *)
Definition check_limbo (r : nat) : M bool :=
  s ← get_submit r;
  if bool_decide (LIMBO = m_last_checkpointing s) then
    catch
      (status ← job_status_new_context (m_id s);
       events ← get_recovery_events (m_id s);
       if in_limbo status events then
         postpone r " waiting in limbo" match_retry_period;; mret true
       else update_submit r (set_checkpoint START);; mret true)
      (λ e, match e with LB_QueryFailed => Some (mret false) | _ => None end)
  else mret true.

(** The information a resubmission reads back from the LB. *)
Definition load_resubmission (r : nat) : M (Z * Z) :=
  s ← get_submit r;
  if bool_decide (m_command s = "jobresubmit") then
    info ← retrieve_lb_info (m_id s);
    let '(deep_count, shallow_count, previous_matches, previous_matches_simple) := info in
    job_ad_str ← get_original_jdl (m_id s);
    if bool_decide (job_ad_str = "") then throw CannotRetrieveJDL else
    job_ad ← of_option (ClassAdError job_ad_str) (parse_classad job_ad_str);
    let job_ad := set_edg_previous_matches job_ad previous_matches_simple in
    let job_ad := set_edg_previous_matches_ex job_ad previous_matches in
    update_submit r (set_ad job_ad);;
    mret (deep_count, shallow_count)
  else mret (0, 0).

(** The retry checks and the token of a resubmission. *)
Definition prepare_resubmission (r : nat) (deep_count shallow_count : Z)
    (token_file_str token_tmp_file_str : string) : M unit :=
  s ← get_submit r;
  let c := m_lb_context s in
  if bool_decide (m_command s = "jobresubmit") then
    if shallow_resubmission_is_enabled (m_ad s) then
      res ← rename token_file_str token_tmp_file_str;
      if negb (res =? 0) && negb (res =? ENOENT) then throw (CannotCreateToken "") else
      shallow ← fs_exists token_tmp_file_str;
      if shallow : bool then
        lift (check_shallow_count (m_ad s) shallow_count);;
        log_resubmission_shallow c token_file_str;; mret tt
      else
        lift (check_deep_count (m_ad s) deep_count);;
        log_resubmission_deep c token_file_str;;
        create_token token_tmp_file_str
    else
      lift (check_deep_count (m_ad s) deep_count);;
      log_resubmission_deep_disabled c;; mret tt
  else mret tt.

(** A first submission creates its token, unless it is a replan; [None] is the
    return on a replan that is already superseded. *)
Definition prepare_submission (r : nat) (replans_count : Z) (token_tmp_file_str : string)
    : M (option bool) :=
  s ← get_submit r;
  if bool_decide (m_command s = "jobsubmit") then
    let jdl_replans_count := default 0 (get_replans_count (m_ad s)) in
    if (0 <? jdl_replans_count) && (replans_count =? jdl_replans_count) then mret (Some true)
    else if (0 <? jdl_replans_count) && (jdl_replans_count <? replans_count) then mret None
    else
      (if shallow_resubmission_is_enabled (m_ad s) then
         found ← fs_exists token_tmp_file_str;
         if negb (found : bool) then create_token token_tmp_file_str else mret tt
       else mret tt);;
      mret (Some false)
  else mret (Some false).

(** From the number of replans on to the delivery. *)
Definition submit_counted (r : nat) (deep_count shallow_count replans_count : Z) : M unit :=
  s ← get_submit r;
  let token_file_str := get_reallyrunning_token (m_id s) replans_count in
  let token_tmp_file_str := token_file_str +:+ "." in
  prepare_resubmission r deep_count shallow_count token_file_str token_tmp_file_str;;
  replan ← prepare_submission r replans_count token_tmp_file_str;
  match replan with
  | None => mret tt
  | Some is_replan =>
      (if negb is_replan && shallow_resubmission_is_enabled (m_ad s) then
         res ← rename token_tmp_file_str token_file_str;
         if negb (res =? 0) then throw (CannotCreateToken "") else mret tt
       else mret tt);;
      unlink (path_join (job_dir (m_id s)) "Maradona.output");;
      wm_submit (m_ad s) (m_lb_context s) is_replan
  end.

(** From the result of the token scan on: the number in the name of the token. *)
Definition submit_single (r : nat) (deep_count shallow_count : Z) (last_token_file : option string)
    : M unit :=
  replans_count ←
    match last_token_file with
    | Some f =>
        n ← of_option (StdException "bad lexical cast")
              (lexical_cast_float (after_last_underscore f));
        update_submit r (λ s, set_ad (set_replans_count (m_ad s) n) s);;
        mret n
    | None => mret 0
    end;
  submit_counted r deep_count shallow_count replans_count.

Definition process_single (r : nat) : M unit :=
  proceed ← check_limbo r;
  if negb (proceed : bool) then mret tt else
  counts ← load_resubmission r;
  let '(deep_count, shallow_count) := counts : Z * Z in
  s ← get_submit r;
  cancelled ← fs_exists (get_cancel_token (m_id s));
  if cancelled : bool then
    log_cancelled (m_lb_context s);;
    log_done_cancelled (m_lb_context s);;
    purge (m_id s) "force_dag_node_removal"
  else
    leaves ← list_dir (job_dir (m_id s));
    match leaves with
    | None => mret tt
    | Some leaves =>
        last_token_file ← scan_tokens r (job_dir (m_id s)) leaves None;
        submit_single r deep_count shallow_count last_token_file
    end.

(** ** The processor *)

(** The catch clauses of [SubmitProcessor::operator()]. *)
Definition submit_handler (r : nat) (e : exn) : option (M unit) :=
  match e with
  | InvalidArgument _ | ManipulationException _ | GliteException _ =>
      Some (unrecoverable r (what e))
  | LB_QueryFailed => Some (unrecoverable r " failed (LB query failed)")
  | LB_QueryTemporarilyFailed =>
      Some (postpone r "LB query temporarily failed" match_retry_period)
  | HitMaxRetryCount n => Some (unrecoverable r ("hit max retry count (" +:+ pretty n +:+ ")"))
  | HitJobRetryCount n => Some (unrecoverable r ("hit job retry count (" +:+ pretty n +:+ ")"))
  | HitMaxShallowCount n =>
      Some (unrecoverable r ("hit shallow max retry count (" +:+ pretty n +:+ ")"))
  | HitJobShallowCount n =>
      Some (unrecoverable r ("hit job shallow retry count (" +:+ pretty n +:+ ")"))
  | CannotRetrieveJDL => Some (postpone r "cannot retrieve jdl" match_retry_period)
  | HelperError _ => Some (postpone r (what e) match_retry_period)
  | CannotCreateToken _ =>
      Some (postpone r "cannot create token for shallow resubmission" match_retry_period)
  | CannotDeliverFatal _ => Some (unrecoverable r " cannot deliver request")
  | CannotCreateLBContext _ => Some (unrecoverable r (what e +:+ ": ignoring request"))
  | MissingProxy _ | InvalidProxy _ | JobDirError _ | ClassAdError _ | MatchError _
  | StdException _ =>
      Some (unrecoverable r (what e))
  | UnknownException =>
      Some (unrecoverable r "unknown exception caught handling submit request")
  | AssertionFailed => None
  end.

(** [SubmitProcessor::operator()] *)
Definition submit_processor (r : nat) : M unit :=
  s ← get_submit r;
  proxy ←
    catch (b ← is_proxy_expired (m_id s); mret (inl b))
      (λ e, match e with
            | MissingProxy p =>
                Some (mret (inr ("X509 proxy not found or I/O error (" +:+ p +:+ ")")))
            | InvalidProxy p => Some (mret (inr ("invalid X509 proxy (" +:+ p +:+ ")")))
            | _ => None
            end);
  match proxy with
  | inr error_msg => unrecoverable r error_msg
  | inl true => unrecoverable r "proxy expired"
  | inl false =>
      expired ← is_request_expired (m_ad s) (m_created_at s);
      if expired : bool then unrecoverable r "request expired" else
      catch
        (match job_type (m_ad s) with
         | dag => process_dag r
         | collection => process_collection r
         | single => process_single r
         end)
        (submit_handler r)
  end.
End SubmitRequest.
