(* ===== verification/SubmitProps.v ===== *)
(** * Properties of the submit processor *)

From stdpp Require Import pretty.
From S2P Require Import Prelude.
From S2P Require Import EventQueue.
From S2P Require Import WmWorld.
From S2P Require Import LbUtils.
From S2P Require Import SubmissionUtils.
From S2P Require Import WmCommands.
From S2P Require Import WmReal.
From S2P Require Import SubmitRequest.

(** ** What does not deliver

    Every effect but the hand-over of a job to another service. *)
Definition no_delivery (f : effect) : bool :=
  match f with FDeliver _ _ _ => false | _ => true end.

#[export] Hint Extern 2 (steps (adds no_delivery) (emit _)) =>
  (intros ?; apply adds_emit; reflexivity) : steps.

Section NoDelivery.
Context `{CA : ClassAds} {CF : Config} {SV : Services}.

Notation nd := (adds no_delivery).

#[export] Instance nd_quiet : Quiet nd.
Proof. apply adds_quiet. by intros []. Qed.

Lemma nd_update r f : steps nd (update_submit r f).
Proof. unfold update_submit. walk. Qed.
Lemma nd_get_submit r : steps nd (get_submit r).
Proof. intros w. unfold get_submit. destruct (_ !! _); by apply adds_same. Qed.
#[local] Hint Resolve nd_update nd_get_submit : steps.

Lemma nd_unlink p : steps nd (unlink p).
Proof. unfold unlink. walk. Qed.
Lemma nd_rename a b : steps nd (rename a b).
Proof. unfold rename. walk. Qed.
Lemma nd_create_token p : steps nd (create_token p).
Proof. unfold create_token. walk. Qed.
Lemma nd_purge i h : steps nd (purge i h).
Proof. unfold purge. walk. Qed.
Lemma nd_list_dir d : steps nd (list_dir d).
Proof. unfold list_dir. walk. Qed.
Lemma nd_reschedule t p q : steps nd (reschedule t p q).
Proof. unfold reschedule, events_schedule_at. walk. Qed.
Lemma nd_schedule t q : steps nd (events_schedule t q).
Proof. unfold events_schedule. walk. Qed.
Lemma nd_JobId i : steps nd (JobId i).
Proof. unfold JobId. walk. Qed.
#[local] Hint Resolve nd_unlink nd_rename nd_create_token nd_purge nd_list_dir nd_reschedule
  nd_schedule nd_JobId : steps.

Lemma nd_abort_child c m i s : steps nd (log_abort_for_child c m i s).
Proof. unfold log_abort_for_child, log_abort. walk. Qed.
Lemma nd_abort_children c m l : steps nd (abort_children c m l).
Proof. induction l as [|[i s] l IH]; simpl; walk. apply nd_abort_child. Qed.
#[local] Hint Resolve nd_abort_children : steps.

Lemma nd_unrecoverable r m : steps nd (unrecoverable r m).
Proof. unfold unrecoverable, unrecoverable_collection, log_abort. walk. Qed.
Lemma nd_postpone r m p : steps nd (postpone r m p).
Proof. unfold postpone, log_pending. walk. Qed.
Lemma nd_expired a t : steps nd (is_request_expired a t).
Proof. unfold is_request_expired. walk. Qed.
#[local] Hint Resolve nd_unrecoverable nd_postpone nd_expired : steps.

Lemma nd_scan r d l f : steps nd (scan_tokens r d l f).
Proof. revert f; induction l as [|x l IH]; intros f; simpl; walk. Qed.
Lemma nd_check_limbo r : steps nd (check_limbo r).
Proof. unfold check_limbo. walk. Qed.
Lemma nd_load r : steps nd (load_resubmission r).
Proof. unfold load_resubmission, retrieve_lb_info, get_interesting_events. walk. Qed.
Lemma nd_prepare_resubmission r d s t u : steps nd (prepare_resubmission r d s t u).
Proof.
  unfold prepare_resubmission, log_resubmission_shallow, log_resubmission_deep,
    log_resubmission_deep_disabled. walk.
Qed.
Lemma nd_prepare_submission r n t : steps nd (prepare_submission r n t).
Proof. unfold prepare_submission. walk. Qed.
Lemma nd_handler r e k : submit_handler r e = Some k → steps nd k.
Proof. destruct e; simpl; intros [= <-]; walk. Qed.
End NoDelivery.

#[export] Hint Resolve nd_update nd_get_submit nd_unlink nd_rename nd_create_token nd_purge
  nd_list_dir nd_reschedule nd_schedule nd_JobId nd_abort_children nd_unrecoverable nd_postpone
  nd_expired nd_scan nd_check_limbo nd_load nd_prepare_resubmission nd_prepare_submission : steps.

(** ** What keeps the token files and the identity of a request *)

Section KeepsRequest.
Context `{CA : ClassAds} {CF : Config} {SV : Services}.
Context (r : nat).

(** The files, the job id and the command of request [r] are as before. *)
Definition same_request (w w' : world) : Prop :=
  keeps w_files w w' ∧
  keeps (λ w, (λ s, (m_id s, m_command s)) <$> w_submits w !! r) w w'.

#[export] Instance same_request_quiet : Quiet same_request.
Proof. apply meet_quiet; by apply keeps_quiet. Qed.

Lemma same_update f :
  (∀ s, m_id (f s) = m_id s ∧ m_command (f s) = m_command s) →
  steps same_request (update_submit r f).
Proof.
  intros Hf w. split; [done|]. unfold keeps; simpl. rewrite list_lookup_alter_eq.
  destruct (w_submits w !! r) as [s|]; simpl; [|done].
  destruct (Hf s) as [-> ->]. done.
Qed.

Lemma same_get : steps same_request (get_submit r).
Proof. intros w. unfold get_submit. destruct (_ !! _); apply quiet_refl. Qed.

Lemma same_reschedule t p q : steps same_request (reschedule t p q).
Proof.
  unfold reschedule, events_schedule_at.
  apply steps_bind; [apply _|eauto with steps|]. intros a. apply steps_modify. done.
Qed.
#[local] Hint Resolve same_get same_reschedule : steps.

Lemma same_postpone m p : steps same_request (postpone r m p).
Proof. unfold postpone, log_pending. walk. Qed.
#[local] Hint Resolve same_postpone : steps.

Lemma same_check_limbo : steps same_request (check_limbo r).
Proof. unfold check_limbo. walk; by apply same_update. Qed.

Lemma same_load : steps same_request (load_resubmission r).
Proof.
  unfold load_resubmission, retrieve_lb_info, get_interesting_events.
  walk; by apply same_update.
Qed.
End KeepsRequest.

Section SubmitTheorems.
Context `{CA : ClassAds} {CF : Config} {SV : Services}.
Notation nd := (adds no_delivery).

Lemma nd_run {A} (m : M A) w : steps nd m → nd w (m w).2.
Proof. intros H. apply H. Qed.

Lemma nd_trans w1 w2 w3 : nd w1 w2 → nd w2 w3 → nd w1 w3.
Proof. apply quiet_trans. Qed.

(** The checks a request has to pass before it is worked on. *)
Definition admissible (s : SubmitState) (w : world) : Prop :=
  ∃ w1, is_proxy_expired (m_id s) w = (Ok false, w1) ∧
        (is_request_expired (m_ad s) (m_created_at s) w1).1 = Ok false.

(** C6. A request whose proxy is missing, invalid or expired, or that has itself
    expired, delivers nothing, whatever its type and state. *)
Theorem inadmissible_not_delivered r s w :
  w_submits w !! r = Some s → ¬ admissible s w → adds no_delivery w (submit_processor r w).2.
Proof.
  intros Hs Hna. unfold submit_processor. rewrite bind_run. unfold get_submit at 1.
  rewrite Hs, bind_run. unfold catch at 1. rewrite bind_run.
  pose proof (steps_is_proxy_expired nd (m_id s) w) as H1.
  destruct (is_proxy_expired (m_id s) w) as [[[]|e] w1] eqn:E; simpl in H1.
  - simpl. eapply nd_trans; [exact H1|]. apply nd_unrecoverable.
  - cbn [mret M_ret]. rewrite bind_run.
    pose proof (nd_expired (m_ad s) (m_created_at s) w1) as H2.
    destruct (is_request_expired _ _ w1) as [[[]|e] w2] eqn:E2; simpl in H2.
    + eapply nd_trans; [exact H1|]. eapply nd_trans; [exact H2|]. apply nd_unrecoverable.
    + destruct Hna. exists w1. by rewrite E2.
    + eapply nd_trans; [exact H1|exact H2].
  - destruct e; simpl; try exact H1;
      (eapply nd_trans; [exact H1|apply nd_unrecoverable]).
Qed.

Lemma cancelled_single r s w :
  w_submits w !! r = Some s → get_cancel_token (m_id s) ∈ w_files w →
  adds no_delivery w (process_single r w).2.
Proof.
  intros Hs Htok. unfold process_single. rewrite bind_run.
  pose proof (nd_check_limbo r w) as N1. destruct (same_check_limbo r w) as [F1 I1].
  destruct (check_limbo r w) as [[[]|e] w1]; simpl in *; [|exact N1..].
  rewrite bind_run. pose proof (nd_load r w1) as N2. destruct (same_load r w1) as [F2 I2].
  destruct (load_resubmission r w1) as [[[d sh]|e] w2]; simpl in *;
    [|by eapply nd_trans].
  unfold keeps in *. rewrite bind_run. unfold get_submit.
  rewrite I1, Hs in I2. simpl in I2.
  destruct (w_submits w2 !! r) as [s2|] eqn:E2; [|done]. simpl in I2. injection I2 as Eid _.
  rewrite bind_run. unfold fs_exists, get. rewrite bind_run.
  rewrite Eid, F2, F1, bool_decide_eq_true_2 by done.
  eapply nd_trans; [exact N1|]. eapply nd_trans; [exact N2|].
  apply nd_run. unfold log_cancelled, log_done_cancelled. walk.
Qed.
Lemma expired_same r a t : steps (same_request r) (is_request_expired a t).
Proof. unfold is_request_expired. walk. Qed.

(** C7. A cancelled job is not delivered: whatever command it comes with, and whatever
    the checks of the proxy, of the expiry time, of limbo and of the LB events say, the
    submit processor hands nothing over for a job that is neither a DAG nor a collection
    and whose cancel token is there. *)
Theorem cancelled_not_delivered r s w :
  w_submits w !! r = Some s → job_type (m_ad s) = single →
  get_cancel_token (m_id s) ∈ w_files w → adds no_delivery w (submit_processor r w).2.
Proof.
  intros Hs Hty Htok. unfold submit_processor. rewrite bind_run. unfold get_submit at 1.
  rewrite Hs, bind_run. unfold catch at 1. rewrite bind_run, Hty.
  pose proof (steps_is_proxy_expired nd (m_id s) w) as N1.
  pose proof (steps_is_proxy_expired (same_request r) (m_id s) w) as [F1 I1].
  destruct (is_proxy_expired (m_id s) w) as [[[]|e] w1]; simpl in N1, F1, I1.
  - simpl. eapply nd_trans; [exact N1|]. apply nd_unrecoverable.
  - cbn [mret M_ret]. rewrite bind_run.
    pose proof (nd_expired (m_ad s) (m_created_at s) w1) as N2.
    destruct (expired_same r (m_ad s) (m_created_at s) w1) as [F2 I2].
    destruct (is_request_expired _ _ w1) as [[[]|e] w2]; simpl in N2, F2, I2.
    + eapply nd_trans; [exact N1|]. eapply nd_trans; [exact N2|]. apply nd_unrecoverable.
    + unfold keeps in *. rewrite I1, Hs in I2. simpl in I2.
      destruct (w_submits w2 !! r) as [s2|] eqn:E2; [|done]. simpl in I2. injection I2 as Eid _.
      assert (N3 : nd w2 (process_single r w2).2).
      { apply (cancelled_single r s2 w2 E2). rewrite Eid, F2, F1. done. }
      eapply nd_trans; [exact N1|]. eapply nd_trans; [exact N2|]. unfold catch.
      destruct (process_single r w2) as [[u|e] w3]; simpl in N3; [exact N3|].
      destruct (submit_handler r e) as [k|] eqn:Ek; [|exact N3].
      eapply nd_trans; [exact N3|]. by eapply nd_handler.
    + by eapply nd_trans.
  - destruct e; simpl; try exact N1; (eapply nd_trans; [exact N1|apply nd_unrecoverable]).
Qed.
End SubmitTheorems.

(** ** Resubmission limits and tokens *)

Section TokenTheorems.
Context `{CA : ClassAds} {RL : ReplansLaws (CA := CA)} {CF : Config} {SV : Services}.
Notation nd := (adds no_delivery).

(** [submit_planned] either finds the cancel token, and then delivers nothing,
    or leaves the files alone. *)
Definition nd_or_files (w w' : world) : Prop := nd w w' ∨ w_files w' = w_files w.

Lemma files_then_nd_or_files {A B} (m : M A) (f : A → M B) w :
  steps (λ w w', nd w w' ∧ keeps w_files w w') m →
  (∀ a w1, nd_or_files w1 (f a w1).2) → nd_or_files w ((m ≫= f) w).2.
Proof.
  intros Hm Hf. rewrite bind_run. destruct (Hm w) as [N1 F1].
  destruct (m w) as [[a|e] w1]; simpl in *; [|by left].
  destruct (Hf a w1) as [N2|F2]; [left; by eapply nd_trans|right; congruence].
Qed.

Lemma hand_over_files i c o x : steps (keeps w_files) (hand_over i c o x).
Proof.
  unfold hand_over, deliver, log_enqueued_ok, log_enqueued_fail.
  walk; intros ?; done.
Qed.

Lemma withdraw_files c w :
  nd w (withdraw_if_cancelled c w).2 ∧
  ((withdraw_if_cancelled c w).1 = Ok false →
   w_files (withdraw_if_cancelled c w).2 = w_files w).
Proof.
  split.
  - apply nd_run. unfold withdraw_if_cancelled, log_cancelled. walk.
  - unfold withdraw_if_cancelled, fs_exists, external, get. rewrite bind_run.
    destruct (_ =? 0); [|done]. unfold mbind, M_bind, mret, M_ret. cbn -[w_files get_cancel_token log_cancelled].
    case_bool_decide; [|done].
    destruct (log_cancelled c _) as [[?|?] ?]; done.
Qed.

Lemma submit_planned_files a c b w : nd_or_files w (submit_planned a c b w).2.
Proof.
  unfold submit_planned, log_match, log_usertag, log_enqueued_start.
  assert (Quiet (λ w w' : world, nd w w' ∧ keeps w_files w w')) by apply _.
  do 5 (apply files_then_nd_or_files; [solve [walk]|intros; cbv zeta]).
  rewrite bind_run. destruct (withdraw_files c w4) as [N F].
  destruct (withdraw_if_cancelled c w4) as [[[]|e] w5]; simpl in *; [by left| |by left].
  right. rewrite <- F by done. apply hand_over_files.
Qed.

Lemma wm_submit_files a c b w : nd_or_files w (wm_submit a c b w).2.
Proof.
  unfold wm_submit.
  do 3 (apply files_then_nd_or_files; [solve [walk]|intros; cbv zeta]).
  apply submit_planned_files.
Qed.

Lemma get_submit_run r s w : w_submits w !! r = Some s → get_submit r w = (Ok s, w).
Proof. intros H. unfold get_submit. by rewrite H. Qed.

(** After a successful [rename] the target exists. *)
Lemma rename_target from to w :
  (rename from to w).1 = Ok 0 → to ∈ w_files (rename from to w).2.
Proof.
  unfold rename, external, get, emit, modify, mbind, M_bind, mret, M_ret.
  set (res := if negb _ then _ else _). destruct (res =? 0) eqn:E; simpl.
  - set_solver.
  - intros [= H]. by rewrite H in E.
Qed.

(** [unlink] removes no other file. *)
Lemma unlink_others p w q : q ∈ w_files w → q ≠ p → q ∈ w_files (unlink p w).2.
Proof. unfold unlink, emit, modify, mbind, M_bind; simpl. set_solver. Qed.

(** A request that is created is the last of the requests. *)
Lemma new_SubmitState_last command_ad cmd id sc proxy lb cl ck w n w' :
  new_SubmitState command_ad cmd id sc proxy lb cl ck w = (Ok n, w') →
  n = length (w_submits w) ∧ w_queue w' = w_queue w ∧
  ∃ a now, w_submits w' = w_submits w ++ [mkSubmit cmd id sc proxy lb cl ck [] now a false]
    ∧ (cmd = "jobsubmit" → submit_command_remove_ad command_ad = Some a).
Proof.
  unfold new_SubmitState, external. rewrite bind_run.
  set (m := if bool_decide (cmd = "jobsubmit") then _ else _).
  assert (Hm : ∀ w1 : world, (m w1).2 = w1 ∧ ∀ a, (m w1).1 = Ok a → cmd = "jobsubmit" →
    submit_command_remove_ad command_ad = Some a).
  { intros w1. unfold m, of_option. repeat case_match; simpl; split; intros; by simplify_eq. }
  rewrite bind_run. destruct (Hm (tick w)) as [Hw Ha]. unfold tick in *.
  destruct (m _) as [[a|e] w1]; simpl in *; [|done]. subst w1.
  intros [= <- <-]. eauto 10.
Qed.

Lemma counted_limits r s d sh n w :
  w_submits w !! r = Some s → m_command s = "jobresubmit" →
  check_deep_count (m_ad s) d ≠ Ok tt → check_shallow_count (m_ad s) sh ≠ Ok tt →
  adds no_delivery w (submit_counted r d sh n w).2 ∧ ∃ e, (submit_counted r d sh n w).1 = Throw e.
Proof.
  intros Hs Hc Hd Hsh. unfold submit_counted.
  rewrite bind_run. rewrite (get_submit_run _ _ _ Hs). cbv zeta. rewrite bind_run.
  set (tok := get_reallyrunning_token (m_id s) n).
  pose proof (nd_prepare_resubmission r d sh tok (tok +:+ ".") w) as N.
  enough (∃ e, (prepare_resubmission r d sh tok (tok +:+ ".") w).1 = Throw e) as [e He].
  { destruct (prepare_resubmission _ _ _ _ _ w) as [[u|x] w1]; simpl in *; [done|].
    split; [exact N|by exists x]. }
  assert (∃ e, check_deep_count (m_ad s) d = Throw e) as [e1 E1].
  { destruct (check_deep_count (m_ad s) d) as [[]|e]; [done|by exists e]. }
  assert (∃ e, check_shallow_count (m_ad s) sh = Throw e) as [e2 E2].
  { destruct (check_shallow_count (m_ad s) sh) as [[]|e]; [done|by exists e]. }
  unfold prepare_resubmission. rewrite bind_run. unfold get_submit. rewrite Hs. cbv zeta.
  rewrite bool_decide_eq_true_2 by done. rewrite E1, E2.
  destruct (shallow_resubmission_is_enabled (m_ad s)).
  2:{ rewrite bind_run. cbn [lift]. by exists e1. }
  rewrite bind_run. destruct (rename _ _ w) as [[z|x] w1]; [|by exists x].
  case_test; [by exists (CannotCreateToken "")|]. rewrite bind_run.
  unfold fs_exists, get. rewrite bind_run. cbn -[w_files].
  case_bool_decide; rewrite bind_run; cbn [lift]; eauto.
Qed.

(** The number of replans that the scan for tokens gives, and the job description that
    goes on: [None] when the name of the token has no number. *)
Definition scanned (last_token_file : option string) (a : ad) : option (Z * ad) :=
  match last_token_file with
  | Some f => n ← lexical_cast_float (after_last_underscore f); Some (n, set_replans_count a n)
  | None => Some (0, a)
  end.

Lemma submit_single_scanned r s d sh last w :
  w_submits w !! r = Some s →
  match scanned last (m_ad s) with
  | None => ∃ e, submit_single r d sh last w = (Throw e, w)
  | Some (n, a) => ∃ w1, submit_single r d sh last w = submit_counted r d sh n w1 ∧
      w_submits w1 !! r = Some (set_ad a s) ∧ w_files w1 = w_files w ∧ adds no_delivery w w1
  end.
Proof.
  intros Hs. unfold submit_single, scanned. destruct last as [f|].
  - destruct (lexical_cast_float _) as [n|]; cbn [mbind option_bind]; [|eexists; reflexivity].
    eexists. split; [reflexivity|]. split_and!; [|done|by apply adds_same].
    simpl. by rewrite list_lookup_alter_eq, Hs.
  - exists w. destruct s. split_and!; try done. by apply quiet_refl.
Qed.

(** C27. The limits bind: from the scan for tokens on, whatever it found, a
    resubmission whose deep and shallow counts have both reached their limits delivers
    nothing and ends with an exception (which aborts the job, or postpones it when the
    token cannot be renamed). *)
Theorem resubmission_limits r s d sh last w :
  w_submits w !! r = Some s → m_command s = "jobresubmit" →
  check_deep_count (m_ad s) d ≠ Ok tt → check_shallow_count (m_ad s) sh ≠ Ok tt →
  adds no_delivery w (submit_single r d sh last w).2 ∧
  ∃ e, (submit_single r d sh last w).1 = Throw e.
Proof.
  intros Hs Hc Hd Hsh. pose proof (submit_single_scanned r s d sh last w Hs) as H.
  destruct (scanned last (m_ad s)) as [[n a]|] eqn:Esc.
  2:{ destruct H as [e ->]. split; [by apply quiet_refl|by exists e]. }
  destruct H as (w1&->&Hs1&_&Hnd).
  assert ( check_deep_count a d = check_deep_count (m_ad s) d
                    ∧ check_shallow_count a sh = check_shallow_count (m_ad s) sh) as [E1 E2].
  { unfold scanned in Esc. destruct last; [|by injection Esc as _ ->].
    destruct (lexical_cast_float _); [|done]. injection Esc as _ <-.
    unfold check_deep_count, check_shallow_count.
    by rewrite get_retry_set_replans, get_shallow_set_replans. }
  rewrite <- E1 in Hd. rewrite <- E2 in Hsh.
  destruct (counted_limits r (set_ad a s) d sh n w1 Hs1 Hc Hd Hsh) as [H1 H2].
  split; [by eapply nd_trans|exact H2].
Qed.

Lemma scanned_counts last n a a' :
  scanned last a = Some (n, a') →
  get_shallow_retry_count a' = get_shallow_retry_count a
  ∧ (last ≠ None → get_replans_count a' = Some n) ∧ (last = None → n = 0).
Proof.
  unfold scanned. destruct last as [f|].
  - destruct (lexical_cast_float _) as [x|]; [|done]. intros [= <- <-].
    by rewrite get_shallow_set_replans, get_set_replans_count.
  - by intros [= <- <-].
Qed.

(** A replan that is not superseded: the job is planned again under the same token. *)
Definition is_superseding (s : SubmitState) (n : Z) : bool :=
  bool_decide (m_command s = "jobsubmit")
  && ((0 <? default 0 (get_replans_count (m_ad s))) && (n =? default 0 (get_replans_count (m_ad s)))).

Lemma prepare_resubmission_state r d sh t u : steps (keeps w_submits) (prepare_resubmission r d sh t u).
Proof.
  assert (steps (keeps w_submits) (get_submit r)).
  { intros w. unfold get_submit. by destruct (_ !! _). }
  unfold prepare_resubmission, log_resubmission_shallow, log_resubmission_deep,
    log_resubmission_deep_disabled, rename, create_token. walk.
Qed.

Lemma prepare_submission_replan r s n t w b w1 :
  w_submits w !! r = Some s → prepare_submission r n t w = (Ok (Some b), w1) →
  b = is_superseding s n ∧ (b = true → w1 = w).
Proof.
  intros Hs. unfold prepare_submission, is_superseding. rewrite bind_run, (get_submit_run _ _ _ Hs).
  case_bool_decide; cbn [andb]; [|intros [= <- <-]; done].
  destruct ((0 <? _) && (n =? _)); [intros [= <- <-]; done|].
  destruct (_ && _); [done|]. rewrite bind_run.
  destruct (_ w) as [[u|e] w2]; [|done]. intros [= <- _]. done.
Qed.

Lemma prepare_submit_command r s d sh t u w :
  w_submits w !! r = Some s → m_command s = "jobsubmit" →
  prepare_resubmission r d sh t u w = (Ok tt, w).
Proof.
  intros Hs Hc. unfold prepare_resubmission. rewrite bind_run, (get_submit_run _ _ _ Hs).
  by rewrite bool_decide_eq_false_2 by (by rewrite Hc).
Qed.

(** What is left to do keeps a file that is not the one with the output of Maradona. *)
Lemma delivered_keeps p a c b w :
  (∀ q, q ∈ w_files w → q ≠ p → q ∈ w_files (unlink p w).2) ∧
  (adds no_delivery w ((unlink p;; wm_submit a c b) w).2 ∨
   w_files ((unlink p;; wm_submit a c b) w).2 = w_files (unlink p w).2).
Proof.
  split; [intros; by apply unlink_others|]. rewrite bind_run.
  pose proof (nd_unlink p w) as N. destruct (unlink p w) as [[[]|e] w1]; simpl in N; [|by left].
  simpl. destruct (wm_submit_files a c b w1) as [N1|F1]; [left; by eapply nd_trans|by right].
Qed.

Lemma counted_token r s d sh n w :
  w_submits w !! r = Some s → shallow_resubmission_is_enabled (m_ad s) = true →
  token_file +:+ "_" +:+ pretty n ≠ "Maradona.output" →
  ¬ adds no_delivery w (submit_counted r d sh n w).2 →
  if is_superseding s n
  then ∀ f, f ∈ w_files w → f ≠ path_join (job_dir (m_id s)) "Maradona.output" →
         f ∈ w_files (submit_counted r d sh n w).2
  else get_reallyrunning_token (m_id s) n ∈ w_files (submit_counted r d sh n w).2.
Proof.
  intros Hs Hsh Hmar. unfold submit_counted. rewrite bind_run, (get_submit_run _ _ _ Hs). cbv zeta.
  set (tok := get_reallyrunning_token (m_id s) n).
  set (mara := path_join (job_dir (m_id s)) "Maradona.output").
  rewrite bind_run. pose proof (nd_prepare_resubmission r d sh tok (tok +:+ ".") w) as N1.
  pose proof (prepare_resubmission_state r d sh tok (tok +:+ ".") w) as K1. unfold keeps in K1.
  pose proof (prepare_submit_command r s d sh tok (tok +:+ ".") w Hs) as Hsub.
  destruct (prepare_resubmission r d sh tok (tok +:+ ".") w) as [[[]|e] w1]; [|done].
  simpl in N1, K1. rewrite bind_run.
  assert (Hs1 : w_submits w1 !! r = Some s) by (by rewrite K1).
  pose proof (nd_prepare_submission r n (tok +:+ ".") w1) as N2.
  pose proof (prepare_submission_replan r s n (tok +:+ ".") w1) as Hrep.
  destruct (prepare_submission r n (tok +:+ ".") w1) as [[rp|e] w2]; simpl in N2.
  2:{ intros H; destruct H. by eapply nd_trans. }
  destruct rp as [b|]; [|intros H; destruct H; by eapply nd_trans].
  destruct (Hrep b w2 Hs1 eq_refl) as [-> Hw2]. pose proof (nd_trans _ _ _ N1 N2) as N.
  destruct (is_superseding s n) eqn:Esup; cbn [negb andb].
  - rewrite bind_run. cbn [mret M_ret]. intros Hdel f Hf Hm.
    assert (Hc : m_command s = "jobsubmit").
    { unfold is_superseding in Esup. apply andb_true_iff in Esup as [Ec _]. by apply bool_decide_eq_true in Ec. }
    specialize (Hsub Hc). injection Hsub as ->. specialize (Hw2 eq_refl). subst w2.
    destruct (delivered_keeps mara (m_ad s) (m_lb_context s) true w) as [Hk [Hn|Hfs]]; [done|].
    rewrite Hfs. by apply Hk.
  - rewrite Hsh. cbn [negb andb]. rewrite !bind_run.
    pose proof (nd_rename (tok +:+ ".") tok w2) as N3.
    pose proof (rename_target (tok +:+ ".") tok w2) as Hin.
    destruct (rename (tok +:+ ".") tok w2) as [[z|e] w3]; simpl in N3, Hin.
    2:{ intros H; destruct H. by eapply nd_trans. }
    destruct (z =? 0) eqn:Ez; cbn [negb].
    2:{ intros H; destruct H. by eapply nd_trans. }
    breflect. subst z. specialize (Hin eq_refl). cbn [mret M_ret]. intros Hdel.
    destruct (delivered_keeps mara (m_ad s) (m_lb_context s) false w3) as [Hk [Hn|Hfs]].
    + destruct Hdel. eapply nd_trans; [exact N|]. by eapply nd_trans.
    + rewrite Hfs. apply Hk; [done|]. unfold tok, mara, get_reallyrunning_token, path_join.
      intros Heq. apply (inj (String.append _)), (inj (String.append "/")) in Heq. exact (Hmar Heq).
Qed.

(** C5. A job is never handed over without its token: when, from the scan for tokens on,
    whatever it found, a job with shallow resubmission enabled is delivered, then its
    reallyrunning token exists, with the number of replans that the scan gave; for a
    replan, which has a positive number and creates no token, the file that the scan
    found is still there. *)
Theorem token_at_delivery r s d sh last n a w :
  w_submits w !! r = Some s → scanned last (m_ad s) = Some (n, a) →
  shallow_resubmission_is_enabled (m_ad s) = true →
  token_file +:+ "_" +:+ pretty n ≠ "Maradona.output" →
  ¬ adds no_delivery w (submit_single r d sh last w).2 →
  if bool_decide (m_command s = "jobsubmit") && (0 <? n) then
    ∀ f, last = Some f → f ∈ w_files w → f ≠ path_join (job_dir (m_id s)) "Maradona.output" →
      f ∈ w_files (submit_single r d sh last w).2
  else get_reallyrunning_token (m_id s) n ∈ w_files (submit_single r d sh last w).2.
Proof.
  intros Hs Hsc Hsh Hmar. pose proof (submit_single_scanned r s d sh last w Hs) as H.
  rewrite Hsc in H. destruct H as (w1&->&Hs1&Hf1&Hnd1). intros Hdel.
  assert (Hdel1 : ¬ adds no_delivery w1 (submit_counted r d sh n w1).2)
    by (intros H1; apply Hdel; by eapply nd_trans).
  destruct (scanned_counts last n (m_ad s) a Hsc) as (Hen&Hrep&H0).
  assert (Hsh1 : shallow_resubmission_is_enabled (m_ad (set_ad a s)) = true).
  { unfold shallow_resubmission_is_enabled, get_job_shallow_count in *. simpl. by rewrite Hen. }
  pose proof (counted_token r (set_ad a s) d sh n w1 Hs1 Hsh1 Hmar Hdel1) as H1.
  unfold is_superseding in H1. cbn [m_command m_ad m_id set_ad] in H1.
  destruct (bool_decide (m_command s = "jobsubmit")); cbn [andb] in *; [|exact H1].
  destruct last as [f|].
  - rewrite Hrep in H1 by done. simpl in H1. unfold id in H1. rewrite Z.eqb_refl, andb_true_r in H1.
    destruct (0 <? n); [|exact H1]. intros f' [= <-] Hf Hm. apply H1; [by rewrite Hf1|done].
  - rewrite H0 in * by done. destruct (0 <? _) eqn:E in H1; [|exact H1].
    cbn [andb] in H1. destruct (Z.eqb_spec 0 (default 0 (get_replans_count a))) as [E0|]; [|exact H1].
    breflect. lia.
Qed.
End TokenTheorems.

(** ** Limbo *)

Section Limbo.
Context `{CA : ClassAds} {CF : Config} {SV : Services}.

(** A request is queued to be processed again later. *)
Definition postponed (r : nat) (w : world) : Prop :=
  ∃ t, (mkTP t submit_priority, TSubmit r) ∈ waiting (w_queue w).

(** The wait in limbo does not wait: for a request the events put in limbo
    the check postpones the request and lets the processing go on, so the job
    is worked on now and once more later. *)
Theorem limbo_falls_through r s w status w1 events w2 b w3 :
  w_submits w !! r = Some s → m_last_checkpointing s = LIMBO →
  job_status_new_context (m_id s) w = (Ok status, w1) →
  get_recovery_events (m_id s) w1 = (Ok events, w2) →
  in_limbo status events = true →
  w_submits w2 !! r = Some s →
  log_pending (m_lb_context s) " waiting in limbo" w2 = (Ok b, w3) →
  let '(res, w') := check_limbo r w in res = Ok true ∧ postponed r w'.
Proof.
  intros Hs Hc Hst Hev Hl Hs2 Hlog. unfold check_limbo.
  rewrite bind_run, (get_submit_run _ _ _ Hs), bool_decide_eq_true_2 by done.
  unfold catch. rewrite bind_run, Hst, bind_run, Hev, Hl, bind_run. unfold postpone.
  rewrite bool_decide_eq_false_2 by done.
  rewrite bind_run, bind_run, (get_submit_run _ _ _ Hs2), bind_run, Hlog.
  split; [done|]. eexists. apply mm_insert_elem.
Qed.
End Limbo.

(** ** Dependencies of DAG nodes *)

Section Dags.
Context `{CA : ClassAds} {CL : ClassAdLaws (CA := CA)} {CF : Config} {SV : Services}.
Context (r : nat).

(** What a request stands for: its command, its job, its owner and its description. *)
Definition identity (s : SubmitState) : string * string * cleanup * ad :=
  (m_command s, m_id s, m_cleanup s, m_ad s).
Definition identity_of (w : world) (n : nat) : option (string * string * cleanup * ad) :=
  identity <$> w_submits w !! n.

(** The first submission of the node [name] of the DAG [r], with its own description. *)
Definition node_request (name : string) (node_jdl : ad) (id : string) :=
  ("jobsubmit", id, RemoveNodeFromCollection name r, set_lb_sequence_code node_jdl "").

(** What is made ready are the processors of new requests for nodes that satisfy [P],
    and no request changes what it stands for. *)
Definition only_queued (P : string → ad → Prop) (w w' : world) : Prop :=
  (∀ n i, identity_of w n = Some i → identity_of w' n = Some i) ∧
  (∀ e, e ∈ ready (w_queue w') → e ∈ ready (w_queue w) ∨
     ∃ n name node_jdl id, e.2 = TSubmit n ∧ P name node_jdl ∧ get_edg_jobid node_jdl = Some id ∧
       identity_of w' n = Some (node_request name node_jdl id)).

#[export] Instance only_queued_quiet P : Quiet (only_queued P).
Proof.
  constructor; try (intros; split; auto; fail).
  intros w1 w2 w3 [A1 B1] [A2 B2]. split; [auto|]. intros e He.
  destruct (B2 e He) as [H|H]; [|by right].
  destruct (B1 e H) as [?|(n&name&a&i&?&?&?&?)]; [by left|right; eauto 10].
Qed.

Lemma only_queued_mono (P P' : string → ad → Prop) w w' :
  (∀ name a, P name a → P' name a) → only_queued P w w' → only_queued P' w w'.
Proof.
  intros HP [A B]. split; [done|]. intros e He.
  destruct (B e He) as [?|(n&name&a&i&?&?&?&?)]; [by left|right; eauto 10].
Qed.

Section steps.
Context (P : string → ad → Prop).

(** Steps that keep the ready queue and what every request stands for. *)
Lemma oq_update w f :
  (∀ n i, identity_of w n = Some i → identity_of (set_submits (f (w_submits w)) w) n = Some i) →
  only_queued P w (set_submits (f (w_submits w)) w).
Proof. intros H. split; [done|]. by left. Qed.

Lemma oq_alter k f w :
  (∀ s, identity (f s) = identity s) → only_queued P w (set_submits (alter f k (w_submits w)) w).
Proof.
  intros Hf. apply (oq_update w (alter f k)). intros n i. unfold identity_of; simpl.
  rewrite list_lookup_alter. case_decide; [|done]. subst k.
  destruct (w_submits w !! n); simpl; [by rewrite Hf|done].
Qed.

Lemma oq_get k : steps (only_queued P) (get_submit k).
Proof. intros w. unfold get_submit. destruct (_ !! _); apply quiet_refl. Qed.

Lemma oq_JobId i : steps (only_queued P) (JobId i).
Proof. unfold JobId. walk. Qed.

Lemma oq_new a c i sc p x cl ck : steps (only_queued P) (new_SubmitState a c i sc p x cl ck).
Proof.
  unfold new_SubmitState. walk. intros w.
  apply (oq_update w (λ l, l ++ [_])). intros n k. unfold identity_of; simpl.
  destruct (w_submits w !! n) as [s|] eqn:E; [|done]. by rewrite (lookup_app_l_Some _ _ _ _ E).
Qed.

Lemma oq_unlink p : steps (only_queued P) (unlink p).
Proof.
  unfold unlink. apply steps_bind; [apply _| |intros _];
    [apply steps_emit|apply steps_modify]; intros w; (split; [done|by left]).
Qed.

Lemma oq_reschedule t p q : steps (only_queued P) (reschedule t p q).
Proof.
  unfold reschedule, events_schedule_at. apply steps_bind; [apply _|eauto with steps|].
  intros now. apply steps_modify. intros w. split; [done|by left].
Qed.
#[local] Hint Resolve oq_get oq_JobId oq_new oq_unlink oq_reschedule : steps.

Lemma oq_unrecoverable k m : steps (only_queued P) (unrecoverable k m).
Proof.
  unfold unrecoverable, unrecoverable_collection, log_abort. walk.
  generalize (m_lb_context a0). intros c. generalize l. intros l'. clear.
  induction l' as [|[i s] l' IH]; simpl; walk. unfold log_abort_for_child, log_abort. walk.
Qed.

Lemma oq_update_submit k f : (∀ s, identity (f s) = identity s) → steps (only_queued P) (update_submit k f).
Proof. intros Hf w. by apply oq_alter. Qed.

Lemma oq_destroy k : steps (only_queued P) (destroy_submit k).
Proof.
  unfold destroy_submit, run_cleanup, remove_node_from_collection. walk.
  - by apply oq_update_submit.
  - apply steps_emit. intros w. split; [done|by left].
  - by apply oq_update_submit.
Qed.

Lemma oq_finally {A} (m : M A) fin :
  steps (only_queued P) m → steps (only_queued P) fin → steps (only_queued P) (finally m fin).
Proof.
  intros Hm Hf w. unfold finally. specialize (Hm w). destruct (m w) as [x w1].
  specialize (Hf w1). destruct (fin w1). simpl in *. by eapply quiet_trans.
Qed.

Lemma oq_abort_node name a : steps (only_queued P) (abort_node r name a).
Proof.
  unfold abort_node, node_jobid. walk. apply oq_finally; [apply oq_unrecoverable|apply oq_destroy].
Qed.

Lemma oq_dag_assess nodes colors : steps (only_queued P) (dag_assess r nodes colors).
Proof.
  revert colors. induction nodes as [|[name a] rest IH]; intros colors; simpl; [walk|].
  unfold assess_node, node_jobid, job_status, get_recovery_events. walk.
Qed.

(** A new request for a node. *)
Lemma oq_queue_new name id a :
  P name a → get_edg_jobid a = Some id → steps (only_queued P) (queue_new_submit_request name id a r).
Proof.
  intros HP Hid. unfold queue_new_submit_request.
  apply steps_bind; [apply _|walk|intros s; cbv zeta].
  apply steps_bind; [apply _|walk|intros c w]. rewrite bind_run.
  set (b := set_lb_sequence_code a "").
  pose proof (oq_new (WmCommands.submit_command_create b) "jobsubmit" id "" (m_x509_proxy s) c
    (RemoveNodeFromCollection name r) START w) as [A B].
  destruct (new_SubmitState _ _ _ _ _ _ _ _ w) as [[n|e] w1] eqn:E; simpl in A, B; [|done].
  apply new_SubmitState_last in E as (->&Eq&a'&now&E&Ha). specialize (Ha eq_refl).
  rewrite create_remove_ad in Ha. injection Ha as <-.
  split; [exact A|]. intros e. simpl. rewrite mm_insert_Permutation, elem_of_cons.
  intros [-> |He']; [|rewrite Eq in He'; by left]. right.
  eexists _, name, a, id. split_and!; [done..|]. unfold identity_of; simpl. rewrite E.
  by rewrite list_lookup_middle.
Qed.
End steps.

(** *** What the first loop finds out *)

(** On the way from [w] to [w'] the LB server has reported the state of a job, and has
    answered the query for its events. *)
Definition reported (w w' : world) (id : string) (st : job_stat) : Prop :=
  ∃ n, (w_tick w ≤ n < w_tick w')%nat ∧ sv_status n id = Some st.
Definition told (w w' : world) (id : string) (answer : res (list lb_event)) : Prop :=
  ∃ w1 w2, later w w1 ∧ get_recovery_events id w1 = (answer, w2) ∧ later w2 w'.

(** A node that has been found not submitted yet; or done, while the query for its
    events has failed for a moment. *)
Definition unsubmitted (w w' : world) (a : ad) : Prop :=
  ∃ id st, get_edg_jobid a = Some id ∧ reported w w' id st ∧
    (js_state st = JOB_SUBMITTED ∨
     js_state st = JOB_DONE ∧ told w w' id (Throw LB_QueryTemporarilyFailed)).

(** A node that has been found done, with success. *)
Definition succeeded (w w' : world) (a : ad) : Prop :=
  ∃ id st events, get_edg_jobid a = Some id ∧ reported w w' id st ∧ js_state st = JOB_DONE ∧
    told w w' id (Ok events) ∧ is_last_done events DONE_OK = true.

Lemma reported_within w w1 w2 w' id st : later w w1 → reported w1 w2 id st → later w2 w' → reported w w' id st.
Proof. unfold reported, later. intros H1 (n&H2&E) H3. exists n. split; [lia|done]. Qed.
Lemma reported_mono w w1 w' id st : reported w w1 id st → later w1 w' → reported w w' id st.
Proof. unfold reported, later. intros (n&H2&E) H3. exists n. split; [lia|done]. Qed.
Lemma told_within w w1 w2 w' id x : later w w1 → told w1 w2 id x → later w2 w' → told w w' id x.
Proof. unfold told, later. intros H1 (a&b&H2&E&H3) H4. exists a, b. split_and!; [lia|done|lia]. Qed.

Lemma unsubmitted_within w w1 w2 w' a : later w w1 → unsubmitted w1 w2 a → later w2 w' → unsubmitted w w' a.
Proof.
  intros H1 (id&st&E&Hr&Hs) H2. exists id, st. split_and!; [done|by eapply reported_within|].
  destruct Hs as [?|[? Ht]]; [by left|right]. split; [done|]. by eapply told_within.
Qed.
Lemma succeeded_within w w1 w2 w' a : later w w1 → succeeded w1 w2 a → later w2 w' → succeeded w w' a.
Proof.
  intros H1 (id&st&evs&E&Hr&Hs&Ht&Hd) H2. exists id, st, evs.
  split_and!; [done|by eapply reported_within|done|by eapply told_within|done].
Qed.

Lemma node_jobid_run a w :
  node_jobid a w = match get_edg_jobid a with
                   | Some id => if jobid_ok id then (Ok id, w) else (Throw (StdException id), w)
                   | None => (Throw (ManipulationException "edg_jobid"), w)
                   end.
Proof. unfold node_jobid. rewrite bind_run. destruct (get_edg_jobid a); [|done]. cbn. unfold JobId. by case_match. Qed.

Lemma later_assess_node name a colors : steps later (assess_node r name a colors).
Proof.
  assert (steps later (get_submit r)).
  { intros w. unfold get_submit. unfold later. destruct (w_submits w !! r); simpl; lia. }
  unfold assess_node, node_jobid, JobId, job_status, get_recovery_events, reschedule, events_schedule_at. walk.
Qed.

Lemma later_assess nodes colors : steps later (dag_assess r nodes colors).
Proof.
  revert colors. induction nodes as [|[name a] rest IH]; intros colors; simpl; [walk|].
  apply steps_bind; [apply _|apply later_assess_node|]. intros c. walk.
Qed.

(** The colour a node gets, and what it stands for. *)
Definition justified (w w' : world) (a : ad) (c : color) : Prop :=
  (c = white_color → unsubmitted w w' a) ∧ (c = green_color → succeeded w w' a).

Lemma justified_within w w1 w2 w' a c :
  later w w1 → justified w1 w2 a c → later w2 w' → justified w w' a c.
Proof.
  intros H1 [Hw Hg] H2.
  split; intros Hc; [eapply unsubmitted_within|eapply succeeded_within]; by eauto.
Qed.

Lemma assess_node_ok name a colors w colors' w' :
  assess_node r name a colors w = (Ok (Some colors'), w') → colors !! name = None →
  ∃ c, justified w w' a c ∧ color_of colors' name = c ∧ ∀ n, n ≠ name → colors' !! n = colors !! n.
Proof.
  intros H Hnone. pose proof (later_assess_node name a colors w) as Hl. rewrite H in Hl. simpl in Hl.
  unfold assess_node in H. rewrite bind_run, node_jobid_run in H.
  destruct (get_edg_jobid a) as [id|] eqn:Eid; [|done]. destruct (jobid_ok id); [|done].
  rewrite bind_run in H. unfold get_submit at 1 in H. destruct (w_submits w !! r) as [s|]; [|done].
  unfold job_status in H. rewrite bind_run in H. cbn [external] in H.
  destruct (sv_status (w_tick w) id) as [st|] eqn:Est; [|done]. rewrite bind_run in H. cbn [mret M_ret] in H.
  assert (Hrep : reported w (tick w) id st) by (exists (w_tick w); simpl; split; [lia|done]).
  assert (Hany : ∀ c, justified w w' a c → colors' = <[name:=c]> colors →
    ∃ c, justified w w' a c ∧ color_of colors' name = c ∧ ∀ n, n ≠ name → colors' !! n = colors !! n).
  { intros c Hj ->. exists c. split_and!; [done|by unfold color_of; rewrite lookup_insert_eq|].
    intros. by rewrite lookup_insert_ne. }
  destruct (is_aborted (Some st) || is_cancelled (Some st)).
  { injection H as <- <-. by apply (Hany red_color). }
  destruct (is_done (Some st)) eqn:Ed.
  - unfold is_done, in_state in Ed. apply bool_decide_eq_true in Ed.
    unfold catch in H. rewrite bind_run in H. set (w1 := tick w) in *.
    change (mkWorld _ _ _ _ _ _ _ _) with w1 in H.
    pose proof (steps_do_query later (mkQuery id ["ENQUEUED"; "DONE"]
      [SOURCE_WORKLOAD_MANAGER; SOURCE_LOG_MONITOR]) false w1) as Hq.
    change (do_query_events _ _) with (get_recovery_events id) in Hq.
    destruct (get_recovery_events id w1) as [[evs|e] w2] eqn:Ee; simpl in Hq.
    + injection H as <- <-. eapply Hany; [|reflexivity].
      split; destruct (is_last_done evs DONE_OK) eqn:El; try done. intros _.
      exists id, st, evs. split_and!; [done|eapply reported_mono; [exact Hrep|done]|done| |done].
      exists w1, w2. split_and!; [unfold later, w1; simpl; lia|done|by unfold later].
    + destruct e; try done; cbn in H.
      injection H as <- <-. exists white_color. split_and!; [|unfold color_of; by rewrite Hnone|done].
      split; [|done]. intros _. exists id, st.
      split_and!; [done|eapply reported_mono; [exact Hrep|unfold later in *; simpl in *; lia]|right].
      split; [done|]. exists w1, w2. split_and!; [unfold later, w1; simpl; lia|done|].
      unfold later; simpl; lia.
  - destruct (is_submitted (Some st)) eqn:Es.
    + injection H as <- <-. apply (Hany white_color); [|done]. split; [|done]. intros _.
      unfold is_submitted, in_state in Es. apply bool_decide_eq_true in Es.
      exists id, st. split_and!; [done|done|by left].
    + injection H as <- <-. by apply (Hany gray_color).
Qed.

(** The colours the first loop ends with. *)
Lemma dag_assess_ok nodes colors w colors' w' :
  NoDup nodes.*1 → (∀ n, n ∈ nodes.*1 → colors !! n = None) →
  dag_assess r nodes colors w = (Ok (Some colors'), w') →
  (∀ n, n ∉ nodes.*1 → colors' !! n = colors !! n) ∧
  ∀ n a, (n, a) ∈ nodes → justified w w' a (color_of colors' n).
Proof.
  revert colors w. induction nodes as [|[name a] rest IH]; intros colors w Hnd Hnone; cbn [dag_assess].
  { intros [= -> ->]. split; [done|]. intros n a []%elem_of_nil. }
  apply NoDup_cons in Hnd as [Hnin Hnd]. rewrite bind_run.
  pose proof (later_assess_node name a colors w) as Hl.
  destruct (assess_node r name a colors w) as [[[c|]|e] w1] eqn:E; try done. simpl in Hl. intros H.
  apply assess_node_ok in E as (x&Hj&Hx&Hoth); [|apply Hnone; by left].
  pose proof (later_assess rest c w1) as Hl1. rewrite H in Hl1. simpl in Hl1.
  destruct (IH c w1 Hnd) as [Hout Hin]; [|exact H|].
  { intros n Hn. rewrite Hoth by (intros ->; done). apply Hnone. by right. }
  assert (R0 : ∀ x : world, later x x) by (intros; apply Nat.le_refl). split.
  - intros n [Hne Hn]%not_elem_of_cons. rewrite Hout by done. by apply Hoth.
  - intros n b [[= -> ->]|Hb]%elem_of_cons.
    + assert (Ec : color_of colors' name = x) by (unfold color_of in *; by rewrite Hout).
      rewrite Ec. by apply (justified_within w w w1 w').
    + apply (justified_within w w1 w' w'); [done|by apply Hin|done].
Qed.

(** *** What the second loop queues *)

Section plan.
Context (jdl : ad) (nodes : list (string * ad)) (colors0 : gmap string color).

(** By the colours of the first loop: a white node whose parents are green. *)
Definition ready_to_go (name : string) (a : ad) : Prop :=
  (name, a) ∈ nodes ∧ color_of colors0 name = white_color ∧
  Forall (λ p, color_of colors0 p = green_color) (parents jdl name).
Notation oq := (only_queued ready_to_go).

Lemma oq_try_queue name a c :
  ready_to_go name a → steps oq (try_queue r name a c).
Proof.
  intros He w. unfold try_queue. rewrite bind_run, node_jobid_run.
  destruct (get_edg_jobid a) as [id|] eqn:Eid; [|apply quiet_refl].
  destruct (jobid_ok id); [|apply quiet_refl].
  revert w. change (steps oq (catch (queue_new_submit_request name id a r;; mret c)
    (λ e, match e with CannotCreateLBContext _ => Some (mret red_color) | _ => None end))).
  pose proof (oq_queue_new ready_to_go name id a He Eid). walk.
Qed.

(** Colours of a later moment of the plan: greens and whites are old. *)
Definition later_colors (colors : gmap string color) : Prop :=
  ∀ n, (color_of colors n = green_color → color_of colors0 n = green_color) ∧
       (color_of colors n = white_color → color_of colors0 n = white_color).

Lemma later_colors_insert colors n c :
  later_colors colors → c = gray_color ∨ c = red_color ∨
    (c = white_color ∧ color_of colors n = white_color) →
  later_colors (<[n := c]> colors).
Proof.
  intros H Hc m. destruct (H m) as [Hg Hw]. unfold color_of in *.
  destruct (decide (n = m)) as [->|Hn]; [|by rewrite lookup_insert_ne].
  rewrite lookup_insert, decide_True by done. simpl. naive_solver.
Qed.

Lemma try_queue_color name a c w c' w' :
  try_queue r name a c w = (Ok c', w') → c' = c ∨ c' = red_color.
Proof.
  unfold try_queue. rewrite bind_run. destruct (node_jobid a w) as [[i|e] w1]; [|done].
  unfold catch. rewrite bind_run.
  destruct (queue_new_submit_request name i a r w1) as [[?|e] w2]; [intros [= <- _]; by left|].
  destruct e; simpl; try done. intros [= <- _]. by right.
Qed.

Lemma later_ready colors name a :
  later_colors colors → (name, a) ∈ nodes → color_of colors name = white_color →
  forallb (λ p, bool_decide (color_of colors p = green_color)) (parents jdl name) = true →
  ready_to_go name a.
Proof.
  intros Hc Hin Hw Hg. split_and!; [done|by apply Hc|]. apply Forall_forall. intros p Hp.
  rewrite forallb_forall in Hg. apply Hc. specialize (Hg p).
  rewrite bool_decide_eq_true in Hg. apply Hg. by apply list_elem_of_In.
Qed.

Lemma dag_visit_ok name a colors b :
  later_colors colors → (name, a) ∈ nodes →
  steps oq (dag_visit r jdl name a colors b) ∧
  ∀ w cc w', dag_visit r jdl name a colors b w = (Ok cc, w') → later_colors cc.1.
Proof.
  intros Hc Hin. pose proof (later_ready colors name a Hc Hin) as He. unfold dag_visit.
  pose proof (oq_try_queue name a) as Htry. pose proof (oq_abort_node ready_to_go name a) as Hab.
  pose proof (try_queue_color name a) as Hcol.
  destruct (color_of colors name) eqn:E;
    try (split; [apply steps_ret, _|by intros ? ? ? [= <- _]]).
  specialize (He eq_refl). destruct (parents jdl name) as [|p ps].
  - specialize (He eq_refl). split; [by walk|]. intros w cc w'. rewrite bind_run.
    destruct (try_queue _ _ _ _ w) as [[c|e] w1] eqn:Et; [|done]. intros [= <- _].
    apply later_colors_insert; [done|]. destruct (Hcol _ _ _ _ Et); naive_solver.
  - set (l := p :: ps) in *. destruct (existsb _ l); [|destruct (forallb _ l)].
    + split; [by walk|]. intros w cc w'. rewrite bind_run.
      destruct (abort_node _ _ _ w) as [[c|e] w1]; [|done]. intros [= <- _].
      apply later_colors_insert; naive_solver.
    + specialize (He eq_refl). split; [by walk|]. intros w cc w'. rewrite bind_run.
      destruct (try_queue _ _ _ _ w) as [[c|e] w1] eqn:Et; [|done]. intros [= <- _].
      apply later_colors_insert; [done|]. destruct (Hcol _ _ _ _ Et); naive_solver.
    + split; [apply steps_ret, _|by intros ? ? ? [= <- _]].
Qed.

Lemma oq_dag_plan rest colors b :
  later_colors colors → (∀ x, x ∈ rest → x ∈ nodes) → steps oq (dag_plan r jdl rest colors b).
Proof.
  revert colors b. induction rest as [|[name a] rest IH]; intros colors b Hc Hin w.
  { apply quiet_refl. }
  cbn [dag_plan]. rewrite bind_run.
  destruct (dag_visit_ok name a colors b Hc) as [H1 H2]; [apply Hin; by left|].
  specialize (H1 w). destruct (dag_visit r jdl name a colors b w) as [[[c b']|e] w1] eqn:E;
    simpl in H1; [|done].
  eapply quiet_trans; [exact H1|]. apply IH; [by apply (H2 _ _ _ E)|]. intros x Hx. apply Hin. by right.
Qed.
End plan.

(** *** The whole of the processing *)

Lemma later_get k : steps later (get_submit k).
Proof. intros w. unfold get_submit, later. destruct (w_submits w !! k); simpl; lia. Qed.
#[local] Hint Resolve later_get : steps.

Lemma later_unrecoverable k m : steps later (unrecoverable k m).
Proof.
  unfold unrecoverable, unrecoverable_collection, log_abort, unlink. walk.
  generalize (m_lb_context a0). intros c. generalize l. intros l'. clear.
  induction l' as [|[i s] l' IH]; simpl; walk. unfold log_abort_for_child, log_abort, JobId. walk.
Qed.

Lemma later_abort_node name a : steps later (abort_node r name a).
Proof.
  assert (∀ n, steps later (finally (unrecoverable n "parents have aborted") (destroy_submit n))).
  { intros n w. unfold finally. pose proof (later_unrecoverable n "parents have aborted" w) as H1.
    destruct (unrecoverable _ _ w) as [x w1]. simpl in H1.
    assert (H2 : steps later (destroy_submit n)).
    { unfold destroy_submit, update_submit, run_cleanup, remove_node_from_collection. walk. }
    specialize (H2 w1). destruct (destroy_submit n w1). simpl in *. unfold later in *. lia. }
  unfold abort_node, node_jobid, JobId, new_SubmitState. walk.
Qed.

Lemma later_dag_plan jdl nodes colors b : steps later (dag_plan r jdl nodes colors b).
Proof.
  revert colors b. induction nodes as [|[name a] rest IH]; intros colors b; simpl; [walk|].
  apply steps_bind; [apply _| |intros [c b']; apply IH].
  unfold dag_visit, try_queue, node_jobid, JobId, queue_new_submit_request, new_SubmitState,
    events_schedule. pose proof (later_abort_node name a). walk.
Qed.

(** What the rest of the processing does after the plan queues nothing. *)
Lemma dag_end_steps (R : relation world) `{!Quiet R} (jdl : ad) c cc :
  (∀ t p q, steps R (reschedule t p q)) → (∀ f, (∀ s, identity (f s) = identity s) → steps R (update_submit r f)) →
  steps R (let '(colors, completed_dag) := cc : gmap string color * bool in
           if negb completed_dag then
             reschedule (TSubmit r) match_retry_period submit_priority;;
             update_submit r (set_checkpoint PENDING)
           else if forallb (λ n : string * ad, bool_decide (color_of colors n.1 = green_color)) (dag_nodes jdl)
           then log_done_ok c "DAG successfully completed" 0;; mret tt
           else log_abort c "DAG completed with failed jobs";; mret tt).
Proof.
  intros Hr Hu. destruct cc as [colors b]. unfold log_done_ok, log_abort.
  assert (steps R (update_submit r (set_checkpoint PENDING))) by (by apply Hu).
  walk.
Qed.

(** A node may be submitted: it is a node of the DAG that has been found unsubmitted,
    and each of its parents is one that has been found done with success. *)
Definition eligible (w w' : world) (jdl : ad) (name : string) (a : ad) : Prop :=
  (name, a) ∈ dag_nodes jdl ∧ unsubmitted w w' a ∧
  ∀ p, p ∈ parents jdl name → ∃ b, (p, b) ∈ dag_nodes jdl ∧ succeeded w w' b.

Lemma ready_eligible jdl w w0 w1 w' colors name a :
  NoDup (dag_nodes jdl).*1 → later w w0 → later w1 w' →
  dag_assess r (dag_nodes jdl) ∅ w0 = (Ok (Some colors), w1) →
  ready_to_go jdl (dag_nodes jdl) colors name a → eligible w w' jdl name a.
Proof.
  intros Hnd H0 H1 Ha (Hin&Hw&Hps). apply dag_assess_ok in Ha as [Hout Hj]; [|done|done].
  split_and!; [done| |].
  - destruct (Hj name a Hin) as [Hu _]. eapply unsubmitted_within; [exact H0|by apply Hu|exact H1].
  - intros p Hp. rewrite Forall_forall in Hps. specialize (Hps p Hp).
    destruct (decide (p ∈ (dag_nodes jdl).*1)) as [([p' b]&->&Hb)%list_elem_of_fmap|Hn].
    + exists b. split; [done|]. destruct (Hj p' b Hb) as [_ Hg].
      eapply succeeded_within; [exact H0|by apply Hg|exact H1].
    + unfold color_of in Hps. rewrite Hout, lookup_empty in Hps by done. done.
Qed.

Lemma process_dag_queues s w res w' :
  w_submits w !! r = Some s → NoDup (dag_nodes (m_ad s)).*1 →
  process_dag r w = (res, w') → only_queued (eligible w w' (m_ad s)) w w'.
Proof.
  intros Hs Hnd. unfold process_dag. rewrite bind_run, (get_submit_run _ _ _ Hs). cbv zeta.
  set (m0 := if bool_decide _ then _ else _). set (jdl := m_ad s) in *. rewrite bind_run.
  assert (Q0 : ∀ R : relation world, Quiet R → steps R m0).
  { intros R HR. unfold m0, log_match, log_enqueued_start, log_enqueued_ok, log_transfer_start,
      log_transfer_ok, log_running. walk. }
  pose proof (Q0 later _ w) as L0. pose proof (Q0 (only_queued (eligible w w' jdl)) _ w) as O0.
  destruct (m0 w) as [[[]|e] w0]; simpl in L0, O0; [|by intros [= _ <-]]. rewrite bind_run.
  pose proof (later_assess (dag_nodes jdl) ∅ w0) as L1.
  pose proof (oq_dag_assess (eligible w w' jdl) (dag_nodes jdl) ∅ w0) as O1.
  destruct (dag_assess r (dag_nodes jdl) ∅ w0) as [[[colors|]|e] w1] eqn:Ea; simpl in L1, O1.
  2,3: intros [= _ <-]; by eapply quiet_trans.
  rewrite bind_run. pose proof (later_dag_plan jdl (dag_nodes jdl) colors true w1) as L2.
  pose proof (oq_dag_plan jdl (dag_nodes jdl) colors (dag_nodes jdl) colors true) as O2.
  specialize (O2 ltac:(by intros ?) ltac:(by intros ?) w1).
  destruct (dag_plan r jdl (dag_nodes jdl) colors true w1) as [[cc|e] w2]; simpl in L2, O2; cycle 1.
  - intros [= _ <-]. eapply quiet_trans; [exact O0|]. eapply quiet_trans; [exact O1|].
    eapply only_queued_mono; [|exact O2]. intros name a. by apply (ready_eligible _ w w0 w1 w2).
  - intros H. pose proof (dag_end_steps later jdl (m_lb_context s) cc) as L3.
    pose proof (dag_end_steps (only_queued (eligible w w' jdl)) jdl (m_lb_context s) cc) as O3.
    specialize (L3 ltac:(intros; unfold reschedule, events_schedule_at; walk)
                   ltac:(intros; unfold update_submit; walk) w2).
    specialize (O3 ltac:(intros; apply oq_reschedule) ltac:(intros; by apply oq_update_submit) w2).
    cbv beta in L3, O3. rewrite H in L3, O3. simpl in L3, O3.
    eapply quiet_trans; [exact O0|]. eapply quiet_trans; [exact O1|].
    eapply quiet_trans; [|exact O3]. eapply only_queued_mono; [|exact O2].
    intros name a. apply (ready_eligible _ w w0 w1 w'); [done|done| |done]. unfold later in *. lia.
Qed.

(** C25. A node of a DAG is submitted only after its parents: what the processing of a
    DAG makes ready are new requests, each the first submission of a node of the DAG
    with that node's job identifier and description. During the processing the LB server has
    reported the node as submitted and not started; and each of its parents as done, the
    last event about it saying with success. The one exception is a node that has been reported
    as done while the query for its events failed for a moment: it is taken for one that
    has not been submitted, and is submitted again. *)
Theorem dag_plan_only_eligible s w :
  w_submits w !! r = Some s → NoDup (dag_nodes (m_ad s)).*1 →
  let w' := (process_dag r w).2 in
  ∀ e, e ∈ ready (w_queue w') → e ∈ ready (w_queue w) ∨
    ∃ n name node_jdl id, e.2 = TSubmit n ∧ eligible w w' (m_ad s) name node_jdl ∧
      get_edg_jobid node_jdl = Some id ∧ identity_of w' n = Some (node_request name node_jdl id).
Proof.
  intros Hs Hnd w'. apply (process_dag_queues s w (process_dag r w).1 w' Hs Hnd).
  apply surjective_pairing.
Qed.
End Dags.
