(* ===== verification/CancelRequest.v ===== *)
(** * Processing of cancel and match requests

    Models src/org.glite.wms.core/src/cancel_request.cpp and cancel_request.h
    (cancellation of single jobs, and of collections and DAGs child by child)
    and match_request.cpp and match_request.h. *)

From S2P Require Import Prelude.
From S2P Require Import EventQueue.
From S2P Require Import WmWorld.
From S2P Require Import LbUtils.
From S2P Require Import SubmissionUtils.
From S2P Require Import WmCommands.
From S2P Require Import WmReal.
From S2P Require Import SubmitRequest.

Section CancelRequest.
Context `{CA : ClassAds} {CF : Config} {SV : Services}.

Definition get_cancel (c : nat) : M CancelState := λ w,
  match w_cancels w !! c with
  | Some s => (Ok s, w)
  | None => (Throw AssertionFailed, w)
  end.

(** [CancelState::CancelState]: the cancel token is created at once, and a
    failure to do so is only logged. *)
Definition new_CancelState (jid : string) (lb_c : nat) (cl : cleanup) : M nat :=
  catch (create_token (get_cancel_token jid))
    (λ e, match e with CannotCreateToken _ => Some (mret tt) | _ => None end);;
  w ← get;
  modify (λ w, set_cancels (w_cancels w ++ [mkCancel jid lb_c cl]) w);;
  mret (length (w_cancels w)).

(** A failed assertion is no exception: the process has ended. *)
Definition catch_all (m h : M unit) : M unit :=
  catch m (λ e, match e with AssertionFailed => None | _ => Some h end).

(** The cancellation of one child: logged on its own behalf, then passed on. *)
Definition cancel_child (cs : CancelState) (child : string) : M unit :=
  catch_all
    (change_logging_job (c_lb_context cs) "" child;;
     log_cancelled (c_lb_context cs);;
     change_logging_job (c_lb_context cs) "" (c_id cs);;
     wm_cancel child (c_lb_context cs))
    (mret tt).

(** What the events say of a child.  [None]: nothing to do; [Some b]: it still
    has to be cancelled, and [b] tells whether it was handed over. *)
Definition child_verdict (state : job_state) (events : list lb_event) : option bool :=
  if is_last_cancelled_by_wm events then None
  else if bool_decide (JOB_DONE = state) && is_last_done events DONE_OK then None
  else Some (negb (bool_decide (JOB_DONE = state) && is_last_done events DONE_FAILED)
             && is_last_enqueued_by_wm events ENQUEUED_OK).

(** The loop over the children; the result is [incomplete_processing].  It ends
    at the first child whose state is undefined. *)
Fixpoint cancel_children (cs : CancelState) (jobtype : stat_jobtype)
    (children : list (string * job_state)) (incomplete_processing : bool) : M bool :=
  match children with
  | [] => mret incomplete_processing
  | (child, state) :: rest =>
      id ← JobId child;
      catch (create_token (get_cancel_token id))
        (λ e, match e with CannotCreateToken _ => Some (mret tt) | _ => None end);;
      if bool_decide (state = JOB_UNDEF) then mret incomplete_processing else
      events ← get_cancel_events id;
      incomplete ←
        match child_verdict state events with
        | None => mret incomplete_processing
        | Some handed_over =>
            if handed_over || bool_decide (jobtype = STAT_DAG) then
              (if bool_decide (JOB_ABORTED = state) then mret tt else cancel_child cs id);;
              mret incomplete_processing
            else mret true
        end;
      cancel_children cs jobtype rest incomplete
  end.

(** The branch of collections and DAGs. *)
Definition cancel_compound (c : nat) (cs : CancelState) (jobtype : stat_jobtype) : M unit :=
  collection_status ← job_status_new_context (c_id cs);
  match collection_status with
  | None => mret tt
  | Some st =>
      incomplete ← match js_children st with
                   | None => mret false
                   | Some children => cancel_children cs jobtype children false
                   end;
      if incomplete : bool then reschedule (TCancel c) match_retry_period cancel_priority
      else
        log_cancelled (c_lb_context cs);;
        log_done_cancelled (c_lb_context cs);;
        purge (c_id cs) "force_dag_node_removal, log_cancel_done"
  end.

(** The branch of single jobs and nodes. *)
Definition cancel_single (cs : CancelState) (status : option job_stat) : M unit :=
  found ← fs_exists (get_cancel_token (c_id cs));
  if negb (found : bool) then mret tt else
  events ← get_cancel_events (c_id cs);
  if is_done status && is_last_done events DONE_OK then mret tt
  else if negb (is_done status && is_last_done events DONE_FAILED)
          && is_last_enqueued_by_wm events ENQUEUED_OK then
    if negb (is_aborted status) then
      catch_all
        (log_cancelled (c_lb_context cs);;
         wm_cancel (c_id cs) (c_lb_context cs))
        (unregister_proxy (c_id cs);;
         purge (c_id cs) "force_dag_node_removal, log_abort")
    else mret tt
  else
    unregister_proxy (c_id cs);;
    purge (c_id cs) "force_dag_node_removal, log_abort".

(** [CancelProcessor::operator()] *)
Definition cancel_processor (c : nat) : M unit :=
  cs ← get_cancel c;
  status ← catch (st ← job_status (c_id cs) (Some (c_lb_context cs)); mret (Some st))
             (λ e, match e with CannotCreateLBContext _ => Some (mret None) | _ => None end);
  match status with
  | None => mret tt
  | Some status =>
      match status with
      | Some st =>
          if bool_decide (STAT_COLLECTION = js_jobtype st) || bool_decide (STAT_DAG = js_jobtype st)
          then cancel_compound c cs (js_jobtype st)
          else cancel_single cs (Some st)
      | None => cancel_single cs None
      end
  end.

(** [MatchProcessor::operator()]: a null ad is dereferenced. *)
Definition match_processor (r : nat) : M unit :=
  w ← get;
  match w_matches w !! r with
  | None => throw AssertionFailed
  | Some x =>
      let a := match_command_get_ad (x_command_ad x) in
      filename ← of_option (ClassAdError "arguments.file") (match_command_get_file (x_command_ad x));
      let number := match_command_get_number_of_results (x_command_ad x) in
      let brokerinfo := match_command_get_include_brokerinfo (x_command_ad x) in
      a ← of_option AssertionFailed a;
      catch (m ← external (λ n, sv_match n a filename number brokerinfo); _ ← lift m; mret tt)
        (λ e, match e with MatchError _ => Some (mret tt) | _ => None end)
  end.
End CancelRequest.

(** ** What a cancellation does to the job *)

(** Every effect but the purge of a job. *)
Definition no_purge (f : effect) : bool := match f with FPurge _ _ => false | _ => true end.

#[export] Hint Extern 2 (steps (adds no_purge) (emit _)) =>
  (intros ?; apply adds_emit; reflexivity) : steps.

Section NoPurge.
Context `{CA : ClassAds} {CF : Config} {SV : Services}.

#[export] Instance np_quiet : Quiet (adds no_purge).
Proof. apply adds_quiet. by intros []. Qed.

Lemma np_deliver t s : steps (adds no_purge) (deliver t s).
Proof. unfold deliver. walk. Qed.
#[local] Hint Resolve np_deliver : steps.

Lemma np_cancel_child cs child : steps (adds no_purge) (cancel_child cs child).
Proof. unfold cancel_child, catch_all, log_cancelled, wm_cancel. walk. Qed.
#[local] Hint Resolve np_cancel_child : steps.


Lemma np_reschedule t p q : steps (adds no_purge) (reschedule t p q).
Proof. unfold reschedule, events_schedule_at. walk. Qed.
End NoPurge.


(** The type name a query asks for. *)
Definition event_type (e : lb_event) : string :=
  match ev_kind e with
  | EvEnQueued _ _ => "ENQUEUED"
  | EvDone _ => "DONE"
  | EvCancel => "CANCEL"
  | EvMatch _ => "MATCH"
  | EvResubmission _ => "RESUBMISSION"
  | EvUserTag _ _ _ => "USERTAG"
  | EvOther _ => "OTHER"
  end.

Section CancelTheorems.
Context `{CA : ClassAds} {CF : Config} {SV : Services}.

(** The LB server answers a query with events that meet its conditions. *)
Definition query_honoured : Prop :=
  ∀ n q, Forall (λ e, event_type e ∈ q_types q ∧ ev_source e ∈ q_sources q) (sv_query n q).2.

Lemma from_last_none {A} (p : A → bool) l : Forall (λ x, p x = false) l → from_last p l = None.
Proof.
  induction l as [|x l IH]; intros H; simpl; [done|].
  apply Forall_cons in H as [Hx H]. by rewrite IH, Hx.
Qed.

(** No event of a cancel query is a [DONE] event. *)
Lemma cancel_events_not_done id w events w' c :
  query_honoured → get_cancel_events id w = (Ok events, w') → is_last_done events c = false.
Proof.
  intros HQ. unfold get_cancel_events, do_query_events, external. rewrite bind_run.
  set (q := mkQuery _ _ _). pose proof (HQ (w_tick w) q) as H.
  destruct (sv_query (w_tick w) q) as [error evs]; simpl in H. rewrite bind_run. simpl.
  case_match; [|by repeat case_match]. intros [= <- _].
  unfold is_last_done, find_last_done. rewrite from_last_none; [done|].
  eapply Forall_impl; [exact H|]. intros e [Ht Hs]. unfold is_done_event, event_type in *.
  destruct (ev_kind e); try done. exfalso. revert Ht. unfold q; simpl.
  rewrite !elem_of_cons, elem_of_nil. by intros [?|[?|?]].
Qed.

(** A finished job is not spared: with a server that answers what it was
    asked, the cancellation of a job behaves the same in every state but
    [ABORTED], since the query behind [is_last_done] never returns the [DONE]
    events it looks for. *)
Theorem cancel_ignores_done cs st st' w :
  query_honoured → js_state st ≠ JOB_ABORTED → js_state st' ≠ JOB_ABORTED →
  cancel_single cs (Some st) w = cancel_single cs (Some st') w.
Proof.
  intros HQ Hst Hst'. unfold cancel_single. rewrite !bind_run.
  destruct (fs_exists (get_cancel_token (c_id cs)) w) as [[[]|e] w1]; [|done..].
  cbn [negb]. rewrite !bind_run.
  destruct (get_cancel_events (c_id cs) w1) as [[events|e] w2] eqn:E; [|done].
  rewrite !(cancel_events_not_done _ _ _ _ _ HQ E), !andb_false_r. cbn [negb andb].
  unfold is_aborted, in_state. by rewrite !bool_decide_eq_false_2.
Qed.







(** The queue changes only when the request is put back. *)
Lemma queue_cancel_child cs child : steps (keeps w_queue) (cancel_child cs child).
Proof. unfold cancel_child, catch_all, log_cancelled, wm_cancel, deliver. walk. Qed.



(** Nothing is purged or put in the queue. *)
Definition calm (w w' : world) : Prop :=
  adds no_purge w w' ∧ (λ w w', keeps w_queue w w' ∧ later w w') w w'.

#[local] Instance calm_quiet : Quiet calm.
Proof. unfold calm. typeclasses eauto. Qed.



End CancelTheorems.
