(* ===== verification/Dispatcher.v ===== *)
(** * Dispatching of the input requests

    Models src/org.glite.wms.core/src/dispatcher_utils.cpp: reading commands from
    the input, checking them, creating the request objects and queueing their
    processors; and the dispatcher task, which reschedules itself. *)

From S2P Require Import Prelude.
From S2P Require Import EventQueue.
From S2P Require Import WmWorld.
From S2P Require Import LbUtils.
From S2P Require Import SubmissionUtils.
From S2P Require Import WmCommands.
From S2P Require Import WmReal.
From S2P Require Import SubmitRequest.
From S2P Require Import CancelRequest.

(** The spool the manager reads its input from: what each reading returns (the
    items with their contents), and whether a quit signal has been received. *)
Class InputReader := {
  sv_read : nat → res (list (nat * string));
  sv_source : string;
  sv_quit : nat → bool;
}.

Section Dispatcher.
Context `{CA : ClassAds} {CF : Config} {SV : Services} {IR : InputReader}.

(** A value of an accessor; a missing one is an [InvalidValue]. *)
Definition value {A} (e : string) (o : option A) : M A := of_option (ClassAdError e) o.

(** [aux_get_sequence_code] *)
Definition aux_get_sequence_code (command_ad : ad) (command : string) : M string :=
  if bool_decide (command = "jobsubmit") then
    job_ad ← value "arguments.ad" (submit_command_get_ad command_ad);
    of_option (ManipulationException "lb_sequence_code") (get_lb_sequence_code_ad job_ad)
  else if bool_decide (command = "jobcancel") then
    value "arguments.lb_sequence_code" (cancel_command_get_lb_sequence_code command_ad)
  else if bool_decide (command = "jobresubmit") then
    value "arguments.lb_sequence_code" (resubmit_command_get_lb_sequence_code command_ad)
  else mret "".

(** [aux_get_x509_proxy] *)
Definition aux_get_x509_proxy (command_ad : ad) (command id : string) : M string :=
  if bool_decide (command = "jobsubmit") then
    job_ad ← value "arguments.ad" (submit_command_get_ad command_ad);
    of_option (ManipulationException "x509_user_proxy") (get_x509_user_proxy job_ad)
  else if bool_decide (command = "jobcancel") then get_user_x509_proxy id
  else if bool_decide (command = "jobresubmit") then get_user_x509_proxy id
  else mret "".

(** [aux_get_id] *)
Definition aux_get_id (command_ad : ad) (command : string) : M string :=
  if bool_decide (command = "jobsubmit") then
    job_ad ← value "arguments.ad" (submit_command_get_ad command_ad);
    id ← of_option (ManipulationException "edg_jobid") (get_edg_jobid job_ad);
    JobId id
  else if bool_decide (command = "jobresubmit") then
    id ← value "arguments.id" (resubmit_command_get_id command_ad); JobId id
  else if bool_decide (command = "jobcancel") then
    id ← value "arguments.id" (cancel_command_get_id command_ad); JobId id
  else if bool_decide (command = "match") then
    job_ad ← value "arguments.ad" (match_command_get_ad command_ad);
    match get_edg_jobid job_ad with
    | Some id => JobId id
    | None => mret match_jobid
    end
  else mret default_jobid.

(** [check_request]: an invalid command yields default values. *)
Definition check_request (command_ad : ad) (command : string) : M (string * string * string) :=
  if command_is_valid command_ad then
    id ← aux_get_id command_ad command;
    sequence_code ← aux_get_sequence_code command_ad command;
    x509_proxy ← aux_get_x509_proxy command_ad command id;
    mret (id, sequence_code, x509_proxy)
  else mret (default_jobid, "", "").

(** [try m catch ...] under a scope guard: [m] returns what is left to do once
    the guard is dismissed, if it is; otherwise the guard runs [cleanup] at the
    end of the scope, however the scope is left. *)
Definition guarded (m : M (option (M unit))) (h : exn → option (M unit)) (cleanup : M unit)
    : M unit := λ w,
  match m w with
  | (Ok (Some rest), w1) => catch rest h w1
  | (Ok None, w1) => cleanup w1
  | (Throw e, w1) =>
      match h e with
      | Some k => finally k cleanup w1
      | None => finally (throw e) cleanup w1
      end
  end.

Definition new_MatchState (command_ad : ad) (id : string) (cl : cleanup) : M nat :=
  w ← get;
  modify (λ w, set_matches (w_matches w ++ [mkMatch command_ad id cl]) w);;
  mret (length (w_matches w)).

(** What [Dispatch::operator()] does once the guard is dismissed. *)
Definition accept_submit (command_ad : ad) (command id sequence_code x509_proxy : string)
    (item : nat) : M unit :=
  lb_context ← create_context id x509_proxy sequence_code SOURCE_WORKLOAD_MANAGER;
  log_dequeued lb_context sv_source;;
  state ← new_SubmitState command_ad command id sequence_code x509_proxy lb_context
            (RemoveInput item) START;
  events_schedule (TSubmit state) submit_priority.

Definition accept_cancel (id sequence_code x509_proxy : string) (item : nat) : M unit :=
  lb_context ← create_context id x509_proxy sequence_code SOURCE_WORKLOAD_MANAGER;
  log_cancel_req lb_context;;
  state ← new_CancelState id lb_context (RemoveInput item);
  events_schedule (TCancel state) cancel_priority.

Definition accept_match (command_ad : ad) (item : nat) : M unit :=
  id ← aux_get_id command_ad "match";
  state ← new_MatchState command_ad id (RemoveInput item);
  events_schedule (TMatch state) match_priority.

(** [Dispatch::operator()] up to the dismissal of the guard. *)
Definition triage (item : nat) (command_ad_str : string) : M (option (M unit)) :=
  match parse_classad command_ad_str with
  | None => mret None
  | Some command_ad =>
      command ← value "command" (command_get_command command_ad);
      if bool_decide (command = "jobsubmit") || bool_decide (command = "jobresubmit")
         || bool_decide (command = "jobcancel") then
        c ← check_request command_ad command;
        let '(id, sequence_code, x509_proxy) := c in
        if bool_decide (command = "jobsubmit") || bool_decide (command = "jobresubmit") then
          mret (Some (accept_submit command_ad command id sequence_code x509_proxy item))
        else mret (Some (accept_cancel id sequence_code x509_proxy item))
      else if bool_decide (command = "match") then
        mret (Some (accept_match command_ad item))
      else if bool_decide (command = "ism_dump") then
        events_schedule TDumpISM debug_priority;; mret None
      else mret None
  end.

Definition dispatch_handler (e : exn) : option (M unit) :=
  match e with
  | ClassAdError _ | CannotCreateLBContext _ => Some (mret tt)
  | _ => None
  end.

(** [Dispatch::operator()] *)
Definition dispatch (item : nat) (command_ad_str : string) : M unit :=
  guarded (triage item command_ad_str) dispatch_handler (emit (FRemoveInput item)).

Fixpoint dispatch_all (items : list (nat * string)) : M unit :=
  match items with
  | [] => mret tt
  | (item, s) :: rest => dispatch item s;; dispatch_all rest
  end.

(** [m_events.stop()] *)
Definition events_stop : M unit := modify (λ w, set_queue (stop (w_queue w)) w).

(** One reading of the input, unless the queue is full; the result is
    [next_schedule]. *)
Definition dispatch_round : M Z :=
  w ← get;
  if ready_size (w_queue w) <? queue_size then
    catch (r ← external sv_read; new_requests ← lift r;
           dispatch_all new_requests)
      (λ e, match e with JobDirError _ => Some (mret tt) | _ => None end);;
    mret 1
  else mret 60.

(** [Dispatcher::operator()]; the two catch clauses do the same. *)
Definition dispatcher : M unit :=
  catch_all
    (quit ← external sv_quit;
     if quit : bool then events_stop else
     next_schedule ← dispatch_round;
     reschedule TDispatcher next_schedule dispatcher_priority)
    events_stop.
End Dispatcher.

(** ** The dispatcher task *)

Section DispatcherTheorems.
Context `{CA : ClassAds} {CF : Config} {SV : Services} {IR : InputReader}.

Lemma catch_all_ends m h w :
  (catch_all m h w).1 ≠ Throw AssertionFailed →
  (∃ w', m w = (Ok tt, w') ∧ catch_all m h w = (Ok tt, w')) ∨
  (∃ e w1, m w = (Throw e, w1) ∧ catch_all m h w = h w1).
Proof.
  unfold catch_all, catch. destruct (m w) as [[[]|e] w1]; [naive_solver|].
  destruct e; simpl; intros; try done; right; naive_solver.
Qed.

(** C31. The dispatcher is never lost: when it ends, either it is in the queue
    again or the manager has been told to stop. *)
Theorem dispatcher_never_lost w :
  (dispatcher w).1 ≠ Throw AssertionFailed →
  let q := w_queue (dispatcher w).2 in
  (dispatcher w).1 = Ok tt ∧
  (shutdown q = true ∨ ∃ t, (mkTP t dispatcher_priority, TDispatcher) ∈ waiting q).
Proof.
  unfold dispatcher. intros H. apply catch_all_ends in H as [(w'&Em&->)|(e&w1&Em&->)].
  - split; [done|]. simpl. unfold external in Em. rewrite bind_run in Em.
    destruct (sv_quit (w_tick w)).
    { injection Em as <-. by left. }
    rewrite bind_run in Em. right. destruct (dispatch_round _) as [[n|e] w2]; [|done].
    injection Em as <-. eexists. simpl. apply mm_insert_elem.
  - split; [done|]. by left.
Qed.

(** C40. One malformed job identifier stops the manager: a well-formed submit
    command whose [edg_jobid] is no job identifier ends the reading loop with an
    exception; the command is taken from the input, the ones read after it are
    not dispatched, and the event queue is shut down. *)
Theorem malformed_jobid_stops_manager w item s rest command_ad job_ad id :
  sv_quit (w_tick w) = false → ready_size (w_queue w) < queue_size →
  sv_read (S (w_tick w)) = Ok ((item, s) :: rest) →
  parse_classad s = Some command_ad → command_get_command command_ad = Some "jobsubmit" →
  command_is_valid command_ad = true → submit_command_get_ad command_ad = Some job_ad →
  get_edg_jobid job_ad = Some id → jobid_ok id = false →
  let w' := (dispatcher w).2 in
  (dispatcher w).1 = Ok tt ∧ shutdown (w_queue w') = true ∧
  w_trace w' = FRemoveInput item :: w_trace w ∧ w_submits w' = w_submits w.
Proof.
  intros Hq Hsz Hr Hp Hc Hv Ha Hid Hok.
  assert (E : ∀ w0, dispatch item s w0 = (Throw (StdException id), add_effect (FRemoveInput item) w0)).
  { intros w0. unfold dispatch, guarded, triage, check_request, aux_get_id, JobId, value.
    rewrite Hp, Hc, Hv, Ha. cbn -[get_edg_jobid]. unfold mbind, M_bind, mret, M_ret.
    cbn -[get_edg_jobid]. rewrite Hid. cbn. by rewrite Hok. }
  unfold dispatcher, catch_all, catch, external. rewrite bind_run, Hq.
  unfold dispatch_round, catch, external, mbind, M_bind, get, lift. cbn [w_tick w_queue].
  rewrite (proj2 (Z.ltb_lt _ _)) by done. cbn -[dispatch_all]. rewrite Hr.
  cbn -[dispatch]. unfold mbind, M_bind. rewrite E. done.
Qed.

(** A submit command without a job ad is not rejected: [check_request] lets
    it pass with default values and its guard is dismissed, so once the logging
    library has accepted those values a null pointer is dereferenced. *)
Theorem command_without_ad_crashes w item s command_ad c w1 b w2 :
  parse_classad s = Some command_ad → command_get_command command_ad = Some "jobsubmit" →
  submit_command_get_ad command_ad = None →
  create_context default_jobid "" "" SOURCE_WORKLOAD_MANAGER w = (Ok c, w1) →
  log_dequeued c sv_source w1 = (Ok b, w2) →
  (dispatch item s w).1 = Throw AssertionFailed.
Proof.
  intros Hp Hc Ha Hcx Hlog.
  assert (Hv : command_is_valid command_ad = false).
  { assert (isClassad command_ad "arguments.ad" = false) as Hn.
    { unfold isClassad, submit_command_get_ad, evaluate_classad in *. by repeat case_match. }
    assert (∀ c, c ≠ "jobsubmit" → string_lower c = c → equals_string command_ad "command" c = false) as Hcmd.
    { intros x Hx Hl. unfold command_get_command, evaluate_string, equals_string in *.
      destruct (evaluate command_ad "command") as [[v| | | | |]|]; try done. injection Hc as Hc.
      unfold iequals. rewrite Hl, Hc. by apply bool_decide_eq_false_2. }
    unfold command_is_valid. rewrite Hn, !(Hcmd "jobresubmit"), !(Hcmd "jobcancel"), !(Hcmd "match") by done.
    by rewrite !andb_false_r. }
  assert (E : triage item s w
              = (Ok (Some (accept_submit command_ad "jobsubmit" default_jobid "" "" item)), w)).
  { unfold triage, check_request, value. by rewrite Hp, Hc, Hv. }
  unfold dispatch, guarded. rewrite E. unfold catch, accept_submit.
  rewrite bind_run, Hcx, bind_run, Hlog, bind_run.
  unfold new_SubmitState, submit_command_remove_ad, submit_command_get_ad in *.
  by rewrite bind_run, bool_decide_eq_true_2, Ha.
Qed.
End DispatcherTheorems.
