(* ===== verification/Recovery.v ===== *)
(** * Recovery of the requests found at start-up

    Models src/org.glite.wms.core/src/recovery.cpp: reading the requests left in
    the input, and deciding for each of them, from what the Logging and
    Bookkeeping service knows of the job, whether and from where it goes on. *)

From S2P Require Import Prelude.
From S2P Require Import EventQueue.
From S2P Require Import WmWorld.
From S2P Require Import LbUtils.
From S2P Require Import SubmissionUtils.
From S2P Require Import WmCommands.
From S2P Require Import SubmitRequest.
From S2P Require Import SubmitProps.
From S2P Require Import CancelRequest.
From S2P Require Import Dispatcher.

Section Recovery.
Context `{CA : ClassAds} {CF : Config} {SV : Services} {IR : InputReader}.

(** [struct FullRequest] and [struct RequestToRecover] *)
Record RequestToRecover := mkRequest {
  q_id : string;
  q_command : string;
  q_item : nat;
  q_ad : ad;
}.

(** [Ignore::operator()] *)
Definition ignore_request (req : RequestToRecover) : M unit := emit (FRemoveInput (q_item req)).

(** [insert_request]: a request that cannot be parsed or checked is removed from
    the input. *)
Definition insert_request (id_to_requests : list RequestToRecover) (request : nat * string)
    : M (list RequestToRecover) :=
  let '(item, command_ad_str) := request in λ w,
  let m :=
    command_ad ← of_option (ClassAdError command_ad_str) (parse_classad command_ad_str);
    command ← value "command" (command_get_command command_ad);
    c ← check_request command_ad command;
    let '(id, _, _) := c : string * string * string in
    mret (mkRequest id command item command_ad) in
  match m w with
  | (Ok r, w1) => (Ok (id_to_requests ++ [r]), w1)
  | (Throw (ClassAdError _), w1) => (Ok id_to_requests, add_effect (FRemoveInput item) w1)
  | (Throw e, w1) => (Throw e, add_effect (FRemoveInput item) w1)
  end.

(** [struct RecoverableNodeInfo] *)
Record RecoverableNodeInfo := mkNode { n_name : string; n_ad : ad }.

(** The constructor of [select_recoverable_nodes]: the states of the children,
    up to the first undefined one; a map keeps the first value inserted. *)
Fixpoint children_states (children : list (string * job_state)) (m : gmap string job_state)
    : gmap string job_state :=
  match children with
  | [] => m
  | (id, s) :: rest =>
      if bool_decide (s = JOB_UNDEF) then m
      else children_states rest (match m !! id with None => <[id := s]> m | Some _ => m end)
  end.

(** What is decided for a node whose state and events are known. *)
Definition recoverable (status : job_state) (events : list lb_event) : bool :=
  let st := Some (mkStat status STAT_SIMPLE None) in
  if is_last_done events DONE_FAILED then false
  else if is_waiting st then true
  else if bool_decide (events = []) && is_submitted st then true
  else if in_limbo st events then false
  else is_ready st.

(** [select_recoverable_nodes::operator()]: any exception leaves the node out. *)
Definition select_node (states : gmap string job_state) (node : string * ad)
    (recoverable_nodes : list RecoverableNodeInfo) : M (list RecoverableNodeInfo) :=
  catch
    (node_id ← of_option (ManipulationException "edg_jobid") (get_edg_jobid node.2);
     jobid ← JobId node_id;
     match states !! node_id with
     | None => mret recoverable_nodes
     | Some status =>
         events ← get_recovery_events jobid;
         mret (if recoverable status events
               then recoverable_nodes ++ [mkNode node.1 node.2] else recoverable_nodes)
     end)
    (λ e, match e with AssertionFailed => None | _ => Some (mret recoverable_nodes) end).

Fixpoint select_nodes (states : gmap string job_state) (nodes : list (string * ad))
    (recoverable_nodes : list RecoverableNodeInfo) : M (list RecoverableNodeInfo) :=
  match nodes with
  | [] => mret recoverable_nodes
  | n :: rest =>
      r ← select_node states n recoverable_nodes;
      select_nodes states rest r
  end.

(** Insertion in a [std::set<std::string>]. *)
Fixpoint set_insert (s : string) (l : list string) : list string :=
  match l with
  | [] => [s]
  | x :: r => match String.compare s x with
              | Lt => s :: l
              | Eq => l
              | Gt => x :: set_insert s r
              end
  end.

(** [create_submit_request::operator()]: the new request, or a null pointer. *)
Definition create_submit_request (parent : nat) (rni : RecoverableNodeInfo)
    : M (option nat) :=
  node_id ← of_option (ManipulationException "edg_jobid") (get_edg_jobid (n_ad rni));
  let fake_command_ad := submit_command_create (n_ad rni) in
  s ← get_submit parent;
  id ← JobId node_id;
  catch
    (lb_context ← create_context id (m_x509_proxy s) "" SOURCE_WORKLOAD_MANAGER;
     request ← new_SubmitState fake_command_ad "jobsubmit" id "" (m_x509_proxy s) lb_context
                 (RemoveNodeFromCollection (n_name rni) parent) START;
     update_submit parent (λ s, set_pending (set_insert (n_name rni) (m_collection_pending s)) s);;
     mret (Some request))
    (λ e, match e with CannotCreateLBContext _ => Some (mret None) | _ => None end).

(** The loop over the recoverable nodes. *)
Fixpoint schedule_nodes (parent : nat) (nodes : list RecoverableNodeInfo) : M unit :=
  match nodes with
  | [] => mret tt
  | n :: rest =>
      r ← create_submit_request parent n;
      events_schedule (match r with Some r => TSubmit r | None => TSubmitNull end)
        submit_priority;;
      schedule_nodes parent rest
  end.

(** [is_every_children_submitted] *)
Definition is_every_children_submitted (s : job_stat) : bool :=
  forallb (λ c : string * job_state, bool_decide (c.2 = JOB_SUBMITTED)) (default [] (js_children s)).

(** The recovery of a submit request for a collection. *)
Definition recover_collection (req : RequestToRecover) (jobid sequence_code x509_proxy : string)
    (lb_context : nat) (status : option job_stat) : M unit :=
  jdl ← value "arguments.ad" (evaluate_classad (q_ad req) "arguments.ad");
  collection_status ← job_status_new_context jobid;
  match collection_status with
  | None => ignore_request req
  | Some cst =>
      if is_submitted status || (is_waiting status && is_every_children_submitted cst) then
        state ← new_SubmitState (q_ad req) (q_command req) (q_id req) sequence_code x509_proxy
                  lb_context (RemoveInput (q_item req)) START;
        events_schedule (TSubmit state) submit_priority
      else
        nodes ← select_nodes
                  (match js_children cst with Some l => children_states l ∅ | None => ∅ end)
                  (dag_nodes jdl) [];
        parent ← new_SubmitState (q_ad req) (q_command req) (q_id req) sequence_code x509_proxy
                   lb_context (RemoveInput (q_item req)) PENDING;
        events_schedule (TSubmit parent) submit_priority;;
        schedule_nodes parent nodes
  end.

(** What the recovery events say of a single request: [None] when it is not
    recovered, else whether it has to wait in limbo; a failed query means it
    has. *)
Definition limbo_on_failure (m : M (option bool)) : M (option bool) :=
  catch m (λ e, match e with
                | LB_QueryFailed | LB_QueryTemporarilyFailed => Some (mret (Some true))
                | _ => None
                end).

Definition assess_submit (jobid : string) (status : option job_stat) : M (option bool) :=
  limbo_on_failure
    (events ← get_recovery_events jobid;
     mret (if is_last_done events DONE_FAILED then None
           else Some (negb (is_waiting status) && in_limbo status events))).

Definition assess_resubmit (jobid : string) (status : option job_stat) : M (option bool) :=
  if is_waiting status then mret (Some false) else
  limbo_on_failure
    (events ← get_recovery_events jobid; mret (Some (in_limbo status events))).

Definition resume (req : RequestToRecover) (sequence_code x509_proxy : string) (lb_context : nat)
    (limbo : option bool) : M unit :=
  match limbo with
  | None => mret tt
  | Some b =>
      state ← new_SubmitState (q_ad req) (q_command req) (q_id req) sequence_code x509_proxy
                lb_context (RemoveInput (q_item req)) (if b : bool then LIMBO else START);
      events_schedule (TSubmit state) submit_priority
  end.

Definition recover_cancel (req : RequestToRecover) (x509_proxy : string) : M unit :=
  sequence_code ← value "arguments.lb_sequence_code"
                    (cancel_command_get_lb_sequence_code (q_ad req));
  catch
    (lb_context ← create_context (q_id req) x509_proxy sequence_code SOURCE_WORKLOAD_MANAGER;
     state ← new_CancelState (q_id req) lb_context (RemoveInput (q_item req));
     events_schedule (TCancel state) cancel_priority)
    (λ e, match e with CannotCreateLBContext _ => Some (mret tt) | _ => None end).

(** [request_recovery] *)
Definition request_recovery (req : RequestToRecover) : M unit :=
  c ← check_request (q_ad req) (q_command req);
  let '(jobid, sequence_code, x509_proxy) := c in
  if bool_decide (q_command req = "match") then ignore_request req else
  cx ← catch (c ← create_context (q_id req) x509_proxy sequence_code SOURCE_WORKLOAD_MANAGER;
              mret (Some c))
         (λ e, match e with CannotCreateLBContext _ => Some (mret None) | _ => None end);
  match cx with
  | None => mret tt
  | Some lb_context =>
      status ← job_status jobid (Some lb_context);
      let is_collection :=
        match status with
        | Some st => bool_decide (js_jobtype st = STAT_COLLECTION)
        | None => false
        end in
      if bool_decide (q_command req = "jobsubmit") then
        if is_collection then
          recover_collection req jobid sequence_code x509_proxy lb_context status
        else assess_submit jobid status ≫= resume req sequence_code x509_proxy lb_context
      else if bool_decide (q_command req = "jobresubmit") then
        assess_resubmit jobid status ≫= resume req sequence_code x509_proxy lb_context
      else if bool_decide (q_command req = "jobcancel") then recover_cancel req x509_proxy
      else ignore_request req
  end.

Fixpoint insert_requests (acc : list RequestToRecover) (requests : list (nat * string))
    : M (list RequestToRecover) :=
  match requests with
  | [] => mret acc
  | r :: rest => acc ← insert_request acc r; insert_requests acc rest
  end.

Fixpoint recover_all (reqs : list RequestToRecover) : M unit :=
  match reqs with
  | [] => mret tt
  | r :: rest => request_recovery r;; recover_all rest
  end.

(** [recovery] *)
Definition recovery : M unit :=
  catch_all
    (r ← external sv_read;
     requests ← lift r;
     requests_to_recover ← insert_requests [] requests;
     recover_all requests_to_recover)
    (mret tt).
End Recovery.

(** ** What recovery promises *)

Section RecoveryTheorems.
Context `{CA : ClassAds} {CF : Config} {SV : Services} {IR : InputReader}.

(** A node of a collection is resubmitted exactly when its last completion
    did not fail and it is waiting, or submitted without any event, or ready
    with a last enqueue that did not merely start: a node that may already
    have been handed over is left alone. *)
Theorem recoverable_spec s events :
  recoverable s events = true ↔
  is_last_done events DONE_FAILED = false ∧
  (s = JOB_WAITING ∨ (s = JOB_SUBMITTED ∧ events = []) ∨
   (s = JOB_READY ∧ is_last_enqueued_by_wm events ENQUEUED_START = false)).
Proof.
  unfold recoverable, in_limbo, is_waiting, is_submitted, is_ready, is_done, in_state; simpl.
  destruct (is_last_done events DONE_FAILED); [naive_solver|].
  destruct (is_last_enqueued_by_wm events ENQUEUED_START) eqn:E;
    destruct events; destruct s; simpl; naive_solver.
Qed.

(** C26. A job that may have been handed over is not started again: when the
    events of a recovered request say that it is in limbo, or cannot be
    retrieved, the request restarts at the [LIMBO] checkpoint. *)
Theorem recovery_respects_limbo req sc proxy lb jobid status w w1 q ev :
  is_waiting status = false →
  get_recovery_events jobid w = (ev, w1) →
  match ev with
  | Ok events => is_last_done events DONE_FAILED = false ∧ in_limbo status events = true
  | Throw e => e = LB_QueryFailed ∨ e = LB_QueryTemporarilyFailed
  end →
  (assess_submit jobid status ≫= resume req sc proxy lb) w = (Ok tt, q) →
  ∃ s, w_submits q = w_submits w1 ++ [s] ∧ m_last_checkpointing s = LIMBO ∧
       m_cleanup s = RemoveInput (q_item req) ∧
       ∃ t, (mkTP t submit_priority, TSubmit (length (w_submits w1))) ∈ ready (w_queue q).
Proof.
  intros Hw Hev Hl. rewrite bind_run.
  assert (assess_submit jobid status w = (Ok (Some true), w1)) as ->.
  { unfold assess_submit, limbo_on_failure, catch. rewrite bind_run, Hev.
    destruct ev as [events|e].
    - destruct Hl as [-> ->]. by rewrite Hw.
    - by destruct Hl as [-> | ->]. }
  unfold resume. rewrite bind_run.
  destruct (new_SubmitState _ _ _ _ _ _ _ _ w1) as [[n|e] w2] eqn:E; [|done].
  apply new_SubmitState_last in E as (->&_&a&now&E&_). intros [= <-]. simpl.
  rewrite E. eexists. split_and!; [done..|]. eexists. apply mm_insert_elem.
Qed.
End RecoveryTheorems.
