(* ===== verification/Sample.v ===== *)
(** * A concrete instance of the interfaces

    A small ClassAd library (association lists with case-insensitive, dotted
    lookup), a configuration and services whose answers are parameters.  The
    laws of the ClassAd interface hold of it, and the witnesses of the theorems
    on the request handlers are evaluated on it. *)

From S2P Require Import Prelude.
From S2P Require Import EventQueue.
From S2P Require Import WmWorld.
From S2P Require Import LbUtils.
From S2P Require Import CancelRequest.

(** ** Ads *)

Inductive sample_ad := SAd (attrs : list (string * attr_value sample_ad)).

(** The names of a dotted expression. *)
Fixpoint split_path (p : string) : list string :=
  match p with
  | EmptyString => [EmptyString]
  | String c r =>
      if bool_decide (c = "."%char) then EmptyString :: split_path r
      else match split_path r with
           | n :: ns => String c n :: ns
           | [] => [String c EmptyString]
           end
  end.

Fixpoint sample_lookup (attrs : list (string * attr_value sample_ad)) (n : string)
    : option (attr_value sample_ad) :=
  match attrs with
  | [] => None
  | (m, v) :: r => if iequals m n then Some v else sample_lookup r n
  end.

Fixpoint sample_eval (a : sample_ad) (p : list string) : option (attr_value sample_ad) :=
  let '(SAd attrs) := a in
  match p with
  | [] => None
  | [n] => sample_lookup attrs n
  | n :: p => match sample_lookup attrs n with
              | Some (AAd b) => sample_eval b p
              | _ => None
              end
  end.

Definition sample_insert (a : sample_ad) (n : string) (v : attr_value sample_ad) : sample_ad :=
  let '(SAd attrs) := a in SAd ((n, v) :: attrs).

Definition sample_string (n : string) (a : sample_ad) : option string :=
  match sample_eval a (split_path n) with Some (AString s) => Some s | _ => None end.
Definition sample_int (n : string) (a : sample_ad) : option Z :=
  match sample_eval a (split_path n) with Some (AInt s) => Some s | _ => None end.

(** The ads an ad holds, by name: the nodes of a DAG. *)
Definition sample_nodes (a : sample_ad) : list (string * sample_ad) :=
  let '(SAd attrs) := a in
  omap (λ e : string * attr_value sample_ad,
          match e.2 with AAd b => Some (e.1, b) | _ => None end) attrs.

(** The edges of a DAG: a node names one parent. *)
Definition sample_edges (a : sample_ad) : list (string * string) :=
  omap (λ n, parent ← sample_string "parent" n.2; Some (parent, n.1)) (sample_nodes a).

(** The parser accepts the strings of a table. *)
Definition sample_ads (table : list (string * sample_ad)) : ClassAds := {|
  ad := sample_ad;
  ad_empty := SAd [];
  Insert := sample_insert;
  evaluate a e := sample_eval a (split_path e);
  parse_classad s := snd <$> List.find (λ e, bool_decide (e.1 = s)) table;
  unparse_classad _ := "[]";
  get_edg_jobid := sample_string "edg_jobid";
  get_lb_sequence_code_ad := sample_string "lb_sequence_code";
  get_x509_user_proxy := sample_string "X509UserProxy";
  get_expiry_time := sample_int "ExpiryTime";
  get_shallow_retry_count := sample_int "ShallowRetryCount";
  get_retry_count := sample_int "RetryCount";
  get_replans_count := sample_int "ReplansCount";
  get_ce_id := sample_string "CEId";
  get_ceinfo_host_name a := default "" (sample_string "CEInfoHostName" a);
  get_input_sandbox_path := sample_string "InputSandboxPath";
  set_lb_sequence_code a s := sample_insert a "lb_sequence_code" (AString s);
  set_replans_count a n := sample_insert a "ReplansCount" (AInt n);
  set_edg_previous_matches a l := sample_insert a "edg_previous_matches" (AList (length l));
  set_edg_previous_matches_ex a l := sample_insert a "edg_previous_matches_ex" (AList (length l));
  CE_INFO_HOST := "CEInfoHostName";
  dag_nodes := sample_nodes;
  dag_edges := sample_edges;
|}.

(** ** The laws *)

Lemma path_head_split n : path_head n = n → split_path n = [n].
Proof.
  induction n as [|c n IH]; simpl; [done|].
  case_bool_decide; [done|]. intros [= Hn]. by rewrite IH.
Qed.

Lemma split_path_nonempty p : ∃ n ns, split_path p = n :: ns.
Proof.
  destruct p as [|c p]; simpl; [by eexists _, _|].
  case_bool_decide; [by eexists _, _|]. destruct (split_path p); by eexists _, _.
Qed.

Lemma split_path_app n p : path_head n = n → split_path (n +:+ "." +:+ p) = n :: split_path p.
Proof.
  induction n as [|c n IH]; simpl; [done|].
  case_bool_decide; [done|]. intros [= Hn]. by rewrite IH.
Qed.

Lemma split_path_head p : head (split_path p) = Some (path_head p).
Proof.
  induction p as [|c p IH]; simpl; [done|].
  case_bool_decide; [done|].
  destruct (split_path p); simpl in *; [done|]. by injection IH as ->.
Qed.

Lemma iequals_refl n : iequals n n = true.
Proof. by apply bool_decide_eq_true_2. Qed.

#[export] Instance sample_laws table : ClassAdLaws (CA := sample_ads table).
Proof.
  constructor; simpl.
  - intros [attrs] n v H. rewrite path_head_split by done. simpl. by rewrite iequals_refl.
  - intros [attrs] n b p H. rewrite split_path_app by done. simpl.
    destruct (split_path_nonempty p) as (m&ms&->). by rewrite iequals_refl.
  - intros [attrs] n v e H. pose proof (split_path_head e) as He.
    destruct (split_path e) as [|m ms]; simpl in *; [done|]. injection He as ->.
    by rewrite H.
  - intros e. destruct (split_path e) as [|n [|m ms]]; done.
Qed.

#[export] Instance sample_replans table : ReplansLaws (CA := sample_ads table).
Proof. by constructor; intros [attrs] n. Qed.

(** ** Configuration and services *)

Definition sample_config : Config := {|
  lbproxy := true;
  host_proxy_file := "/host.proxy";
  sandbox_staging_path := "/sandbox";
  token_file := "token.txt";
  ice_input := "/ice";
  jc_input := "/jc";
  wm_input := "/wm";
  expiry_period := 86400;
  match_retry_period := 1000;
  max_retry_count := 10;
  max_shallow_retry_count := 10;
  queue_size := 1000;
  pid_string := "1";
  submit_file_dir := "/submit";
  jobid_ok s := negb (bool_decide (s = "bad"));
  default_jobid := "https://localhost:6000/default";
  match_jobid := "https://localhost:6000/match";
  token_regex_match s := bool_decide (s = "token.txt_0");
  lexical_cast_float s := if bool_decide (s = "0") then Some 0 else None;
  EDG_WLL_SEQ_ABORT := "abort";
  get_reduced_part s := "r";
  to_filename s := s;
|}.

(** The events that meet the conditions of a query. *)
Definition sample_query (events : list lb_event) (q : event_query) : list lb_event :=
  List.filter (λ e, bool_decide (event_type e ∈ q_types q ∧ ev_source e ∈ q_sources q)) events.

(** Services that accept every call; the events and the states are given, and so
    is the sign of the comparison of the proxy's expiry time with the clock. *)
Definition sample_services `{CA : ClassAds} (planned : ad) (events : list lb_event)
    (status : option job_stat) (proxy : Z) : Services := {|
  sv_time n := Z.of_nat n;
  sv_InitContext _ := 0;
  sv_SetParam _ := 0;
  sv_SetLoggingJob _ _ _ := 0;
  sv_log _ _ := 0;
  sv_query _ q := (0, sample_query events q);
  sv_status _ _ := status;
  sv_sequence_code _ := Some "seq";
  sv_GetLoggingJob _ := 0;
  sv_GetProxy _ _ := None;
  sv_read_proxy _ _ := Some (Some proxy);
  sv_create_file _ _ := true;
  sv_rename_errno _ _ _ := 0;
  sv_deliver _ := None;
  sv_plan _ _ := Ok planned;
  sv_bulk_mm _ _ := Ok ([], []);
  sv_match _ _ _ _ _ := Ok true;
  sv_read_dir _ _ := true;
  sv_condor_log _ _ := None;
  EDG_WLL_ERROR_GSS := 1415;
|}.

(** The same services with a state for each job. *)
Definition with_states `{CA : ClassAds} (states : string → option job_stat) (SV : Services) : Services := {|
  sv_time := sv_time;
  sv_InitContext := sv_InitContext;
  sv_SetParam := sv_SetParam;
  sv_SetLoggingJob := sv_SetLoggingJob;
  sv_log := sv_log;
  sv_query := sv_query;
  sv_status _ := states;
  sv_sequence_code := sv_sequence_code;
  sv_GetLoggingJob := sv_GetLoggingJob;
  sv_GetProxy := sv_GetProxy;
  sv_read_proxy := sv_read_proxy;
  sv_create_file := sv_create_file;
  sv_rename_errno := sv_rename_errno;
  sv_deliver := sv_deliver;
  sv_plan := sv_plan;
  sv_bulk_mm := sv_bulk_mm;
  sv_match := sv_match;
  sv_read_dir := sv_read_dir;
  sv_condor_log := sv_condor_log;
  EDG_WLL_ERROR_GSS := EDG_WLL_ERROR_GSS;
|}.

Lemma sample_query_honoured `{CA : ClassAds} planned events status proxy :
  query_honoured (SV := sample_services planned events status proxy).
Proof.
  intros n q. simpl. apply Forall_forall. intros e H.
  apply list_elem_of_In, filter_In in H as [_ H]. by apply bool_decide_eq_true in H.
Qed.

(** An empty world. *)
Definition sample_world `{CA : ClassAds} : world :=
  mkWorld 0 [] ∅ [] new_Events [] [] [].

(** A job description, and a request for it. *)
Definition sample_jdl : sample_ad :=
  SAd [("edg_jobid", AString "https://lb:9000/job"); ("lb_sequence_code", AString "s");
       ("X509UserProxy", AString "/user.proxy"); ("CEId", AString "ce:8443/cream-pbs-q");
       ("RetryCount", AInt 3); ("ShallowRetryCount", AInt 3)].

Definition sample_command (a : sample_ad) : sample_ad :=
  SAd [("arguments", AAd (SAd [("ad", AAd a)])); ("command", AString "jobsubmit");
       ("version", AString "1.0.0")].
