(* ===== verification/WmWitnesses.v ===== *)
(** * Concrete runs of the request handlers

    Each lemma applies a theorem of the previous files to the sample instance of
    the interfaces, at an input that meets the theorem's hypotheses. *)

From S2P Require Import Prelude.
From S2P Require Import EventQueue.
From S2P Require Import WmWorld.
From S2P Require Import LbUtils.
From S2P Require Import Sample.
From S2P Require Import SubmissionUtils.
From S2P Require Import WmCommands.
From S2P Require Import WmReal.
From S2P Require Import SubmitRequest.
From S2P Require Import SubmitProps.
From S2P Require Import CancelRequest.
From S2P Require Import Dispatcher.
From S2P Require Import Recovery.

(** ** The sample data *)

#[local] Instance the_ads : ClassAds := sample_ads
  [("submit", sample_command sample_jdl);
   ("bad", sample_command (SAd [("edg_jobid", AString "bad"); ("lb_sequence_code", AString "s");
                                ("X509UserProxy", AString "p")]));
   ("empty", SAd [("command", AString "jobsubmit")])].
#[local] Existing Instance sample_config.

(** Events of a job handed over but not acknowledged. *)
Definition limbo_events : list lb_event :=
  [mkEvent SOURCE_WORKLOAD_MANAGER (EvEnQueued ENQUEUED_START "")].

Definition ready_services (proxy : Z) : Services :=
  sample_services (CA := the_ads) sample_jdl limbo_events
    (Some (mkStat JOB_READY STAT_SIMPLE None)) proxy.

Definition sample_state (command : string) (check : checkpoint) : SubmitState :=
  mkSubmit command "job" "s" "/user.proxy" 0 (RemoveInput 0) check [] 0 sample_jdl false.

(** A world with one request, its logging context, and the given files. *)
Definition one_request (s : SubmitState) (files : list string) : world :=
  mkWorld 0 [] (list_to_set files) [mkCtx "job" "s" SOURCE_WORKLOAD_MANAGER "/user.proxy"]
    new_Events [s] [] [].

Definition cancel_token : string := "/sandbox/r/job/wm_cancel_token".

(** A computation whose result is known, and the world it leaves. *)
Lemma run_eq `{CA : ClassAds} {A} (m : M A) a w : (m w).1 = Ok a → m w = (Ok a, (m w).2).
Proof. intros <-. apply surjective_pairing. Qed.

(** ** The witnesses *)

Lemma retry_limits_witness :
  0 ≤ 2 ∧ check_deep_count (CA := the_ads) sample_jdl 2 = Ok tt ∧
  (check_deep_count (CA := the_ads) sample_jdl 2 = Ok tt ↔
     2 < Z.max 0 (Z.min (default 0 (get_retry_count (ClassAds := the_ads) sample_jdl)) max_retry_count)).
Proof.
  split_and!; [lia|reflexivity|]. refine (proj1 (retry_limits (CA := the_ads) sample_jdl 2 _)). lia.
Defined.

Lemma command_roundtrip_witness :
  command_get_command (CA := the_ads) (WmCommands.submit_command_create sample_jdl) = Some "jobsubmit".
Proof.
  exact (proj1 (proj1 (command_roundtrip (CA := the_ads) sample_jdl "job" "s" "out" 3 true))).
Defined.

Lemma cancel_command_not_valid_witness :
  command_get_command (CA := the_ads) (WmCommands.cancel_command_create "job") = Some "jobcancel".
Proof. exact (proj1 (cancel_command_not_valid (CA := the_ads) "job")). Defined.

Lemma inadmissible_not_delivered_witness :
  let SV := ready_services (-1) in
  let s := sample_state "jobsubmit" START in
  let w := one_request s [] in
  w_submits w !! 0%nat = Some s ∧ ¬ admissible s w ∧ adds no_delivery w (submit_processor 0 w).2.
Proof.
  intros SV s w.
  assert (w_submits w !! 0%nat = Some s) as Hs by reflexivity.
  assert (¬ admissible s w) as Hn.
  { intros (w1&H&_). assert ((is_proxy_expired (m_id s) w).1 = Ok true) as E by reflexivity.
    rewrite H in E. discriminate E. }
  split_and!; [exact Hs|exact Hn|exact (inadmissible_not_delivered 0 s w Hs Hn)].
Defined.

Lemma cancelled_not_delivered_witness :
  let SV := ready_services 1 in
  let s := sample_state "jobsubmit" START in
  let w := one_request s [cancel_token] in
  w_submits w !! 0%nat = Some s ∧ get_cancel_token (m_id s) ∈ w_files w ∧
  adds no_delivery w (submit_processor 0 w).2.
Proof.
  intros SV s w.
  assert (w_submits w !! 0%nat = Some s) as Hs by reflexivity.
  assert (get_cancel_token (m_id s) ∈ w_files w) as Hf by (vm_compute; reflexivity).
  split_and!; [exact Hs|exact Hf|exact (cancelled_not_delivered 0 s w Hs eq_refl Hf)].
Defined.

(** A resubmission that finds a token in the directory of its job. *)
Definition found_token : string := "/sandbox/r/job/token.txt_0".

Lemma resubmission_limits_witness :
  let SV := ready_services 1 in
  let s := sample_state "jobresubmit" START in
  let w := one_request s [found_token] in
  w_submits w !! 0%nat = Some s ∧ adds no_delivery w (submit_single 0 3 3 (Some found_token) w).2.
Proof.
  intros SV s w.
  assert (w_submits w !! 0%nat = Some s) as Hs by reflexivity.
  split; [exact Hs|].
  refine (proj1 (resubmission_limits 0 s 3 3 (Some found_token) w Hs eq_refl _ _)); vm_compute; discriminate.
Defined.

Lemma token_at_delivery_witness :
  let SV := ready_services 1 in
  let s := sample_state "jobresubmit" START in
  let w := one_request s [found_token] in
  let w' := (submit_single 0 0 0 (Some found_token) w).2 in
  w_submits w !! 0%nat = Some s ∧ ¬ adds no_delivery w w' ∧ get_reallyrunning_token (m_id s) 0 ∈ w_files w'.
Proof.
  intros SV s w w'.
  assert (w_submits w !! 0%nat = Some s) as Hs by reflexivity.
  assert (¬ adds no_delivery w w') as Hd.
  { intros (new&H1&H2).
    assert (w_trace w' = new) as E by (rewrite H1; apply app_nil_r).
    rewrite <- E in H2. clear E H1. vm_compute in H2.
    repeat (apply Forall_cons in H2 as [Hx H2]; first [discriminate Hx | clear Hx]). }
  split_and!; [exact Hs|exact Hd|].
  refine (token_at_delivery 0 s 0 0 (Some found_token) 0 _ w Hs eq_refl eq_refl _ Hd).
  vm_compute. discriminate.
Defined.

(** A DAG of two nodes: the first is done with success, and the second, whose parent it
    is, has not been submitted. *)
Definition dag_node (id : string) (rest : list (string * attr_value sample_ad)) : sample_ad :=
  SAd (("edg_jobid", AString id) :: rest).
Definition dag_jdl : sample_ad :=
  SAd [("a", AAd (dag_node "job_a" [])); ("b", AAd (dag_node "job_b" [("parent", AString "a")]))].
Definition dag_services : Services :=
  with_states (CA := the_ads)
    (λ id, if bool_decide (id = "job_a") then Some (mkStat JOB_DONE STAT_SIMPLE None)
           else Some (mkStat JOB_SUBMITTED STAT_SIMPLE None))
    (sample_services (CA := the_ads) sample_jdl [mkEvent SOURCE_LOG_MONITOR (EvDone DONE_OK)] None 1).
Definition dag_state : SubmitState :=
  mkSubmit "jobsubmit" "job" "s" "/user.proxy" 0 (RemoveInput 0) START [] 0 dag_jdl false.

Lemma dag_plan_only_eligible_witness :
  let SV := dag_services in
  let w := one_request dag_state [] in
  let w' := (process_dag 0 w).2 in
  ∃ n name a id, (TSubmit n) ∈ (ready (w_queue w')).*2 ∧ eligible w w' dag_jdl name a ∧
    get_edg_jobid a = Some id ∧ identity_of w' n = Some (node_request 0 name a id).
Proof.
  intros SV w w'.
  assert (Hnd : NoDup (dag_nodes (m_ad dag_state)).*1) by (apply (bool_decide_unpack _); vm_compute; exact I).
  assert (Hq : ∃ tp, (ready (w_queue w')) = [(tp, TSubmit 1)]) by (eexists; vm_compute; reflexivity).
  destruct Hq as [tp Hq].
  assert (Hin : (tp, TSubmit 1) ∈ ready (w_queue w')) by (rewrite Hq; apply list_elem_of_here).
  destruct (dag_plan_only_eligible 0 dag_state w eq_refl Hnd _ Hin) as [H0|(n&name&a&id&E&H)].
  - apply not_elem_of_nil in H0. destruct H0.
  - exists n, name, a, id. split; [|exact H]. rewrite <- E. apply list_elem_of_fmap_2. exact Hin.
Defined.

Lemma limbo_falls_through_witness :
  let SV := ready_services 1 in
  let s := sample_state "jobsubmit" LIMBO in
  let w := one_request s [] in
  w_submits w !! 0%nat = Some s ∧
  let '(res, w') := check_limbo 0 w in
  res = Ok true ∧ postponed 0 w'.
Proof.
  intros SV s w.
  assert (w_submits w !! 0%nat = Some s) as Hs by reflexivity.
  split; [exact Hs|].
  pose (st := Some (mkStat JOB_READY STAT_SIMPLE None)).
  pose (w1 := (job_status_new_context "job" w).2).
  pose (w2 := (get_recovery_events "job" w1).2).
  assert ((job_status_new_context "job" w).1 = Ok st) as H1 by reflexivity.
  assert ((get_recovery_events "job" w1).1 = Ok limbo_events) as H2 by reflexivity.
  assert ((log_pending 0 " waiting in limbo" w2).1 = Ok true) as H3 by reflexivity.
  assert (w_submits w2 !! 0%nat = Some s) as H4 by reflexivity.
  exact (limbo_falls_through 0 s w st w1 limbo_events w2 true _ Hs eq_refl
           (run_eq _ _ _ H1) (run_eq _ _ _ H2) eq_refl H4 (run_eq _ _ _ H3)).
Defined.

Lemma cancel_ignores_done_witness :
  let SV := ready_services 1 in
  let cs := mkCancel "job" 0 (RemoveInput 0) in
  let w := one_request (sample_state "jobsubmit" START) [cancel_token] in
  query_honoured ∧
  cancel_single cs (Some (mkStat JOB_DONE STAT_SIMPLE None)) w
  = cancel_single cs (Some (mkStat JOB_RUNNING STAT_SIMPLE None)) w.
Proof.
  intros SV cs w.
  assert (query_honoured (SV := SV)) as HQ by (unfold SV, ready_services; apply sample_query_honoured).
  split; [exact HQ|].
  apply (cancel_ignores_done cs _ _ w HQ); discriminate.
Defined.


(** A spool with one command in it. *)
Definition sample_reader (s : string) : InputReader :=
  {| sv_read _ := Ok [(7%nat, s)]; sv_source := "/spool"; sv_quit _ := false |}.

Lemma dispatcher_never_lost_witness :
  let SV := ready_services 1 in
  let IR := sample_reader "submit" in
  let w := sample_world (CA := the_ads) in
  (dispatcher w).1 ≠ Throw AssertionFailed ∧ (dispatcher w).1 = Ok tt.
Proof.
  intros SV IR w.
  assert ((dispatcher w).1 ≠ Throw AssertionFailed) as H by (vm_compute; discriminate).
  split; [exact H|exact (proj1 (dispatcher_never_lost w H))].
Defined.

Lemma malformed_jobid_stops_manager_witness :
  let SV := ready_services 1 in
  let IR := sample_reader "bad" in
  let w := sample_world (CA := the_ads) in
  (dispatcher w).1 = Ok tt ∧ shutdown (w_queue (dispatcher w).2) = true.
Proof.
  intros SV IR w.
  pose (job := SAd [("edg_jobid", AString "bad"); ("lb_sequence_code", AString "s");
                    ("X509UserProxy", AString "p")]).
  assert (H := malformed_jobid_stops_manager w 7 "bad" [] (sample_command job) job "bad"
            eq_refl eq_refl eq_refl eq_refl eq_refl eq_refl eq_refl eq_refl eq_refl).
  exact (conj (proj1 H) (proj1 (proj2 H))).
Defined.

Lemma command_without_ad_crashes_witness :
  let SV := ready_services 1 in
  let IR := sample_reader "empty" in
  let w := sample_world (CA := the_ads) in
  (dispatch 7 "empty" w).1 = Throw AssertionFailed.
Proof.
  intros SV IR w.
  pose (m := create_context default_jobid "" "" SOURCE_WORKLOAD_MANAGER).
  assert ((m w).1 = Ok 0%nat) as H1 by reflexivity.
  assert ((log_dequeued 0 sv_source (m w).2).1 = Ok true) as H2 by reflexivity.
  exact (command_without_ad_crashes w 7 "empty" (SAd [("command", AString "jobsubmit")])
           0 _ true _ eq_refl eq_refl eq_refl (run_eq _ _ _ H1) (run_eq _ _ _ H2)).
Defined.

Lemma recovery_respects_limbo_witness :
  let SV := ready_services 1 in
  let IR := sample_reader "submit" in
  let req := mkRequest "job" "jobsubmit" 7 (sample_command sample_jdl) in
  let w := sample_world (CA := the_ads) in
  let status := Some (mkStat JOB_READY STAT_SIMPLE None) in
  ∃ q s, (assess_submit "job" status ≫= resume req "s" "p" 0) w = (Ok tt, q) ∧
    w_submits q = [s] ∧ m_last_checkpointing s = LIMBO.
Proof.
  intros SV IR req w status.
  pose (m := assess_submit "job" status ≫= resume req "s" "p" 0).
  pose (w1 := (get_recovery_events "job" w).2).
  assert ((get_recovery_events "job" w).1 = Ok limbo_events) as H1 by reflexivity.
  assert ((m w).1 = Ok tt) as H2 by reflexivity.
  assert (w_submits w1 = []) as H3 by reflexivity.
  destruct (recovery_respects_limbo req "s" "p" 0 "job" status w w1 _ (Ok limbo_events)
              eq_refl (run_eq _ _ _ H1) (conj eq_refl eq_refl) (run_eq _ _ _ H2))
    as (s&E1&E2&_).
  exists (m w).2, s. split; [exact (run_eq _ _ _ H2)|]. rewrite H3 in E1. exact (conj E1 E2).
Defined.
