(* ===== verification/Machine.v ===== *)
(** * Machine integers, bytes and characters

    What the storage engine (src/org.glite.wms.ice/src/iceDb/sqlite/sqlite3.c)
    takes from C: unsigned and signed integers of fixed width with their
    wrap-around, memory as lists of bytes, and the character tables of its
    global.c. *)

From S2P Require Import Prelude.

(** ** Integers of a fixed width *)

Definition u8 (x : Z) : Z := Z.land x (Z.ones 8).
Definition u16 (x : Z) : Z := Z.land x (Z.ones 16).
Definition u32 (x : Z) : Z := Z.land x (Z.ones 32).
Definition u64 (x : Z) : Z := Z.land x (Z.ones 64).

(** Conversion to a signed type of [w] bits: two's complement. *)
Definition signed (w : Z) (x : Z) : Z := (x + 2 ^ (w - 1)) mod 2 ^ w - 2 ^ (w - 1).
Definition i8 (x : Z) : Z := signed 8 x.
Definition i16 (x : Z) : Z := signed 16 x.
Definition i32 (x : Z) : Z := signed 32 x.
Definition i64 (x : Z) : Z := signed 64 x.

Definition LARGEST_INT64 : Z := 2 ^ 63 - 1.
Definition SMALLEST_INT64 : Z := - 2 ^ 63.
Definition SQLITE_MAX_U32 : Z := 2 ^ 32 - 1.

(** A character constant. *)
Definition chr (s : string) : Z :=
  match s with String c _ => Z.of_nat (Ascii.nat_of_ascii c) | EmptyString => 0 end.

(** The bytes of a string constant. *)
Fixpoint bytes_of (s : string) : list Z :=
  match s with
  | EmptyString => []
  | String c r => Z.of_nat (Ascii.nat_of_ascii c) :: bytes_of r
  end.

Definition is_byte (b : Z) : Prop := 0 ≤ b < 256.

(** Reading memory: [at_ p i] is [p[i]].  A list stands for a zero-terminated
    string; the terminator, and what follows it, reads as zero. *)
Definition at_ (p : list Z) (i : Z) : Z := nth (Z.to_nat i) p 0.

(** ** Character tables (global.c) *)

(** [sqlite3UpperToLower] *)
Definition sqlite3UpperToLower : list Z :=
  [  0; 1; 2; 3; 4; 5; 6; 7; 8; 9; 10; 11; 12; 13; 14; 15;
     16; 17; 18; 19; 20; 21; 22; 23; 24; 25; 26; 27; 28; 29; 30; 31;
     32; 33; 34; 35; 36; 37; 38; 39; 40; 41; 42; 43; 44; 45; 46; 47;
     48; 49; 50; 51; 52; 53; 54; 55; 56; 57; 58; 59; 60; 61; 62; 63;
     64; 97; 98; 99; 100; 101; 102; 103; 104; 105; 106; 107; 108; 109; 110; 111;
     112; 113; 114; 115; 116; 117; 118; 119; 120; 121; 122; 91; 92; 93; 94; 95;
     96; 97; 98; 99; 100; 101; 102; 103; 104; 105; 106; 107; 108; 109; 110; 111;
     112; 113; 114; 115; 116; 117; 118; 119; 120; 121; 122; 123; 124; 125; 126; 127;
     128; 129; 130; 131; 132; 133; 134; 135; 136; 137; 138; 139; 140; 141; 142; 143;
     144; 145; 146; 147; 148; 149; 150; 151; 152; 153; 154; 155; 156; 157; 158; 159;
     160; 161; 162; 163; 164; 165; 166; 167; 168; 169; 170; 171; 172; 173; 174; 175;
     176; 177; 178; 179; 180; 181; 182; 183; 184; 185; 186; 187; 188; 189; 190; 191;
     192; 193; 194; 195; 196; 197; 198; 199; 200; 201; 202; 203; 204; 205; 206; 207;
     208; 209; 210; 211; 212; 213; 214; 215; 216; 217; 218; 219; 220; 221; 222; 223;
     224; 225; 226; 227; 228; 229; 230; 231; 232; 233; 234; 235; 236; 237; 238; 239;
     240; 241; 242; 243; 244; 245; 246; 247; 248; 249; 250; 251; 252; 253; 254; 255].

(** [sqlite3CtypeMap] *)
Definition sqlite3CtypeMap : list Z :=
  [  0; 0; 0; 0; 0; 0; 0; 0; 0; 1; 1; 1; 1; 1; 0; 0;
     0; 0; 0; 0; 0; 0; 0; 0; 0; 0; 0; 0; 0; 0; 0; 0;
     1; 0; 0; 0; 64; 0; 0; 0; 0; 0; 0; 0; 0; 0; 0; 0;
     12; 12; 12; 12; 12; 12; 12; 12; 12; 12; 0; 0; 0; 0; 0; 0;
     0; 10; 10; 10; 10; 10; 10; 2; 2; 2; 2; 2; 2; 2; 2; 2;
     2; 2; 2; 2; 2; 2; 2; 2; 2; 2; 2; 0; 0; 0; 0; 64;
     0; 42; 42; 42; 42; 42; 42; 34; 34; 34; 34; 34; 34; 34; 34; 34;
     34; 34; 34; 34; 34; 34; 34; 34; 34; 34; 34; 0; 0; 0; 0; 0;
     64; 64; 64; 64; 64; 64; 64; 64; 64; 64; 64; 64; 64; 64; 64; 64;
     64; 64; 64; 64; 64; 64; 64; 64; 64; 64; 64; 64; 64; 64; 64; 64;
     64; 64; 64; 64; 64; 64; 64; 64; 64; 64; 64; 64; 64; 64; 64; 64;
     64; 64; 64; 64; 64; 64; 64; 64; 64; 64; 64; 64; 64; 64; 64; 64;
     64; 64; 64; 64; 64; 64; 64; 64; 64; 64; 64; 64; 64; 64; 64; 64;
     64; 64; 64; 64; 64; 64; 64; 64; 64; 64; 64; 64; 64; 64; 64; 64;
     64; 64; 64; 64; 64; 64; 64; 64; 64; 64; 64; 64; 64; 64; 64; 64;
     64; 64; 64; 64; 64; 64; 64; 64; 64; 64; 64; 64; 64; 64; 64; 64].

Definition UpperToLower (c : Z) : Z := nth (Z.to_nat c) sqlite3UpperToLower 0.

Definition ctype (c mask : Z) : bool :=
  negb (Z.land (nth (Z.to_nat c) sqlite3CtypeMap 0) mask =? 0).
Definition sqlite3Isspace (c : Z) : bool := ctype c 0x01.
Definition sqlite3Isalnum (c : Z) : bool := ctype c 0x06.
Definition sqlite3Isalpha (c : Z) : bool := ctype c 0x02.
Definition sqlite3Isdigit (c : Z) : bool := ctype c 0x04.
Definition sqlite3Isxdigit (c : Z) : bool := ctype c 0x08.
Definition IdChar (c : Z) : bool := ctype c 0x46.
Definition sqlite3Toupper (c : Z) : Z :=
  Z.land c (Z.lnot (Z.land (nth (Z.to_nat c) sqlite3CtypeMap 0) 0x20)).

(** ** Facts about widths *)

Lemma u8_mod x : u8 x = x mod 2 ^ 8.
Proof. apply Z.land_ones. lia. Qed.
Lemma u16_mod x : u16 x = x mod 2 ^ 16.
Proof. apply Z.land_ones. lia. Qed.
Lemma u32_mod x : u32 x = x mod 2 ^ 32.
Proof. apply Z.land_ones. lia. Qed.
Lemma u64_mod x : u64 x = x mod 2 ^ 64.
Proof. apply Z.land_ones. lia. Qed.

Lemma u8_range x : 0 ≤ u8 x < 2 ^ 8.
Proof. rewrite u8_mod. apply Z.mod_pos_bound. lia. Qed.
Lemma u32_range x : 0 ≤ u32 x < 2 ^ 32.
Proof. rewrite u32_mod. apply Z.mod_pos_bound. lia. Qed.
Lemma u64_range x : 0 ≤ u64 x < 2 ^ 64.
Proof. rewrite u64_mod. apply Z.mod_pos_bound. lia. Qed.

Lemma u8_small x : 0 ≤ x < 256 → u8 x = x.
Proof. intros. rewrite u8_mod. by apply Z.mod_small. Qed.
Lemma u32_small x : 0 ≤ x < 2 ^ 32 → u32 x = x.
Proof. intros. rewrite u32_mod. by apply Z.mod_small. Qed.
Lemma u64_small x : 0 ≤ x < 2 ^ 64 → u64 x = x.
Proof. intros. rewrite u64_mod. by apply Z.mod_small. Qed.

Lemma signed_small w x : 0 < w → - 2 ^ (w - 1) ≤ x < 2 ^ (w - 1) → signed w x = x.
Proof.
  intros Hw Hx. unfold signed. rewrite Z.mod_small; [lia|].
  replace (2 ^ w) with (2 * 2 ^ (w - 1)); [lia|].
  rewrite <- Z.pow_succ_r by lia. f_equal. lia.
Qed.

(** ** Facts about the tables *)

(** A property of every byte, checked by evaluation. *)
Lemma forall_bytes (p : Z → bool) :
  forallb p (map Z.of_nat (seq 0 256)) = true → ∀ c, 0 ≤ c < 256 → p c = true.
Proof.
  intros H c Hc. rewrite forallb_forall in H. apply H.
  apply in_map_iff. exists (Z.to_nat c). split; [lia|]. apply in_seq. lia.
Qed.

Lemma UpperToLower_spec c :
  0 ≤ c < 256 → UpperToLower c = if (65 <=? c) && (c <=? 90) then c + 32 else c.
Proof.
  intros Hc. apply Z.eqb_eq.
  apply (forall_bytes (λ c, UpperToLower c =? if (65 <=? c) && (c <=? 90) then c + 32 else c));
    [by vm_compute|done].
Qed.

Lemma sqlite3Isdigit_spec c : 0 ≤ c < 256 → sqlite3Isdigit c = (48 <=? c) && (c <=? 57).
Proof.
  intros Hc. apply Bool.eqb_prop.
  apply (forall_bytes (λ c, Bool.eqb (sqlite3Isdigit c) ((48 <=? c) && (c <=? 57))));
    [by vm_compute|done].
Qed.

(** ** Equality by bits *)

Lemma testbit_above n w i : 0 ≤ n < 2 ^ w → w ≤ i → Z.testbit n i = false.
Proof.
  intros Hn Hi. destruct (Z_lt_le_dec w 0).
  - rewrite Z.pow_neg_r in Hn by done. lia.
  - rewrite <- (Z.mod_small n (2 ^ w)) by done. apply Z.mod_pow2_bits_high. lia.
Qed.

(** Two numbers of [w] bits are equal when their bits are. *)
Lemma bits_eq (w : nat) a b :
  0 ≤ a < 2 ^ Z.of_nat w → 0 ≤ b < 2 ^ Z.of_nat w →
  Forall (λ i, Z.testbit a (Z.of_nat i) = Z.testbit b (Z.of_nat i)) (seq 0 w) → a = b.
Proof.
  intros Ha Hb H. apply Z.bits_inj'. intros i Hi.
  destruct (Z_lt_le_dec i (Z.of_nat w)).
  - rewrite List.Forall_forall in H. specialize (H (Z.to_nat i)).
    rewrite Z2Nat.id in H by done. apply H. apply in_seq. lia.
  - by rewrite !(testbit_above _ (Z.of_nat w)).
Qed.

(** A test of one bit. *)
Lemma land_pow2_eqb x k : 0 ≤ k → (Z.land x (2 ^ k) =? 0) = negb (Z.testbit x k).
Proof.
  intros Hk. destruct (Z.eqb_spec (Z.land x (2 ^ k)) 0) as [E|E].
  - apply (f_equal (λ z, Z.testbit z k)) in E.
    rewrite Z.land_spec, Z.pow2_bits_true, andb_true_r, Z.bits_0 in E by done. by rewrite E.
  - destruct (Z.testbit x k) eqn:B; [done|]. destruct E. apply Z.bits_inj'. intros i Hi.
    rewrite Z.land_spec, Z.bits_0, Z.pow2_bits_eqb by done.
    destruct (Z.eqb_spec k i) as [<-|]; [by rewrite B|apply andb_false_r].
Qed.

(** Bits of a bitwise expression at a literal position: push the test down to the
    variables, and evaluate it on the constants. *)
Ltac eval_closed t := let r := eval vm_compute in t in change t with r.
Ltac is_Zcst x :=
  match x with
  | Z0 => idtac
  | Zpos ?p => is_pos p
  | Zneg ?p => is_pos p
  end
with is_pos p :=
  match p with
  | xH => idtac
  | xO ?q => is_pos q
  | xI ?q => is_pos q
  end.
Ltac push_bit :=
  match goal with
  | |- context [Z.testbit ?a (Zneg ?p)] => change (Z.testbit a (Zneg p)) with false
  | |- context [Z.testbit (Z.lor ?a ?b) ?i] => rewrite (Z.lor_spec a b i)
  | |- context [Z.testbit (Z.land ?a ?b) ?i] => rewrite (Z.land_spec a b i)
  | |- context [Z.testbit (Z.shiftl ?a ?b) ?i] =>
      rewrite (Z.shiftl_spec a b i) by (by vm_compute);
      let t := constr:(Z.sub i b) in eval_closed t
  | |- context [Z.testbit (Z.shiftr ?a ?b) ?i] =>
      rewrite (Z.shiftr_spec a b i) by (by vm_compute);
      let t := constr:(Z.add i b) in eval_closed t
  | |- context [Z.testbit ?c ?i] => is_Zcst c; is_Zcst i; let t := constr:(Z.testbit c i) in eval_closed t
  end.
Ltac push_bits :=
  unfold u8, u16, u32, u64;
  change (Z.ones 8) with 255 in *; change (Z.ones 16) with 65535 in *;
  change (Z.ones 32) with 4294967295 in *; change (Z.ones 64) with 18446744073709551615 in *;
  repeat push_bit;
  rewrite ?andb_false_r, ?andb_true_r, ?orb_false_r, ?orb_true_r, ?andb_false_l, ?andb_true_l,
    ?orb_false_l, ?orb_true_l.

(** ** Ranges of bitwise expressions *)

Lemma ones_range w a : 0 ≤ w → Z.land a (Z.ones w) = a ↔ 0 ≤ a < 2 ^ w.
Proof.
  intros Hw. rewrite Z.land_ones by done. split; [intros <-|intros; by apply Z.mod_small].
  apply Z.mod_pos_bound. lia.
Qed.

Lemma lor_range w a b : 0 ≤ w → 0 ≤ a < 2 ^ w → 0 ≤ b < 2 ^ w → 0 ≤ Z.lor a b < 2 ^ w.
Proof.
  intros Hw Ha Hb. apply ones_range; [done|].
  apply ones_range in Ha; [|done]. apply ones_range in Hb; [|done].
  by rewrite Z.land_lor_distr_l, Ha, Hb.
Qed.

Lemma land_range w a b : 0 ≤ w → 0 ≤ b < 2 ^ w → 0 ≤ Z.land a b < 2 ^ w.
Proof.
  intros Hw Hb. apply ones_range; [done|].
  apply ones_range in Hb; [|done]. by rewrite <- Z.land_assoc, Hb.
Qed.

Lemma shiftl_range w k a : 0 ≤ k ≤ w → 0 ≤ a < 2 ^ (w - k) → 0 ≤ Z.shiftl a k < 2 ^ w.
Proof.
  intros Hk Ha. rewrite Z.shiftl_mul_pow2 by lia.
  replace (2 ^ w) with (2 ^ (w - k) * 2 ^ k); [nia|].
  rewrite <- Z.pow_add_r by lia. f_equal. lia.
Qed.

Lemma shiftr_range w k a : 0 ≤ k → 0 ≤ a < 2 ^ w → 0 ≤ Z.shiftr a k < 2 ^ w.
Proof.
  intros Hk Ha. rewrite Z.shiftr_div_pow2 by lia. pose proof (Z.pow_pos_nonneg 2 k).
  split; [apply Z.div_pos; lia|]. apply Z.div_lt_upper_bound; [lia|nia].
Qed.

Lemma range_le w w' a : w ≤ w' → 0 ≤ a < 2 ^ w → 0 ≤ a < 2 ^ w'.
Proof.
  intros Hw Ha. split; [lia|]. destruct (Z_lt_le_dec w 0).
  - rewrite Z.pow_neg_r in Ha by done. lia.
  - pose proof (Z.pow_le_mono_r 2 w w'). lia.
Qed.

Lemma shiftr_eqb v k : 0 ≤ v → 0 ≤ k → (Z.shiftr v k =? 0) = (v <? 2 ^ k).
Proof.
  intros Hv Hk. rewrite Z.shiftr_div_pow2 by done. pose proof (Z.pow_pos_nonneg 2 k).
  destruct (Z.ltb_spec v (2 ^ k)); [rewrite Z.div_small by done; done|].
  apply Z.eqb_neq. pose proof (Z.div_str_pos v (2 ^ k)). lia.
Qed.

(** The range of a bitwise expression of [w] bits, from the ranges of its parts. *)
Ltac in_range :=
  first
  [ assumption | lia
  | apply lor_range; [lia|in_range|in_range]
  | apply land_range; [lia|in_range]
  | apply shiftr_range; [lia|in_range]
  | apply shiftl_range;
    [lia|match goal with
         | |- context [2 ^ (?a - ?b)] =>
             let x := eval vm_compute in (a - b) in change (a - b) with x
         end; in_range]
  | eapply range_le; [|apply u32_range]; lia
  | eapply range_le; [|apply u8_range]; lia ].

(** Equality of two expressions of [w] bits, bit by bit. *)
Ltac by_bits w :=
  apply (bits_eq w);
  [ let x := eval vm_compute in (Z.of_nat w) in change (Z.of_nat w) with x; in_range
  | let x := eval vm_compute in (Z.of_nat w) in change (Z.of_nat w) with x; in_range
  | let l := eval vm_compute in (seq 0 w) in change (seq 0 w) with l;
    repeat (apply List.Forall_cons); [..|apply List.Forall_nil];
    match goal with
    | |- context [Z.of_nat ?i] => let x := eval vm_compute in (Z.of_nat i) in change (Z.of_nat i) with x
    end; push_bits ].

(** Turn the literal indices of [at_] into natural numbers. *)
Ltac nat_indices :=
  repeat match goal with
  | |- context [Z.to_nat ?c] =>
      is_Zcst c; let x := eval vm_compute in (Z.to_nat c) in change (Z.to_nat c) with x
  end.
