(* ===== verification/SqlUtil.v ===== *)
(** * Utilities of the storage engine

    Models util.c of src/org.glite.wms.ice/src/iceDb/sqlite/sqlite3.c: string
    comparison and dequoting, conversions between text and integers, the
    variable-length integer encoding of the database file, and 64-bit arithmetic
    with overflow checks. *)

From S2P Require Import Prelude.
From S2P Require Import Machine.

(** ** Strings *)

(** [sqlite3Strlen30]; [None] is the null pointer. *)
Definition sqlite3Strlen30 (z : option (list Z)) : Z :=
  match z with
  | None => 0
  | Some z => Z.land 0x3fffffff (Z.of_nat (length z))
  end.

(** [SQLITE_MAX_LENGTH]: the greatest length of a text or a blob, in bytes;
    no value that reaches these functions is longer. *)
Definition SQLITE_MAX_LENGTH : Z := 1000000000.

(** The copying loop of [sqlite3Dequote], from [z+i] on: the dequoted bytes, or
    [None] when the closing quote is missing, which an assertion excludes. *)
Fixpoint dequote_loop (quote : Z) (z : list Z) : option (list Z) :=
  match z with
  | [] => None
  | c :: r =>
      if c =? quote then
        match r with
        | c2 :: r2 =>
            if c2 =? quote then (λ l, quote :: l) <$> dequote_loop quote r2 else Some []
        | [] => Some []
        end
      else (λ l, c :: l) <$> dequote_loop quote r
  end.

(** The quote that closes the one a string begins with. *)
Definition closing_quote (c : Z) : option Z :=
  if (c =? 39) || (c =? 34) || (c =? 96) then Some c
  else if c =? 91 then Some 93
  else None.

(** [sqlite3Dequote]: the length, or -1, and the string afterwards. *)
Definition sqlite3Dequote (z : option (list Z)) : option (Z * option (list Z)) :=
  match z with
  | None => Some (-1, None)
  | Some z =>
      match closing_quote (at_ z 0) with
      | None => Some (-1, Some z)
      | Some quote =>
          l ← dequote_loop quote (drop 1 z);
          Some (Z.of_nat (length l), Some l)
      end
  end.

(** [sqlite3_stricmp] *)
Fixpoint sqlite3_stricmp (a b : list Z) : Z :=
  match a with
  | [] => UpperToLower 0 - UpperToLower (at_ b 0)
  | x :: a' =>
      if UpperToLower x =? UpperToLower (at_ b 0) then sqlite3_stricmp a' (drop 1 b)
      else UpperToLower x - UpperToLower (at_ b 0)
  end.

(** [sqlite3_strnicmp]; the count is decremented before it is tested, so it is
    negative when it was used up. A list holds the characters of a text up to its end, and
    the null character that ends it is what [at_] gives beyond the end; so [x] is none. *)
Fixpoint strnicmp_loop (a b : list Z) (N : nat) : Z :=
  match N with
  | O => 0
  | S N' =>
      match a with
      | [] => UpperToLower 0 - UpperToLower (at_ b 0)
      | x :: a' =>
          if UpperToLower x =? UpperToLower (at_ b 0) then strnicmp_loop a' (drop 1 b) N'
          else UpperToLower x - UpperToLower (at_ b 0)
      end
  end.
Definition sqlite3_strnicmp (a b : list Z) (N : Z) : Z := strnicmp_loop a b (Z.to_nat N).

(** ** Text to integer *)

(** [compare2pow63] *)
Fixpoint compare_loop (fuel : nat) (zNum pow63 : list Z) (incr i c : Z) : Z :=
  match fuel with
  | O => c
  | S fuel =>
      if (c =? 0) && (i <? 18) then
        compare_loop fuel zNum pow63 incr (i + 1) ((at_ zNum (i * incr) - at_ pow63 i) * 10)
      else c
  end.
Definition compare2pow63 (zNum : list Z) (incr : Z) : Z :=
  let c := compare_loop 18 zNum (bytes_of "922337203685477580") incr 0 0 in
  if c =? 0 then at_ zNum (18 * incr) - chr "8" else c.

Definition SQLITE_UTF8 : Z := 1.
Definition SQLITE_UTF16LE : Z := 2.
Definition SQLITE_UTF16BE : Z := 3.

(** [for(i=3-enc; i<length && zNum[i]==0; i+=2)] *)
Fixpoint utf16_ascii_end (fuel : nat) (zNum : list Z) (len i : Z) : Z :=
  match fuel with
  | O => i
  | S fuel =>
      if (i <? len) && (at_ zNum i =? 0) then utf16_ascii_end fuel zNum len (i + 2) else i
  end.

(** Skip the characters that pass a test: the remaining bytes up to [zEnd], where
    [n] is the number of bytes left before it. *)
Fixpoint skip_while (test : Z → bool) (fuel : nat) (z : list Z) (n incr : Z) : list Z * Z :=
  match fuel with
  | O => (z, n)
  | S fuel =>
      if (0 <? n) && test (at_ z 0)
      then skip_while test fuel (drop (Z.to_nat incr) z) (n - incr) incr
      else (z, n)
  end.

(** The digit loop: [u], [i] and [c] when it ends. *)
Fixpoint digit_loop (fuel : nat) (z : list Z) (n incr : Z) (u i c : Z) : Z * Z * Z :=
  match fuel with
  | O => (u, i, c)
  | S fuel =>
      if i <? n then
        let c := at_ z i in
        if (chr "0" <=? c) && (c <=? chr "9")
        then digit_loop fuel z n incr (u64 (u * 10 + c - chr "0")) (i + incr) c
        else (u, i, c)
      else (u, i, c)
  end.

(** [sqlite3Atoi64]: the return code and [*pNum].  [zNum] are the [length] bytes of
    the string. *)
Definition sqlite3Atoi64 (zNum : list Z) (len enc : Z) : Z * Z :=
  let fuel := S (length zNum) in
  let '(incr, nonNum, z, n) :=
    if enc =? SQLITE_UTF8 then (1, false, zNum, len)
    else
      let i := utf16_ascii_end fuel zNum len (3 - enc) in
      (2, i <? len, drop (Z.to_nat (Z.land enc 1)) zNum, i + enc - 3 - Z.land enc 1) in
  let '(z, n) := skip_while sqlite3Isspace fuel z n incr in
  let '(neg, z, n) :=
    if 0 <? n then
      if at_ z 0 =? chr "-" then (true, drop (Z.to_nat incr) z, n - incr)
      else if at_ z 0 =? chr "+" then (false, drop (Z.to_nat incr) z, n - incr)
      else (false, z, n)
    else (false, z, n) in
  let nStart := n in
  let '(z, n) := skip_while (λ c, c =? chr "0") fuel z n incr in
  let '(u, i, c) := digit_loop fuel z n incr 0 0 0 in
  let num := if LARGEST_INT64 <? u then SMALLEST_INT64
             else if neg : bool then - i64 u else i64 u in
  if (negb (c =? 0) && (i <? n)) || ((i =? 0) && (nStart =? n)) || (19 * incr <? i) || nonNum
  then (1, num)
  else if i <? 19 * incr then (0, num)
  else
    let c := compare2pow63 z incr in
    if c <? 0 then (0, num)
    else if 0 <? c then (1, num)
    else (if neg : bool then 0 else 2, num).

(** [sqlite3GetInt32]: [None] when it returns false. *)
Fixpoint int32_loop (fuel : nat) (z : list Z) (v i : Z) : Z * Z :=
  match fuel with
  | O => (v, i)
  | S fuel =>
      let c := at_ z i - chr "0" in
      if (i <? 11) && (0 <=? c) && (c <=? 9) then int32_loop fuel z (v * 10 + c) (i + 1)
      else (v, i)
  end.

Fixpoint skip_zeros (z : list Z) : list Z :=
  match z with
  | c :: r => if c =? chr "0" then skip_zeros r else z
  | [] => []
  end.

Definition sqlite3GetInt32 (zNum : list Z) : option Z :=
  let '(neg, z) :=
    if at_ zNum 0 =? chr "-" then (true, drop 1 zNum)
    else if at_ zNum 0 =? chr "+" then (false, drop 1 zNum)
    else (false, zNum) in
  let '(v, i) := int32_loop 11 (skip_zeros z) 0 0 in
  if 10 <? i then None
  else if 2147483647 <? v - Z.b2z neg then None
  else Some (i32 (if neg : bool then - v else v)).

(** [sqlite3Atoi] *)
Definition sqlite3Atoi (z : option (list Z)) : Z :=
  match z with
  | Some z => default 0 (sqlite3GetInt32 z)
  | None => 0
  end.

(** ** Four-byte integers *)

(** [sqlite3Get4byte], [sqlite3Put4byte] *)
Definition sqlite3Get4byte (p : list Z) : Z :=
  u32 (Z.lor (Z.lor (Z.lor (Z.shiftl (at_ p 0) 24) (Z.shiftl (at_ p 1) 16))
               (Z.shiftl (at_ p 2) 8)) (at_ p 3)).
Definition sqlite3Put4byte (v : Z) : list Z :=
  [u8 (Z.shiftr v 24); u8 (Z.shiftr v 16); u8 (Z.shiftr v 8); u8 v].

(** ** Hexadecimal *)

(** [sqlite3HexToInt] *)
Definition sqlite3HexToInt (h : Z) : Z :=
  let h := h + 9 * Z.land 1 (Z.shiftr h 6) in u8 (Z.land h 0xf).

(** [sqlite3HexToBlob], when the memory is there: [n] is the length of the literal
    with its closing quote; the result is the blob with its terminator. *)
Fixpoint hex_loop (fuel : nat) (z : list Z) (n i : Z) : list Z :=
  match fuel with
  | O => []
  | S fuel =>
      if i <? n then
        Z.lor (Z.shiftl (sqlite3HexToInt (at_ z i)) 4) (sqlite3HexToInt (at_ z (i + 1)))
        :: hex_loop fuel z n (i + 2)
      else [0]
  end.
Definition sqlite3HexToBlob (z : list Z) (n : Z) : list Z :=
  hex_loop (S (length z)) z (n - 1) 0.

(** ** Checks of the connection *)

Definition SQLITE_MAGIC_OPEN : Z := 0xa029a697.
Definition SQLITE_MAGIC_CLOSED : Z := 0x9f3c2d33.
Definition SQLITE_MAGIC_SICK : Z := 0x4b771290.
Definition SQLITE_MAGIC_BUSY : Z := 0xf03b7906.

(** [sqlite3SafetyCheckSickOrOk]: the result and the message logged. *)
Definition sqlite3SafetyCheckSickOrOk (magic : Z) : bool * list string :=
  if negb (magic =? SQLITE_MAGIC_SICK) && negb (magic =? SQLITE_MAGIC_OPEN)
     && negb (magic =? SQLITE_MAGIC_BUSY)
  then (false, ["invalid"]) else (true, []).

(** [sqlite3SafetyCheckOk]; [None] is the null pointer. *)
Definition sqlite3SafetyCheckOk (db : option Z) : bool * list string :=
  match db with
  | None => (false, ["NULL"])
  | Some magic =>
      if negb (magic =? SQLITE_MAGIC_OPEN) then
        let '(ok, log) := sqlite3SafetyCheckSickOrOk magic in
        (false, if ok : bool then log ++ ["unopened"] else log)
      else (true, [])
  end.

(** ** 64-bit arithmetic with overflow checks

    The results are the return code and [*pA] afterwards; a signed operation wraps
    around, as it does on the machines the engine runs on. *)

(** [sqlite3AddInt64] *)
Definition sqlite3AddInt64 (iA iB : Z) : bool * Z :=
  if 0 <=? iB then
    if (0 <? iA) && (i64 (LARGEST_INT64 - iA) <? iB) then (true, iA)
    else (false, i64 (iA + iB))
  else
    if (iA <? 0) && (i64 (iB + 1) <? i64 (- i64 (iA + LARGEST_INT64))) then (true, iA)
    else (false, i64 (iA + iB)).

(** [sqlite3SubInt64] *)
Definition sqlite3SubInt64 (iA iB : Z) : bool * Z :=
  if iB =? SMALLEST_INT64 then
    if 0 <=? iA then (true, iA) else (false, i64 (iA - iB))
  else sqlite3AddInt64 iA (i64 (- iB)).

Definition TWOPOWER32 : Z := 2 ^ 32.
Definition TWOPOWER31 : Z := 2 ^ 31.

(** [sqlite3MulInt64]; division truncates. *)
Definition sqlite3MulInt64 (iA iB : Z) : bool * Z :=
  let iA1 := Z.quot iA TWOPOWER32 in
  let iA0 := Z.rem iA TWOPOWER32 in
  let iB1 := Z.quot iB TWOPOWER32 in
  let iB0 := Z.rem iB TWOPOWER32 in
  if negb (i64 (iA1 * iB1) =? 0) then (true, iA) else
  let r := i64 (i64 (iA1 * iB0) + i64 (iA0 * iB1)) in
  if (r <? - TWOPOWER31) || (TWOPOWER31 <=? r) then (true, iA) else
  let r := i64 (r * TWOPOWER32) in
  let '(overflow, r) := sqlite3AddInt64 r (i64 (iA0 * iB0)) in
  if overflow : bool then (true, iA) else (false, r).

(** [sqlite3AbsInt32] *)
Definition sqlite3AbsInt32 (x : Z) : Z :=
  if 0 <=? x then x else if x =? - 2 ^ 31 then 0x7fffffff else - x.

(** ** Logarithmic estimates *)

(** The table of [sqlite3LogEstAdd]. *)
Definition log_est_x : list Z :=
  [10; 10; 9; 9; 8; 8; 7; 7; 7; 6; 6; 6; 5; 5; 5; 4; 4; 4; 4; 3; 3; 3; 3; 3; 3;
   2; 2; 2; 2; 2; 2; 2].

(** [sqlite3LogEstAdd] *)
Definition sqlite3LogEstAdd (a b : Z) : Z :=
  if b <=? a then
    if b + 49 <? a then a else if b + 31 <? a then a + 1 else a + at_ log_est_x (a - b)
  else
    if a + 49 <? b then b else if a + 31 <? b then b + 1 else b + at_ log_est_x (b - a).

(** [sqlite3LogEst]: the three scaling loops and the lookup. *)
Fixpoint scale_up (fuel : nat) (x y : Z) : Z * Z :=
  match fuel with
  | O => (x, y)
  | S fuel => if x <? 8 then scale_up fuel (Z.shiftl x 1) (y - 10) else (x, y)
  end.
Fixpoint scale_down (fuel : nat) (limit k dy : Z) (x y : Z) : Z * Z :=
  match fuel with
  | O => (x, y)
  | S fuel =>
      if limit <? x then scale_down fuel limit k dy (Z.shiftr x k) (y + dy) else (x, y)
  end.
Definition sqlite3LogEst (x : Z) : Z :=
  if x <? 2 then 0 else
  let '(x, y) :=
    if x <? 8 then scale_up 3 x 40
    else let '(x, y) := scale_down 16 255 4 40 x 40 in scale_down 4 15 1 10 x y in
  at_ [0; 2; 3; 5; 6; 7; 8; 9] (Z.land x 7) + y - 10.

(** [sqlite3LogEstToInt] *)
Definition sqlite3LogEstToInt (x : Z) : Z :=
  if x <? 10 then 1 else
  let n := Z.rem x 10 in
  let x := Z.quot x 10 in
  let n := if 5 <=? n then n - 2 else if 1 <=? n then n - 1 else n in
  if 3 <=? x then u64 (Z.shiftl (n + 8) (x - 3)) else Z.shiftr (n + 8) (3 - x).

(** ** Overflow is detected *)

Definition fits64 (x : Z) : bool := (SMALLEST_INT64 <=? x) && (x <=? LARGEST_INT64).

Lemma fits64_spec x : fits64 x = true ↔ - 2 ^ 63 ≤ x < 2 ^ 63.
Proof.
  unfold fits64, SMALLEST_INT64, LARGEST_INT64. rewrite andb_true_iff, !Z.leb_le. lia.
Qed.

Lemma i64_small x : - 2 ^ 63 ≤ x < 2 ^ 63 → i64 x = x.
Proof. intros H. by apply signed_small. Qed.

Lemma AddInt64_exact iA iB :
  - 2 ^ 63 ≤ iA < 2 ^ 63 → - 2 ^ 63 ≤ iB < 2 ^ 63 →
  sqlite3AddInt64 iA iB = if fits64 (iA + iB) then (false, iA + iB) else (true, iA).
Proof.
  intros HA HB. unfold sqlite3AddInt64, fits64, SMALLEST_INT64, LARGEST_INT64.
  destruct (Z.leb_spec 0 iB).
  - destruct (Z.ltb_spec 0 iA); simpl.
    + rewrite (i64_small (2 ^ 63 - 1 - iA)) by lia. case_tests; f_equal; apply i64_small; lia.
    + case_tests; f_equal; apply i64_small; lia.
  - destruct (Z.ltb_spec iA 0); simpl.
    + rewrite (i64_small (iA + (2 ^ 63 - 1))), (i64_small (- _)), (i64_small (iB + 1)) by lia.
      case_tests; f_equal; apply i64_small; lia.
    + case_tests; f_equal; apply i64_small; lia.
Qed.

(** The checked 64-bit addition and subtraction are exact: they store the sum
    (the difference) when it fits in 64 bits, and otherwise report the overflow
    and leave the operand alone, for all operands. *)
Theorem add_sub_exact iA iB :
  - 2 ^ 63 ≤ iA < 2 ^ 63 → - 2 ^ 63 ≤ iB < 2 ^ 63 →
  sqlite3AddInt64 iA iB = (if fits64 (iA + iB) then (false, iA + iB) else (true, iA)) ∧
  sqlite3SubInt64 iA iB = (if fits64 (iA - iB) then (false, iA - iB) else (true, iA)).
Proof.
  intros HA HB. split; [by apply AddInt64_exact|].
  unfold sqlite3SubInt64. destruct (Z.eqb_spec iB SMALLEST_INT64) as [->|Hn].
  - unfold fits64, SMALLEST_INT64, LARGEST_INT64 in *. case_tests; f_equal; apply i64_small; lia.
  - unfold SMALLEST_INT64 in Hn. rewrite (i64_small (- iB)), AddInt64_exact by lia.
    by replace (iA + - iB) with (iA - iB) by lia.
Qed.

(** The checked multiplication is exact as long as the product of the two low
    halves fits in 64 bits: it stores the product when that fits, and otherwise
    reports the overflow. *)
Theorem mul_exact iA iB :
  - 2 ^ 63 ≤ iA < 2 ^ 63 → - 2 ^ 63 ≤ iB < 2 ^ 63 →
  fits64 (Z.rem iA TWOPOWER32 * Z.rem iB TWOPOWER32) = true →
  sqlite3MulInt64 iA iB = if fits64 (iA * iB) then (false, iA * iB) else (true, iA).
Proof.
  intros HA HB Hlow. apply fits64_spec in Hlow. unfold sqlite3MulInt64.
  assert (Hdiv : ∀ x, - 2 ^ 63 ≤ x < 2 ^ 63 → ∃ q r, Z.quot x TWOPOWER32 = q ∧
    Z.rem x TWOPOWER32 = r ∧ x = q * 2 ^ 32 + r ∧ - 2 ^ 32 < r < 2 ^ 32 ∧
    - 2 ^ 31 ≤ q ≤ 2 ^ 31 ∧ (0 ≤ q ∧ 0 ≤ r ∨ q ≤ 0 ∧ r ≤ 0)).
  { intros x Hx. eexists _, _. change TWOPOWER32 with (2 ^ 32).
    split_and!; [done|done|..]; Z.to_euclidean_division_equations; lia. }
  destruct (Hdiv iA HA) as (A1&A0&HA1&HA0&->&HrA&HqA&SA).
  destruct (Hdiv iB HB) as (B1&B0&HB1&HB0&->&HrB&HqB&SB).
  rewrite HA1, HA0, HB1, HB0 in *. clear Hdiv.
  rewrite (i64_small (A1 * B1)) by nia.
  destruct (Z.eqb_spec (A1 * B1) 0) as [Z0|NZ]; cbn [negb].
  - (* one of the high halves is zero *)
    assert (Hr : ∃ r Y, r = A1 * B0 + A0 * B1 ∧ Y = A0 * B0 ∧
      (A1 * 2 ^ 32 + A0) * (B1 * 2 ^ 32 + B0) = r * 2 ^ 32 + Y ∧
      (0 ≤ r ∧ 0 ≤ Y ∨ r ≤ 0 ∧ Y ≤ 0) ∧ - 2 ^ 63 < A1 * B0 < 2 ^ 63 ∧
      - 2 ^ 63 < A0 * B1 < 2 ^ 63 ∧ - 2 ^ 63 < r < 2 ^ 63).
    { eexists _, _. split_and!; [done|done|..]; destruct SA, SB; assert (A1 = 0 ∨ B1 = 0) as [-> | ->]
        by nia; try nia. }
    destruct Hr as (r&Y&Er&EY&->&Hs&Hx&Hy&Hr).
    rewrite (i64_small (A1 * B0)), (i64_small (A0 * B1)), <- Er, <- EY by lia.
    rewrite (i64_small r) by lia. unfold TWOPOWER31, TWOPOWER32.
    destruct (Z.ltb_spec r (- 2 ^ 31)); [|destruct (Z.leb_spec (2 ^ 31) r)]; cbn [orb].
    + destruct (fits64 _) eqn:F; [|done]. apply fits64_spec in F. lia.
    + destruct (fits64 _) eqn:F; [|done]. apply fits64_spec in F. lia.
    + rewrite (i64_small Y), (i64_small (r * 2 ^ 32)), AddInt64_exact by lia.
      by destruct (fits64 _).
  - destruct (fits64 _) eqn:F; [|done]. apply fits64_spec in F. exfalso.
    destruct SA as [[]|[]], SB as [[]|[]]; nia.
Qed.

(** The multiplication misses overflows of the product of the low halves: for
    two operands just below 2^32 it reports success and a negative result. *)
Theorem mul_misses_overflow :
  sqlite3MulInt64 4294967295 4294967295 = (false, -8589934591) ∧
  fits64 (4294967295 * 4294967295) = false.
Proof. by vm_compute. Qed.

Lemma add_sub_exact_witness :
  sqlite3AddInt64 (2 ^ 63 - 1) 1 = (true, 2 ^ 63 - 1).
Proof. refine (proj1 (add_sub_exact (2 ^ 63 - 1) 1 _ _)); lia. Defined.

Lemma mul_exact_witness :
  sqlite3MulInt64 (-4294967296) 2147483648 = (false, - 2 ^ 63).
Proof. refine (mul_exact (-4294967296) 2147483648 _ _ _); [lia|lia|reflexivity]. Defined.
