(* ===== verification/SqlVarint.v ===== *)
(** * The variable-length integers of the database file

    Models the encoder and the decoders of util.c in
    src/org.glite.wms.ice/src/iceDb/sqlite/sqlite3.c, which work on 32-bit words
    with shifts and masks, and shows that they are inverse to each other. *)

From S2P Require Import Prelude.
From S2P Require Import Machine.

(** ** The variable-length integer encoding *)

(** The nine-byte form of [sqlite3PutVarint]: the loop from [i = k-1] down. *)
Fixpoint put_high (k : nat) (v : Z) (acc : list Z) : list Z :=
  match k with
  | O => acc
  | S k => put_high k (Z.shiftr v 7) (u8 (Z.lor (Z.land v 0x7f) 0x80) :: acc)
  end.

(** The [do] loop that fills [buf]. *)
Fixpoint put_buf (fuel : nat) (v : Z) : list Z :=
  match fuel with
  | O => []
  | S fuel =>
      u8 (Z.lor (Z.land v 0x7f) 0x80) ::
      (if Z.shiftr v 7 =? 0 then [] else put_buf fuel (Z.shiftr v 7))
  end.

(** [sqlite3PutVarint]: the bytes written; their number is the return value. *)
Definition sqlite3PutVarint (v : Z) : list Z :=
  if negb (Z.land v (Z.shiftl 0xff000000 32) =? 0) then
    put_high 8 (Z.shiftr v 8) [u8 v]
  else
    match put_buf 10 v with
    | [] => []
    | b :: buf => rev (Z.land b 0x7f :: buf)
    end.

(** [sqlite3PutVarint32], with the single-byte case of the macro putVarint32. *)
Definition sqlite3PutVarint32 (v : Z) : list Z :=
  if Z.land v (u32 (Z.lnot 0x3fff)) =? 0
  then [u8 (Z.lor (Z.shiftr v 7) 0x80); u8 (Z.land v 0x7f)]
  else sqlite3PutVarint v.
Definition putVarint32 (v : Z) : list Z :=
  if v <? 0x80 then [u8 v] else sqlite3PutVarint32 v.

Definition SLOT_2_0 : Z := 0x001fc07f.
Definition SLOT_4_2_0 : Z := 0xf01fc07f.

Notation "x <<32 n" := (u32 (Z.shiftl x n)) (at level 38, left associativity) : Z_scope.

(** [sqlite3GetVarint]: the value and the number of bytes read. *)
Definition sqlite3GetVarint (p : list Z) : Z * Z :=
  let a := at_ p 0 in
  if Z.land a 0x80 =? 0 then (a, 1) else
  let b := at_ p 1 in
  if Z.land b 0x80 =? 0 then (Z.lor (Z.land a 0x7f <<32 7) b, 2) else
  let a := Z.lor (a <<32 14) (at_ p 2) in
  if Z.land a 0x80 =? 0 then (Z.lor (Z.land a SLOT_2_0) (Z.land b 0x7f <<32 7), 3) else
  let a := Z.land a SLOT_2_0 in
  let b := Z.lor (b <<32 14) (at_ p 3) in
  if Z.land b 0x80 =? 0 then (Z.lor (a <<32 7) (Z.land b SLOT_2_0), 4) else
  let b := Z.land b SLOT_2_0 in
  let s := a in
  let a := Z.lor (a <<32 14) (at_ p 4) in
  if Z.land a 0x80 =? 0 then
    (Z.lor (Z.shiftl (Z.shiftr s 18) 32) (Z.lor a (b <<32 7)), 5) else
  let s := Z.lor (s <<32 7) b in
  let b := Z.lor (b <<32 14) (at_ p 5) in
  if Z.land b 0x80 =? 0 then
    (Z.lor (Z.shiftl (Z.shiftr s 18) 32) (Z.lor (Z.land a SLOT_2_0 <<32 7) b), 6) else
  let a := Z.lor (a <<32 14) (at_ p 6) in
  if Z.land a 0x80 =? 0 then
    (Z.lor (Z.shiftl (Z.shiftr s 11) 32)
       (Z.lor (Z.land a SLOT_4_2_0) (Z.land b SLOT_2_0 <<32 7)), 7) else
  let a := Z.land a SLOT_2_0 in
  let b := Z.lor (b <<32 14) (at_ p 7) in
  if Z.land b 0x80 =? 0 then
    (Z.lor (Z.shiftl (Z.shiftr s 4) 32) (Z.lor (a <<32 7) (Z.land b SLOT_4_2_0)), 8) else
  let a := Z.lor (a <<32 15) (at_ p 8) in
  let b := Z.land b SLOT_2_0 in
  let a := Z.lor a (b <<32 8) in
  let s := s <<32 4 in
  let b := Z.shiftr (Z.land (at_ p 4) 0x7f) 3 in
  let s := Z.lor s b in
  (Z.lor (Z.shiftl s 32) a, 9).

(** [sqlite3GetVarint32], with the single-byte case of the macro getVarint32. *)
Definition sqlite3GetVarint32 (p : list Z) : Z * Z :=
  let a := at_ p 0 in
  let b := at_ p 1 in
  if Z.land b 0x80 =? 0 then (Z.lor (Z.land a 0x7f <<32 7) b, 2) else
  let a := Z.lor (a <<32 14) (at_ p 2) in
  if Z.land a 0x80 =? 0 then
    (Z.lor (Z.land a SLOT_2_0) (Z.land b 0x7f <<32 7), 3) else
  let '(v64, n) := sqlite3GetVarint p in
  (if negb (Z.land v64 SQLITE_MAX_U32 =? v64) then 0xffffffff else u32 v64, n).
Definition getVarint32 (p : list Z) : Z * Z :=
  if at_ p 0 <? 0x80 then (at_ p 0, 1) else sqlite3GetVarint32 p.

(** [sqlite3VarintLen] *)
Fixpoint varint_len_loop (fuel : nat) (v i : Z) : Z :=
  match fuel with
  | O => i
  | S fuel =>
      let v := Z.shiftr v 7 in
      if negb (v =? 0) && (i + 1 <? 9) then varint_len_loop fuel v (i + 1) else i + 1
  end.
Definition sqlite3VarintLen (v : Z) : Z := varint_len_loop 10 v 0.

(** ** Decoding what was encoded *)

Lemma top_byte_eqb v :
  0 ≤ v < 2 ^ 64 → (Z.land v (Z.shiftl 0xff000000 32) =? 0) = (v <? 2 ^ 56).
Proof.
  intros Hv. rewrite <- (shiftr_eqb v 56) by lia.
  assert (Z.land v (Z.shiftl 0xff000000 32) = Z.shiftl (Z.shiftr v 56) 56) as ->.
  { apply Z.bits_inj'. intros i Hi. change (Z.shiftl 0xff000000 32) with (Z.shiftl (Z.ones 8) 56).
    rewrite Z.land_spec, !Z.shiftl_spec by done. destruct (Z_lt_le_dec i 56).
    - rewrite !(Z.testbit_neg_r _ (i - 56)) by lia. apply andb_false_r.
    - rewrite Z.shiftr_spec by lia. replace (i - 56 + 56) with i by lia.
      destruct (Z_lt_le_dec i 64).
      + rewrite Z.testbit_ones_nonneg, (proj2 (Z.ltb_lt _ _)) by lia. apply andb_true_r.
      + by rewrite (testbit_above v 64). }
  destruct (Z.eqb_spec (Z.shiftr v 56) 0) as [->|E]; [done|].
  apply Z.eqb_neq. rewrite Z.shiftl_mul_pow2 by lia. lia.
Qed.

(** Decide the comparisons of the value with powers of two. *)
Ltac range_tests :=
  repeat match goal with
  | |- context [?v <? 2 ^ ?k] =>
      first [rewrite (proj2 (Z.ltb_lt v (2 ^ k))) by lia
            |rewrite (proj2 (Z.ltb_ge v (2 ^ k))) by lia]
  end.

(** Decide the test of a continuation bit. *)
Ltac bit_test :=
  match goal with
  | |- context [Z.land ?a 0x80 =? 0] =>
      let E := fresh in
      first
      [ assert (E : (Z.land a 0x80 =? 0) = true) by
          (rewrite (land_pow2_eqb _ 7) by lia; push_bits; reflexivity)
      | assert (E : (Z.land a 0x80 =? 0) = false) by
          (rewrite (land_pow2_eqb _ 7) by lia; push_bits; reflexivity) ];
      rewrite E; clear E; cbv iota; cbv zeta
  end.

Ltac high_bits H :=
  repeat match goal with
  | |- context [Z.testbit ?v (Zpos ?p)] => rewrite (H (Zpos p)) by lia
  end.

(** One length of the encoding: [w] bits of data. *)
Ltac varint_case w :=
  match goal with
  | H : _ ≤ ?v < _ |- _ =>
      let Hhi := fresh in
      assert (Hhi : ∀ i, w ≤ i → Z.testbit v i = false)
        by (intros; apply (testbit_above _ w); lia);
      unfold sqlite3PutVarint; rewrite top_byte_eqb by lia; cbn [put_buf put_high];
      rewrite ?Z.shiftr_shiftr, ?shiftr_eqb by lia; range_tests;
      cbn [negb rev app length]; split; [|reflexivity];
      unfold sqlite3GetVarint, at_, SLOT_2_0, SLOT_4_2_0; nat_indices; cbn [nth];
      repeat bit_test; apply f_equal2; [|reflexivity];
      by_bits 64%nat; try reflexivity; high_bits Hhi; reflexivity
  end.

Definition round_trips (v : Z) (n : nat) : Prop :=
  ∀ rest, sqlite3GetVarint (sqlite3PutVarint v ++ rest) = (v, Z.of_nat n) ∧
          length (sqlite3PutVarint v) = n.

Lemma round_trip_1 v : 0 ≤ v < 2 ^ 7 → round_trips v 1.
Proof. intros Hv rest. varint_case 7. Qed.
Lemma round_trip_2 v : 2 ^ 7 ≤ v < 2 ^ 14 → round_trips v 2.
Proof. intros Hv rest. varint_case 14. Qed.
Lemma round_trip_3 v : 2 ^ 14 ≤ v < 2 ^ 21 → round_trips v 3.
Proof. intros Hv rest. varint_case 21. Qed.
Lemma round_trip_4 v : 2 ^ 21 ≤ v < 2 ^ 28 → round_trips v 4.
Proof. intros Hv rest. varint_case 28. Qed.
Lemma round_trip_5 v : 2 ^ 28 ≤ v < 2 ^ 35 → round_trips v 5.
Proof. intros Hv rest. varint_case 35. Qed.
Lemma round_trip_6 v : 2 ^ 35 ≤ v < 2 ^ 42 → round_trips v 6.
Proof. intros Hv rest. varint_case 42. Qed.
Lemma round_trip_7 v : 2 ^ 42 ≤ v < 2 ^ 49 → round_trips v 7.
Proof. intros Hv rest. varint_case 49. Qed.
Lemma round_trip_8 v : 2 ^ 49 ≤ v < 2 ^ 56 → round_trips v 8.
Proof. intros Hv rest. varint_case 56. Qed.
Lemma round_trip_9 v : 2 ^ 56 ≤ v < 2 ^ 64 → round_trips v 9.
Proof. intros Hv rest. varint_case 64. Qed.

(** The length classes. *)
Lemma round_trip v :
  0 ≤ v < 2 ^ 64 →
  ∃ n, round_trips v n ∧ sqlite3VarintLen v = Z.of_nat n ∧ (1 ≤ n ≤ 9)%nat.
Proof.
  intros Hv.
  destruct (Z_lt_le_dec v (2 ^ 7)); [exists 1%nat; split; [apply round_trip_1; lia|]|].
  2: destruct (Z_lt_le_dec v (2 ^ 14)); [exists 2%nat; split; [apply round_trip_2; lia|]|].
  3: destruct (Z_lt_le_dec v (2 ^ 21)); [exists 3%nat; split; [apply round_trip_3; lia|]|].
  4: destruct (Z_lt_le_dec v (2 ^ 28)); [exists 4%nat; split; [apply round_trip_4; lia|]|].
  5: destruct (Z_lt_le_dec v (2 ^ 35)); [exists 5%nat; split; [apply round_trip_5; lia|]|].
  6: destruct (Z_lt_le_dec v (2 ^ 42)); [exists 6%nat; split; [apply round_trip_6; lia|]|].
  7: destruct (Z_lt_le_dec v (2 ^ 49)); [exists 7%nat; split; [apply round_trip_7; lia|]|].
  8: destruct (Z_lt_le_dec v (2 ^ 56)); [exists 8%nat; split; [apply round_trip_8; lia|]
                                        |exists 9%nat; split; [apply round_trip_9; lia|]].
  all: split; [|lia]; unfold sqlite3VarintLen; cbn [varint_len_loop];
    rewrite ?Z.shiftr_shiftr, ?shiftr_eqb by lia; range_tests;
    first [reflexivity|destruct (v <? _); reflexivity].
Qed.

(** The value a 32-bit reader reports. *)
Definition saturate (r : Z * Z) : Z * Z := (if r.1 <? 2 ^ 32 then r.1 else 2 ^ 32 - 1, r.2).

(** The 32-bit decoder is the 64-bit one with saturation. *)
Lemma getVarint32_saturates p :
  is_byte (at_ p 0) → is_byte (at_ p 1) → is_byte (at_ p 2) →
  0 ≤ (sqlite3GetVarint p).1 →
  getVarint32 p = saturate (sqlite3GetVarint p).
Proof.
  intros H0 H1 H2. unfold getVarint32, sqlite3GetVarint32, is_byte in *.
  assert (Hsat : ∀ v n, 0 ≤ v →
    (if negb (Z.land v SQLITE_MAX_U32 =? v) then 0xffffffff else u32 v, n) = saturate (v, n)).
  { intros v n Hv. unfold saturate; simpl.
    change SQLITE_MAX_U32 with (Z.ones 32). fold (u32 v).
    destruct (Z.ltb_spec v (2 ^ 32)).
    - by rewrite u32_small, Z.eqb_refl by done.
    - pose proof (u32_range v). destruct (Z.eqb_spec (u32 v) v); [lia|done]. }
  assert (Hsmall : ∀ v n, 0 ≤ v < 2 ^ 32 → (v, n) = saturate (v, n)).
  { intros v n Hv. unfold saturate; simpl. by rewrite (proj2 (Z.ltb_lt _ _)) by lia. }
  assert (E0 : (Z.land (at_ p 0) 0x80 =? 0) = (at_ p 0 <? 0x80)).
  { apply eqb_prop, (forall_bytes (λ c, Bool.eqb (Z.land c 0x80 =? 0) (c <? 0x80)));
      [by vm_compute|lia]. }
  destruct (sqlite3GetVarint p) as [v n] eqn:E. simpl. intros Hv. revert E.
  unfold sqlite3GetVarint. rewrite E0. destruct (at_ p 0 <? 0x80) eqn:L0.
  { intros [= <- <-]. apply Hsmall. lia. }
  cbv zeta. destruct (Z.land (at_ p 1) 0x80 =? 0).
  { intros [= <- <-]. apply Hsmall. apply lor_range; [lia|apply u32_range|lia]. }
  destruct (Z.land (Z.lor _ _) 0x80 =? 0).
  { intros [= <- <-]. apply Hsmall. unfold SLOT_2_0. in_range. }
  intros E. by apply Hsat.
Qed.

Lemma putVarint32_eq v : 0 ≤ v < 2 ^ 32 → putVarint32 v = sqlite3PutVarint v.
Proof.
  intros Hv. unfold putVarint32, sqlite3PutVarint32.
  destruct (Z.ltb_spec v 0x80) as [H|H].
  { unfold sqlite3PutVarint. rewrite top_byte_eqb by lia. cbn [put_buf].
    rewrite shiftr_eqb by lia. range_tests. cbn [negb rev app]. f_equal.
    rewrite <- (u8_small v) at 1 by lia.
    assert (Hhi : ∀ i, 7 ≤ i → Z.testbit v i = false) by (intros; apply (testbit_above _ 7); lia).
    by_bits 8%nat; try reflexivity; high_bits Hhi; reflexivity. }
  assert (E : (Z.land v (u32 (Z.lnot 0x3fff)) =? 0) = (v <? 2 ^ 14)).
  { rewrite <- (shiftr_eqb v 14) by lia.
    assert (Z.land v (u32 (Z.lnot 0x3fff)) = Z.shiftl (Z.shiftr v 14) 14) as ->.
    { change (u32 (Z.lnot 0x3fff)) with 4294950912.
      assert (Hhi : ∀ i, 32 ≤ i → Z.testbit v i = false)
        by (intros; apply (testbit_above _ 32); lia).
      apply (bits_eq 32); [in_range| |].
      - change (Z.of_nat 32) with 32. rewrite Z.shiftl_mul_pow2, Z.shiftr_div_pow2 by lia.
        pose proof (Z.mul_div_le v (2 ^ 14)). pose proof (Z.div_pos v (2 ^ 14)). lia.
      - repeat (apply List.Forall_cons); [..|apply List.Forall_nil];
        match goal with
        | |- context [Z.of_nat ?i] => let x := eval vm_compute in (Z.of_nat i) in change (Z.of_nat i) with x
        end; push_bits; reflexivity. }
    destruct (Z.eqb_spec (Z.shiftr v 14) 0) as [->|N]; [done|].
    apply Z.eqb_neq. rewrite Z.shiftl_mul_pow2 by lia. lia. }
  rewrite E. destruct (Z.ltb_spec v (2 ^ 14)); [|done].
  unfold sqlite3PutVarint. rewrite top_byte_eqb by lia. cbn [put_buf].
  rewrite ?Z.shiftr_shiftr, ?shiftr_eqb by lia. range_tests. cbn [negb rev app].
  assert (Hhi : ∀ i, 14 ≤ i → Z.testbit v i = false) by (intros; apply (testbit_above _ 14); lia).
  f_equal; [|f_equal]; (by_bits 8%nat; try reflexivity; high_bits Hhi; reflexivity).
Qed.

(** ** Bytes *)

Lemma at_byte p i : Forall is_byte p → is_byte (at_ p i).
Proof.
  intros H. unfold at_. destruct (nth_in_or_default (Z.to_nat i) p 0) as [Hin| ->]; [|done].
  rewrite Forall_forall in H. apply H. by apply list_elem_of_In.
Qed.

Lemma u8_byte x : is_byte (u8 x).
Proof. apply u8_range. Qed.

Lemma put_high_bytes k v acc : Forall is_byte acc → Forall is_byte (put_high k v acc).
Proof.
  revert v acc; induction k as [|k IH]; intros v acc H; simpl; [done|].
  apply IH. constructor; [apply u8_byte|done].
Qed.

Lemma put_buf_bytes n v : Forall is_byte (put_buf n v).
Proof.
  revert v; induction n as [|n IH]; intros v; simpl; [constructor|].
  constructor; [apply u8_byte|]. by case_match.
Qed.

Lemma PutVarint_bytes v : Forall is_byte (sqlite3PutVarint v).
Proof.
  unfold sqlite3PutVarint. case_match.
  { apply put_high_bytes. constructor; [apply u8_byte|constructor]. }
  pose proof (put_buf_bytes 10 v) as Hb. destruct (put_buf 10 v) as [|b buf]; [constructor|].
  apply Forall_cons in Hb as [_ Hb]. apply Forall_rev. constructor; [|done].
  eapply range_le with (w := 7) (w' := 8); [lia|]. apply land_range; lia.
Qed.

(** C9. The encoding is faithful: whatever bytes follow it in the file, decoding
    what [sqlite3PutVarint] wrote for a 64-bit value gives the value back and
    consumes exactly the bytes written, whose number is the [sqlite3VarintLen] the
    record format reserves, between 1 and 9; the 32-bit decoder agrees and
    saturates at 0xffffffff; and the 32-bit encoder writes the same bytes. *)
Theorem varint_roundtrip v rest :
  0 ≤ v < 2 ^ 64 → Forall is_byte rest →
  let p := sqlite3PutVarint v in
  sqlite3GetVarint (p ++ rest) = (v, Z.of_nat (length p)) ∧
  getVarint32 (p ++ rest) = (if v <? 2 ^ 32 then v else 0xffffffff, Z.of_nat (length p)) ∧
  sqlite3VarintLen v = Z.of_nat (length p) ∧ 1 ≤ Z.of_nat (length p) ≤ 9 ∧
  (v < 2 ^ 32 → putVarint32 v = p).
Proof.
  intros Hv Hrest p. destruct (round_trip v Hv) as (n&Hr&Hl&Hn).
  destruct (Hr rest) as [Hg Hp]. subst p. rewrite Hl, Hp, Hg.
  assert (Hb : Forall is_byte (sqlite3PutVarint v ++ rest)).
  { apply Forall_app; split; [apply PutVarint_bytes|done]. }
  rewrite getVarint32_saturates, Hg by (try apply at_byte; rewrite ?Hg; simpl; done || lia).
  split_and!; [done|done|done|lia..|]. intros. apply putVarint32_eq. lia.
Qed.

Lemma varint_roundtrip_witness :
  sqlite3GetVarint (sqlite3PutVarint 16385 ++ [7; 8]) = (16385, 3).
Proof.
  refine (proj1 (varint_roundtrip 16385 [7; 8] _ _)); [lia|repeat constructor; lia].
Defined.
