(* ===== verification/SqlUtf.v ===== *)
(** * Translation between UTF-8 and UTF-16

    Models utf.c of src/org.glite.wms.ice/src/iceDb/sqlite/sqlite3.c.  A pointer
    into a text with an end is the list of the bytes still to be read. *)

From S2P Require Import Prelude.
From S2P Require Import Machine.
From S2P Require Import SqlUtil.

(** [sqlite3Utf8Trans1] *)
Definition sqlite3Utf8Trans1 : list Z :=
  [0x00; 0x01; 0x02; 0x03; 0x04; 0x05; 0x06; 0x07;
   0x08; 0x09; 0x0a; 0x0b; 0x0c; 0x0d; 0x0e; 0x0f;
   0x10; 0x11; 0x12; 0x13; 0x14; 0x15; 0x16; 0x17;
   0x18; 0x19; 0x1a; 0x1b; 0x1c; 0x1d; 0x1e; 0x1f;
   0x00; 0x01; 0x02; 0x03; 0x04; 0x05; 0x06; 0x07;
   0x08; 0x09; 0x0a; 0x0b; 0x0c; 0x0d; 0x0e; 0x0f;
   0x00; 0x01; 0x02; 0x03; 0x04; 0x05; 0x06; 0x07;
   0x00; 0x01; 0x02; 0x03; 0x00; 0x01; 0x00; 0x00].

(** [WRITE_UTF8] *)
Definition WRITE_UTF8 (c : Z) : list Z :=
  if c <? 0x00080 then [u8 (Z.land c 0xFF)]
  else if c <? 0x00800 then
    [u8 (0xC0 + u8 (Z.land (Z.shiftr c 6) 0x1F)); u8 (0x80 + u8 (Z.land c 0x3F))]
  else if c <? 0x10000 then
    [u8 (0xE0 + u8 (Z.land (Z.shiftr c 12) 0x0F));
     u8 (0x80 + u8 (Z.land (Z.shiftr c 6) 0x3F)); u8 (0x80 + u8 (Z.land c 0x3F))]
  else
    [u8 (0xF0 + u8 (Z.land (Z.shiftr c 18) 0x07));
     u8 (0x80 + u8 (Z.land (Z.shiftr c 12) 0x3F));
     u8 (0x80 + u8 (Z.land (Z.shiftr c 6) 0x3F)); u8 (0x80 + u8 (Z.land c 0x3F))].

(** [WRITE_UTF16LE], [WRITE_UTF16BE] *)
Definition WRITE_UTF16LE (c : Z) : list Z :=
  if c <=? 0xFFFF then [u8 (Z.land c 0x00FF); u8 (Z.land (Z.shiftr c 8) 0x00FF)]
  else
    [u8 (Z.land (Z.shiftr c 10) 0x003F + Z.land (Z.shiftr (c - 0x10000) 10) 0x00C0);
     u8 (0x00D8 + Z.land (Z.shiftr (c - 0x10000) 18) 0x03);
     u8 (Z.land c 0x00FF);
     u8 (0x00DC + Z.land (Z.shiftr c 8) 0x03)].

Definition WRITE_UTF16BE (c : Z) : list Z :=
  if c <=? 0xFFFF then [u8 (Z.land (Z.shiftr c 8) 0x00FF); u8 (Z.land c 0x00FF)]
  else
    [u8 (0x00D8 + Z.land (Z.shiftr (c - 0x10000) 18) 0x03);
     u8 (Z.land (Z.shiftr c 10) 0x003F + Z.land (Z.shiftr (c - 0x10000) 10) 0x00C0);
     u8 (0x00DC + Z.land (Z.shiftr c 8) 0x03);
     u8 (Z.land c 0x00FF)].

(** The combination of a surrogate pair. *)
Definition surrogates (c c2 : Z) : Z :=
  Z.land c2 0x03FF + Z.shiftl (Z.land c 0x003F) 10 + Z.shiftl (Z.land c 0x03C0 + 0x0040) 10.

(** [READ_UTF16LE], [READ_UTF16BE]; [term] says whether a second unit may be read.
    Bytes past the end are not read when the text has an even length. *)
Definition READ_UTF16LE (zIn : list Z) (term : list Z → bool) : Z * list Z :=
  let c := at_ zIn 0 + Z.shiftl (at_ zIn 1) 8 in
  let zIn := drop 2 zIn in
  if (0xD800 <=? c) && (c <? 0xE000) && term zIn then
    (surrogates c (at_ zIn 0 + Z.shiftl (at_ zIn 1) 8), drop 2 zIn)
  else (c, zIn).

Definition READ_UTF16BE (zIn : list Z) (term : list Z → bool) : Z * list Z :=
  let c := Z.shiftl (at_ zIn 0) 8 + at_ zIn 1 in
  let zIn := drop 2 zIn in
  if (0xD800 <=? c) && (c <? 0xE000) && term zIn then
    (surrogates c (Z.shiftl (at_ zIn 0) 8 + at_ zIn 1), drop 2 zIn)
  else (c, zIn).

(** The loop over the continuation bytes. *)
Fixpoint read_continuation (zIn : list Z) (c : Z) : Z * list Z :=
  match zIn with
  | b :: r =>
      if Z.land b 0xc0 =? 0x80
      then read_continuation r (u32 (u32 (Z.shiftl c 6) + Z.land 0x3f b))
      else (c, zIn)
  | [] => (c, [])
  end.

(** [READ_UTF8], and [sqlite3Utf8Read] on a zero-terminated text. *)
Definition READ_UTF8 (zIn : list Z) : Z * list Z :=
  let c := at_ zIn 0 in
  let zIn := drop 1 zIn in
  if 0xc0 <=? c then
    let '(c, zIn) := read_continuation zIn (at_ sqlite3Utf8Trans1 (c - 0xc0)) in
    (if (c <? 0x80) || (Z.land c 0xFFFFF800 =? 0xD800) || (Z.land c 0xFFFFFFFE =? 0xFFFE)
     then 0xFFFD else c, zIn)
  else (c, zIn).
Definition sqlite3Utf8Read := READ_UTF8.

(** ** [sqlite3VdbeMemTranslate] *)

(** The part of [Mem] it uses: the encoding and the [n] bytes of the text. *)
Record Mem := mkMem { m_enc : Z; m_z : list Z }.

(** The byte swap between the two UTF-16 encodings: an odd last byte stays. *)
Fixpoint swap_bytes (z : list Z) : list Z :=
  match z with
  | a :: b :: r => b :: a :: swap_bytes r
  | _ => z
  end.

Fixpoint translate_loop (fuel : nat) (read : list Z → Z * list Z) (write : Z → list Z)
    (zIn : list Z) : list Z :=
  match fuel with
  | O => []
  | S fuel =>
      match zIn with
      | [] => []
      | _ => let '(c, rest) := read zIn in write c ++ translate_loop fuel read write rest
      end
  end.

(** The loop condition [zIn<zTerm] that the reading macros are given. *)
Definition more (zIn : list Z) : bool := match zIn with [] => false | _ => true end.

(** [pMem->n &= ~1] *)
Definition even_part (z : list Z) : list Z := take (length z - length z mod 2) z.

Definition translate (enc desiredEnc : Z) (z : list Z) : list Z :=
  if enc =? SQLITE_UTF8 then
    translate_loop (length z) READ_UTF8
      (if desiredEnc =? SQLITE_UTF16LE then WRITE_UTF16LE else WRITE_UTF16BE) z
  else
    translate_loop (length z)
      (λ zIn, if enc =? SQLITE_UTF16LE then READ_UTF16LE zIn more else READ_UTF16BE zIn more)
      WRITE_UTF8 (even_part z).

(** The size of the output buffer, a C [int]. *)
Definition buffer_size (desiredEnc : Z) (z : list Z) : Z :=
  if desiredEnc =? SQLITE_UTF8 then i32 (Z.of_nat (length (even_part z)) * 2 + 1)
  else i32 (Z.of_nat (length z) * 2 + 2).

(** The result code, and the value afterwards: [oom] says that an allocation
    fails. *)
Definition sqlite3VdbeMemTranslate (pMem : Mem) (desiredEnc : Z) (oom : bool) : bool * Mem :=
  if oom then (false, pMem)
  else if negb (m_enc pMem =? SQLITE_UTF8) && negb (desiredEnc =? SQLITE_UTF8) then
    (true, mkMem desiredEnc (swap_bytes (m_z pMem)))
  else (true, mkMem desiredEnc (translate (m_enc pMem) desiredEnc (m_z pMem))).

(** [sqlite3VdbeMemHandleBom] *)
Definition sqlite3VdbeMemHandleBom (pMem : Mem) (oom : bool) : bool * Mem :=
  let b1 := at_ (m_z pMem) 0 in
  let b2 := at_ (m_z pMem) 1 in
  let bom :=
    if (1 <? length (m_z pMem))%nat then
      if (b1 =? 0xFF) && (b2 =? 0xFE) then SQLITE_UTF16LE
      else if (b1 =? 0xFE) && (b2 =? 0xFF) then SQLITE_UTF16BE
      else 0
    else 0 in
  if bom =? 0 then (true, pMem)
  else if oom then (false, pMem)
  else (true, mkMem bom (drop 2 (m_z pMem))).

(** [SQLITE_SKIP_UTF8]: a lead byte takes its continuation bytes with it. *)
Fixpoint skip_continuation (z : list Z) : list Z :=
  match z with
  | b :: r => if Z.land b 0xc0 =? 0x80 then skip_continuation r else z
  | [] => []
  end.
Definition SQLITE_SKIP_UTF8 (z : list Z) : list Z :=
  match z with
  | [] => []
  | b :: r => if 0xc0 <=? b then skip_continuation r else r
  end.

(** [sqlite3Utf8CharLen]: [z] is zero-terminated, and [nByte] limits where a
    character may start. *)
Fixpoint char_len_loop (fuel : nat) (z : list Z) (left : Z) (r : Z) : Z :=
  match fuel with
  | O => r
  | S fuel =>
      match z with
      | [] => r
      | _ =>
          if 0 <? left then
            let z' := SQLITE_SKIP_UTF8 z in
            char_len_loop fuel z' (left - Z.of_nat (length z - length z')) (r + 1)
          else r
      end
  end.
Definition sqlite3Utf8CharLen (zIn : list Z) (nByte : Z) : Z :=
  char_len_loop (length zIn) zIn (if 0 <=? nByte then nByte else Z.of_nat (length zIn)) 0.

(** [sqlite3Utf16ByteLen], on a little-endian machine. *)
Fixpoint byte_len_loop (n : nat) (z : list Z) (len : Z) : Z :=
  match n with
  | O => len
  | S n =>
      let z' := (READ_UTF16LE z (λ _, true)).2 in
      byte_len_loop n z' (len + Z.of_nat (length z - length z'))
  end.
Definition sqlite3Utf16ByteLen (zIn : list Z) (nChar : Z) : Z :=
  byte_len_loop (Z.to_nat nChar) zIn 0.

(** ** Each encoding reads back what it wrote *)

(** A field of [n] bits at position [k]. *)
Lemma land_field x n k :
  0 ≤ n → 0 ≤ k → Z.land x (Z.shiftl (Z.ones n) k) = (x / 2 ^ k) mod 2 ^ n * 2 ^ k.
Proof.
  intros Hn Hk. rewrite <- Z.land_ones, <- (Z.shiftr_div_pow2 x k), <- Z.shiftl_mul_pow2 by done.
  apply Z.bits_inj'. intros i Hi. rewrite Z.land_spec, !Z.shiftl_spec by done.
  destruct (Z_lt_le_dec i k).
  - rewrite !(Z.testbit_neg_r _ (i - k)) by lia. apply andb_false_r.
  - rewrite Z.land_spec, Z.shiftr_spec by lia. by replace (i - k + k) with i by lia.
Qed.

(** The masks and shifts of the encoders, as arithmetic. *)
Ltac arith_fields :=
  repeat match goal with
  | |- context [Z.shiftr ?x ?k] => rewrite (Z.shiftr_div_pow2 x k) by lia
  | |- context [Z.shiftl ?x ?k] => rewrite (Z.shiftl_mul_pow2 x k) by lia
  end;
  repeat match goal with
  | |- context [Z.land ?x 0x00C0] => rewrite (land_field x 2 6 ltac:(lia) ltac:(lia) : Z.land x 0x00C0 = _)
  | |- context [Z.land ?x 0x03C0] => rewrite (land_field x 4 6 ltac:(lia) ltac:(lia) : Z.land x 0x03C0 = _)
  | |- context [Z.land ?x 0xFF] => rewrite (Z.land_ones x 8 ltac:(lia) : Z.land x 0xFF = _)
  | |- context [Z.land ?x 0x1F] => rewrite (Z.land_ones x 5 ltac:(lia) : Z.land x 0x1F = _)
  | |- context [Z.land ?x 0x3F] => rewrite (Z.land_ones x 6 ltac:(lia) : Z.land x 0x3F = _)
  | |- context [Z.land ?x 0x0F] => rewrite (Z.land_ones x 4 ltac:(lia) : Z.land x 0x0F = _)
  | |- context [Z.land ?x 0x07] => rewrite (Z.land_ones x 3 ltac:(lia) : Z.land x 0x07 = _)
  | |- context [Z.land ?x 0x03] => rewrite (Z.land_ones x 2 ltac:(lia) : Z.land x 0x03 = _)
  | |- context [Z.land ?x 0x03FF] => rewrite (Z.land_ones x 10 ltac:(lia) : Z.land x 0x03FF = _)
  end.

(** A surrogate pair, in arithmetic: [hi] and [lo] are the ten-bit halves. *)
Lemma surrogates_combine hi lo :
  0 ≤ hi < 2 ^ 10 → 0 ≤ lo < 2 ^ 10 →
  surrogates (0xD800 + hi) (0xDC00 + lo) = 0x10000 + hi * 2 ^ 10 + lo.
Proof.
  intros Hh Hl. unfold surrogates. arith_fields.
  Z.to_euclidean_division_equations. lia.
Qed.

Lemma read_pair_le a b x y rest :
  READ_UTF16LE (a :: b :: x :: y :: rest) more =
  if (0xD800 <=? a + b * 2 ^ 8) && (a + b * 2 ^ 8 <? 0xE000)
  then (surrogates (a + b * 2 ^ 8) (x + y * 2 ^ 8), rest)
  else (a + b * 2 ^ 8, x :: y :: rest).
Proof.
  unfold READ_UTF16LE, at_, more. cbn [nth drop]. rewrite !Z.shiftl_mul_pow2 by lia.
  change (Z.to_nat 0) with 0%nat. change (Z.to_nat 1) with 1%nat. cbn [nth].
  by rewrite andb_true_r.
Qed.

(** The units of a code point beyond the basic plane. *)
Lemma write_pair i :
  0x10000 ≤ i < 0x110000 →
  let hi := (i - 0x10000) / 2 ^ 10 in
  let lo := (i - 0x10000) mod 2 ^ 10 in
  let w1 := 0xD800 + hi in let w2 := 0xDC00 + lo in
  WRITE_UTF16LE i = [w1 mod 2 ^ 8; w1 / 2 ^ 8; w2 mod 2 ^ 8; w2 / 2 ^ 8] ∧
  WRITE_UTF16BE i = [w1 / 2 ^ 8; w1 mod 2 ^ 8; w2 / 2 ^ 8; w2 mod 2 ^ 8].
Proof.
  intros Hi hi lo w1 w2. unfold WRITE_UTF16LE, WRITE_UTF16BE, w1, w2, hi, lo.
  rewrite (proj2 (Z.leb_gt _ _)) by lia. rewrite !u8_mod. arith_fields.
  split; repeat (apply (f_equal2 cons); [Z.to_euclidean_division_equations; lia|]); reflexivity.
Qed.

Lemma utf16_roundtrip i rest :
  0 ≤ i < 0x110000 → ¬ (0xD800 ≤ i < 0xE000) →
  READ_UTF16LE (WRITE_UTF16LE i ++ rest) more = (i, rest) ∧
  READ_UTF16BE (WRITE_UTF16BE i ++ rest) more = (i, rest).
Proof.
  intros Hi Hs. destruct (Z_le_gt_dec i 0xFFFF) as [H|H].
  - unfold WRITE_UTF16LE, WRITE_UTF16BE. rewrite (proj2 (Z.leb_le _ _)) by lia.
    rewrite !u8_mod. arith_fields. unfold READ_UTF16LE, READ_UTF16BE, at_. cbn [app].
    nat_indices. cbn [nth drop]. rewrite !Z.shiftl_mul_pow2 by lia.
    split.
    + replace (_ + _ * 2 ^ 8) with i by (Z.to_euclidean_division_equations; lia).
      destruct (Z.leb_spec 0xD800 i); [|done]. by rewrite (proj2 (Z.ltb_ge _ _)) by lia.
    + replace (_ * 2 ^ 8 + _) with i by (Z.to_euclidean_division_equations; lia).
      destruct (Z.leb_spec 0xD800 i); [|done]. by rewrite (proj2 (Z.ltb_ge _ _)) by lia.
  - destruct (write_pair i) as [-> ->]; [lia|]. cbv zeta.
    set (hi := (i - 0x10000) / 2 ^ 10). set (lo := (i - 0x10000) mod 2 ^ 10).
    assert (0 ≤ hi < 2 ^ 10 ∧ 0 ≤ lo < 2 ^ 10 ∧ i = 0x10000 + hi * 2 ^ 10 + lo) as (Hh&Hl&Ei).
    { unfold hi, lo. Z.to_euclidean_division_equations; lia. }
    pose proof (surrogates_combine hi lo Hh Hl) as Hc.
    assert (D : ∀ w, w / 2 ^ 8 * 2 ^ 8 + w mod 2 ^ 8 = w).
    { intros w. rewrite Z.mul_comm. symmetry. by apply Z.div_mod. }
    assert (D' : ∀ w, w mod 2 ^ 8 + w / 2 ^ 8 * 2 ^ 8 = w) by (intros w; rewrite Z.add_comm; apply D).
    unfold READ_UTF16LE, READ_UTF16BE, at_. cbn [app].
    nat_indices. cbn [nth drop more]. rewrite !Z.shiftl_mul_pow2, !D, !D' by lia.
    rewrite (proj2 (Z.leb_le 0xD800 (0xD800 + hi))), (proj2 (Z.ltb_lt (0xD800 + hi) 0xE000)) by lia.
    cbn [andb]. rewrite Hc. split; f_equal; lia.
Qed.

(** A continuation byte. *)
Lemma continuation x :
  0 ≤ x < 64 → u8 (0x80 + u8 x) = 0x80 + x ∧
  (Z.land (0x80 + x) 0xc0 =? 0x80) = true ∧ Z.land 0x3f (0x80 + x) = x.
Proof.
  intros Hx. rewrite (u8_small x), u8_small by lia. split; [done|].
  assert (E : (Z.land (0x80 + x) 0xc0 =? 0x80) && (Z.land 0x3f (0x80 + x) =? x)
              || (64 <=? x) = true).
  { apply (forall_bytes (λ x, (Z.land (0x80 + x) 0xc0 =? 0x80) && (Z.land 0x3f (0x80 + x) =? x)
              || (64 <=? x))); [by vm_compute|lia]. }
  rewrite (proj2 (Z.leb_gt _ _)), orb_false_r in E by lia.
  apply andb_true_iff in E as [E1 E2]. split; [done|by apply Z.eqb_eq].
Qed.

Lemma read_continuation_step x r c :
  0 ≤ x < 64 → 0 ≤ c < 2 ^ 26 →
  read_continuation (0x80 + x :: r) c = read_continuation r (c * 64 + x).
Proof.
  intros Hx Hc. cbn [read_continuation]. destruct (continuation x Hx) as (_&->&->).
  rewrite Z.shiftl_mul_pow2, !u32_small by (rewrite ?u32_small by lia; lia). done.
Qed.

(** A text that does not begin with a continuation byte. *)
Definition starts_char (z : list Z) : Prop := Z.land (at_ z 0) 0xc0 ≠ 0x80.

Lemma read_continuation_stop r c : starts_char r → read_continuation r c = (c, r).
Proof.
  unfold starts_char, at_. destruct r as [|b r]; [done|]. cbn. intros H.
  by rewrite (proj2 (Z.eqb_neq _ _)).
Qed.

Lemma trans1 k :
  (0 ≤ k < 32 → at_ sqlite3Utf8Trans1 k = k) ∧ (0 ≤ k < 16 → at_ sqlite3Utf8Trans1 (32 + k) = k) ∧
  (0 ≤ k < 8 → at_ sqlite3Utf8Trans1 (48 + k) = k).
Proof.
  assert (E : ∀ k, 0 ≤ k < 256 →
    ((at_ sqlite3Utf8Trans1 k =? k) || (32 <=? k)) && ((at_ sqlite3Utf8Trans1 (32 + k) =? k) || (16 <=? k))
    && ((at_ sqlite3Utf8Trans1 (48 + k) =? k) || (8 <=? k)) = true).
  { apply (forall_bytes (λ k,
    ((at_ sqlite3Utf8Trans1 k =? k) || (32 <=? k)) && ((at_ sqlite3Utf8Trans1 (32 + k) =? k) || (16 <=? k))
    && ((at_ sqlite3Utf8Trans1 (48 + k) =? k) || (8 <=? k)))). by vm_compute. }
  split_and!; intros Hk; specialize (E k ltac:(lia)); breflect;
    repeat match goal with H : _ || _ = true |- _ => apply orb_true_iff in H as [H|H] end;
    breflect; done || lia.
Qed.

(** The code points [READ_UTF8] replaces. *)
Lemma utf8_checks c :
  0 ≤ c < 2 ^ 32 →
  (Z.land c 0xFFFFF800 =? 0xD800) = ((0xD800 <=? c) && (c <? 0xE000)) ∧
  (Z.land c 0xFFFFFFFE =? 0xFFFE) = ((c =? 0xFFFE) || (c =? 0xFFFF)).
Proof.
  intros Hc.
  pose proof (land_field c 21 11 ltac:(lia) ltac:(lia) : Z.land c 0xFFFFF800 = _) as ->.
  pose proof (land_field c 31 1 ltac:(lia) ltac:(lia) : Z.land c 0xFFFFFFFE = _) as ->.
  rewrite !(Z.mod_small (c / _)) by (Z.to_euclidean_division_equations; lia).
  split.
  - apply eq_iff_eq_true. rewrite andb_true_iff, Z.eqb_eq, Z.leb_le, Z.ltb_lt.
    Z.to_euclidean_division_equations; lia.
  - apply eq_iff_eq_true. rewrite orb_true_iff, !Z.eqb_eq.
    Z.to_euclidean_division_equations; lia.
Qed.

(** What the self test of utf.c expects of [READ_UTF8]. *)
Definition utf8_value (i : Z) : Z :=
  if ((0xD800 <=? i) && (i <=? 0xDFFF)) || (i =? 0xFFFE) || (i =? 0xFFFF) then 0xFFFD else i.

Lemma utf8_final i r : 0x80 ≤ i < 2 ^ 32 → starts_char r →
  (let '(c, zIn) := read_continuation r i in
   (if (c <? 0x80) || (Z.land c 0xFFFFF800 =? 0xD800) || (Z.land c 0xFFFFFFFE =? 0xFFFE)
    then 0xFFFD else c, zIn)) = (utf8_value i, r).
Proof.
  intros Hi Hr. rewrite read_continuation_stop by done.
  destruct (utf8_checks i) as [-> ->]; [lia|]. unfold utf8_value.
  rewrite (proj2 (Z.ltb_ge i 0x80)) by lia. cbn [orb].
  replace (i <=? 0xDFFF) with (i <? 0xE000) by (apply eq_iff_eq_true; rewrite Z.ltb_lt, Z.leb_le; lia).
  by rewrite orb_assoc.
Qed.

(** The bytes of a code point, by its size. *)
Lemma write_utf8_bytes i :
  0 ≤ i < 0x110000 →
  WRITE_UTF8 i =
    if i <? 0x80 then [i]
    else if i <? 0x800 then [0xC0 + i / 2 ^ 6; 0x80 + i mod 2 ^ 6]
    else if i <? 0x10000 then
      [0xC0 + (32 + i / 2 ^ 12); 0x80 + i / 2 ^ 6 mod 2 ^ 6; 0x80 + i mod 2 ^ 6]
    else
      [0xC0 + (48 + i / 2 ^ 18); 0x80 + i / 2 ^ 12 mod 2 ^ 6; 0x80 + i / 2 ^ 6 mod 2 ^ 6;
       0x80 + i mod 2 ^ 6].
Proof.
  intros Hi. unfold WRITE_UTF8. rewrite !u8_mod. arith_fields.
  case_tests; repeat (apply (f_equal2 cons); [Z.to_euclidean_division_equations; lia|]);
    reflexivity.
Qed.

Lemma read_utf8_lead k k' tail :
  0 ≤ k → at_ sqlite3Utf8Trans1 k = k' →
  READ_UTF8 (0xC0 + k :: tail) =
  let '(c, zIn) := read_continuation tail k' in
  (if (c <? 0x80) || (Z.land c 0xFFFFF800 =? 0xD800) || (Z.land c 0xFFFFFFFE =? 0xFFFE)
   then 0xFFFD else c, zIn).
Proof.
  intros Hk <-. unfold READ_UTF8. change (drop 1 (0xC0 + k :: tail)) with tail.
  change (at_ (0xC0 + k :: tail) 0) with (0xC0 + k).
  rewrite (proj2 (Z.leb_le _ _)) by lia. by replace (0xC0 + k - 0xc0) with k by lia.
Qed.

Lemma utf8_roundtrip i rest :
  0 ≤ i < 0x110000 → starts_char rest →
  READ_UTF8 (WRITE_UTF8 i ++ rest) = (utf8_value i, rest).
Proof.
  intros Hi Hr. rewrite write_utf8_bytes by done.
  destruct (Z.ltb_spec i 0x80) as [H1|H1]; [|destruct (Z.ltb_spec i 0x800) as [H2|H2];
    [|destruct (Z.ltb_spec i 0x10000) as [H3|H3]]]; cbn [app].
  - unfold READ_UTF8. change (drop 1 (i :: rest)) with rest. change (at_ (i :: rest) 0) with i.
    rewrite (proj2 (Z.leb_gt _ _)) by lia. unfold utf8_value.
    by rewrite (proj2 (Z.leb_gt 0xD800 i)), !(proj2 (Z.eqb_neq i _)) by lia.
  - rewrite (read_utf8_lead _ (i / 2 ^ 6)); [|Z.to_euclidean_division_equations; lia|
      apply trans1; Z.to_euclidean_division_equations; lia].
    rewrite read_continuation_step by (Z.to_euclidean_division_equations; lia).
    replace (i / 2 ^ 6 * 64 + i mod 2 ^ 6) with i by (Z.to_euclidean_division_equations; lia).
    apply utf8_final; [lia|done].
  - rewrite (read_utf8_lead _ (i / 2 ^ 12)); [|Z.to_euclidean_division_equations; lia|
      apply trans1; Z.to_euclidean_division_equations; lia].
    rewrite !read_continuation_step by (Z.to_euclidean_division_equations; lia).
    replace ((_ * 64 + _) * 64 + _) with i by (Z.to_euclidean_division_equations; lia).
    apply utf8_final; [lia|done].
  - rewrite (read_utf8_lead _ (i / 2 ^ 18)); [|Z.to_euclidean_division_equations; lia|
      apply trans1; Z.to_euclidean_division_equations; lia].
    rewrite !read_continuation_step by (Z.to_euclidean_division_equations; lia).
    replace (((_ * 64 + _) * 64 + _) * 64 + _) with i by (Z.to_euclidean_division_equations; lia).
    apply utf8_final; [lia|done].
Qed.

(** The self test of utf.c, for all code points at once: each encoding reads
    back what it wrote and stops where it ends, whatever follows; UTF-8 reads
    surrogates and the two non-characters as U+FFFD, and UTF-16 has no encoding
    for surrogates. *)
Theorem utf_roundtrip i rest :
  0 ≤ i < 0x110000 →
  (starts_char rest → sqlite3Utf8Read (WRITE_UTF8 i ++ rest) = (utf8_value i, rest)) ∧
  (¬ (0xD800 ≤ i < 0xE000) →
     READ_UTF16LE (WRITE_UTF16LE i ++ rest) more = (i, rest) ∧
     READ_UTF16BE (WRITE_UTF16BE i ++ rest) more = (i, rest)) ∧
  (1 ≤ length (WRITE_UTF8 i) ≤ 4)%nat.
Proof.
  intros Hi. split_and!.
  - by apply utf8_roundtrip.
  - by apply utf16_roundtrip.
  - unfold WRITE_UTF8. repeat case_match; simpl; lia.
  - unfold WRITE_UTF8. repeat case_match; simpl; lia.
Qed.

(** ** Translation of whole texts *)

(** A read consumes: it leaves a shorter text. *)
Definition consumes (read : list Z → Z * list Z) : Prop :=
  ∀ z, z ≠ [] → (length (read z).2 < length z)%nat.

Lemma read_continuation_length r c : (length (read_continuation r c).2 ≤ length r)%nat.
Proof.
  revert c; induction r as [|b r IH]; intros c; simpl; [lia|].
  case_match; simpl; [|lia]. specialize (IH (u32 (u32 (Z.shiftl c 6) + Z.land 63 b))). lia.
Qed.

Lemma READ_UTF8_consumes : consumes READ_UTF8.
Proof.
  intros [|b r] Hz; [done|]. unfold READ_UTF8. change (drop 1 (b :: r)) with r.
  case_match; [|simpl; lia].
  pose proof (read_continuation_length r (at_ sqlite3Utf8Trans1 (at_ (b :: r) 0 - 0xc0))).
  destruct (read_continuation _ _); simpl in *; lia.
Qed.

Lemma READ_UTF16_consumes le :
  consumes (λ zIn, if le : bool then READ_UTF16LE zIn more else READ_UTF16BE zIn more).
Proof.
  intros z Hz. unfold READ_UTF16LE, READ_UTF16BE.
  assert (0 < length z)%nat by (destruct z; [done|simpl; lia]).
  destruct le; case_match; rewrite ?length_drop; simpl; rewrite ?length_drop; lia.
Qed.

(** Reading a text written one code point at a time. *)
Lemma translate_loop_text read write (w : Z → list Z) (ok : Z → Prop) cps fuel :
  (∀ c rest, ok c → (rest = [] ∨ ∃ c' r, ok c' ∧ rest = w c' ++ r) → read (w c ++ rest) = (c, rest)) →
  (∀ c, ok c → w c ≠ []) → Forall ok cps → (length (flat_map w cps) ≤ fuel)%nat →
  translate_loop fuel read write (flat_map w cps) = flat_map write cps.
Proof.
  intros Hread Hne Hok. revert fuel. induction Hok as [|c cps Hc Hcps IH]; intros fuel Hf; simpl in *.
  { by destruct fuel. }
  rewrite length_app in Hf. assert (0 < length (w c))%nat.
  { specialize (Hne c Hc). destruct (w c); [done|simpl; lia]. }
  destruct fuel as [|fuel]; [lia|]. cbn [translate_loop].
  rewrite Hread; [|done|].
  - destruct (w c ++ flat_map w cps) eqn:E.
    + apply app_nil in E as [E _]. by apply Hne in E.
    + f_equal. apply IH. lia.
  - destruct Hcps as [|c' cps' Hc' _]; [by left|]. right. simpl. eauto.
Qed.

(** A code point that both encodings can carry. *)
Definition scalar (c : Z) : Prop :=
  0 ≤ c < 0x110000 ∧ ¬ (0xD800 ≤ c < 0xE000) ∧ c ≠ 0xFFFE ∧ c ≠ 0xFFFF.

Lemma write_utf8_starts c r : 0 ≤ c < 0x110000 → starts_char (WRITE_UTF8 c ++ r).
Proof.
  intros Hc. unfold starts_char. rewrite write_utf8_bytes by done.
  assert (T : ∀ b, 0 ≤ b < 256 → (b < 0x80 ∨ 0xC0 ≤ b) → Z.land b 0xc0 ≠ 0x80).
  { intros b Hb Hb'. apply Z.eqb_neq.
    assert (E : (negb (Z.land b 0xc0 =? 0x80)) || ((0x80 <=? b) && (b <? 0xC0)) = true).
    { apply (forall_bytes (λ b, (negb (Z.land b 0xc0 =? 0x80)) || ((0x80 <=? b) && (b <? 0xC0))));
        [by vm_compute|done]. }
    apply orb_true_iff in E as [E|E]; breflect; [by apply Z.eqb_neq|lia]. }
  case_tests; cbn [app]; change (at_ (?b :: ?l) 0) with b; apply T;
    Z.to_euclidean_division_equations; lia.
Qed.

Lemma starts_char_nil : starts_char [].
Proof. done. Qed.

Lemma utf16_nonempty c : WRITE_UTF16LE c ≠ [] ∧ WRITE_UTF16BE c ≠ [].
Proof. unfold WRITE_UTF16LE, WRITE_UTF16BE. by case_match. Qed.

Lemma even_part_id z : (length z mod 2 = 0)%nat → even_part z = z.
Proof. intros H. unfold even_part. rewrite H, Nat.sub_0_r. apply take_ge. lia. Qed.

Lemma utf16_even (cps : list Z) (w : Z → list Z) :
  (∀ c, length (w c) = 2 ∨ length (w c) = 4)%nat →
  (length (flat_map w cps) mod 2 = 0)%nat.
Proof.
  intros Hw. enough (∃ k, length (flat_map w cps) = (k * 2)%nat) as [k ->]
    by apply Nat.Div0.mod_mul.
  induction cps as [|c cps [k IH]]; simpl; [by exists 0%nat|].
  rewrite length_app, IH. destruct (Hw c) as [-> | ->]; [exists (1 + k)%nat|exists (2 + k)%nat]; lia.
Qed.

(** C33. Translation preserves the text: from UTF-8 to either form of UTF-16 and
    back, a text of code points that all encodings can carry is rewritten code
    point by code point. *)
Theorem translate_text cps le :
  Forall scalar cps →
  let enc16 := if le : bool then SQLITE_UTF16LE else SQLITE_UTF16BE in
  let w16 := if le then WRITE_UTF16LE else WRITE_UTF16BE in
  translate SQLITE_UTF8 enc16 (flat_map WRITE_UTF8 cps) = flat_map w16 cps ∧
  translate enc16 SQLITE_UTF8 (flat_map w16 cps) = flat_map WRITE_UTF8 cps.
Proof.
  intros Hok enc16 w16. split.
  - unfold translate. cbn [Z.eqb SQLITE_UTF8].
    replace (if enc16 =? SQLITE_UTF16LE then WRITE_UTF16LE else WRITE_UTF16BE) with w16
      by (unfold w16, enc16; by destruct le).
    apply (translate_loop_text _ _ _ scalar); [| |done|lia].
    + intros c rest (Hc&Hs&Hn1&Hn2) Hrest. rewrite utf8_roundtrip; [| |].
      * unfold utf8_value. destruct (Z.leb_spec 0xD800 c), (Z.leb_spec c 0xDFFF);
          rewrite ?(proj2 (Z.eqb_neq c _)) by lia; done || lia.
      * done.
      * destruct Hrest as [->|(c'&r&(Hc'&_)&->)]; [done|by apply write_utf8_starts].
    + intros c _. unfold WRITE_UTF8. by repeat case_match.
  - unfold translate.
    replace (enc16 =? SQLITE_UTF8) with false by (unfold enc16; by destruct le).
    rewrite even_part_id.
    2:{ apply utf16_even. intros c. unfold w16, WRITE_UTF16LE, WRITE_UTF16BE.
        destruct le; case_match; simpl; auto. }
    apply (translate_loop_text _ _ _ scalar); [| |done|lia].
    + intros c rest (Hc&Hs&_) _. destruct (utf16_roundtrip c rest Hc Hs).
      unfold enc16, w16. by destruct le.
    + intros c _. destruct (utf16_nonempty c). unfold w16. by destruct le.
Qed.

(** ** The output buffer *)

(** What a read took, and how much of it was written. *)
Definition expands (read : list Z → Z * list Z) (write : Z → list Z) (ok : list Z → Prop) (k : nat)
    : Prop :=
  ∀ z, ok z → z ≠ [] →
    ok (read z).2 ∧ (length (read z).2 < length z)%nat ∧
    (length (write (read z).1) ≤ k * (length z - length (read z).2))%nat.

Lemma translate_loop_length read write ok k fuel z :
  expands read write ok k → ok z →
  (length (translate_loop fuel read write z) ≤ k * length z)%nat.
Proof.
  intros He. revert z; induction fuel as [|fuel IH]; intros z Hz; simpl; [lia|].
  destruct z as [|b r]; [simpl; lia|]. destruct (He (b :: r) Hz ltac:(done)) as (Hok&Hlt&Hw).
  destruct (read (b :: r)) as [c rest]; cbn [fst snd] in *.
  rewrite length_app. specialize (IH rest Hok). nia.
Qed.

Lemma read_continuation_bound r c c' r' :
  read_continuation r c = (c', r') → 0 ≤ c → Forall is_byte r →
  Forall is_byte r' ∧ (length r' ≤ length r)%nat ∧
  (length r' = length r → c' = c) ∧ ((length r - length r' = 1)%nat → c' < c * 64 + 64).
Proof.
  revert c; induction r as [|b r IH]; intros c; simpl.
  { intros [= <- <-] ? Hr. split_and!; (done || (simpl; lia)). }
  destruct (Z.land b 0xc0 =? 0x80).
  2:{ intros [= <- <-] ? Hr. split_and!; (done || (simpl; lia)). }
  intros E Hc [Hb Hr]%Forall_cons.
  destruct (IH _ E) as (H1&H2&H3&H4); [apply u32_range|done|].
  split_and!; [done|lia|intros; lia|].
  intros H. rewrite H3 by lia. rewrite !u32_mod, Z.shiftl_mul_pow2 by lia.
  assert (0 ≤ Z.land 0x3f b < 2 ^ 6) by (rewrite Z.land_comm; apply land_range; lia).
  pose proof (Z.mod_le (c * 2 ^ 6) (2 ^ 32)).
  pose proof (Z.mod_pos_bound (c * 2 ^ 6) (2 ^ 32)).
  pose proof (Z.mod_le ((c * 2 ^ 6) mod 2 ^ 32 + Z.land 0x3f b) (2 ^ 32)). lia.
Qed.

Lemma trans1_range k : 0 ≤ at_ sqlite3Utf8Trans1 k < 32.
Proof.
  assert (H : Forall (λ x, 0 ≤ x < 32) sqlite3Utf8Trans1)
    by (unfold sqlite3Utf8Trans1; repeat (apply Forall_cons_2; [lia|]); apply Forall_nil_2).
  unfold at_. destruct (nth_in_or_default (Z.to_nat k) sqlite3Utf8Trans1 0) as [Hin| ->]; [|lia].
  rewrite Forall_forall in H. apply H. by apply list_elem_of_In.
Qed.

Lemma utf8_to_16_expands write :
  (∀ c, length (write c) = if c <=? 0xFFFF then 2%nat else 4%nat) →
  expands READ_UTF8 write (Forall is_byte) 2.
Proof.
  intros Hw [|b r] Hz Hne; [done|]. apply Forall_cons in Hz as [Hb Hr]. unfold READ_UTF8.
  change (drop 1 (b :: r)) with r. change (at_ (b :: r) 0) with b.
  destruct (Z.leb_spec 0xc0 b) as [Hlead|Hlead].
  2:{ cbn [fst snd]. rewrite Hw. unfold is_byte in Hb. rewrite (proj2 (Z.leb_le _ _)) by lia.
      split_and!; [done|simpl; lia|simpl; lia]. }
  pose proof (trans1_range (b - 0xc0)) as Ht.
  destruct (read_continuation r (at_ sqlite3Utf8Trans1 (b - 192))) as [c rest] eqn:E.
  apply read_continuation_bound in E as (H1&H2&H3&H4); [|lia|done].
  cbn [fst snd]. split_and!; [done|simpl; lia|]. rewrite Hw. simpl length.
  destruct (decide (length rest = length r)) as [El|];
    [|destruct (decide (length r - length rest = 1)%nat) as [El|]].
  - rewrite (H3 El). repeat case_match; breflect; lia.
  - specialize (H4 El). repeat case_match; breflect; lia.
  - repeat case_match; lia.
Qed.

Lemma utf16_to_8_expands le :
  expands (λ zIn, if le : bool then READ_UTF16LE zIn more else READ_UTF16BE zIn more)
    WRITE_UTF8 (λ z, Forall is_byte z ∧ ∃ k, length z = (k * 2)%nat) 2.
Proof.
  intros z [Hz [k Hk]] Hne.
  destruct z as [|b0 [|b1 r]]; [done|simpl in Hk; lia|].
  apply Forall_cons in Hz as [Hb0 Hz]. apply Forall_cons in Hz as [Hb1 Hr].
  assert (Hlen : ∀ c, (length (WRITE_UTF8 c) ≤ 4)%nat ∧ (c < 0x10000 → (length (WRITE_UTF8 c) ≤ 3)%nat)).
  { intros c. unfold WRITE_UTF8. split; [|intros]; repeat case_match; simpl; breflect; lia. }
  unfold is_byte, READ_UTF16LE, READ_UTF16BE in *. change (drop 2 (b0 :: b1 :: r)) with r.
  change (at_ (b0 :: b1 :: r) 0) with b0. change (at_ (b0 :: b1 :: r) 1) with b1.
  rewrite !Z.shiftl_mul_pow2 by lia. simpl in Hk.
  assert (Hr2 : more r = true → (2 ≤ length r)%nat).
  { destruct r as [|x [|y r']]; simpl in *; [done|lia|lia]. }
  assert (Hk2 : (∃ k', length r = (k' * 2)%nat)) by (exists (k - 1)%nat; lia).
  assert (Hk4 : (2 ≤ length r)%nat → ∃ k', length (drop 2 r) = (k' * 2)%nat).
  { intros. exists (k - 2)%nat. rewrite length_drop. lia. }
  destruct le; (destruct (_ && _) eqn:E; cbn [fst snd]; [breflect|]);
    (split_and!; [first [done|by apply Forall_drop]|by auto|rewrite ?length_drop; simpl; lia|]).
  - destruct (Hlen (surrogates (b0 + b1 * 2 ^ 8) (at_ r 0 + at_ r 1 * 2 ^ 8))).
    specialize (Hr2 H0). rewrite length_drop. simpl. lia.
  - destruct (Hlen (b0 + b1 * 2 ^ 8)) as [_ Hl]. simpl. specialize (Hl ltac:(lia)). lia.
  - destruct (Hlen (surrogates (b0 * 2 ^ 8 + b1) (at_ r 0 * 2 ^ 8 + at_ r 1))).
    specialize (Hr2 H0). rewrite length_drop. simpl. lia.
  - destruct (Hlen (b0 * 2 ^ 8 + b1)) as [_ Hl]. simpl. specialize (Hl ltac:(lia)). lia.
Qed.

(** C32. The translation never overruns its buffer: for every input that is not
    longer than SQLITE_MAX_LENGTH, well-formed or not, the text written and its
    terminator (one byte, or two for UTF-16) fit in the size computed beforehand,
    and the 32-bit computation of that size does not overflow. *)
Theorem translate_fits z enc desiredEnc :
  Forall is_byte z → Z.of_nat (length z) ≤ SQLITE_MAX_LENGTH →
  (enc = SQLITE_UTF8 ∧ (desiredEnc = SQLITE_UTF16LE ∨ desiredEnc = SQLITE_UTF16BE)) ∨
  ((enc = SQLITE_UTF16LE ∨ enc = SQLITE_UTF16BE) ∧ desiredEnc = SQLITE_UTF8) →
  Z.of_nat (length (translate enc desiredEnc z)) + (if desiredEnc =? SQLITE_UTF8 then 1 else 2)
  ≤ buffer_size desiredEnc z.
Proof.
  intros Hz Hmax Henc.
  assert (buffer_size desiredEnc z = if desiredEnc =? SQLITE_UTF8
    then Z.of_nat (length (even_part z)) * 2 + 1 else Z.of_nat (length z) * 2 + 2) as ->.
  { unfold buffer_size, i32, SQLITE_MAX_LENGTH in *.
    assert (length (even_part z) ≤ length z)%nat by (unfold even_part; rewrite length_take; lia).
    rewrite !signed_small by lia. done. }
  destruct Henc as [[-> Hd]|[He ->]]; unfold translate.
  - replace (desiredEnc =? SQLITE_UTF8) with false by (by destruct Hd as [-> | ->]).
    rewrite Z.eqb_refl. cbv iota.
    enough (∀ w, (∀ c, length (w c) = if c <=? 0xFFFF then 2%nat else 4%nat) →
      (length (translate_loop (length z) READ_UTF8 w z) ≤ 2 * length z)%nat) as Hw.
    { destruct (desiredEnc =? SQLITE_UTF16LE).
      - specialize (Hw WRITE_UTF16LE). enough (length (translate_loop (length z) READ_UTF8 WRITE_UTF16LE z)
          ≤ 2 * length z)%nat by lia. apply Hw. intros c. unfold WRITE_UTF16LE. by case_match.
      - specialize (Hw WRITE_UTF16BE). enough (length (translate_loop (length z) READ_UTF8 WRITE_UTF16BE z)
          ≤ 2 * length z)%nat by lia. apply Hw. intros c. unfold WRITE_UTF16BE. by case_match. }
    intros w Hw. by eapply translate_loop_length; [apply utf8_to_16_expands|].
  - replace (enc =? SQLITE_UTF8) with false by (by destruct He as [-> | ->]).
    rewrite Z.eqb_refl. cbv iota.
    assert (Heven : ∃ k, length (even_part z) = (k * 2)%nat).
    { unfold even_part. rewrite length_take. exists (length z / 2)%nat.
      pose proof (Nat.div_mod_eq (length z) 2). lia. }
    pose proof (translate_loop_length _ _ _ 2 (length z) (even_part z)
      (utf16_to_8_expands (enc =? SQLITE_UTF16LE))) as H. cbn beta in H.
    enough (Forall is_byte (even_part z) ∧ ∃ k, length (even_part z) = (k * 2)%nat) as Hok
      by (specialize (H Hok); lia).
    split; [by apply Forall_take|done].
Qed.

Lemma utf_roundtrip_witness :
  READ_UTF16LE (WRITE_UTF16LE 0x1F600 ++ [65; 0]) more = (0x1F600, [65; 0]).
Proof.
  refine (proj1 (proj1 (proj2 (utf_roundtrip 0x1F600 [65; 0] _)) _)); lia.
Defined.

Lemma translate_text_witness :
  translate SQLITE_UTF8 SQLITE_UTF16LE (flat_map WRITE_UTF8 [72; 0x20AC; 0x1F600])
  = flat_map WRITE_UTF16LE [72; 0x20AC; 0x1F600].
Proof.
  refine (proj1 (translate_text [72; 0x20AC; 0x1F600] true _)).
  repeat (apply Forall_cons_2; [unfold scalar; lia|]). apply Forall_nil_2.
Defined.

Lemma translate_fits_witness :
  Z.of_nat (length (translate SQLITE_UTF8 SQLITE_UTF16LE [0xF0; 0x9F])) + 2
  ≤ buffer_size SQLITE_UTF16LE [0xF0; 0x9F].
Proof.
  refine (translate_fits [0xF0; 0x9F] SQLITE_UTF8 SQLITE_UTF16LE _ _ _).
  - repeat constructor; unfold is_byte; lia.
  - unfold SQLITE_MAX_LENGTH. simpl. lia.
  - left. split; [reflexivity|]. left. reflexivity.
Defined.
