(* ===== verification/SqlBitvec.v ===== *)
(** * Bitmaps of page numbers

    Models bitvec.c of src/org.glite.wms.ice/src/iceDb/sqlite/sqlite3.c: a set of
    numbers from 1 to a fixed size, represented as a bitmap, as a hash table with
    linear probing, or as an array of smaller bitmaps, and converted from the
    second form to the third when it fills up.  Sizes are those of a machine with
    8-byte pointers. *)

From S2P Require Import Prelude.
From S2P Require Import Machine.

Definition BITVEC_SZ : Z := 512.
Definition BITVEC_USIZE : Z := (BITVEC_SZ - 3 * 4) / 8 * 8.
Definition BITVEC_SZELEM : Z := 8.
Definition BITVEC_NELEM : Z := BITVEC_USIZE / 1.
Definition BITVEC_NBIT : Z := BITVEC_NELEM * BITVEC_SZELEM.
Definition BITVEC_NINT : Z := BITVEC_USIZE / 4.
Definition BITVEC_MXHASH : Z := BITVEC_NINT / 2.
Definition BITVEC_HASH (x : Z) : Z := (x * 1) mod BITVEC_NINT.
Definition BITVEC_NPTR : Z := BITVEC_USIZE / 8.

(** [struct Bitvec]; the union by the member in use. *)
Inductive Bitvec :=
| mkBitvec (size n d : Z) (un : bitvec_union)
with bitvec_union :=
| aBitmap (l : list Z)
| aHash (l : list Z)
| apSub (l : list (option Bitvec)).

Definition iSize (p : Bitvec) : Z := match p with mkBitvec size _ _ _ => size end.
Definition nSet (p : Bitvec) : Z := match p with mkBitvec _ n _ _ => n end.
Definition iDivisor (p : Bitvec) : Z := match p with mkBitvec _ _ d _ => d end.
Definition u (p : Bitvec) : bitvec_union := match p with mkBitvec _ _ _ un => un end.

Definition SQLITE_OK : Z := 0.
Definition SQLITE_NOMEM : Z := 7.

(** [sqlite3BitvecCreate], when the memory is there: zeroed memory. *)
Definition sqlite3BitvecCreate (size : Z) : Bitvec :=
  mkBitvec size 0 0
    (if size <=? BITVEC_NBIT then aBitmap (replicate (Z.to_nat BITVEC_NELEM) 0)
     else aHash (replicate (Z.to_nat BITVEC_NINT) 0)).

(** Whether the next allocation succeeds; the list holds the answers to come, and
    when it is used up there is memory. *)
Definition malloc (o : list bool) : bool * list bool :=
  match o with [] => (true, []) | b :: o => (b, o) end.

(** Linear probing from slot [h]: whether [i] is there, and the slot where the
    probing ended. *)
Fixpoint probe (fuel : nat) (a : list Z) (h i : Z) : bool * Z :=
  match fuel with
  | O => (false, h)
  | S fuel =>
      if at_ a h =? 0 then (false, h)
      else if at_ a h =? i then (true, h)
      else probe fuel a ((h + 1) mod BITVEC_NINT) i
  end.
Definition probe_fuel : nat := Z.to_nat BITVEC_NINT.

Definition bit_of (i : Z) : Z := Z.shiftl 1 (Z.land i (BITVEC_SZELEM - 1)).

(** The loops of [sqlite3BitvecTest] after [i--]. *)
Fixpoint test0 (p : Bitvec) (i : Z) : bool :=
  match p with
  | mkBitvec size _ d un =>
      if negb (d =? 0) then
        match un with
        | apSub l =>
            (fix at_sub (l : list (option Bitvec)) (k : nat) : bool :=
               match l, k with
               | Some s :: _, O => test0 s (i mod d)
               | None :: _, O => false
               | _ :: r, S k => at_sub r k
               | [], _ => false
               end) l (Z.to_nat (i / d))
        | _ => false
        end
      else
        if size <=? BITVEC_NBIT then
          match un with
          | aBitmap a => negb (Z.land (at_ a (i / BITVEC_SZELEM)) (bit_of i) =? 0)
          | _ => false
          end
        else
          match un with
          | aHash a => (probe probe_fuel a (BITVEC_HASH i) (i + 1)).1
          | _ => false
          end
  end.

(** [sqlite3BitvecTest] *)
Definition sqlite3BitvecTest (p : option Bitvec) (i : Z) : bool :=
  match p with
  | None => false
  | Some p => if (iSize p <? i) || (i =? 0) then false else test0 p (i - 1)
  end.

Definition with_union (p : Bitvec) (n d : Z) (un : bitvec_union) : Bitvec :=
  mkBitvec (iSize p) n d un.

(** The loop over [aiValues] when a hash table is converted. *)
Fixpoint set_all (set : Bitvec → Z → list bool → option (Z * Bitvec * list bool))
    (values : list Z) (rc : Z) (p : Bitvec) (o : list bool) : option (Z * Bitvec * list bool) :=
  match values with
  | [] => Some (rc, p, o)
  | v :: r =>
      if v =? 0 then set_all set r rc p o
      else '(rc1, p, o) ← set p (v - 1) o; set_all set r (Z.lor rc rc1) p o
  end.

(** [sqlite3BitvecSet] after [i--]; [None] is the end of the fuel, which bounds the
    nesting of the recursion. *)
Fixpoint set0 (fuel : nat) (p : Bitvec) (i : Z) (o : list bool)
    : option (Z * Bitvec * list bool) :=
  match fuel with
  | O => None
  | S fuel =>
      let convert (a : list Z) :=
        let '(ok, o) := malloc o in
        if negb ok then Some (SQLITE_NOMEM, p, o)
        else
          let d := (iSize p + BITVEC_NPTR - 1) / BITVEC_NPTR in
          let p := with_union p (nSet p) d (apSub (replicate (Z.to_nat BITVEC_NPTR) None)) in
          '(rc, p, o) ← set0 fuel p i o;
          set_all (set0 fuel) a rc p o in
      let store (a : list Z) (h : Z) :=
        Some (SQLITE_OK,
              with_union p (nSet p + 1) (iDivisor p) (aHash (<[Z.to_nat h := i + 1]> a)), o) in
      if (BITVEC_NBIT <? iSize p) && negb (iDivisor p =? 0) then
        match u p with
        | apSub l =>
            let bin := Z.to_nat (i / iDivisor p) in
            let descend (s : Bitvec) (o : list bool) :=
              '(rc, s, o) ← set0 fuel s (i mod iDivisor p) o;
              Some (rc, with_union p (nSet p) (iDivisor p) (apSub (<[bin := Some s]> l)), o) in
            match l !! bin with
            | Some (Some s) => descend s o
            | Some None =>
                let '(ok, o) := malloc o in
                if negb ok then Some (SQLITE_NOMEM, p, o)
                else descend (sqlite3BitvecCreate (iDivisor p)) o
            | None => None
            end
        | _ => None
        end
      else if iSize p <=? BITVEC_NBIT then
        match u p with
        | aBitmap a =>
            let e := i / BITVEC_SZELEM in
            Some (SQLITE_OK, with_union p (nSet p) (iDivisor p)
                    (aBitmap (<[Z.to_nat e := u8 (Z.lor (at_ a e) (bit_of i))]> a)), o)
        | _ => None
        end
      else
        match u p with
        | aHash a =>
            let h := BITVEC_HASH i in
            if at_ a h =? 0 then
              if nSet p <? BITVEC_NINT - 1 then store a h else convert a
            else
              let '(found, h) := probe probe_fuel a h (i + 1) in
              if found : bool then Some (SQLITE_OK, p, o)
              else if BITVEC_MXHASH <=? nSet p then convert a
              else store a h
        | _ => None
        end
  end.

(** The nesting a bitmap of 32-bit size can reach. *)
Definition set_fuel : nat := 9.

(** [sqlite3BitvecSet] *)
Definition sqlite3BitvecSet (p : option Bitvec) (i : Z) (o : list bool)
    : option (Z * option Bitvec * list bool) :=
  match p with
  | None => Some (SQLITE_OK, None, o)
  | Some p => '(rc, p, o) ← set0 set_fuel p (i - 1) o; Some (rc, Some p, o)
  end.

(** The hash table rebuilt from its values, without [i+1]. *)
Fixpoint rebuild (values : list Z) (i : Z) (n : Z) (a : list Z) : Z * list Z :=
  match values with
  | [] => (n, a)
  | v :: r =>
      if negb (v =? 0) && negb (v =? i + 1) then
        let h := (probe probe_fuel a (BITVEC_HASH (v - 1)) 0).2 in
        rebuild r i (n + 1) (<[Z.to_nat h := v]> a)
      else rebuild r i n a
  end.

(** [sqlite3BitvecClear] after [i--]. *)
Fixpoint clear0 (p : Bitvec) (i : Z) : Bitvec :=
  match p with
  | mkBitvec size n d un =>
      if negb (d =? 0) then
        match un with
        | apSub l =>
            mkBitvec size n d (apSub
              ((fix at_sub (l : list (option Bitvec)) (k : nat) : list (option Bitvec) :=
                  match l, k with
                  | Some s :: r, O => Some (clear0 s (i mod d)) :: r
                  | None :: r, O => None :: r
                  | x :: r, S k => x :: at_sub r k
                  | [], _ => []
                  end) l (Z.to_nat (i / d))))
        | _ => p
        end
      else
        if size <=? BITVEC_NBIT then
          match un with
          | aBitmap a =>
              let e := i / BITVEC_SZELEM in
              mkBitvec size n d
                (aBitmap (<[Z.to_nat e := u8 (Z.land (at_ a e) (Z.lnot (bit_of i)))]> a))
          | _ => p
          end
        else
          match un with
          | aHash a =>
              let '(n, a) := rebuild a i 0 (replicate (Z.to_nat BITVEC_NINT) 0) in
              mkBitvec size n d (aHash a)
          | _ => p
          end
  end.
Definition sqlite3BitvecClear (p : option Bitvec) (i : Z) : option Bitvec :=
  (λ p, clear0 p (i - 1)) <$> p.

(** [sqlite3BitvecSize] *)
Definition sqlite3BitvecSize (p : Bitvec) : Z := iSize p.

(** ** Linear probing *)

Lemma NINT_eq : BITVEC_NINT = 124. Proof. done. Qed.
Lemma NBIT_eq : BITVEC_NBIT = 3968. Proof. done. Qed.
Lemma NPTR_eq : BITVEC_NPTR = 62. Proof. done. Qed.
Lemma MXHASH_eq : BITVEC_MXHASH = 62. Proof. done. Qed.
Lemma NELEM_eq : BITVEC_NELEM = 496. Proof. done. Qed.

Lemma at_lookup a k v : 0 ≤ k → a !! Z.to_nat k = Some v → at_ a k = v.
Proof. intros _ H. unfold at_. by apply nth_lookup_Some. Qed.

Lemma at_insert a k k' v :
  0 ≤ k < Z.of_nat (length a) → 0 ≤ k' →
  at_ (<[Z.to_nat k := v]> a) k' = if k' =? k then v else at_ a k'.
Proof.
  intros Hk Hk'. unfold at_. rewrite !nth_lookup. destruct (Z.eqb_spec k' k) as [->|Hn].
  - rewrite list_lookup_insert_eq by lia. done.
  - rewrite list_lookup_insert_ne by lia. done.
Qed.

Section Probing.
Implicit Types (a : list Z) (h v t : Z).

(** The slot [t] steps after [h]. *)
Definition slot h t : Z := (h + t) mod 124.

Lemma slot_range h t : 0 ≤ slot h t < 124.
Proof. apply Z.mod_pos_bound. lia. Qed.
Lemma slot_0 h : 0 ≤ h < 124 → slot h 0 = h.
Proof. intros. unfold slot. rewrite Z.add_0_r. by apply Z.mod_small. Qed.
Lemma slot_next h t : slot h (t + 1) = (slot h t + 1) mod 124.
Proof. unfold slot. rewrite Z.add_mod_idemp_l by lia. f_equal. lia. Qed.
Lemma slot_onto h e : 0 ≤ e < 124 → ∃ t, 0 ≤ t < 124 ∧ slot h t = e.
Proof.
  intros He. exists ((e - h) mod 124). split; [apply Z.mod_pos_bound; lia|].
  unfold slot. rewrite Z.add_mod_idemp_r by lia.
  replace (h + (e - h)) with e by lia. by apply Z.mod_small.
Qed.

(** The first [t] slots of a probe sequence are in use. *)
Definition in_use a h t : Prop := ∀ t', 0 ≤ t' < t → at_ a (slot h t') ≠ 0.

(** A table that linear probing can search: a free slot is left, and every value
    is behind slots in use only. *)
Record hash_ok (size n : Z) a : Prop := {
  ho_length : length a = 124%nat;
  ho_count : n = Z.of_nat (length (filter (λ v, v ≠ 0) a));
  ho_free : n ≤ 123;
  ho_range : ∀ k, 0 ≤ k < 124 → at_ a k ≠ 0 → 1 ≤ at_ a k ≤ size;
  ho_reach : ∀ k, 0 ≤ k < 124 → at_ a k ≠ 0 →
    ∃ t, 0 ≤ t < 124 ∧ slot (BITVEC_HASH (at_ a k - 1)) t = k ∧
         in_use a (BITVEC_HASH (at_ a k - 1)) t;
}.

(** A value is in the table. *)
Definition holds a v : Prop := ∃ k, 0 ≤ k < 124 ∧ at_ a k = v.

Lemma free_slot size n a : hash_ok size n a → ∃ e, 0 ≤ e < 124 ∧ at_ a e = 0.
Proof.
  intros [Hl -> Hf _ _]. destruct (decide (Forall (λ v, v ≠ 0) a)) as [Hall|Hn].
  - assert (filter (λ v, v ≠ 0) a = a) as E; [|rewrite E in Hf; lia].
    clear -Hall. induction Hall as [|x l Hx _ IH]; [done|]. by rewrite filter_cons_True, IH.
  - apply not_Forall_Exists in Hn; [|apply _]. apply Exists_exists in Hn as (x&Hx&Hz).
    apply dec_stable in Hz. subst x. apply list_elem_of_lookup in Hx as [k Hk].
    exists (Z.of_nat k). pose proof (lookup_lt_Some _ _ _ Hk).
    split; [lia|]. apply at_lookup; [lia|]. by rewrite Nat2Z.id.
Qed.

Lemma probe_spec a h v fuel s :
  (∃ e, 0 ≤ e < 124 ∧ at_ a e = 0) → 0 ≤ s → s + Z.of_nat fuel = 124 →
  in_use a h s → (∀ t', 0 ≤ t' < s → at_ a (slot h t') ≠ v) →
  let '(b, k) := probe fuel a (slot h s) v in
  ∃ t, 0 ≤ t < 124 ∧ k = slot h t ∧ in_use a h t ∧
       (∀ t', 0 ≤ t' < t → at_ a (slot h t') ≠ v) ∧
       if b : bool then at_ a k = v ∧ v ≠ 0 else at_ a k = 0.
Proof.
  intros (e&He&Hz). revert s. induction fuel as [|fuel IH]; intros s Hs Hf Hu Hv; cbn [probe].
  { exfalso. destruct (slot_onto h e He) as (t&Ht&<-). apply (Hu t); [lia|done]. }
  destruct (Z.eqb_spec (at_ a (slot h s)) 0) as [E|E].
  { exists s. split_and!; try done; lia. }
  destruct (Z.eqb_spec (at_ a (slot h s)) v) as [E'|E'].
  { exists s. split_and!; done || lia || congruence. }
  rewrite NINT_eq, <- slot_next.
  assert (Hs' : ∀ (Q : Z → Prop), (∀ t', 0 ≤ t' < s → Q t') → Q s → ∀ t', 0 ≤ t' < s + 1 → Q t').
  { intros Q H1 H2 t' Ht'. destruct (Z.eq_dec t' s) as [->|]; [done|]. apply H1. lia. }
  apply IH; [lia|lia|unfold in_use|]; by apply Hs'.
Qed.

Lemma hash_range i : 0 ≤ BITVEC_HASH i < 124.
Proof. unfold BITVEC_HASH. rewrite NINT_eq. apply Z.mod_pos_bound. lia. Qed.

Lemma probe_start size n a h v :
  hash_ok size n a → 0 ≤ h < 124 →
  let '(b, k) := probe probe_fuel a h v in
  ∃ t, 0 ≤ t < 124 ∧ k = slot h t ∧ in_use a h t ∧
       (∀ t', 0 ≤ t' < t → at_ a (slot h t') ≠ v) ∧
       if b : bool then at_ a k = v ∧ v ≠ 0 else at_ a k = 0.
Proof.
  intros Ha Hh. pose proof (probe_spec a h v probe_fuel 0) as H. rewrite slot_0 in H by done.
  apply H; [by eapply free_slot|lia|done|intros t' Ht'; lia..].
Qed.

Lemma probe_found size n a i :
  hash_ok size n a → 0 ≤ i →
  (probe probe_fuel a (BITVEC_HASH i) (i + 1)).1 = true ↔ holds a (i + 1).
Proof.
  intros Ha Hi. pose proof (probe_start _ _ a (BITVEC_HASH i) (i + 1) Ha (hash_range i)) as H.
  destruct (probe _ _ _ _) as [b k]. destruct H as (t&Ht&->&Hu&Hv&Hb). simpl. split.
  - intros ->. exists (slot (BITVEC_HASH i) t). split; [apply slot_range|apply Hb].
  - intros (k&Hk&Ek). destruct b; [done|exfalso].
    destruct (ho_reach _ _ _ Ha k Hk ltac:(lia)) as (t0&Ht0&Es&Hu0).
    rewrite Ek in *. replace (i + 1 - 1) with i in * by lia.
    destruct (Z.lt_trichotomy t t0) as [Hlt|[->|Hgt]].
    + apply (Hu0 t); [lia|done].
    + rewrite Es in Hb. lia.
    + apply (Hv t0); [lia|]. by rewrite Es.
Qed.

Lemma filter_insert_count a k v :
  0 ≤ k < Z.of_nat (length a) → at_ a k = 0 → v ≠ 0 →
  length (filter (λ v, v ≠ 0) (<[Z.to_nat k := v]> a)) = S (length (filter (λ v, v ≠ 0) a)).
Proof.
  intros Hk Hz Hv. assert (a !! Z.to_nat k = Some 0) as E.
  { destruct (lookup_lt_is_Some_2 a (Z.to_nat k)) as [x Hx]; [lia|].
    rewrite Hx. f_equal. rewrite <- (at_lookup a k x) by (done || lia). done. }
  rewrite <- (take_drop_middle _ _ _ E) at 2. rewrite insert_take_drop by lia.
  rewrite !filter_app, !length_app, filter_cons_True, filter_cons_False by lia. simpl. lia.
Qed.

(** Storing a value in the free slot its probing found. *)
Lemma store_ok size n a i t :
  hash_ok size n a → n < 123 → 0 ≤ i < size → 0 ≤ t < 124 →
  in_use a (BITVEC_HASH i) t → at_ a (slot (BITVEC_HASH i) t) = 0 →
  let a' := <[Z.to_nat (slot (BITVEC_HASH i) t) := i + 1]> a in
  hash_ok size (n + 1) a' ∧ ∀ v, v ≠ 0 → holds a' v ↔ v = i + 1 ∨ holds a v.
Proof.
  intros Ha Hn Hi Ht Hu Hz a'. set (k0 := slot (BITVEC_HASH i) t) in *.
  pose proof (slot_range (BITVEC_HASH i) t) as Hk0. fold k0 in Hk0.
  assert (Hl : length a = 124%nat) by apply Ha.
  assert (Hat : ∀ k, 0 ≤ k → at_ a' k = if k =? k0 then i + 1 else at_ a k).
  { intros k Hk. apply at_insert; lia. }
  assert (Huse : ∀ h s, in_use a h s → in_use a' h s).
  { intros h s H t' Ht'. rewrite Hat by apply slot_range.
    destruct (Z.eqb_spec (slot h t') k0); [lia|by apply H]. }
  split; [constructor|].
  - unfold a'. by rewrite length_insert.
  - unfold a'. rewrite filter_insert_count by lia.
    rewrite (ho_count _ _ _ Ha). lia.
  - lia.
  - intros k Hk. rewrite Hat by lia. destruct (Z.eqb_spec k k0); [lia|by apply Ha].
  - intros k Hk. rewrite Hat by lia. destruct (Z.eqb_spec k k0) as [->|Hne].
    + intros _. exists t. replace (i + 1 - 1) with i by lia. auto.
    + intros Hv. destruct (ho_reach _ _ _ Ha k Hk Hv) as (s&Hs&Es&Hus). eauto.
  - intros v Hv. split.
    + intros (k&Hk&E). rewrite Hat in E by lia.
      destruct (Z.eqb_spec k k0); [by left|right; by exists k].
    + intros [->|(k&Hk&E)].
      * exists k0. rewrite Hat by lia. by rewrite Z.eqb_refl.
      * exists k. rewrite Hat by lia. split; [done|].
        destruct (Z.eqb_spec k k0) as [->|]; [congruence|done].
Qed.

Lemma empty_ok size : hash_ok size 0 (replicate 124 0) ∧ ∀ v, v ≠ 0 → ¬ holds (replicate 124 0) v.
Proof.
  assert (Hat : ∀ k, at_ (replicate 124 0) k = 0).
  { intros k. unfold at_. rewrite nth_lookup.
    destruct (_ !! _) eqn:E; [|done]. by apply lookup_replicate in E as [-> _]. }
  split; [constructor|].
  - done.
  - done.
  - lia.
  - intros k _ H. by rewrite Hat in H.
  - intros k _ H. by rewrite Hat in H.
  - intros v Hv (k&_&E). rewrite Hat in E. lia.
Qed.
End Probing.

(** ** Well-formed bitmaps *)

Fixpoint wf (k : nat) (p : Bitvec) : Prop :=
  0 ≤ iSize p ∧
  match u p with
  | aBitmap a => iSize p ≤ 3968 ∧ iDivisor p = 0 ∧ length a = 496%nat ∧ Forall is_byte a
  | aHash a => 3968 < iSize p ∧ iDivisor p = 0 ∧ hash_ok (iSize p) (nSet p) a
  | apSub l =>
      3968 < iSize p ∧ iDivisor p = (iSize p + 61) / 62 ∧ length l = 62%nat ∧
      match k with
      | O => False
      | S k => Forall (λ o, match o with
                            | Some s => iSize s = iDivisor p ∧ wf k s
                            | None => True
                            end) l
      end
  end.

Lemma wf_size k p : wf k p → 0 ≤ iSize p.
Proof. destruct k; simpl; tauto. Qed.

Lemma create_wf k size : 0 ≤ size → wf k (sqlite3BitvecCreate size).
Proof.
  intros Hs. unfold sqlite3BitvecCreate. rewrite NBIT_eq.
  assert (H : 0 ≤ size ∧
    match (if size <=? 3968 then aBitmap (replicate (Z.to_nat BITVEC_NELEM) 0)
           else aHash (replicate (Z.to_nat BITVEC_NINT) 0)) with
    | aBitmap a => size ≤ 3968 ∧ 0 = 0 ∧ length a = 496%nat ∧ Forall is_byte a
    | aHash a => 3968 < size ∧ 0 = 0 ∧ hash_ok size 0 a
    | apSub l => False
    end).
  { split; [done|]. destruct (Z.leb_spec size 3968).
    - split_and!; [done|done|done|]. by apply Forall_replicate.
    - split_and!; [done|done|]. apply empty_ok. }
  destruct k, (size <=? 3968); exact H.
Qed.

(** Testing through the array of smaller bitmaps. *)
Lemma test0_sub size n d l i :
  d ≠ 0 →
  test0 (mkBitvec size n d (apSub l)) i =
  match l !! Z.to_nat (i / d) with Some (Some s) => test0 s (i mod d) | _ => false end.
Proof.
  intros Hd. cbn [test0]. rewrite (proj2 (Z.eqb_neq _ _)) by done. cbn [negb].
  generalize (Z.to_nat (i / d)) as k. induction l as [|[x|] l IH]; intros [|k]; done || apply IH.
Qed.

Lemma test0_hash size n a i :
  3968 < size → hash_ok size n a → 0 ≤ i →
  test0 (mkBitvec size n 0 (aHash a)) i = true ↔ holds a (i + 1).
Proof.
  intros Hs Ha Hi. cbn [test0 Z.eqb negb]. rewrite NBIT_eq, (proj2 (Z.leb_gt _ _)) by done.
  by eapply probe_found.
Qed.

Lemma create_empty size i : 0 ≤ i → test0 (sqlite3BitvecCreate size) i = false.
Proof.
  intros Hi. unfold sqlite3BitvecCreate. cbn [test0 Z.eqb negb].
  destruct (Z.leb_spec size BITVEC_NBIT) as [Hs|Hs].
  - assert (at_ (replicate (Z.to_nat BITVEC_NELEM) 0) (i / BITVEC_SZELEM) = 0) as ->; [|done].
    unfold at_. rewrite nth_lookup. destruct (_ !! _) eqn:E; [|done].
    by apply lookup_replicate in E as [-> _].
  - apply not_true_iff_false. intros H.
    apply (probe_found size 0 (replicate 124 0) i) in H; [|apply empty_ok|done].
    destruct (empty_ok size) as [_ He]. apply (He (i + 1)); [lia|done].
Qed.

(** ** Single bits of the bitmap form *)

Lemma bit_of_eq i : 0 ≤ i → bit_of i = 2 ^ (i mod 8).
Proof.
  intros Hi. unfold bit_of, BITVEC_SZELEM. change (8 - 1) with (Z.ones 3).
  rewrite Z.land_ones, Z.shiftl_mul_pow2 by (try apply Z.mod_pos_bound; lia).
  change (2 ^ 3) with 8. lia.
Qed.

Lemma test0_bitmap size n a i :
  size ≤ 3968 → 0 ≤ i →
  test0 (mkBitvec size n 0 (aBitmap a)) i = Z.testbit (at_ a (i / 8)) (i mod 8).
Proof.
  intros Hs Hi. cbn [test0 Z.eqb negb]. rewrite NBIT_eq, (proj2 (Z.leb_le _ _)) by done.
  rewrite bit_of_eq, land_pow2_eqb by (try done; apply Z.mod_pos_bound; lia).
  by rewrite negb_involutive.
Qed.

(** The bits of a bitmap after the byte of [i] has been replaced. *)
Lemma bitmap_update a i j x b :
  length a = 496%nat → 0 ≤ i < 3968 → 0 ≤ j →
  (∀ m, 0 ≤ m < 8 → Z.testbit x m = if m =? i mod 8 then b else Z.testbit (at_ a (i / 8)) m) →
  Z.testbit (at_ (<[Z.to_nat (i / 8) := x]> a) (j / 8)) (j mod 8) =
  if j =? i then b else Z.testbit (at_ a (j / 8)) (j mod 8).
Proof.
  intros Ha Hi Hj Hx.
  assert (0 ≤ i / 8 < 496 ∧ 0 ≤ j / 8) by (Z.to_euclidean_division_equations; lia).
  rewrite at_insert by lia.
  pose proof (Z.div_mod i 8 ltac:(lia)). pose proof (Z.div_mod j 8 ltac:(lia)).
  destruct (Z.eqb_spec (j / 8) (i / 8)) as [E|E].
  - rewrite Hx by (apply Z.mod_pos_bound; lia). rewrite E.
    destruct (Z.eqb_spec (j mod 8) (i mod 8)), (Z.eqb_spec j i); done || lia.
  - destruct (Z.eqb_spec j i); [congruence|done].
Qed.

Lemma byte_set_bit x m m' :
  0 ≤ m < 8 → 0 ≤ m' < 8 →
  Z.testbit (u8 (Z.lor x (2 ^ m))) m' = if m' =? m then true else Z.testbit x m'.
Proof.
  intros Hm Hm'. unfold u8. rewrite Z.land_spec, Z.lor_spec, Z.testbit_ones_nonneg by lia.
  rewrite (proj2 (Z.ltb_lt m' 8)), andb_true_r, Z.pow2_bits_eqb by lia.
  rewrite (Z.eqb_sym m m'). destruct (m' =? m); by rewrite ?orb_true_r, ?orb_false_r.
Qed.

Lemma byte_clear_bit x m m' :
  0 ≤ m < 8 → 0 ≤ m' < 8 →
  Z.testbit (u8 (Z.land x (Z.lnot (2 ^ m)))) m' = if m' =? m then false else Z.testbit x m'.
Proof.
  intros Hm Hm'. unfold u8. rewrite !Z.land_spec, Z.lnot_spec, Z.testbit_ones_nonneg by lia.
  rewrite (proj2 (Z.ltb_lt m' 8)), andb_true_r, Z.pow2_bits_eqb by lia.
  rewrite (Z.eqb_sym m m'). destruct (m' =? m); by rewrite ?andb_true_r, ?andb_false_r.
Qed.

(** ** Setting bits *)

(** The result of adding the numbers of [S]: the numbers it may have and, when it
    succeeded, must have; with memory it succeeds. *)
Definition adds_to (k : nat) (p : Bitvec) (S : Z → Prop) (rc0 : Z) (o : list bool)
    (res : option (Z * Bitvec * list bool)) : Prop :=
  ∃ rc p' o', res = Some (rc, p', o') ∧ wf k p' ∧ iSize p' = iSize p ∧
    (iDivisor p ≠ 0 → iDivisor p' ≠ 0) ∧ (rc = 0 ∨ rc = 7) ∧
    (∀ j, 0 ≤ j < iSize p → test0 p' j = true → S j ∨ test0 p j = true) ∧
    (rc = 0 → rc0 = 0 ∧ ∀ j, 0 ≤ j < iSize p → S j ∨ test0 p j = true → test0 p' j = true) ∧
    (o = [] → rc = rc0 ∧ o' = []).

Lemma adds_to_nothing k p rc0 o :
  wf k p → rc0 = 0 ∨ rc0 = 7 → adds_to k p (λ _, False) rc0 o (Some (rc0, p, o)).
Proof.
  intros Hp Hrc. exists rc0, p, o. split_and!; try done; [tauto|].
  intros ->. split; [done|]. tauto.
Qed.

(** One addition after another. *)
Lemma adds_to_then k p S T rc0 o rc p1 o1 res :
  adds_to k p S rc0 o (Some (rc, p1, o1)) → adds_to k p1 T rc o1 res →
  adds_to k p (λ j, S j ∨ T j) rc0 o res.
Proof.
  intros (rc'&p'&o'&E&Hw1&Hs1&Hd1&Hr1&Hi1&Hc1&Hm1) (rc2&p2&o2&E2&Hw2&Hs2&Hd2&Hr2&Hi2&Hc2&Hm2).
  injection E as <- <- <-. rewrite Hs1 in *. exists rc2, p2, o2. split_and!; try done; auto.
  - intros j Hj Ht. destruct (Hi2 j Hj Ht); [tauto|]. destruct (Hi1 j Hj); tauto.
  - intros ->. destruct (Hc2 eq_refl) as [-> Hc2']. destruct (Hc1 eq_refl) as [-> Hc1'].
    split; [done|]. intros j Hj Hor. apply Hc2'; [done|].
    destruct Hor as [[?|?]|?]; [right; apply Hc1'; tauto|tauto|right; apply Hc1'; tauto].
  - intros ->. destruct (Hm1 eq_refl) as [-> ->]. by apply Hm2.
Qed.

Lemma adds_to_ext k p S T rc0 o res :
  (∀ j, 0 ≤ j < iSize p → S j ↔ T j) → adds_to k p S rc0 o res → adds_to k p T rc0 o res.
Proof.
  intros H (rc&p'&o'&?&?&?&?&?&Hi&Hc&?). exists rc, p', o'. split_and!; try done.
  - intros j Hj Ht. rewrite <- H by done. auto.
  - intros Hrc. destruct (Hc Hrc) as [? Hc']. split; [done|]. intros j Hj. rewrite <- H by done. auto.
Qed.

Lemma lor_codes a b : (a = 0 ∨ a = 7) → (b = 0 ∨ b = 7) →
  (Z.lor a b = 0 ∨ Z.lor a b = 7) ∧ (Z.lor a b = 0 → a = 0 ∧ b = 0) ∧ (b = 0 → Z.lor a b = a).
Proof. intros [-> | ->] [-> | ->]; simpl; auto with lia. Qed.

Lemma set_all_adds k set size values rc p o :
  (∀ p i o, wf k p → iSize p = size → iDivisor p ≠ 0 → 0 ≤ i < size →
     adds_to k p (λ j, j = i) 0 o (set p i o)) →
  wf k p → iSize p = size → iDivisor p ≠ 0 → rc = 0 ∨ rc = 7 →
  Forall (λ v, v ≠ 0 → 1 ≤ v ≤ size) values →
  adds_to k p (λ j, j + 1 ∈ values) rc o (set_all set values rc p o).
Proof.
  intros Hset. revert rc p o. induction values as [|v values IH]; intros rc p o Hp Hs Hd Hrc Hv;
    cbn [set_all].
  { eapply adds_to_ext; [|by apply adds_to_nothing]. intros j _. by rewrite elem_of_nil. }
  apply Forall_cons in Hv as [Hv Hvs]. destruct (Z.eqb_spec v 0) as [->|Hz].
  { eapply adds_to_ext; [|by apply IH]. intros j Hj. rewrite elem_of_cons. lia || naive_solver lia. }
  specialize (Hv Hz). pose proof (Hset p (v - 1) o Hp Hs Hd ltac:(lia)) as Ha.
  destruct Ha as (rc1&p1&o1&E&Hw1&Hs1&Hd1&Hr1&Hi1&Hc1&Hm1). rewrite E. simpl.
  destruct (lor_codes rc rc1 Hrc Hr1) as (L1&L2&L3).
  eapply adds_to_ext; [|eapply (adds_to_then k p (λ j, j = v - 1) (λ j, j + 1 ∈ values) rc)].
  - intros j Hj. cbn beta. rewrite elem_of_cons. split; [intros [?|?]; [left; lia|tauto]|
      intros [?|?]; [left; lia|tauto]].
  - exists (Z.lor rc rc1), p1, o1. split_and!; try done.
    + intros Hl. destruct (L2 Hl) as [-> ->]. split; [done|]. by apply Hc1.
    + intros Ho. destruct (Hm1 Ho) as [-> ->]. split; [by apply L3|done].
  - apply IH; auto; congruence.
Qed.

(** The array of smaller bitmaps: setting a bit of one of them. *)
Lemma descend_adds k p l i o rc s s' o' :
  u p = apSub l → wf (S k) p → 0 ≤ i < iSize p →
  (l !! Z.to_nat (i / iDivisor p) = Some (Some s) ∨
   l !! Z.to_nat (i / iDivisor p) = Some None ∧ s = sqlite3BitvecCreate (iDivisor p)) →
  adds_to k s (λ j, j = i mod iDivisor p) 0 o (Some (rc, s', o')) →
  adds_to (S k) p (λ j, j = i) 0 o
    (Some (rc, with_union p (nSet p) (iDivisor p)
                 (apSub (<[Z.to_nat (i / iDivisor p) := Some s']> l)), o')).
Proof.
  intros Hu Hp Hi Hl Ha. destruct p as [size n d un]. cbn [u iSize iDivisor nSet] in *. subst un.
  destruct Hp as (Hs&H1&Hd&Hlen&Hall). cbn [iSize iDivisor u] in *.
  assert (Hd0 : 0 < d) by (rewrite Hd; Z.to_euclidean_division_equations; lia).
  assert (Hsz : size ≤ 62 * d) by (rewrite Hd; Z.to_euclidean_division_equations; lia).
  set (bin := Z.to_nat (i / d)) in *.
  assert (Hbin : (bin < length l)%nat).
  { destruct Hl as [Hl|[Hl _]]; by eapply lookup_lt_Some. }
  destruct Ha as (?&?&?&E&Hw'&Hs'&_&Hrc&Hin&Hcomp&Hmem). injection E as <- <- <-.
  assert (Hsd : iSize s = d).
  { destruct Hl as [Hl|[_ ->]]; [|done]. rewrite Forall_lookup in Hall. apply (Hall _ _ Hl). }
  assert (Hold : ∀ j, 0 ≤ j → (j / d = i / d → test0 s (j mod d) = true ↔
                               test0 (mkBitvec size n d (apSub l)) j = true)).
  { intros j Hj Ej. rewrite test0_sub by lia. rewrite Ej. fold bin.
    destruct Hl as [->|[-> ->]]; [done|]. rewrite create_empty by (apply Z.mod_pos_bound; lia).
    done. }
  assert (Hnew : ∀ j, 0 ≤ j < size → test0 (mkBitvec size n d (apSub (<[bin:=Some s']> l))) j =
    if bool_decide (j / d = i / d) then test0 s' (j mod d)
    else test0 (mkBitvec size n d (apSub l)) j).
  { intros j Hj. rewrite !test0_sub by lia. case_bool_decide as Ej.
    - rewrite Ej. fold bin. by rewrite list_lookup_insert_eq.
    - rewrite list_lookup_insert_ne; [done|]. unfold bin. intros Eb.
      apply Z2Nat.inj in Eb; [done|apply Z.div_pos; lia..]. }
  assert (Hmod : ∀ j, 0 ≤ j mod d < d) by (intros; apply Z.mod_pos_bound; lia).
  assert (Hwf : wf (S k) (mkBitvec size n d (apSub (<[bin:=Some s']> l)))).
  { split; [done|]. cbn [u iSize iDivisor]. split; [done|]. split; [done|]. rewrite length_insert.
    split; [done|]. apply Forall_insert; [done|]. split; [congruence|done]. }
  eexists _, _, _. split; [done|]. split; [exact Hwf|].
  cbn [with_union iSize iDivisor nSet]. split_and!; try done.
  - intros j Hj. rewrite Hnew by done. case_bool_decide as Ej; [|tauto].
    intros Ht. apply Hin in Ht; [|rewrite Hsd; apply Hmod].
    destruct Ht as [Ht|Ht]; [|right; apply (Hold j); [lia|done|done]]. left.
    rewrite (Z.div_mod j d), (Z.div_mod i d) by lia. congruence.
  - intros Hrc0. split; [done|]. destruct (Hcomp Hrc0) as [_ Hcomp']. intros j Hj Hor.
    rewrite Hnew by done. case_bool_decide as Ej.
    + apply Hcomp'; [rewrite Hsd; apply Hmod|]. destruct Hor as [->|Ht]; [by left|right].
      apply (Hold j); [lia|done|done].
    + destruct Hor as [->|Ht]; [done|done].
Qed.

(** The conversion of a full hash table. *)
Lemma convert_adds k fuel p a i o :
  u p = aHash a → wf (S k) p → 0 ≤ i < iSize p →
  (∀ p' i o, wf (S k) p' → iSize p' = iSize p → iDivisor p' ≠ 0 → 0 ≤ i < iSize p →
     adds_to (S k) p' (λ j, j = i) 0 o (set0 fuel p' i o)) →
  adds_to (S k) p (λ j, j = i) 0 o
    (let '(ok, o) := malloc o in
     if negb ok then Some (SQLITE_NOMEM, p, o)
     else
       let d := (iSize p + BITVEC_NPTR - 1) / BITVEC_NPTR in
       let p := with_union p (nSet p) d (apSub (replicate (Z.to_nat BITVEC_NPTR) None)) in
       '(rc, p, o) ← set0 fuel p i o;
       set_all (set0 fuel) a rc p o).
Proof.
  intros Hu Hp Hi Hset. destruct p as [size n d0 un]. cbn [u iSize] in *. subst un.
  destruct Hp as (Hs&H1&Hd0&Ha). cbn [iSize iDivisor nSet] in *. subst d0.
  assert (Hwf0 : wf (S k) (mkBitvec size n 0 (aHash a))) by (split; [done|split; done]).
  destruct (malloc o) as [ok o1] eqn:Eo.
  assert (Ho : o = [] → ok = true ∧ o1 = []) by (intros ->; by injection Eo as <- <-).
  destruct ok; cbn [negb].
  2:{ exists SQLITE_NOMEM, (mkBitvec size n 0 (aHash a)), o1. split_and!; try done; auto.
      intros E. by destruct (Ho E). }
  cbv zeta. rewrite NPTR_eq. replace (size + 62 - 1) with (size + 61) by lia.
  set (d := (size + 61) / 62). set (p0 := with_union _ _ _ _).
  assert (Hd : 0 < d) by (unfold d; Z.to_euclidean_division_equations; lia).
  assert (Hp0 : wf (S k) p0).
  { split; [done|]. cbn [u p0 with_union iSize iDivisor]. split; [done|]. split; [done|].
    split; [done|]. by apply Forall_replicate. }
  assert (He : ∀ j, 0 ≤ j → test0 p0 j = false).
  { intros j Hj. unfold p0, with_union. cbn [iSize]. rewrite test0_sub by lia.
    destruct (replicate _ _ !! _) as [x|] eqn:E; [|done].
    by apply lookup_replicate in E as [-> _]. }
  pose proof (Hset p0 i o1 Hp0 eq_refl ltac:(cbn; lia) Hi) as Hset0.
  destruct Hset0 as (rc&p1&o2&E&Hw1&Hs1&Hd1&Hr1&Hi1&Hc1&Hm1). rewrite E. cbn [mbind option_bind].
  assert (Hd1' : iDivisor p1 ≠ 0) by (apply Hd1; cbn; lia).
  assert (Hvals : Forall (λ v, v ≠ 0 → 1 ≤ v ≤ size) a).
  { apply Forall_lookup. intros m v Hm Hv. pose proof (lookup_lt_Some _ _ _ Hm).
    rewrite (ho_length _ _ _ Ha) in *.
    pose proof (ho_range _ _ _ Ha (Z.of_nat m)) as Hr.
    rewrite (at_lookup a (Z.of_nat m) v) in Hr by (rewrite ?Nat2Z.id; done || lia). apply Hr; lia. }
  assert (Hall : adds_to (S k) p1 (λ j, j + 1 ∈ a) rc o2 (set_all (set0 fuel) a rc p1 o2)).
  { eapply (set_all_adds _ _ size); done. }
  destruct Hall as (rc2&p2&o3&E2&Hw2&Hs2&Hd2&Hr2&Hi2&Hc2&Hm2). rewrite E2.
  assert (Hmem : ∀ j, 0 ≤ j < size → j + 1 ∈ a ↔ test0 (mkBitvec size n 0 (aHash a)) j = true).
  { intros j Hj. rewrite (test0_hash size n a j) by (done || lia).
    rewrite list_elem_of_lookup. unfold holds. split.
    - intros [m Hm]. pose proof (lookup_lt_Some _ _ _ Hm). rewrite (ho_length _ _ _ Ha) in *.
      exists (Z.of_nat m). split; [lia|]. apply at_lookup; [lia|]. by rewrite Nat2Z.id.
    - intros (m&Hm&Em). exists (Z.to_nat m). unfold at_ in Em. rewrite nth_lookup in Em.
      destruct (a !! Z.to_nat m); simpl in Em; [by subst|lia]. }
  cbn [p0 with_union iSize] in Hs1, Hi1, Hc1. rewrite Hs1 in *.
  exists rc2, p2, o3. split_and!; try done.
  - cbn [iSize]. intros j Hj Ht. destruct (Hi2 j Hj Ht) as [Hin|Ht1].
    + right. by apply Hmem.
    + destruct (Hi1 j Hj Ht1) as [?|Hf]; [by left|]. by rewrite He in Hf by lia.
  - intros Hrc. destruct (Hc2 Hrc) as [-> Hc2']. destruct (Hc1 eq_refl) as [_ Hc1'].
    split; [done|]. cbn [iSize]. intros j Hj [->|Ht].
    + apply Hc2'; [done|]. right. apply Hc1'; [done|by left].
    + apply Hc2'; [done|]. left. by apply Hmem.
  - intros E0. destruct (Ho E0) as [_ ->]. destruct (Hm1 eq_refl) as [-> ->]. by apply Hm2.
Qed.

(** The bitmap form. *)
Lemma set0_bitmap_adds k fuel p i o :
  wf k p → iSize p ≤ 3968 → 0 ≤ i < iSize p →
  adds_to k p (λ j, j = i) 0 o (set0 (S fuel) p i o).
Proof.
  intros Hp Hs Hi. cbn [set0]. rewrite NBIT_eq, (proj2 (Z.ltb_ge _ _)), (proj2 (Z.leb_le _ _)) by done.
  cbn [andb]. destruct p as [size n d un]. cbn [u iSize nSet iDivisor with_union] in *.
  assert (Hu : ∃ a, un = aBitmap a ∧ 0 ≤ size ∧ size ≤ 3968 ∧ d = 0 ∧ length a = 496%nat ∧ Forall is_byte a).
  { destruct k, un as [a|a|l]; destruct Hp as (?&Hp); cbn [u iSize iDivisor] in Hp;
      first [exfalso; lia|exists a; tauto]. }
  destruct Hu as (a&->&Hs0&_&->&Hlen&Hb).
  set (a' := <[_ := _]> a).
  assert (Hbits : ∀ j, 0 ≤ j < size → test0 (mkBitvec size n 0 (aBitmap a')) j =
    if j =? i then true else test0 (mkBitvec size n 0 (aBitmap a)) j).
  { intros j Hj. rewrite !test0_bitmap by lia. unfold a'. change BITVEC_SZELEM with 8.
    apply bitmap_update; [done|lia|lia|]. intros m Hm. rewrite bit_of_eq by lia.
    apply byte_set_bit; [apply Z.mod_pos_bound; lia|done]. }
  assert (Hwf : wf k (mkBitvec size n 0 (aBitmap a'))).
  { assert (H : 0 ≤ size ∧ size ≤ 3968 ∧ 0 = 0 ∧ length a' = 496%nat ∧ Forall is_byte a').
    { split_and!; try done; unfold a'; [by rewrite length_insert|].
      apply Forall_insert; [done|]. apply u8_range. }
    destruct k; exact H. }
  exists SQLITE_OK, (mkBitvec size n 0 (aBitmap a')), o. split_and!; try done; auto.
  - cbn [iSize]. intros j Hj. rewrite Hbits by done. destruct (Z.eqb_spec j i); auto.
  - intros _. split; [done|]. cbn [iSize]. intros j Hj Hor. rewrite Hbits by done.
    destruct (Z.eqb_spec j i); [done|]. by destruct Hor.
Qed.

(** The hash form, when the value is stored in a free slot. *)
Lemma store_adds k p a i t o :
  u p = aHash a → wf (S k) p → 0 ≤ i < iSize p → nSet p < 123 → 0 ≤ t < 124 →
  in_use a (BITVEC_HASH i) t → at_ a (slot (BITVEC_HASH i) t) = 0 →
  adds_to (S k) p (λ j, j = i) 0 o
    (Some (SQLITE_OK, with_union p (nSet p + 1) 0
             (aHash (<[Z.to_nat (slot (BITVEC_HASH i) t) := i + 1]> a)), o)).
Proof.
  intros Hu Hp Hi Hn Ht Hiu Hfree. destruct p as [size n d un]. cbn [u iSize nSet] in *. subst un.
  destruct Hp as (Hs&H1&Hd&Ha). cbn [iSize iDivisor nSet] in *. subst d.
  destruct (store_ok size n a i t Ha Hn Hi Ht Hiu Hfree) as [Ha' Hv].
  set (a' := <[_ := _]> a) in *.
  assert (Hmem : ∀ j, 0 ≤ j < size → test0 (mkBitvec size (n + 1) 0 (aHash a')) j = true ↔
    j = i ∨ test0 (mkBitvec size n 0 (aHash a)) j = true).
  { intros j Hj. rewrite (test0_hash size (n + 1) a'), (test0_hash size n a), Hv by (done || lia).
    split; (intros [?|?]; [left; lia|by right]). }
  exists SQLITE_OK, (mkBitvec size (n + 1) 0 (aHash a')), o.
  split; [done|]. split; [split; [done|split; done]|].
  cbn [iSize iDivisor]. split_and!; try done; auto.
  - intros j Hj Ht'. by apply Hmem.
  - intros _. split; [done|]. intros j Hj Hor. by apply Hmem.
Qed.

(** Setting a bit, by induction on the nesting. *)
Lemma set0_adds k : ∀ fuel p i o,
  wf k p → iSize p ≤ 3968 * 62 ^ Z.of_nat k → 0 ≤ i < iSize p →
  (2 * k + (if bool_decide (iDivisor p = 0%Z) then 1 else 0) ≤ fuel)%nat →
  (0 < fuel)%nat →
  adds_to k p (λ j, j = i) 0 o (set0 fuel p i o).
Proof.
  induction k as [|k IH]; intros fuel p i o Hp Hsz Hi Hf Hf0.
  - (* small enough for a bitmap *)
    destruct fuel as [|fuel]; [lia|]. by apply set0_bitmap_adds; [|lia|].
  - destruct fuel as [|fuel]; [lia|].
    destruct (Z_le_gt_dec (iSize p) 3968) as [Hsmall|Hbig]; [by apply set0_bitmap_adds|].
    assert (Hpow : 62 ^ Z.of_nat (S k) = 62 * 62 ^ Z.of_nat k)
      by (rewrite Nat2Z.inj_succ, Z.pow_succ_r; lia).
    rewrite Hpow in Hsz.
    assert (Hsub : ∀ fuel p' i o, wf (S k) p' → iSize p' = iSize p → iDivisor p' ≠ 0 →
      0 ≤ i < iSize p → (2 * S k ≤ fuel)%nat → adds_to (S k) p' (λ j, j = i) 0 o (set0 fuel p' i o)).
    { clear fuel i o Hi Hf Hf0. intros fuel p' i o Hp' Hsz' Hd' Hi Hf.
      destruct fuel as [|fuel]; [lia|]. cbn [set0].
      rewrite NBIT_eq, Hsz', (proj2 (Z.ltb_lt _ _)), (proj2 (Z.eqb_neq _ _)) by done || lia.
      cbn [negb andb]. pose proof Hp' as (_&Hu'). destruct (u p') as [|a|l] eqn:Hu.
      { lia. } { lia. }
      destruct Hu' as (_&Hd&Hlen&Hall).
      assert (Hd0 : 0 < iDivisor p' ∧ iSize p ≤ 62 * iDivisor p' ∧
        iDivisor p' ≤ 3968 * 62 ^ Z.of_nat k).
      { rewrite Hd, Hsz'. pose proof (Z.pow_pos_nonneg 62 (Z.of_nat k)).
        Z.to_euclidean_division_equations; nia. }
      assert (Hbin : (Z.to_nat (i / iDivisor p') < length l)%nat).
      { rewrite Hlen. apply Nat2Z.inj_lt. rewrite Z2Nat.id by (apply Z.div_pos; lia).
        apply Z.div_lt_upper_bound; lia. }
      assert (Hmod : 0 ≤ i mod iDivisor p' < iDivisor p') by (apply Z.mod_pos_bound; lia).
      destruct (lookup_lt_is_Some_2 l _ Hbin) as [os Hos]. rewrite Hos.
      assert (Hgo : ∀ s o, wf k s → iSize s = iDivisor p' →
        (os = Some s ∨ os = None ∧ s = sqlite3BitvecCreate (iDivisor p')) →
        adds_to (S k) p' (λ j, j = i) 0 o
          ('(rc, s, o) ← set0 fuel s (i mod iDivisor p') o;
           Some (rc, with_union p' (nSet p') (iDivisor p')
             (apSub (<[Z.to_nat (i / iDivisor p') := Some s]> l)), o))).
      { intros s o1 Hs Hss Hcase.
        assert (Ha : adds_to k s (λ j, j = i mod iDivisor p') 0 o1 (set0 fuel s (i mod iDivisor p') o1)).
        { apply IH; [done|lia|by rewrite Hss| |lia]. case_bool_decide; lia. }
        pose proof Ha as (rc&s'&o'&E&_). rewrite E in Ha |- *. cbn [mbind option_bind].
        eapply descend_adds; [exact Hu|done|by rewrite Hsz'| |exact Ha].
        rewrite Hos. destruct Hcase as [-> |[-> ->]]; [by left|by right]. }
      destruct os as [s|].
      - rewrite Forall_lookup in Hall. destruct (Hall _ _ Hos) as [Hss Hs]. apply Hgo; auto.
      - destruct (malloc o) as [ok o1] eqn:Eo.
        assert (Ho : o = [] → ok = true ∧ o1 = []) by (intros ->; by injection Eo as <- <-).
        destruct ok; cbn [negb].
        + assert (Hc : adds_to (S k) p' (λ j, j = i) 0 o1
            ('(rc, s, o) ← set0 fuel (sqlite3BitvecCreate (iDivisor p')) (i mod iDivisor p') o1;
             Some (rc, with_union p' (nSet p') (iDivisor p')
               (apSub (<[Z.to_nat (i / iDivisor p') := Some s]> l)), o))).
          { apply Hgo; [apply create_wf; lia|done|by right]. }
          destruct Hc as (rc&p2&o2&?&?&?&?&?&?&?&Hm). exists rc, p2, o2. split_and!; try done.
          intros E. apply Hm. by apply Ho.
        + exists SQLITE_NOMEM, p', o1. split_and!; try done; auto. intros E. by destruct (Ho E). }
    destruct (decide (iDivisor p = 0)) as [Hz|Hz].
    2:{ apply Hsub; try done. rewrite bool_decide_eq_false_2 in Hf by done. lia. }
    rewrite bool_decide_eq_true_2 in Hf by done. cbn [set0].
    rewrite NBIT_eq, Hz, (proj2 (Z.leb_gt _ _)) by lia. rewrite andb_false_r.
    pose proof Hp as (Hs0&Hu'). destruct (u p) as [|a|l] eqn:Hu; [lia| |].
    2:{ exfalso. destruct Hu' as (_&Hd&_). revert Hd. rewrite Hz. Z.to_euclidean_division_equations; lia. }
    destruct Hu' as (_&_&Ha).
    assert (Hconv : adds_to (S k) p (λ j, j = i) 0 o
      (let '(ok, o) := malloc o in
       if negb ok then Some (SQLITE_NOMEM, p, o)
       else
         let d := (iSize p + BITVEC_NPTR - 1) / BITVEC_NPTR in
         let p := with_union p (nSet p) d (apSub (replicate (Z.to_nat BITVEC_NPTR) None)) in
         '(rc, p, o) ← set0 fuel p i o;
         set_all (set0 fuel) a rc p o)).
    { apply convert_adds; [done..|]. intros p' i' o' ????. apply Hsub; done || lia. }
    pose proof (probe_start _ _ a (BITVEC_HASH i) (i + 1) Ha (hash_range i)) as Hpr.
    assert (Hstore : ∀ t, nSet p < 123 → 0 ≤ t < 124 → in_use a (BITVEC_HASH i) t →
      at_ a (slot (BITVEC_HASH i) t) = 0 →
      adds_to (S k) p (λ j, j = i) 0 o
        (Some (SQLITE_OK, with_union p (nSet p + 1) 0
                 (aHash (<[Z.to_nat (slot (BITVEC_HASH i) t) := i + 1]> a)), o))).
    { intros t Hn Ht Hiu Hfree. by eapply store_adds. }
    destruct (Z.eqb_spec (at_ a (BITVEC_HASH i)) 0) as [E0|E0].
    + destruct (Z.ltb_spec (nSet p) (BITVEC_NINT - 1)) as [Hn|Hn]; [|exact Hconv].
      specialize (Hstore 0). rewrite slot_0 in Hstore by apply hash_range.
      apply Hstore; try done. intros t'. lia.
    + destruct (probe _ _ _ _) as [found h]. destruct Hpr as (t&Ht&->&Hiu&_&Hb).
      destruct found.
      * exists SQLITE_OK, p, o. split_and!; try done; auto.
        intros _. split; [done|]. intros j Hj [->|?]; [|done].
        destruct p as [size n d un]. cbn [u iDivisor iSize nSet] in *. subst un d.
        apply (test0_hash size n a i); [lia|done|lia|]. eexists. split; [|apply Hb]. apply slot_range.
      * destruct (Z.leb_spec BITVEC_MXHASH (nSet p)) as [Hm|Hm]; [exact Hconv|].
        rewrite MXHASH_eq in Hm. apply Hstore; done || lia.
Qed.

(** ** Clearing bits *)

Lemma rebuild_ok size i values : ∀ n a,
  hash_ok size n a → n + Z.of_nat (length (filter (λ v, v ≠ 0) values)) ≤ 123 →
  Forall (λ v, v ≠ 0 → 1 ≤ v ≤ size) values →
  let '(n', a') := rebuild values i n a in
  hash_ok size n' a' ∧
  ∀ v, v ≠ 0 → holds a' v ↔ holds a v ∨ (v ∈ values ∧ v ≠ i + 1).
Proof.
  induction values as [|v values IH]; intros n a Ha Hn Hv; cbn [rebuild].
  { split; [done|]. intros v _. rewrite elem_of_nil. tauto. }
  apply Forall_cons in Hv as [Hv Hvs].
  destruct (Z.eqb_spec v 0) as [->|Hz]; cbn [negb andb].
  { rewrite filter_cons_False in Hn by lia. specialize (IH n a Ha Hn Hvs).
    destruct (rebuild _ _ _ _) as [n' a']. destruct IH as [H1 H2]. split; [done|].
    intros x Hx. rewrite H2, elem_of_cons by done. naive_solver. }
  rewrite filter_cons_True in Hn by done. cbn [length] in Hn. specialize (Hv Hz).
  destruct (Z.eqb_spec v (i + 1)) as [->|Hvi]; cbn [negb].
  { specialize (IH n a Ha ltac:(lia) Hvs).
    destruct (rebuild _ _ _ _) as [n' a']. destruct IH as [H1 H2]. split; [done|].
    intros x Hx. rewrite H2, elem_of_cons by done. naive_solver. }
  pose proof (probe_start _ _ a (BITVEC_HASH (v - 1)) 0 Ha (hash_range _)) as Hp.
  destruct (probe _ _ _ _) as [b h]. destruct Hp as (t&Ht&->&Hu&_&Hb). cbn [snd].
  assert (Hfree : at_ a (slot (BITVEC_HASH (v - 1)) t) = 0) by (destruct b; tauto).
  destruct (store_ok size n a (v - 1) t) as [Ha' Hh]; try done; try lia.
  replace (v - 1 + 1) with v in * by lia.
  specialize (IH (n + 1) _ Ha' ltac:(lia) Hvs).
  destruct (rebuild _ _ _ _) as [n' a']. destruct IH as [H1 H2]. split; [done|].
  intros x Hx. rewrite H2, Hh, elem_of_cons by done. naive_solver.
Qed.

Lemma holds_elem a v : length a = 124%nat → v ≠ 0 → holds a v ↔ v ∈ a.
Proof.
  intros Hl Hv. rewrite list_elem_of_lookup. unfold holds. split.
  - intros (m&Hm&Em). exists (Z.to_nat m). unfold at_ in Em. rewrite nth_lookup in Em.
    destruct (a !! Z.to_nat m); simpl in Em; [by subst|lia].
  - intros [m Hm]. pose proof (lookup_lt_Some _ _ _ Hm). rewrite Hl in *.
    exists (Z.of_nat m). split; [lia|]. apply at_lookup; [lia|]. by rewrite Nat2Z.id.
Qed.

Lemma clear0_sub size n d l i :
  d ≠ 0 →
  clear0 (mkBitvec size n d (apSub l)) i =
  mkBitvec size n d (apSub
    (match l !! Z.to_nat (i / d) with
     | Some (Some s) => <[Z.to_nat (i / d) := Some (clear0 s (i mod d))]> l
     | _ => l
     end)).
Proof.
  intros Hd. cbn [clear0]. rewrite (proj2 (Z.eqb_neq _ _)) by done. cbn [negb].
  do 2 f_equal. generalize (Z.to_nat (i / d)) as k.
  induction l as [|[x|] l IH]; intros [|k]; try done; cbn; rewrite IH;
    (destruct (l !! k) as [[s|]|] eqn:E; rewrite ?E; done).
Qed.

Lemma clear0_removes k : ∀ p i,
  wf k p → 0 ≤ i < iSize p →
  wf k (clear0 p i) ∧ iSize (clear0 p i) = iSize p ∧ iDivisor (clear0 p i) = iDivisor p ∧
  ∀ j, 0 ≤ j < iSize p → test0 (clear0 p i) j = negb (j =? i) && test0 p j.
Proof.
  induction k as [k IH] using lt_wf_ind. intros p i Hp Hi.
  destruct p as [size n d un]. cbn [iSize] in *.
  destruct un as [a|a|l].
  - assert (H : 0 ≤ size ∧ size ≤ 3968 ∧ d = 0 ∧ length a = 496%nat ∧ Forall is_byte a)
      by (destruct k; apply Hp).
    destruct H as (Hs&Hsm&->&Hlen&Hb). cbn [clear0 Z.eqb negb].
    rewrite NBIT_eq, (proj2 (Z.leb_le _ _)) by done. cbn [iSize iDivisor].
    set (a' := <[_ := _]> a). split_and!; [|done|done|].
    + assert (H : 0 ≤ size ∧ size ≤ 3968 ∧ 0 = 0 ∧ length a' = 496%nat ∧ Forall is_byte a').
      { split_and!; try done; unfold a'; [by rewrite length_insert|].
        apply Forall_insert; [done|]. apply u8_range. }
      destruct k; exact H.
    + intros j Hj. rewrite !test0_bitmap by lia. unfold a'. change BITVEC_SZELEM with 8.
      rewrite (bitmap_update _ _ _ _ false); [by destruct (j =? i)|done|lia|lia|].
      intros m Hm. rewrite bit_of_eq by lia.
      apply byte_clear_bit; [apply Z.mod_pos_bound; lia|done].
  - assert (H : 0 ≤ size ∧ 3968 < size ∧ d = 0 ∧ hash_ok size n a) by (destruct k; apply Hp).
    destruct H as (Hs&Hbig&->&Ha). cbn [clear0 Z.eqb negb].
    rewrite NBIT_eq, (proj2 (Z.leb_gt _ _)) by done.
    destruct (empty_ok size) as [He1 He2].
    assert (Hvals : Forall (λ v, v ≠ 0 → 1 ≤ v ≤ size) a).
    { apply Forall_forall. intros v Hv Hz. apply holds_elem in Hv; [|apply Ha|done].
      destruct Hv as (m&Hm&<-). by apply (ho_range _ _ _ Ha). }
    pose proof (rebuild_ok size i a 0 (replicate 124 0) He1) as Hr.
    change (Z.to_nat BITVEC_NINT) with 124%nat.
    destruct (rebuild a i 0 (replicate 124 0)) as [n' a'].
    destruct Hr as [Ha' Hh]; [pose proof (ho_count _ _ _ Ha); pose proof (ho_free _ _ _ Ha); lia|done|].
    cbn [iSize iDivisor]. split_and!; [|done|done|].
    + assert (H : 0 ≤ size ∧ 3968 < size ∧ 0 = 0 ∧ hash_ok size n' a') by (split_and!; done).
      destruct k; exact H.
    + intros j Hj. apply eq_iff_eq_true. rewrite andb_true_iff, negb_true_iff, Z.eqb_neq.
      rewrite (test0_hash size n' a'), (test0_hash size n a), Hh by (done || lia).
      rewrite <- (holds_elem a) by (try apply Ha; lia).
      specialize (He2 (j + 1) ltac:(lia)). split; [intros [?|[??]]; [done|split; [lia|done]]|].
      intros [??]. right. split; [done|lia].
  - destruct k as [|k]; [by destruct Hp as (_&_&_&_&[])|].
    destruct Hp as (Hs&Hbig&Hd&Hlen&Hall). cbn [iSize iDivisor u] in *.
    assert (Hd0 : 0 < d) by (rewrite Hd; Z.to_euclidean_division_equations; lia).
    rewrite clear0_sub by lia. cbn [iSize iDivisor].
    destruct (l !! Z.to_nat (i / d)) as [[s|]|] eqn:El.
    2,3: (split_and!; [split; done|done|done|]); intros j Hj; rewrite test0_sub by lia;
         (destruct (Z.eqb_spec j i) as [->|]; [by rewrite El|done]).
    rewrite Forall_lookup in Hall. destruct (Hall _ _ El) as [Hsz Hwf].
    destruct (IH k ltac:(lia) s (i mod d) Hwf) as (Hwf'&Hsz'&_&Ht).
    { rewrite Hsz. apply Z.mod_pos_bound. lia. }
    split_and!; [|done|done|].
    + split; [done|]. cbn [iSize iDivisor u]. split; [done|]. split; [done|].
      rewrite length_insert. split; [done|]. apply Forall_insert; [by apply Forall_lookup|].
      split; [congruence|done].
    + intros j Hj. rewrite !test0_sub by lia.
      destruct (decide (j / d = i / d)) as [Ej|Ej].
      * rewrite Ej, El, list_lookup_insert_eq by (by eapply lookup_lt_Some).
        rewrite Ht by (rewrite Hsz; apply Z.mod_pos_bound; lia). f_equal. f_equal.
        apply eq_iff_eq_true. rewrite !Z.eqb_eq. split; [|by intros ->].
        intros Em. rewrite (Z.div_mod j d), (Z.div_mod i d) by lia. congruence.
      * rewrite list_lookup_insert_ne.
        -- destruct (Z.eqb_spec j i) as [->|]; [done|done].
        -- intros Eb. apply Z2Nat.inj in Eb; [done|apply Z.div_pos; lia..].
Qed.

(** ** The bitmap as a set *)

Lemma test_eq p j :
  1 ≤ j → sqlite3BitvecTest (Some p) j = if iSize p <? j then false else test0 p (j - 1).
Proof. intros Hj. unfold sqlite3BitvecTest. by rewrite (proj2 (Z.eqb_neq j 0)), orb_false_r by lia. Qed.

(** C8. A bitmap is a set of numbers.  A created bitmap is empty; a successful
    [sqlite3BitvecSet] adds exactly the number given, in whichever of the three
    representations and through every conversion; when memory runs out no other
    number has been added; with memory it always succeeds, and the nesting of the
    recursion is bounded for every 32-bit size; and [sqlite3BitvecClear] removes
    exactly the number given. *)
Theorem bitvec_refines_set p i o :
  wf 4 p → iSize p < 2 ^ 32 → 1 ≤ i ≤ iSize p →
  (∃ rc p' o', sqlite3BitvecSet (Some p) i o = Some (rc, Some p', o') ∧
     wf 4 p' ∧ iSize p' = iSize p ∧
     (∀ j, 1 ≤ j → sqlite3BitvecTest (Some p') j = true →
        j = i ∨ sqlite3BitvecTest (Some p) j = true) ∧
     (rc = SQLITE_OK → ∀ j, 1 ≤ j →
        sqlite3BitvecTest (Some p') j = (j =? i) || sqlite3BitvecTest (Some p) j) ∧
     (o = [] → rc = SQLITE_OK)) ∧
  (∃ p', sqlite3BitvecClear (Some p) i = Some p' ∧ wf 4 p' ∧ iSize p' = iSize p ∧
     ∀ j, 1 ≤ j → sqlite3BitvecTest (Some p') j = negb (j =? i) && sqlite3BitvecTest (Some p) j) ∧
  (∀ j, 1 ≤ j → sqlite3BitvecTest (Some (sqlite3BitvecCreate (iSize p))) j = false).
Proof.
  intros Hp Hs Hi. split_and!.
  - destruct (set0_adds 4 set_fuel p (i - 1) o) as (rc&p'&o'&E&Hw&Hsz&_&_&Hin&Hc&Hm);
      [done|lia|lia|unfold set_fuel; case_bool_decide; lia|unfold set_fuel; lia|].
    exists rc, p', o'. unfold sqlite3BitvecSet. rewrite E. split_and!; try done.
    + intros j Hj. rewrite !test_eq, Hsz by done. destruct (Z.ltb_spec (iSize p) j); [done|].
      intros Ht. destruct (Hin (j - 1)); [lia|done|left; lia|by right].
    + intros Hrc j Hj. rewrite !test_eq, Hsz by done. destruct (Hc Hrc) as [_ Hc'].
      destruct (Z.ltb_spec (iSize p) j).
      * rewrite (proj2 (Z.eqb_neq j i)) by lia. done.
      * apply eq_iff_eq_true. rewrite orb_true_iff, Z.eqb_eq. split.
        -- intros Ht. destruct (Hin (j - 1)); [lia|done|left; lia|by right].
        -- intros Hor. apply Hc'; [lia|]. destruct Hor; [left; lia|by right].
    + intros Ho. by apply Hm.
  - destruct (clear0_removes 4 p (i - 1) Hp) as (Hw&Hsz&_&Ht); [lia|].
    eexists. split; [done|]. split_and!; [done|done|]. intros j Hj.
    rewrite !test_eq, Hsz by done. destruct (Z.ltb_spec (iSize p) j); [by rewrite andb_false_r|].
    rewrite Ht by lia. f_equal. f_equal. apply eq_iff_eq_true. rewrite !Z.eqb_eq. lia.
  - intros j Hj. rewrite test_eq by done. destruct (_ <? j); [done|]. apply create_empty. lia.
Qed.

Lemma bitvec_refines_set_witness :
  let p := sqlite3BitvecCreate 5000 in
  ∃ rc p' o', sqlite3BitvecSet (Some p) 4999 [] = Some (rc, Some p', o') ∧ rc = SQLITE_OK.
Proof.
  intros p. assert (iSize p = 5000) as Hs by reflexivity.
  destruct (bitvec_refines_set p 4999 []) as [(rc&p'&o'&H&_&_&_&_&Hrc) _].
  - apply create_wf. lia.
  - rewrite Hs. lia.
  - rewrite Hs. lia.
  - exists rc, p', o'. exact (conj H (Hrc eq_refl)).
Defined.
