(* ===== verification/SqlRowset.v ===== *)
(** * Sets of row identifiers

    Models rowset.c of src/org.glite.wms.ice/src/iceDb/sqlite/sqlite3.c: row
    identifiers are inserted in any order, tested batch by batch, and at last
    extracted in increasing order.  The entries linked by [pRight] are lists and
    the trees are inductive trees: every entry is in one of them only, so the
    updates in place are the ones of these values. *)

From S2P Require Import Prelude.
From S2P Require Import Machine.
From S2P Require Import SqlBitvec.

(** ** Data *)

Definition ROWSET_ALLOCATION_SIZE : Z := 1024.
(** [sizeof(struct RowSetEntry)]: an [i64] and two pointers. *)
Definition sizeof_RowSetEntry : Z := 24.
Definition ROWSET_ENTRY_PER_CHUNK : Z := (ROWSET_ALLOCATION_SIZE - 8) / sizeof_RowSetEntry.

(** Entries as the nodes of a search tree; [Null] is the null pointer. *)
Inductive RowSetTree :=
| Null
| Node (pLeft : RowSetTree) (v : Z) (pRight : RowSetTree).

(** [struct RowSet]: [pEntry] is the list of entries, whose last one [pLast] points
    to; [pForest] is the list of trees; the two flags are [rsFlags]. *)
Record RowSet := mkRowSet {
  pChunk : Z;                     (* number of chunks allocated *)
  pEntry : list Z;
  pForest : list RowSetTree;
  nFresh : Z;
  ROWSET_SORTED : bool;
  ROWSET_NEXT : bool;
  iBatch : Z;
}.

Definition ROUND8 (x : Z) : Z := (x + 7) / 8 * 8.
Definition sizeof_RowSet : Z := 56.

(** [sqlite3RowSetInit] on [N] bytes of memory. *)
Definition sqlite3RowSetInit (N : Z) : RowSet :=
  mkRowSet 0 [] [] (u16 ((N - ROUND8 sizeof_RowSet) / sizeof_RowSetEntry)) true false 0.

(** [sqlite3RowSetClear] *)
Definition sqlite3RowSetClear (p : RowSet) : RowSet :=
  mkRowSet 0 [] [] 0 true false (iBatch p).

(** [rowSetEntryAlloc]: whether there is an entry. *)
Definition rowSetEntryAlloc (p : RowSet) (o : list bool) : bool * RowSet * list bool :=
  let take p := mkRowSet (pChunk p) (pEntry p) (pForest p) (nFresh p - 1)
                  (ROWSET_SORTED p) (ROWSET_NEXT p) (iBatch p) in
  if nFresh p =? 0 then
    let '(ok, o) := malloc o in
    if negb ok then (false, p, o)
    else (true, take (mkRowSet (pChunk p + 1) (pEntry p) (pForest p) ROWSET_ENTRY_PER_CHUNK
                        (ROWSET_SORTED p) (ROWSET_NEXT p) (iBatch p)), o)
  else (true, take p, o).

(** [sqlite3RowSetInsert] *)
Definition sqlite3RowSetInsert (p : RowSet) (rowid : Z) (o : list bool) : RowSet * list bool :=
  let '(ok, p, o) := rowSetEntryAlloc p o in
  if negb ok then (p, o) else
  let sorted :=
    match last (pEntry p) with
    | Some v => if ROWSET_SORTED p && (rowid <=? v) then false else ROWSET_SORTED p
    | None => ROWSET_SORTED p
    end in
  (mkRowSet (pChunk p) (pEntry p ++ [rowid]) (pForest p) (nFresh p) sorted (ROWSET_NEXT p)
     (iBatch p), o).

(** ** Sorting *)

(** [rowSetEntryMerge] *)
Fixpoint rowSetEntryMerge (pA : list Z) : list Z → list Z :=
  fix merge_b (pB : list Z) : list Z :=
    match pA, pB with
    | a :: ra, b :: rb =>
        if a <? b then a :: rowSetEntryMerge ra pB
        else if b <? a then b :: merge_b rb
        else rowSetEntryMerge ra pB
    | [], _ => pB
    | _, [] => pA
    end.

(** The loop over the buckets that an entry is carried through; [None]: the array
    is left. *)
Fixpoint rowSetCarry (aBucket : list (list Z)) (pIn : list Z) : option (list (list Z)) :=
  match aBucket with
  | [] => None
  | [] :: rest => Some (pIn :: rest)
  | b :: rest => cons [] <$> rowSetCarry rest (rowSetEntryMerge b pIn)
  end.

Fixpoint rowSetDistribute (pIn : list Z) (aBucket : list (list Z)) : option (list (list Z)) :=
  match pIn with
  | [] => Some aBucket
  | v :: pNext => aBucket ← rowSetCarry aBucket [v]; rowSetDistribute pNext aBucket
  end.

(** [rowSetEntrySort] *)
Definition rowSetEntrySort (pIn : list Z) : option (list Z) :=
  aBucket ← rowSetDistribute pIn (replicate 40 []);
  Some (foldl rowSetEntryMerge [] aBucket).

(** ** Trees *)

(** [rowSetTreeToList] *)
Fixpoint rowSetTreeToList (pIn : RowSetTree) : list Z :=
  match pIn with
  | Null => []
  | Node l v r => rowSetTreeToList l ++ v :: rowSetTreeToList r
  end.

(** [rowSetNDeepTree]: the tree and the rest of the list; a depth is at least 1. *)
Fixpoint rowSetNDeepTree (iDepth : nat) (ppList : list Z) : RowSetTree * list Z :=
  match ppList with
  | [] => (Null, [])
  | v :: rest =>
      match iDepth with
      | O | S O => (Node Null v Null, rest)
      | S d =>
          let '(pLeft, ppList) := rowSetNDeepTree d ppList in
          match ppList with
          | [] => (pLeft, [])
          | p :: rest =>
              let '(pRight, rest) := rowSetNDeepTree d rest in
              (Node pLeft p pRight, rest)
          end
      end
  end.

(** The loop of [rowSetListToTree]; every round takes an entry. *)
Fixpoint listToTree_loop (fuel iDepth : nat) (p : RowSetTree) (pList : list Z) : RowSetTree :=
  match fuel, pList with
  | S fuel, v :: rest =>
      let '(pRight, rest) := rowSetNDeepTree iDepth rest in
      listToTree_loop fuel (S iDepth) (Node p v pRight) rest
  | _, _ => p
  end.

(** [rowSetListToTree] of a list with an entry *)
Definition rowSetListToTree (pList : list Z) : RowSetTree :=
  match pList with
  | [] => Null
  | v :: rest => listToTree_loop (length rest) 1 (Node Null v Null) rest
  end.

(** ** Extraction *)

(** [rowSetToList]; its assertion that there is no forest does nothing in the
    library. *)
Definition rowSetToList (p : RowSet) : option RowSet :=
  l ← (if ROWSET_SORTED p then Some (pEntry p) else rowSetEntrySort (pEntry p));
  Some (mkRowSet (pChunk p) l (pForest p) (nFresh p) (ROWSET_SORTED p) true (iBatch p)).

(** [sqlite3RowSetNext]: the value extracted, if there is one. *)
Definition sqlite3RowSetNext (p : RowSet) : option (option Z * RowSet) :=
  p ← (if ROWSET_NEXT p then Some p else rowSetToList p);
  match pEntry p with
  | [] => Some (None, p)
  | v :: rest =>
      let p := mkRowSet (pChunk p) rest (pForest p) (nFresh p) (ROWSET_SORTED p) (ROWSET_NEXT p)
                 (iBatch p) in
      Some (Some v, match rest with [] => sqlite3RowSetClear p | _ => p end)
  end.

(** ** Tests *)

(** The loop over the forest that finds a place for the sorted list [p]: the
    forest, and the list when it has found no place. *)
Fixpoint rowSetPlace (forest : list RowSetTree) (p : list Z) : list RowSetTree * option (list Z) :=
  match forest with
  | [] => ([], Some p)
  | Null :: rest => (rowSetListToTree p :: rest, None)
  | t :: rest =>
      let '(rest, remain) := rowSetPlace rest (rowSetEntryMerge (rowSetTreeToList t) p) in
      (Null :: rest, remain)
  end.

(** The search of a tree for a value *)
Fixpoint rowSetSearch (p : RowSetTree) (iRowid : Z) : bool :=
  match p with
  | Null => false
  | Node l v r =>
      if v <? iRowid then rowSetSearch r iRowid
      else if iRowid <? v then rowSetSearch l iRowid
      else true
  end.

(** What the first test of a new batch does with the entries. *)
Definition rowSetBatch (p : RowSet) (o : list bool) : option (RowSet * list bool) :=
  match pEntry p with
  | [] => Some (p, o)
  | _ =>
      l ← (if ROWSET_SORTED p then Some (pEntry p) else rowSetEntrySort (pEntry p));
      let '(forest, remain) := rowSetPlace (pForest p) l in
      let p := mkRowSet (pChunk p) (pEntry p) forest (nFresh p) (ROWSET_SORTED p)
                 (ROWSET_NEXT p) (iBatch p) in
      let '(p, o) :=
        match remain with
        | None => (p, o)
        | Some l =>
            let '(ok, p, o) := rowSetEntryAlloc p o in
            (if ok : bool then
               mkRowSet (pChunk p) (pEntry p) (pForest p ++ [rowSetListToTree l]) (nFresh p)
                 (ROWSET_SORTED p) (ROWSET_NEXT p) (iBatch p)
             else p, o)
        end in
      Some (mkRowSet (pChunk p) [] (pForest p) (nFresh p) true (ROWSET_NEXT p) (iBatch p), o)
  end.

(** [sqlite3RowSetTest] *)
Definition sqlite3RowSetTest (p : RowSet) (batch iRowid : Z) (o : list bool)
    : option (bool * RowSet * list bool) :=
  '(p, o) ←
    (if batch =? iBatch p then Some (p, o)
     else '(p, o) ← rowSetBatch p o;
          Some (mkRowSet (pChunk p) (pEntry p) (pForest p) (nFresh p) (ROWSET_SORTED p)
                  (ROWSET_NEXT p) batch, o));
  Some (existsb (λ t, rowSetSearch t iRowid) (pForest p), p, o).

Example rowset_sample :
  let '(p, _) := sqlite3RowSetInsert (sqlite3RowSetInit 120) 5 [] in
  let '(p, _) := sqlite3RowSetInsert p 3 [] in
  let '(p, _) := sqlite3RowSetInsert p 5 [] in
  (r ← sqlite3RowSetTest p 1 3 []; Some r.1.1) = Some true ∧
  sqlite3RowSetNext p = Some (Some 3, mkRowSet 1 [5] [] 41 false true 0).
Proof. vm_compute. done. Qed.

(** ** Merging and sorting *)

Notation ascending := (StronglySorted Z.lt).

Lemma ascending_cons x l : ascending (x :: l) ↔ ascending l ∧ ∀ y, y ∈ l → x < y.
Proof.
  split.
  - intros [H1 H2]%StronglySorted_inv. split; [done|]. by apply Forall_forall.
  - intros [H1 H2]. constructor; [done|]. by apply Forall_forall.
Qed.

Lemma merge_elem a b x : x ∈ rowSetEntryMerge a b ↔ x ∈ a ∨ x ∈ b.
Proof.
  revert b. induction a as [|v a IHa]; [intros []; set_solver|].
  induction b as [|w b IHb]; [set_solver|]. cbn -[Z.ltb].
  case_tests; rewrite ?elem_of_cons.
  - rewrite IHa. set_solver.
  - change ((fix merge_b (pB : list Z) : list Z := _) b) with (rowSetEntryMerge (v :: a) b).
    rewrite IHb. set_solver.
  - rewrite IHa. assert (v = w) as -> by lia. set_solver.
Qed.

Lemma merge_ascending a b : ascending a → ascending b → ascending (rowSetEntryMerge a b).
Proof.
  revert b. induction a as [|v a IHa]; [by intros []|].
  induction b as [|w b IHb]; [done|]. intros Ha Hb. cbn -[Z.ltb].
  pose proof Ha as Ha'. pose proof Hb as Hb'.
  apply ascending_cons in Ha as [Ha1 Ha2]. apply ascending_cons in Hb as [Hb1 Hb2].
  case_tests.
  - apply ascending_cons. split; [by apply IHa|]. intros y [Hy|Hy]%merge_elem; [by apply Ha2|].
    apply elem_of_cons in Hy as [->|Hy]; [done|]. specialize (Hb2 y Hy). lia.
  - change ((fix merge_b (pB : list Z) : list Z := _) b) with (rowSetEntryMerge (v :: a) b).
    apply ascending_cons. split; [by apply IHb|]. intros y [Hy|Hy]%merge_elem; [|by apply Hb2].
    apply elem_of_cons in Hy as [->|Hy]; [done|]. specialize (Ha2 y Hy). lia.
  - by apply IHa.
Qed.

(** The buckets in use, read as a binary number, count the entries. *)
Fixpoint occupancy (aBucket : list (list Z)) : Z :=
  match aBucket with
  | [] => 0
  | b :: rest => (if bool_decide (b = []) then 0 else 1) + 2 * occupancy rest
  end.

Definition in_buckets (aBucket : list (list Z)) (x : Z) : Prop := ∃ b, b ∈ aBucket ∧ x ∈ b.

Lemma in_buckets_cons b l x : in_buckets (b :: l) x ↔ x ∈ b ∨ in_buckets l x.
Proof. unfold in_buckets. set_solver. Qed.

Lemma carry_spec aBucket pIn :
  pIn ≠ [] → ascending pIn → Forall ascending aBucket →
  occupancy aBucket + 1 < 2 ^ Z.of_nat (length aBucket) →
  ∃ l, rowSetCarry aBucket pIn = Some l ∧ length l = length aBucket ∧ Forall ascending l ∧
       occupancy l = occupancy aBucket + 1 ∧
       ∀ x, in_buckets l x ↔ in_buckets aBucket x ∨ x ∈ pIn.
Proof.
  revert pIn. induction aBucket as [|b rest IH]; intros pIn Hne Hs Hf Ho; [done|].
  apply Forall_cons in Hf as [Hb Hf]. cbn [occupancy length] in Ho.
  rewrite Nat2Z.inj_succ, Z.pow_succ_r in Ho by lia.
  destruct b as [|v b].
  - exists (pIn :: rest). cbn [rowSetCarry occupancy length].
    rewrite (bool_decide_eq_true_2 ([] = [])), (bool_decide_eq_false_2 (pIn = [])) by done.
    split_and!; [done|done|by constructor|lia|]. intros x. rewrite !in_buckets_cons. set_solver.
  - rewrite bool_decide_eq_false_2 in Ho by done. cbn [rowSetCarry].
    destruct (IH (rowSetEntryMerge (v :: b) pIn)) as (l&E&Hl&Hfl&Hol&Hx); [..|lia|].
    { intros E. destruct pIn as [|y pIn]; [done|].
      assert (y ∈ rowSetEntryMerge (v :: b) (y :: pIn)) as Hy by (apply merge_elem; set_solver).
      rewrite E in Hy. set_solver. }
    { by apply merge_ascending. }
    { done. }
    rewrite E. exists ([] :: l). cbn [fmap option_fmap option_map occupancy length].
    rewrite bool_decide_eq_true_2, bool_decide_eq_false_2 by done.
    split_and!; [done|lia|repeat constructor; done|lia|].
    intros x. rewrite !in_buckets_cons, Hx, merge_elem. set_solver.
Qed.

Lemma distribute_spec pIn aBucket :
  Forall ascending aBucket →
  occupancy aBucket + Z.of_nat (length pIn) < 2 ^ Z.of_nat (length aBucket) →
  ∃ l, rowSetDistribute pIn aBucket = Some l ∧ Forall ascending l ∧
       ∀ x, in_buckets l x ↔ in_buckets aBucket x ∨ x ∈ pIn.
Proof.
  revert aBucket. induction pIn as [|v pIn IH]; intros aBucket Hf Ho; simpl.
  - eexists. split_and!; [done..|]. set_solver.
  - cbn [length] in Ho. destruct (carry_spec aBucket [v]) as (l&E&Hl&Hfl&Hol&Hx);
      [done|repeat constructor|done|lia|].
    rewrite E. destruct (IH l) as (l2&E2&Hf2&Hx2); [done|rewrite Hl; lia|].
    exists l2. split_and!; [done..|]. intros x. rewrite Hx2, Hx. set_solver.
Qed.

Lemma fold_merge_spec aBucket acc :
  ascending acc → Forall ascending aBucket →
  ascending (foldl rowSetEntryMerge acc aBucket) ∧
  ∀ x, x ∈ foldl rowSetEntryMerge acc aBucket ↔ x ∈ acc ∨ in_buckets aBucket x.
Proof.
  intros Ha Hf. revert acc Ha. induction Hf as [|b l Hb _ IH]; intros acc Ha; simpl.
  - split; [done|]. unfold in_buckets. set_solver.
  - destruct (IH (rowSetEntryMerge acc b)) as [H1 H2]; [by apply merge_ascending|].
    split; [done|]. intros x. rewrite H2, merge_elem, in_buckets_cons. set_solver.
Qed.

Lemma replicate_empty n :
  occupancy (replicate n []) = 0 ∧ ∀ x, ¬ in_buckets (replicate n []) x.
Proof.
  induction n as [|n [IH1 IH2]]; simpl; [split; [done|unfold in_buckets; set_solver]|].
  rewrite IH1. split; [done|].
  intros x. rewrite in_buckets_cons. set_solver.
Qed.

Lemma sort_spec l :
  Z.of_nat (length l) < 2 ^ 40 →
  ∃ s, rowSetEntrySort l = Some s ∧ ascending s ∧ ∀ x, x ∈ s ↔ x ∈ l.
Proof.
  intros Hl. unfold rowSetEntrySort. destruct (replicate_empty 40) as [H0 Hx0].
  destruct (distribute_spec l (replicate 40 [])) as (b&E&Hb&Hx).
  { apply Forall_replicate. constructor. }
  { rewrite H0, length_replicate. exact Hl. }
  rewrite E. cbn [mbind option_bind].
  destruct (fold_merge_spec b []) as [H1 H2]; [constructor|done|].
  eexists. split_and!; [done..|]. intros x. rewrite H2, Hx. set_solver.
Qed.

(** ** Trees *)

Fixpoint height (t : RowSetTree) : Z :=
  match t with Null => 0 | Node l _ r => 1 + Z.max (height l) (height r) end.

Lemma height_nonneg t : 0 ≤ height t.
Proof. induction t; simpl; lia. Qed.

Lemma search_spec t x :
  ascending (rowSetTreeToList t) → rowSetSearch t x = true ↔ x ∈ rowSetTreeToList t.
Proof.
  induction t as [|l IHl v r IHr]; simpl; [set_solver|].
  rewrite StronglySorted_app_iff, ascending_cons. intros (Hl&[Hr Hv]&Hlt).
  assert (∀ y, y ∈ rowSetTreeToList l → y < v) as Hlv by (intros y Hy; apply Hlt; set_solver).
  rewrite elem_of_app, elem_of_cons. case_tests.
  - rewrite IHr by done. split; [tauto|]. intros [H|[->|H]]; [|lia|done].
    specialize (Hlv x H). lia.
  - rewrite IHl by done. split; [tauto|]. intros [H|[->|H]]; [done|lia|].
    specialize (Hv x H). lia.
Qed.

(** A tree of depth [d] takes the first [2^d - 1] entries, or all of them. *)
Lemma ndeep_spec d l :
  (1 ≤ d)%nat → let '(t, rest) := rowSetNDeepTree d l in
  rowSetTreeToList t ++ rest = l ∧ height t ≤ Z.of_nat d ∧
  (rest ≠ [] → Z.of_nat (length (rowSetTreeToList t)) = 2 ^ Z.of_nat d - 1).
Proof.
  revert l. induction d as [|d IH]; intros l Hd; [lia|]. cbn [rowSetNDeepTree].
  destruct l as [|v l]; [split_and!; [done|simpl; lia|done]|].
  destruct d as [|d]; [split_and!; [done|simpl; lia|done]|].
  pose proof (IH (v :: l) ltac:(lia)) as H1.
  destruct (rowSetNDeepTree (S d) (v :: l)) as [tl rest]. destruct H1 as (E1&Hh1&Hn1).
  destruct rest as [|p rest].
  - split_and!; [done|lia|done].
  - pose proof (IH rest ltac:(lia)) as H2.
    destruct (rowSetNDeepTree (S d) rest) as [tr rest2]. destruct H2 as (E2&Hh2&Hn2).
    specialize (Hn1 ltac:(done)). cbn [rowSetTreeToList height]. split_and!.
    + rewrite <- app_assoc. simpl. by rewrite E2.
    + pose proof (height_nonneg tl). pose proof (height_nonneg tr). lia.
    + intros Hr. specialize (Hn2 Hr). rewrite length_app. cbn [length].
      rewrite (Nat2Z.inj_succ (S d)), Z.pow_succ_r by lia. lia.
Qed.

Lemma listToTree_loop_spec fuel d t l :
  (1 ≤ d)%nat → (length l ≤ fuel)%nat → height t ≤ Z.of_nat d →
  2 ^ (Z.of_nat d - 1) ≤ Z.of_nat (length (rowSetTreeToList t)) →
  (l ≠ [] → Z.of_nat (length (rowSetTreeToList t)) = 2 ^ Z.of_nat d - 1) →
  let t' := listToTree_loop fuel d t l in
  rowSetTreeToList t' = rowSetTreeToList t ++ l ∧
  2 ^ (height t' - 1) ≤ Z.of_nat (length (rowSetTreeToList t ++ l)).
Proof.
  revert d t l. induction fuel as [|fuel IH]; intros d t l Hd Hf Hh Hlo Hfull; simpl.
  { destruct l; [|simpl in Hf; lia]. rewrite app_nil_r. split; [done|].
    etrans; [|exact Hlo]. apply Z.pow_le_mono_r; lia. }
  destruct l as [|v l].
  { rewrite app_nil_r. split; [done|]. etrans; [|exact Hlo]. apply Z.pow_le_mono_r; lia. }
  specialize (Hfull ltac:(done)). pose proof (ndeep_spec d l Hd) as H1.
  destruct (rowSetNDeepTree d l) as [tr rest]. destruct H1 as (E1&Hh1&Hn1).
  assert (Hlen : (length l = length (rowSetTreeToList tr) + length rest)%nat)
    by (rewrite <- E1, length_app; done).
  destruct (IH (S d) (Node t v tr) rest) as [H1 H2].
  - lia.
  - simpl in Hf. lia.
  - cbn [height]. pose proof (height_nonneg t). lia.
  - cbn [rowSetTreeToList]. rewrite length_app. cbn [length].
    replace (Z.of_nat (S d) - 1) with (Z.of_nat d) by lia. lia.
  - intros Hr. specialize (Hn1 Hr). cbn [rowSetTreeToList]. rewrite length_app. cbn [length].
    rewrite (Nat2Z.inj_succ d), Z.pow_succ_r by lia. lia.
  - cbn [rowSetTreeToList] in H1, H2. rewrite <- app_assoc in H1, H2. simpl in H1, H2.
    rewrite E1 in H1, H2. done.
Qed.

(** The tree of a list has its entries in order, and is balanced. *)
Lemma listToTree_spec l :
  l ≠ [] → rowSetTreeToList (rowSetListToTree l) = l ∧
  2 ^ (height (rowSetListToTree l) - 1) ≤ Z.of_nat (length l).
Proof.
  destruct l as [|v l]; [done|]. intros _.
  apply (listToTree_loop_spec (length l) 1 (Node Null v Null) l); simpl; lia || done.
Qed.

(** ** The forest *)

(** A search tree whose depth is logarithmic in its size. *)
Definition tree_ok (t : RowSetTree) : Prop :=
  ascending (rowSetTreeToList t) ∧
  2 ^ (height t - 1) ≤ Z.of_nat (length (rowSetTreeToList t)).

Definition in_forest (forest : list RowSetTree) (x : Z) : Prop :=
  ∃ t, t ∈ forest ∧ x ∈ rowSetTreeToList t.

Lemma in_forest_cons t f x : in_forest (t :: f) x ↔ x ∈ rowSetTreeToList t ∨ in_forest f x.
Proof. unfold in_forest. set_solver. Qed.

Lemma in_forest_app f g x : in_forest (f ++ g) x ↔ in_forest f x ∨ in_forest g x.
Proof. unfold in_forest. set_solver. Qed.

Lemma Null_ok : tree_ok Null.
Proof. split; [constructor|done]. Qed.

Lemma listToTree_ok l : l ≠ [] → ascending l → tree_ok (rowSetListToTree l).
Proof.
  intros Hl Hs. destruct (listToTree_spec l Hl) as [E Hh]. unfold tree_ok. by rewrite E.
Qed.

Lemma in_listToTree l x : l ≠ [] → x ∈ rowSetTreeToList (rowSetListToTree l) ↔ x ∈ l.
Proof. intros Hl. by destruct (listToTree_spec l Hl) as [-> _]. Qed.

(** The entries of the trees passed over go with the list, which ends in a tree of
    the forest or is what remains. *)
Lemma place_spec f p :
  p ≠ [] → ascending p → Forall tree_ok f →
  let '(f', remain) := rowSetPlace f p in
  Forall tree_ok f' ∧
  match remain with
  | None => ∀ x, in_forest f' x ↔ in_forest f x ∨ x ∈ p
  | Some l => l ≠ [] ∧ ascending l ∧ (∀ x, x ∈ l ↔ in_forest f x ∨ x ∈ p) ∧
              ∀ x, ¬ in_forest f' x
  end.
Proof.
  intros Hp Hs Hf. revert p Hp Hs. induction Hf as [|t f Ht Hf IH]; intros p Hp Hs.
  { cbn [rowSetPlace]. split_and!; [constructor|done|done|..]; unfold in_forest; set_solver. }
  destruct t as [|l v r].
  - cbn [rowSetPlace]. split; [constructor; [by apply listToTree_ok|done]|].
    intros x. rewrite !in_forest_cons, in_listToTree by done. simpl. set_solver.
  - cbn [rowSetPlace]. set (t := Node l v r) in *.
    assert (Hm : rowSetEntryMerge (rowSetTreeToList t) p ≠ []).
    { destruct p as [|y p]; [done|]. intros E.
      assert (y ∈ rowSetEntryMerge (rowSetTreeToList t) (y :: p)) as H
        by (apply merge_elem; set_solver). rewrite E in H. set_solver. }
    specialize (IH _ Hm (merge_ascending _ _ (proj1 Ht) Hs)).
    destruct (rowSetPlace f _) as [f' remain]. destruct IH as [Hf' H].
    split; [constructor; [apply Null_ok|done]|]. destruct remain as [l'|].
    + destruct H as (H1&H2&H3&H4). split_and!; [done|done|..].
      * intros x. rewrite H3, merge_elem, in_forest_cons. tauto.
      * intros x. rewrite in_forest_cons. specialize (H4 x). simpl. set_solver.
    + intros x. rewrite !in_forest_cons, H, merge_elem. simpl. set_solver.
Qed.

(** ** What a RowSet promises *)

Definition visible (p : RowSet) (x : Z) : Prop := in_forest (pForest p) x.

(** The invariant until the first extraction. *)
Record rowset_ok (p : RowSet) : Prop := {
  ro_forest : Forall tree_ok (pForest p);
  ro_sorted : ROWSET_SORTED p = true → ascending (pEntry p);
  ro_size : Z.of_nat (length (pEntry p)) < 2 ^ 40;
  ro_next : ROWSET_NEXT p = false;
}.

Lemma init_ok N : rowset_ok (sqlite3RowSetInit N).
Proof. constructor; simpl; try done. constructor. Qed.

Lemma alloc_same p o :
  let '(ok, p', o') := rowSetEntryAlloc p o in
  pEntry p' = pEntry p ∧ pForest p' = pForest p ∧ ROWSET_SORTED p' = ROWSET_SORTED p ∧
  ROWSET_NEXT p' = ROWSET_NEXT p ∧ iBatch p' = iBatch p ∧ (o = [] → ok = true).
Proof.
  unfold rowSetEntryAlloc. destruct (nFresh p =? 0); [|done].
  destruct o as [|[] o]; simpl; split_and!; done.
Qed.

Lemma insert_spec p r o :
  rowset_ok p →
  let '(p', o') := sqlite3RowSetInsert p r o in
  (Z.of_nat (length (pEntry p)) < 2 ^ 40 - 1 → rowset_ok p') ∧
  pForest p' = pForest p ∧ iBatch p' = iBatch p ∧
  (pEntry p' = pEntry p ++ [r] ∨ p' = p) ∧ (o = [] → pEntry p' = pEntry p ++ [r]).
Proof.
  intros [Hf Hs Hl Hn]. unfold sqlite3RowSetInsert. pose proof (alloc_same p o) as H.
  destruct (rowSetEntryAlloc p o) as [[ok p'] o'] eqn:Ea. destruct H as (E1&E2&E3&E4&E5&Hok).
  destruct ok; simpl.
  - rewrite E1, E2, E3, E5. split_and!; [|tauto..]. intros Hlt.
    constructor; simpl; [done| |rewrite length_app; simpl; lia|congruence].
    rewrite last_lookup. destruct (pEntry p) as [|v l _] eqn:Ep using rev_ind; [repeat constructor|].
    rewrite length_app, Nat.add_comm. simpl. rewrite lookup_app_r, Nat.sub_diag by lia. simpl.
    destruct (ROWSET_SORTED p); simpl; [|done]. case_tests. intros _.
    specialize (Hs eq_refl). apply StronglySorted_app_iff. split_and!; [done|repeat constructor|].
    intros x y Hx Hy. apply list_elem_of_singleton in Hy as ->. apply StronglySorted_app_iff in Hs as (_&_&Hs).
    apply elem_of_app in Hx as [Hx|Hx]; [|apply list_elem_of_singleton in Hx as ->; lia].
    specialize (Hs x v Hx ltac:(set_solver)). lia.
  - assert (p' = p) as ->.
    { unfold rowSetEntryAlloc in Ea. destruct (nFresh p =? 0); [|done].
      destruct (malloc o) as [[] ?]; by simplify_eq/=. }
    split_and!; [done|done|done|tauto|]. intros E. by specialize (Hok E).
Qed.

(** The list of the entries, sorted. *)
Lemma sorted_entries p :
  rowset_ok p →
  ∃ l, (if ROWSET_SORTED p then Some (pEntry p) else rowSetEntrySort (pEntry p)) = Some l ∧
       ascending l ∧ ∀ x, x ∈ l ↔ x ∈ pEntry p.
Proof.
  intros [_ Hs Hl _]. destruct (ROWSET_SORTED p); [|by apply sort_spec].
  eexists. split_and!; [done|by apply Hs|done].
Qed.

Lemma batch_spec p o :
  rowset_ok p →
  ∃ p' o', rowSetBatch p o = Some (p', o') ∧ rowset_ok p' ∧ pEntry p' = [] ∧
    (∀ x, visible p' x → visible p x ∨ x ∈ pEntry p) ∧
    (o = [] → ∀ x, visible p' x ↔ visible p x ∨ x ∈ pEntry p).
Proof.
  intros Hok. unfold rowSetBatch, visible.
  destruct (pEntry p) as [|e l0] eqn:Ep.
  { exists p, o. split_and!; [done..| |]; set_solver. }
  destruct (sorted_entries p Hok) as (l&E&Hs&Hx). rewrite Ep in E, Hx. rewrite E.
  cbn [mbind option_bind].
  assert (l ≠ []) as Hne by (intros ->; specialize (Hx e); set_solver).
  destruct Hok as [Hf _ _ Hn]. pose proof (place_spec (pForest p) l Hne Hs Hf) as H.
  destruct (rowSetPlace (pForest p) l) as [f' [l'|]]; destruct H as [Hf' H].
  - destruct H as (Hl'&Hs'&Hx'&Hempty).
    match goal with |- context [rowSetEntryAlloc ?q o] => set (q0 := q);
      pose proof (alloc_same q0 o) as Ha; destruct (rowSetEntryAlloc q0 o) as [[ok q'] o'] end.
    destruct Ha as (E1&E2&E3&E4&E5&Hok). unfold q0 in *. simpl in *.
    destruct ok; eexists _, _; (split; [done|]); simpl; rewrite ?E2.
    + split_and!; [|done|..].
      * constructor; simpl; [apply Forall_app; split; [done|apply Forall_singleton; by apply listToTree_ok]
          |constructor|lia|congruence].
      * intros x. rewrite in_forest_app, in_forest_cons, in_listToTree, Hx', Hx by done.
        specialize (Hempty x). unfold in_forest at 2. set_solver.
      * intros _ x. rewrite in_forest_app, in_forest_cons, in_listToTree, Hx', Hx by done.
        specialize (Hempty x). unfold in_forest at 2. set_solver.
    + split_and!; [constructor; simpl; [done|constructor|lia|congruence]|done|..].
      * intros x H. by destruct (Hempty x).
      * intros Eo. by specialize (Hok Eo).
  - eexists _, _. split; [done|]. simpl. split_and!; [|done|..].
    + constructor; simpl; [done|constructor|lia|done].
    + intros x. rewrite H, Hx. tauto.
    + intros _ x. by rewrite H, Hx.
Qed.

(** Extract until there is no more. *)
Fixpoint drain (fuel : nat) (p : RowSet) : option (list Z) :=
  match fuel with
  | O => None
  | S fuel =>
      '(v, p) ← sqlite3RowSetNext p;
      match v with
      | None => Some []
      | Some v => cons v <$> drain fuel p
      end
  end.

Lemma drain_S fuel p :
  drain (S fuel) p = '(v, p) ← sqlite3RowSetNext p;
                     match v with None => Some [] | Some v => cons v <$> drain fuel p end.
Proof. done. Qed.

Lemma drain_sorted p l :
  ROWSET_NEXT p = true ∨ ROWSET_SORTED p = true → pEntry p = l → drain (S (length l)) p = Some l.
Proof.
  revert p. induction l as [|v l IH]; intros p Hf Hl; rewrite drain_S; cbn [length];
    unfold sqlite3RowSetNext, rowSetToList; rewrite Hl.
  - destruct Hf as [-> | ->]; [|destruct (ROWSET_NEXT p)]; cbn; by rewrite ?Hl.
  - assert (∃ q, (if ROWSET_NEXT p then Some p else
                    l ← (if ROWSET_SORTED p then Some (v :: l) else rowSetEntrySort (v :: l));
                    Some (mkRowSet (pChunk p) l (pForest p) (nFresh p) (ROWSET_SORTED p) true
                            (iBatch p))) = Some q ∧
                 pEntry q = v :: l ∧ ROWSET_NEXT q = true) as (q&->&Eq&Hq).
    { destruct (ROWSET_NEXT p) eqn:En; [by exists p|].
      destruct Hf as [?| ->]; [done|]. by eexists. }
    cbn [mbind option_bind]. rewrite Eq. destruct l as [|w l].
    + done.
    + cbn [mbind option_bind]. rewrite IH; [done|simpl; by left|done].
Qed.

Lemma exists_search f x :
  Forall tree_ok f → existsb (λ t, rowSetSearch t x) f = true ↔ in_forest f x.
Proof.
  intros Hf. unfold in_forest. rewrite existsb_exists. rewrite Forall_forall in Hf.
  split; intros (t&Ht&Hx); exists t.
  - apply list_elem_of_In in Ht. split; [done|]. by apply search_spec; [apply Hf|].
  - split; [by apply list_elem_of_In|]. by apply search_spec; [apply Hf|].
Qed.

(** C11. A RowSet is a set of identifiers with batches.  An insertion adds the
    identifier to the pending entries; a test with a new batch number makes the
    pending entries visible and one with the same number does not; it answers
    whether the identifier is visible, by searching trees of logarithmic depth,
    and never leaves the arrays; when memory runs out nothing becomes visible that
    was not inserted.  Extraction from a set that was never tested yields every
    entry once, in increasing order, and ends. *)
Theorem rowset_refines p batch r o :
  rowset_ok p →
  (let '(p', _) := sqlite3RowSetInsert p r o in
   (Z.of_nat (length (pEntry p)) < 2 ^ 40 - 1 → rowset_ok p') ∧
   (∀ x, visible p' x ↔ visible p x) ∧ (pEntry p' = pEntry p ++ [r] ∨ p' = p) ∧
   (o = [] → pEntry p' = pEntry p ++ [r])) ∧
  (∃ found p' o', sqlite3RowSetTest p batch r o = Some (found, p', o') ∧
   rowset_ok p' ∧ iBatch p' = batch ∧ (found = true ↔ visible p' r) ∧
   let newly x := batch ≠ iBatch p ∧ x ∈ pEntry p in
   (∀ x, visible p' x → visible p x ∨ newly x) ∧
   (o = [] → ∀ x, visible p' x ↔ visible p x ∨ newly x) ∧
   (pEntry p' = if batch =? iBatch p then pEntry p else [])) ∧
  (∃ l, drain (S (length l)) p = Some l ∧ ascending l ∧ ∀ x, x ∈ l ↔ x ∈ pEntry p).
Proof.
  intros Hok. split_and!.
  - pose proof (insert_spec p r o Hok) as H. destruct (sqlite3RowSetInsert p r o) as [p' o'].
    destruct H as (H1&H2&_&H3&H4). unfold visible. rewrite H2. done.
  - unfold sqlite3RowSetTest. destruct (Z.eqb_spec batch (iBatch p)) as [Eb|Eb].
    + eexists _, p, o. split; [done|]. split_and!; [done|done| |tauto|tauto|done].
      by apply exists_search, ro_forest.
    + destruct (batch_spec p o Hok) as (p'&o'&E&Hok'&Ep&Hv1&Hv2). rewrite E.
      cbn [mbind option_bind]. eexists _, _, o'. split; [done|].
      destruct Hok' as [Hf' ? ? ?].
      split_and!; [by constructor|done|by apply exists_search| | |exact Ep].
      * intros x Hx. destruct (Hv1 x Hx); auto.
      * intros Ho x. unfold visible in *. simpl. rewrite Hv2 by done. tauto.
  - destruct (sorted_entries p Hok) as (l&E&Hs&Hx). exists l. split; [|done].
    destruct Hok as [_ _ _ Hn]. destruct (ROWSET_SORTED p) eqn:Es.
    + injection E as <-. apply drain_sorted; auto.
    + pose (q := mkRowSet (pChunk p) l (pForest p) (nFresh p) false true (iBatch p)).
      rewrite <- (drain_sorted q l) by (done || by left). rewrite !drain_S.
      unfold sqlite3RowSetNext, rowSetToList. by rewrite Hn, Es, E.
Qed.

Lemma rowset_refines_witness :
  let p := mkRowSet 0 [7; 3; 7] [] 3 false false 0 in
  rowset_ok p ∧ ∃ l, drain (S (length l)) p = Some l ∧ ascending l ∧ ∀ x, x ∈ l ↔ x ∈ [7; 3; 7].
Proof.
  intros p. assert (rowset_ok p) as Hok by (constructor; simpl; [constructor|done|lia|done]).
  exact (conj Hok (proj2 (proj2 (rowset_refines p 1 3 [] Hok)))).
Defined.
