(* ===== verification/SqlHash.v ===== *)
(** * Hash tables of names

    Models hash.c of src/org.glite.wms.ice/src/iceDb/sqlite/sqlite3.c: the elements
    are nodes of a heap on one doubly-linked list, and a bucket is a pointer into
    that list and a count.  Keys are compared without regard to case. *)

From S2P Require Import Prelude.
From S2P Require Import Machine.
From S2P Require Import SqlUtil.

(** ** Data *)

(** [HashElem]; pointers are addresses in the heap, [None] the null pointer; a key
    is its [nKey] bytes, and the data pointer is a number, 0 when it is null. *)
Record HashElem := mkElem {
  next : option nat;
  prev : option nat;
  data : Z;
  pKey : list Z;
}.

(** [struct _ht] *)
Record bucket := mkBucket { b_count : Z; chain : option nat }.

(** [Hash], with the heap that holds its elements; a null [ht] is [None]. *)
Record Hash := mkHash {
  htsize : Z;
  count : Z;
  first : option nat;
  ht : option (list bucket);
  heap : gmap nat HashElem;
}.

Definition set_heap (m : gmap nat HashElem) (H : Hash) : Hash :=
  mkHash (htsize H) (count H) (first H) (ht H) m.
Definition set_first (p : option nat) (H : Hash) : Hash :=
  mkHash (htsize H) (count H) p (ht H) (heap H).
Definition set_ht (t : option (list bucket)) (H : Hash) : Hash :=
  mkHash (htsize H) (count H) (first H) t (heap H).
Definition set_count (c : Z) (H : Hash) : Hash :=
  mkHash (htsize H) c (first H) (ht H) (heap H).

Definition with_next (n : option nat) (e : HashElem) : HashElem :=
  mkElem n (prev e) (data e) (pKey e).
Definition with_prev (n : option nat) (e : HashElem) : HashElem :=
  mkElem (next e) n (data e) (pKey e).

(** [p->next = n] and [p->prev = n] for a pointer that is not null. *)
Definition write_next (p : option nat) (n : option nat) (m : gmap nat HashElem)
    : gmap nat HashElem :=
  match p with Some p => alter (with_next n) p m | None => m end.
Definition write_prev (p : option nat) (n : option nat) (m : gmap nat HashElem)
    : gmap nat HashElem :=
  match p with Some p => alter (with_prev n) p m | None => m end.

(** ** Operations *)

(** [sqlite3HashInit] *)
Definition sqlite3HashInit : Hash := mkHash 0 0 None None ∅.

(** [sqlite3HashClear] frees the elements by following the list; a list as long as
    the heap is followed to its end. *)
Fixpoint free_elems (fuel : nat) (elem : option nat) (m : gmap nat HashElem)
    : gmap nat HashElem :=
  match fuel, elem with
  | S fuel, Some p =>
      match m !! p with
      | Some e => free_elems fuel (next e) (delete p m)
      | None => m
      end
  | _, _ => m
  end.
Definition sqlite3HashClear (H : Hash) : Hash :=
  mkHash 0 0 None None (free_elems (size (heap H)) (first H) (heap H)).

(** [strHash], in 32 bits *)
Definition strHash (z : list Z) : Z :=
  foldl (λ h c, u32 (Z.lxor (Z.lxor (Z.shiftl h 3) h) (UpperToLower c))) 0 z.

(** [insertElement] of the element at [new] in bucket [h], or in no bucket. *)
Definition insertElement (H : Hash) (h : option Z) (new : nat) : Hash :=
  let '(pHead, H) :=
    match h, ht H with
    | Some h, Some t =>
        match t !! Z.to_nat h with
        | Some b => (if b_count b =? 0 then None else chain b,
                     set_ht (Some (<[Z.to_nat h := mkBucket (b_count b + 1) (Some new)]> t)) H)
        | None => (None, H)
        end
    | _, _ => (None, H)
    end in
  match pHead with
  | Some p =>
      match heap H !! p with
      | Some e =>
          let m := alter (λ n, mkElem (Some p) (prev e) (data n) (pKey n)) new (heap H) in
          let m := write_next (prev e) (Some new) m in
          let first := match prev e with Some _ => first H | None => Some new end in
          set_first first (set_heap (write_prev (Some p) (Some new) m) H)
      | None => H
      end
  | None =>
      let m := alter (with_next (first H)) new (heap H) in
      let m := write_prev (first H) (Some new) m in
      set_first (Some new) (set_heap (write_prev (Some new) None m) H)
  end.

(** Allocations: the answers to come, [None] a failure and [Some n] the number of
    spare buckets the allocator adds to the size asked for; when they are used up
    there is memory and no spare. *)
Definition hmalloc (o : list (option Z)) : option Z * list (option Z) :=
  match o with [] => (Some 0, []) | r :: o => (r, o) end.

Definition SQLITE_MALLOC_SOFT_LIMIT : Z := 1024.
(** [sizeof(struct _ht)] *)
Definition sizeof_ht : Z := 16.

(** The loop of [rehash] that puts every element in its bucket. *)
Fixpoint rehash_loop (fuel : nat) (H : Hash) (elem : option nat) : Hash :=
  match fuel, elem with
  | S fuel, Some p =>
      match heap H !! p with
      | Some e =>
          rehash_loop fuel (insertElement H (Some (strHash (pKey e) mod htsize H)) p) (next e)
      | None => H
      end
  | _, _ => H
  end.

(** [rehash] *)
Definition rehash (H : Hash) (new_size : Z) (o : list (option Z)) : bool * Hash * list (option Z) :=
  let new_size := if SQLITE_MALLOC_SOFT_LIMIT <? new_size * sizeof_ht
                  then SQLITE_MALLOC_SOFT_LIMIT / sizeof_ht else new_size in
  if new_size =? htsize H then (false, H, o) else
  let '(r, o) := hmalloc o in
  match r with
  | None => (false, H, o)
  | Some spare =>
      let new_size := new_size + Z.max 0 spare in
      let H' := mkHash new_size (count H) None
                  (Some (replicate (Z.to_nat new_size) (mkBucket 0 None))) (heap H) in
      (true, rehash_loop (size (heap H)) H' (first H), o)
  end.

(** [findElementGivenHash]: the loop over the elements left to test. The names are C strings
    without their terminator: the comparison of the source would stop at a null character,
    and there is none within a name. *)
Fixpoint find_loop (c : nat) (m : gmap nat HashElem) (elem : option nat) (key : list Z)
    : option nat :=
  match c with
  | O => None
  | S c =>
      match elem with
      | None => None
      | Some p =>
          match m !! p with
          | None => None
          | Some e =>
              if (Z.of_nat (length (pKey e)) =? Z.of_nat (length key))
                 && (sqlite3_strnicmp (pKey e) key (Z.of_nat (length key)) =? 0)
              then Some p else find_loop c m (next e) key
          end
      end
  end.
Definition findElementGivenHash (H : Hash) (key : list Z) (h : Z) : option nat :=
  match ht H with
  | Some t =>
      match t !! Z.to_nat h with
      | Some b => find_loop (Z.to_nat (b_count b)) (heap H) (chain b) key
      | None => None
      end
  | None => find_loop (Z.to_nat (count H)) (heap H) (first H) key
  end.

(** [removeElementGivenHash] *)
Definition removeElementGivenHash (H : Hash) (elem : nat) (h : Z) : Hash :=
  match heap H !! elem with
  | None => H
  | Some e =>
      let m := write_next (prev e) (next e) (heap H) in
      let first := match prev e with Some _ => first H | None => next e end in
      let m := write_prev (next e) (prev e) m in
      let t := match ht H with
               | Some t =>
                   Some (alter (λ b, mkBucket (b_count b - 1)
                           (if bool_decide (chain b = Some elem) then next e else chain b))
                           (Z.to_nat h) t)
               | None => None
               end in
      let H := mkHash (htsize H) (count H - 1) first t (delete elem m) in
      if count H =? 0 then sqlite3HashClear H else H
  end.

Definition hash_slot (H : Hash) (key : list Z) : Z :=
  match ht H with Some _ => strHash key mod htsize H | None => 0 end.

(** [sqlite3HashFind] *)
Definition sqlite3HashFind (H : Hash) (key : list Z) : Z :=
  match findElementGivenHash H key (hash_slot H key) with
  | Some p => match heap H !! p with Some e => data e | None => 0 end
  | None => 0
  end.

(** The part of [sqlite3HashInsert] that makes a new element. *)
Definition insert_new (H : Hash) (key : list Z) (d : Z) (o : list (option Z))
    : Z * Hash * list (option Z) :=
  let '(r, o) := hmalloc o in
  match r with
  | None => (d, H, o)
  | Some _ =>
      let new := fresh (dom (heap H)) in
      let H := set_count (count H + 1)
                 (set_heap (<[new := mkElem None None d key]> (heap H)) H) in
      let '(H, o) :=
        if (10 <=? count H) && (2 * htsize H <? count H) then
          let '(_, H, o) := rehash H (count H * 2) o in (H, o)
        else (H, o) in
      (0, insertElement H (match ht H with Some _ => Some (hash_slot H key) | None => None end) new,
       o)
  end.

(** [sqlite3HashInsert]: the data that is returned, and the table. *)
Definition sqlite3HashInsert (H : Hash) (key : list Z) (d : Z) (o : list (option Z))
    : Z * Hash * list (option Z) :=
  let h := hash_slot H key in
  match findElementGivenHash H key h with
  | Some p =>
      match heap H !! p with
      | Some e =>
          (data e,
           if d =? 0 then removeElementGivenHash H p h
           else set_heap (<[p := mkElem (next e) (prev e) d key]> (heap H)) H, o)
      | None => (0, H, o)
      end
  | None => if d =? 0 then (0, H, o) else insert_new H key d o
  end.

Example hash_sample :
  let ins H k d := (sqlite3HashInsert H (bytes_of k) d []).1.2 in
  let H := ins (ins (ins sqlite3HashInit "abc" 1) "def" 2) "ABC" 3 in
  sqlite3HashFind H (bytes_of "aBc") = 3 ∧ sqlite3HashFind H (bytes_of "def") = 2 ∧
  count H = 2 ∧ count (ins (ins H "DEF" 0) "abc" 0) = 0.
Proof. vm_compute. done. Qed.

Definition many : Hash :=
  foldl (λ H i, (sqlite3HashInsert H [97 + i `div` 26; 97 + i `mod` 26] (i + 1) []).1.2)
    sqlite3HashInit (seqZ 0 60).
Example hash_sample_many :
  htsize many = 64 ∧ forallb (λ i, sqlite3HashFind many [97 + i `div` 26; 65 + i `mod` 26] =? i + 1)
                       (seqZ 0 60) = true.
Proof. vm_compute. done. Qed.

(** ** The doubly-linked list *)

(** The nodes [l] are linked from [p] (before the first) to [n] (after the last). *)
Fixpoint lseg (m : gmap nat HashElem) (p : option nat) (l : list nat) (n : option nat) : Prop :=
  match l with
  | [] => True
  | x :: r => ∃ e, m !! x = Some e ∧ prev e = p ∧ next e = from_option Some n (head r) ∧
                   lseg m (Some x) r n
  end.

Definition or_else (a b : option nat) : option nat := from_option Some b a.

Lemma lseg_app m p l1 l2 n :
  lseg m p (l1 ++ l2) n ↔ lseg m p l1 (or_else (head l2) n) ∧ lseg m (or_else (last l1) p) l2 n.
Proof.
  revert p. induction l1 as [|x l1 IH]; intros p; [simpl; tauto|].
  cbn [app lseg]. setoid_rewrite IH.
  assert (or_else (last (x :: l1)) p = or_else (last l1) (Some x)) as ->.
  { destruct l1 as [|y l1]; [done|]. rewrite last_cons. unfold or_else.
    destruct (last (y :: l1)) eqn:E; [done|]. by apply last_None in E. }
  assert (from_option Some n (head (l1 ++ l2)) = from_option Some (or_else (head l2) n) (head l1)) as ->
    by (by destruct l1).
  naive_solver.
Qed.

Lemma lseg_frame m m' p l n : (∀ x, x ∈ l → m' !! x = m !! x) → lseg m p l n → lseg m' p l n.
Proof.
  revert p. induction l as [|x l IH]; intros p H; [done|]. intros (e&Hx&Hp&Hn&Hl).
  exists e. rewrite H by set_solver. split_and!; [done..|]. apply IH; [set_solver|done].
Qed.

Lemma write_next_other q n m x : q ≠ Some x → write_next q n m !! x = m !! x.
Proof. intros H. destruct q as [q|]; [|done]. simpl. apply lookup_alter_ne. congruence. Qed.
Lemma write_prev_other q n m x : q ≠ Some x → write_prev q n m !! x = m !! x.
Proof. intros H. destruct q as [q|]; [|done]. simpl. apply lookup_alter_ne. congruence. Qed.

(** Another successor for the last node, another predecessor for the first. *)
Lemma lseg_write_next m p l n n' :
  NoDup l → lseg m p l n → lseg (write_next (last l) n' m) p l n'.
Proof.
  intros Hd H. destruct l as [|z l _] using rev_ind; [done|]. rewrite last_snoc.
  apply NoDup_app in Hd as (Hd&Hz&_). apply lseg_app in H as [H1 H2]. apply lseg_app. split.
  - eapply lseg_frame; [|exact H1]. intros x Hx. apply write_next_other. intros [= ->].
    apply (Hz x Hx). set_solver.
  - destruct H2 as (e&He&Hp&Hn&_). exists (with_next n' e). simpl.
    by rewrite lookup_alter_eq, He.
Qed.

Lemma lseg_write_prev m p l n p' :
  NoDup l → lseg m p l n → lseg (write_prev (head l) p' m) p' l n.
Proof.
  destruct l as [|z l]; [done|]. intros [Hz Hd]%NoDup_cons (e&He&Hp&Hn&Hl).
  exists (with_prev p' e). simpl. rewrite lookup_alter_eq, He. split_and!; [done..|].
  eapply lseg_frame; [|exact Hl]. intros x Hx. apply lookup_alter_ne. by intros ->.
Qed.

Lemma lseg_lookup m p l n x : lseg m p l n → x ∈ l → ∃ e, m !! x = Some e.
Proof.
  revert p. induction l as [|y l IH]; intros p; [set_solver|].
  intros (e&He&_&_&H) [->|Hx]%elem_of_cons; [by exists e|by eapply IH].
Qed.

(** Insertion before a node. *)
Lemma lseg_insert m l1 y l2 new e0 e :
  NoDup (l1 ++ y :: l2) → new ∉ l1 ++ y :: l2 → m !! new = Some e0 → m !! y = Some e →
  lseg m None (l1 ++ y :: l2) None →
  prev e = last l1 ∧
  lseg (write_prev (Some y) (Some new) (write_next (prev e) (Some new)
         (alter (λ n, mkElem (Some y) (prev e) (data n) (pKey n)) new m)))
    None (l1 ++ new :: y :: l2) None.
Proof.
  intros Hd Hnew He0 He H. apply lseg_app in H as [H1 H2].
  assert (or_else (last l1) None = last l1) as E by (by destruct (last l1)). rewrite E in H2.
  assert (prev e = last l1) as Hp by (destruct H2 as (e'&He'&Hp&_); congruence).
  split; [done|]. rewrite Hp. apply NoDup_app in Hd as (Hd1&Hdis&Hd2).
  assert (Hl1 : last l1 ≠ Some new)
    by (intros Hl; apply last_Some_elem_of in Hl; set_solver).
  assert (Hl2 : ∀ x, x ∈ y :: l2 → last l1 ≠ Some x)
    by (intros x Hx Hl; apply last_Some_elem_of in Hl; by apply (Hdis x)).
  set (m1 := alter (λ n, mkElem (Some y) (last l1) (data n) (pKey n)) new m).
  assert (Hm1 : ∀ x, x ≠ new → m1 !! x = m !! x) by (intros x Hx; by apply lookup_alter_ne).
  apply lseg_app. rewrite E. split.
  - eapply lseg_frame; [|eapply lseg_write_next; [exact Hd1|]].
    { intros x Hx. apply write_prev_other. intros [= ->]. apply (Hdis x Hx). set_solver. }
    eapply lseg_frame; [|exact H1]. intros x Hx. apply Hm1. set_solver.
  - exists (mkElem (Some y) (last l1) (data e0) (pKey e0)).
    rewrite write_prev_other, write_next_other by (done || set_solver).
    split; [unfold m1; by rewrite lookup_alter_eq, He0|]. split_and!; [done..|].
    apply (lseg_write_prev _ (last l1) (y :: l2)); [done|].
    eapply lseg_frame; [|exact H2]. intros x Hx.
    rewrite write_next_other by (by apply Hl2). apply Hm1. set_solver.
Qed.

(** Insertion at the head. *)
Lemma lseg_push m l new e0 :
  NoDup l → new ∉ l → m !! new = Some e0 → lseg m None l None →
  lseg (write_prev (Some new) None (write_prev (head l) (Some new)
         (alter (with_next (head l)) new m))) None (new :: l) None.
Proof.
  intros Hd Hnew He0 H.
  assert (Hh : head l ≠ Some new) by (destruct l; simpl; set_solver).
  exists (mkElem (head l) None (data e0) (pKey e0)). split_and!; [|done|by destruct l|].
  - simpl. rewrite lookup_alter_eq, write_prev_other, lookup_alter_eq, He0 by done. done.
  - eapply lseg_frame; [|apply (lseg_write_prev (alter (with_next (head l)) new m) None l None (Some new)); [done|]].
    { intros x Hx. apply write_prev_other. set_solver. }
    eapply lseg_frame; [|exact H]. intros x Hx. apply lookup_alter_ne. set_solver.
Qed.

(** Removal. *)
Lemma lseg_remove m l1 x l2 e :
  NoDup (l1 ++ x :: l2) → m !! x = Some e → lseg m None (l1 ++ x :: l2) None →
  prev e = last l1 ∧ next e = head l2 ∧
  lseg (delete x (write_prev (next e) (prev e) (write_next (prev e) (next e) m)))
    None (l1 ++ l2) None.
Proof.
  intros Hd He H. apply lseg_app in H as [H1 (e'&He'&Hp&Hn&H2)].
  assert (∀ o : option nat, or_else o None = o) as E by (by intros []).
  unfold or_else in E. assert (e' = e) as -> by congruence.
  unfold or_else in Hp. rewrite E in Hp, Hn. rewrite Hp, Hn. split_and!; [done..|].
  apply NoDup_app in Hd as (Hd1&Hdis&[Hx2 Hd2]%NoDup_cons).
  apply lseg_app. unfold or_else in *. rewrite !E. split.
  - eapply lseg_frame; [|eapply lseg_write_next; [exact Hd1|exact H1]].
    intros z Hz. specialize (Hdis z Hz). rewrite lookup_delete_ne by set_solver.
    apply write_prev_other. intros Hh. apply head_Some_elem_of in Hh. set_solver.
  - eapply lseg_frame; [|apply (lseg_write_prev (write_next (last l1) (head l2) m)
                                  (Some x) l2 None (last l1)); [done|]].
    { intros z Hz. rewrite lookup_delete_ne by set_solver. done. }
    eapply lseg_frame; [|exact H2]. intros z Hz. apply write_next_other.
    intros Hl. apply last_Some_elem_of in Hl. specialize (Hdis z Hl). set_solver.
Qed.

(** ** What the list operations keep: keys and data *)

Definition payload (m : gmap nat HashElem) : gmap nat (Z * list Z) :=
  (λ e, (data e, pKey e)) <$> m.

Lemma payload_alter f p m :
  (∀ e, data (f e) = data e ∧ pKey (f e) = pKey e) → payload (alter f p m) = payload m.
Proof.
  intros Hf. apply map_eq. intros q. unfold payload. rewrite !lookup_fmap.
  destruct (decide (p = q)) as [->|]; [|by rewrite lookup_alter_ne].
  rewrite lookup_alter_eq. destruct (m !! q) as [e|]; simpl; [|done].
  destruct (Hf e) as [-> ->]. done.
Qed.

Lemma payload_write_next q n m : payload (write_next q n m) = payload m.
Proof. destruct q; [by apply payload_alter|done]. Qed.
Lemma payload_write_prev q n m : payload (write_prev q n m) = payload m.
Proof. destruct q; [by apply payload_alter|done]. Qed.

Lemma payload_lookup m m' p e :
  payload m = payload m' → m !! p = Some e →
  ∃ e', m' !! p = Some e' ∧ data e' = data e ∧ pKey e' = pKey e.
Proof.
  intros H He. assert (payload m' !! p = Some (data e, pKey e)) as Hp
    by (rewrite <- H; unfold payload; by rewrite lookup_fmap, He).
  unfold payload in Hp. rewrite lookup_fmap in Hp. destruct (m' !! p) as [e'|]; [|done].
  injection Hp as H1 H2. by exists e'.
Qed.

(** ** Buckets are contiguous *)

Section Contiguous.
Context (f : nat → Z).

(** No more elements of slot [h]; only in a run from here on; in one run. *)
Definition none_of (h : Z) (l : list nat) : Prop := Forall (λ x, f x ≠ h) l.
Fixpoint run_of (h : Z) (l : list nat) : Prop :=
  match l with
  | [] => True
  | x :: r => if f x =? h then run_of h r else none_of h r
  end.
Fixpoint contiguous (h : Z) (l : list nat) : Prop :=
  match l with
  | [] => True
  | x :: r => if f x =? h then run_of h r else contiguous h r
  end.

Definition of_slot (h : Z) (l : list nat) : list nat := List.filter (λ x, f x =? h) l.

(** Before the first element of slot [h]; at the head if there is none. *)
Fixpoint before_first (h : Z) (new : nat) (l : list nat) : list nat :=
  match l with
  | [] => []
  | x :: r => if f x =? h then new :: l else x :: before_first h new r
  end.
Definition place (h : Z) (new : nat) (l : list nat) : list nat :=
  match of_slot h l with [] => new :: l | _ => before_first h new l end.

Lemma none_contiguous h l : none_of h l → contiguous h l.
Proof.
  induction l as [|x l IH]; simpl; [done|]. intros [Hx Hl]%Forall_cons.
  case_tests. by apply IH.
Qed.

Lemma run_contiguous h l : run_of h l → contiguous h l.
Proof. destruct l as [|x l]; simpl; [done|]. case_tests; [done|]. apply none_contiguous. Qed.

Lemma of_slot_none h l : of_slot h l = [] ↔ none_of h l.
Proof.
  unfold of_slot, none_of. induction l as [|x l IH]; simpl; [split; [constructor|done]|].
  rewrite Forall_cons. case_tests; [split; [done|tauto]|]. rewrite IH. tauto.
Qed.

Lemma run_split h l :
  run_of h l → ∃ l2, l = of_slot h l ++ l2.
Proof.
  unfold of_slot. induction l as [|x l IH]; simpl; [by exists []|]. case_tests.
  - intros (l2&Hl)%IH. exists l2. simpl. by f_equal.
  - intros Hn. apply of_slot_none in Hn. unfold of_slot in Hn. rewrite Hn. by eexists.
Qed.

(** A contiguous slot is a segment of the list. *)
Lemma contiguous_split h l :
  contiguous h l → ∃ l1 l2, l = l1 ++ of_slot h l ++ l2 ∧ none_of h l1.
Proof.
  unfold of_slot. induction l as [|x l IH]; simpl; [exists [], []; split; [done|constructor]|].
  case_tests.
  - intros (l2&Hl)%run_split. exists [], l2. simpl. split; [by f_equal|constructor].
  - intros (l1&l2&Hl&Hn)%IH. exists (x :: l1), l2. simpl. split; [by f_equal|by constructor].
Qed.

Lemma before_first_split h new l :
  of_slot h l ≠ [] →
  ∃ l1 y l2, l = l1 ++ y :: l2 ∧ f y = h ∧ none_of h l1 ∧
             before_first h new l = l1 ++ new :: y :: l2.
Proof.
  unfold of_slot. induction l as [|x l IH]; simpl; [done|]. case_tests.
  - intros _. exists [], x, l. split_and!; [done..|constructor|done].
  - intros (l1&y&l2&->&Hy&Hn&->)%IH. exists (x :: l1), y, l2.
    split_and!; [done..|by constructor|done].
Qed.

Lemma place_Permutation h new l : place h new l ≡ₚ new :: l.
Proof.
  unfold place. destruct (of_slot h l) as [|z zs] eqn:E; [done|].
  destruct (before_first_split h new l) as (l1&y&l2&->&_&_&->); [by rewrite E|].
  by rewrite <- Permutation_middle.
Qed.

Context (h : Z) (new : nat) (Hnew : f new = h).

Lemma none_of_before h' l : h' ≠ h → none_of h' (before_first h new l) ↔ none_of h' l.
Proof.
  intros Hh. unfold none_of. induction l as [|x l IH]; simpl; [done|].
  case_tests; rewrite !Forall_cons; [rewrite Hnew; naive_solver|by rewrite IH].
Qed.

Lemma run_of_before h' l : h' ≠ h → run_of h' l → run_of h' (before_first h new l).
Proof.
  intros Hh. induction l as [|x l IH]; simpl; [done|].
  destruct (Z.eqb_spec (f x) h) as [Hx|Hx]; cbn [run_of].
  - rewrite Hnew. destruct (Z.eqb_spec (f x) h'); [congruence|].
    destruct (Z.eqb_spec h h'); [congruence|]. intros H. by constructor.
  - case_tests; [exact IH|]. by apply none_of_before.
Qed.

Lemma contiguous_before h' l : contiguous h' l → contiguous h' (before_first h new l).
Proof.
  induction l as [|x l IH]; simpl; [done|].
  destruct (Z.eqb_spec (f x) h) as [Hx|Hx]; cbn [contiguous].
  - rewrite Hnew. case_tests; cbn [run_of contiguous]; case_tests; done.
  - case_tests; [|exact IH]. apply run_of_before. congruence.
Qed.

Lemma contiguous_place h' l : contiguous h' l → contiguous h' (place h new l).
Proof.
  intros H. unfold place. destruct (of_slot h l) eqn:E; [|by apply contiguous_before].
  cbn [contiguous]. rewrite Hnew. case_tests; [|done]. subst h'.
  apply of_slot_none in E. destruct l as [|x l]; [done|]. apply Forall_cons in E as [Hx Hl].
  cbn [run_of]. by case_tests.
Qed.

(** The first element of every slot after the insertion. *)
Lemma of_slot_place h' l :
  head (of_slot h' (place h new l)) = if h' =? h then Some new else head (of_slot h' l).
Proof.
  unfold place, of_slot. destruct (List.filter (λ x, f x =? h) l) as [|z zs] eqn:Es.
  - simpl. rewrite Hnew, (Z.eqb_sym h h'). by destruct (h' =? h).
  - destruct (before_first_split h new l) as (l1&y&l2&->&Hy&Hn&->); [by unfold of_slot; rewrite Es|].
    rewrite !List.filter_app. simpl. rewrite Hnew, Hy, (Z.eqb_sym h h').
    destruct (Z.eqb_spec h' h) as [->|Hh]; [|done].
    apply of_slot_none in Hn. unfold of_slot in Hn. by rewrite Hn.
Qed.
End Contiguous.

Lemma of_slot_length f h l l' : l ≡ₚ l' → length (of_slot f h l) = length (of_slot f h l').
Proof.
  unfold of_slot. induction 1; simpl; repeat case_match; simpl; try done; congruence.
Qed.

Lemma of_slot_app f h l1 l2 : of_slot f h (l1 ++ l2) = of_slot f h l1 ++ of_slot f h l2.
Proof. apply List.filter_app. Qed.

(** Removal keeps the slots contiguous. *)
Lemma none_of_remove f h l1 x l2 : none_of f h (l1 ++ x :: l2) → none_of f h (l1 ++ l2).
Proof. unfold none_of. rewrite !Forall_app, Forall_cons. tauto. Qed.

Lemma run_of_remove f h l1 x l2 : run_of f h (l1 ++ x :: l2) → run_of f h (l1 ++ l2).
Proof.
  induction l1 as [|y l1 IH]; simpl.
  - case_test; [done|]. destruct l2 as [|z l2]; [done|]. intros [Hz Hl]%Forall_cons.
    cbn [run_of]. by case_tests.
  - case_test; [exact IH|]. apply none_of_remove.
Qed.

Lemma contiguous_remove f h l1 x l2 : contiguous f h (l1 ++ x :: l2) → contiguous f h (l1 ++ l2).
Proof.
  induction l1 as [|y l1 IH]; simpl.
  - case_test; [apply run_contiguous|done].
  - case_test; [apply run_of_remove|exact IH].
Qed.

(** The element after the first one of a slot is of the slot, or the slot is over. *)
Lemma contiguous_next f h l1 x l2 :
  contiguous f h (l1 ++ x :: l2) → f x = h → none_of f h l1 →
  of_slot f h l2 = [] ∨ head (of_slot f h l2) = head l2.
Proof.
  intros Hc Hx Hn. induction l1 as [|y l1 IH]; simpl in Hc.
  - rewrite Hx, Z.eqb_refl in Hc. destruct l2 as [|z l2]; [by left|]. cbn [run_of] in Hc.
    unfold of_slot. simpl. destruct (f z =? h) eqn:E; [by right|].
    left. by apply of_slot_none in Hc.
  - apply Forall_cons in Hn as [Hy Hn]. destruct (Z.eqb_spec (f y) h); [done|]. by apply IH.
Qed.

(** ** Searching *)

Definition lower (key : list Z) : list Z := map UpperToLower key.

Lemma strnicmp_lower a b :
  length a = length b → strnicmp_loop a b (length b) = 0 ↔ lower a = lower b.
Proof.
  revert b. induction a as [|x a IH]; intros [|y b] Hl; try done. injection Hl as Hl.
  simpl. unfold at_; simpl. case_tests.
  - rewrite IH by done. unfold lower. simpl. rewrite E. split; [by intros ->|by intros [= ->]].
  - split; [lia|]. by intros [= H1 H2].
Qed.

Lemma strHash_lower a b : lower a = lower b → strHash a = strHash b.
Proof.
  unfold strHash, lower. generalize 0 at 1 2. revert b.
  induction a as [|x a IH]; intros [|y b] z; try done. intros [= H1 H2]. simpl.
  rewrite H1. by apply IH.
Qed.

Definition matches (m : gmap nat HashElem) (key : list Z) (p : nat) : bool :=
  match m !! p with Some e => bool_decide (lower (pKey e) = lower key) | None => false end.

Lemma find_test e key :
  (Z.of_nat (length (pKey e)) =? Z.of_nat (length key))
  && (sqlite3_strnicmp (pKey e) key (Z.of_nat (length key)) =? 0)
  = bool_decide (lower (pKey e) = lower key).
Proof.
  apply eq_true_iff_eq. rewrite andb_true_iff, !Z.eqb_eq, bool_decide_eq_true.
  unfold sqlite3_strnicmp. rewrite Nat2Z.id. split.
  - intros [H1 H2]. apply strnicmp_lower; [lia|done].
  - intros H. assert (length (pKey e) = length key) as Hl
      by (apply (f_equal length) in H; unfold lower in H; by rewrite !length_map in H).
    split; [lia|by apply strnicmp_lower].
Qed.

Lemma find_loop_spec m p s r n elem key :
  lseg m p (s ++ r) n → s = [] ∨ elem = head s →
  find_loop (length s) m elem key = List.find (matches m key) s.
Proof.
  revert p elem. induction s as [|x s IH]; intros p elem; [done|].
  cbn [app lseg length find_loop List.find]. intros (e&He&_&Hn&Hl) [?| ->]; [done|]. simpl.
  rewrite He, find_test. unfold matches at 1. rewrite He. case_bool_decide; [done|].
  apply (IH (Some x)); [done|]. destruct s as [|y s]; [by left|right]. by rewrite Hn.
Qed.

(** ** The invariant of the table *)

(** The slot of an element in a table of [n] buckets. *)
Definition slot_of (m : gmap nat HashElem) (n : Z) (p : nat) : Z :=
  match payload m !! p with Some (_, k) => strHash k mod n | None => 0 end.

Definition bucket_ok (f : nat → Z) (l : list nat) (h : Z) (b : bucket) : Prop :=
  b_count b = Z.of_nat (length (of_slot f h l)) ∧ contiguous f h l ∧
  (of_slot f h l ≠ [] → chain b = head (of_slot f h l)).

Definition buckets_ok (f : nat → Z) (l : list nat) (n : Z) (t : option (list bucket)) : Prop :=
  match t with
  | None => n = 0
  | Some t => 0 < n ∧ length t = Z.to_nat n ∧
              ∀ h b, 0 ≤ h < n → t !! Z.to_nat h = Some b → bucket_ok f l h b
  end.

(** The elements [l] are on the list and in their buckets. *)
Record table_ok (H : Hash) (l : list nat) : Prop := {
  tk_list : lseg (heap H) None l None;
  tk_first : first H = head l;
  tk_nodup : NoDup l;
  tk_buckets : buckets_ok (slot_of (heap H) (htsize H)) l (htsize H) (ht H);
}.

Lemma hash_slot_range m n p : 0 < n → 0 ≤ slot_of m n p < n.
Proof.
  intros Hn. unfold slot_of. destruct (payload m !! p) as [[d k]|]; [|lia].
  apply Z.mod_pos_bound. lia.
Qed.

(** The buckets after an element is put at its place. *)
Lemma buckets_place f l n t b new :
  buckets_ok f l n (Some t) → 0 ≤ f new < n → t !! Z.to_nat (f new) = Some b →
  buckets_ok f (place f (f new) new l) n
    (Some (<[Z.to_nat (f new) := mkBucket (b_count b + 1) (Some new)]> t)).
Proof.
  intros (Hn&Hlen&Hb) Hr Ht. split_and!; [done|by rewrite length_insert|].
  intros h b' Hh Hb'. pose proof (of_slot_place f (f new) new eq_refl h l) as Hhd.
  assert (Hlen' : length (of_slot f h (place f (f new) new l))
                  = length (of_slot f h (new :: l)))
    by (apply of_slot_length, place_Permutation).
  unfold of_slot at 2 in Hlen'. simpl in Hlen'.
  destruct (decide (h = f new)) as [->|Hne].
  - rewrite list_lookup_insert_eq in Hb' by (apply lookup_lt_Some in Ht; lia).
    injection Hb' as <-. destruct (Hb _ _ Hh Ht) as (H1&H2&H3). simpl.
    rewrite Z.eqb_refl in Hlen', Hhd. simpl in Hlen'. split_and!; simpl.
    + rewrite Hlen', H1. unfold of_slot. lia.
    + by apply contiguous_place.
    + intros _. by rewrite Hhd.
  - rewrite list_lookup_insert_ne in Hb' by lia.
    destruct (Hb _ _ Hh Hb') as (H1&H2&H3).
    rewrite (proj2 (Z.eqb_neq (f new) h)) in Hlen' by done.
    rewrite (proj2 (Z.eqb_neq h (f new))) in Hhd by done. split_and!.
    + by rewrite Hlen', H1.
    + by apply contiguous_place.
    + intros Hs. rewrite Hhd. apply H3. intros E. apply Hs.
      apply length_zero_iff_nil. rewrite Hlen'. unfold of_slot in E. by rewrite E.
Qed.

Lemma slot_of_payload m m' n : payload m = payload m' → slot_of m n = slot_of m' n.
Proof. intros E. unfold slot_of. by rewrite E. Qed.

(** What [insertElement] changes. *)
Record inserted (H : Hash) (l : list nat) (new : nat) (H' : Hash) : Prop := {
  in_table : ∃ l', table_ok H' l' ∧ l' ≡ₚ new :: l;
  in_payload : payload (heap H') = payload (heap H);
  in_size : htsize H' = htsize H ∧ count H' = count H ∧ (is_Some (ht H') ↔ is_Some (ht H));
  in_others : ∀ p, p ≠ new → p ∉ l → heap H' !! p = heap H !! p;
}.

Lemma insert_push H t l new e0 :
  table_ok H l → heap H !! new = Some e0 → new ∉ l →
  buckets_ok (slot_of (heap H) (htsize H)) (new :: l) (htsize H) t →
  (is_Some t ↔ is_Some (ht H)) →
  inserted H l new
    (set_first (Some new)
       (set_heap (write_prev (Some new) None (write_prev (first H) (Some new)
                   (alter (with_next (first H)) new (heap H)))) (set_ht t H))).
Proof.
  intros [H1 H2 H3 H4] He Hnew Hb Ht. rewrite H2.
  set (m := write_prev _ _ _).
  assert (Hp : payload m = payload (heap H))
    by (unfold m; by rewrite !payload_write_prev, payload_alter).
  split; simpl; [|done|split_and!; [done|done|exact Ht]|].
  - exists (new :: l). split; [|done]. constructor; simpl.
    + by apply lseg_push with e0.
    + done.
    + by constructor.
    + by rewrite (slot_of_payload _ _ _ Hp).
  - intros p Hpn Hpl. unfold m. rewrite !write_prev_other.
    + by apply lookup_alter_ne.
    + intros E. apply head_Some_elem_of in E. done.
    + congruence.
Qed.

Lemma insert_before H b t l1 y l2 new e0 e :
  let l := l1 ++ y :: l2 in
  table_ok H l → ht H = Some t → heap H !! new = Some e0 → new ∉ l → heap H !! y = Some e →
  t !! Z.to_nat (slot_of (heap H) (htsize H) new) = Some b →
  place (slot_of (heap H) (htsize H)) (slot_of (heap H) (htsize H) new) new l
  = l1 ++ new :: y :: l2 →
  inserted H l new
    (set_first (match prev e with Some _ => first H | None => Some new end)
       (set_heap (write_prev (Some y) (Some new) (write_next (prev e) (Some new)
          (alter (λ n, mkElem (Some y) (prev e) (data n) (pKey n)) new (heap H))))
          (set_ht (Some (<[Z.to_nat (slot_of (heap H) (htsize H) new)
                            := mkBucket (b_count b + 1) (Some new)]> t)) H))).
Proof.
  intros l [H1 H2 H3 H4] Ht He0 Hnew He Hb Hpl. rewrite Ht in H4. unfold l in *.
  destruct (lseg_insert _ _ _ _ _ _ _ H3 Hnew He0 He H1) as [Hp Hl].
  set (m := write_prev _ _ _) in *.
  assert (Hpay : payload m = payload (heap H))
    by (unfold m; by rewrite payload_write_prev, payload_write_next, payload_alter).
  split; simpl; [|done|split_and!; [done|done|rewrite Ht; split; by eexists]|].
  - exists (l1 ++ new :: y :: l2). split; [|by rewrite <- Permutation_middle].
    constructor; simpl; [done| | |].
    + rewrite Hp, H2. destruct l1 as [|z l1]; [done|]. rewrite last_cons.
      by destruct (last l1).
    + rewrite <- Permutation_middle. by constructor.
    + rewrite (slot_of_payload _ _ _ Hpay), <- Hpl. apply buckets_place; [done| |done].
      apply hash_slot_range. by destruct H4.
  - intros p Hpn Hpl'. unfold m. rewrite write_prev_other, write_next_other.
    + by apply lookup_alter_ne.
    + rewrite Hp. intros E. apply last_Some_elem_of in E. set_solver.
    + intros [= ->]. set_solver.
Qed.

Definition bucket_of (H : Hash) (p : nat) : option Z :=
  match ht H with Some _ => Some (slot_of (heap H) (htsize H) p) | None => None end.

Lemma insertElement_ok H l new e0 :
  table_ok H l → heap H !! new = Some e0 → new ∉ l →
  inserted H l new (insertElement H (bucket_of H new) new).
Proof.
  intros Hok He0 Hnew. unfold insertElement, bucket_of.
  pose proof (tk_buckets _ _ Hok) as Hb. destruct (ht H) as [t|] eqn:Ht.
  2:{ pose proof (insert_push H None l new e0 Hok He0 Hnew) as Hi.
      unfold set_ht in Hi. rewrite <- Ht in Hi. destruct H; simpl in *. subst. by apply Hi. }
  destruct Hb as (Hn&Hlen&Hb). pose proof (hash_slot_range (heap H) (htsize H) new Hn) as Hr.
  set (h := slot_of (heap H) (htsize H) new) in *.
  destruct (lookup_lt_is_Some_2 t (Z.to_nat h)) as [b Eb]; [lia|]. rewrite Eb.
  destruct (Hb _ _ Hr Eb) as (Hc&Hcon&Hchain).
  assert (Hbp : buckets_ok (slot_of (heap H) (htsize H))
                  (place (slot_of (heap H) (htsize H)) h new l) (htsize H)
                  (Some (<[Z.to_nat h := mkBucket (b_count b + 1) (Some new)]> t)))
    by (by apply buckets_place).
  destruct (of_slot (slot_of (heap H) (htsize H)) h l) as [|y ys] eqn:Es.
  - assert (b_count b =? 0 = true) as -> by (by rewrite Hc).
    unfold place in Hbp. rewrite Es in Hbp.
    refine (insert_push H _ l new e0 Hok He0 Hnew Hbp _). rewrite Ht. split; by eexists.
  - rewrite (proj2 (Z.eqb_neq (b_count b) 0)) by (rewrite Hc; simpl; lia).
    rewrite Hchain by done. simpl.
    destruct (before_first_split (slot_of (heap H) (htsize H)) h new l) as (l1&y'&l2&El&Hy&Hn1&Hbf);
      [by rewrite Es|].
    assert (y' = y) as ->.
    { rewrite El, of_slot_app in Es. apply of_slot_none in Hn1. rewrite Hn1 in Es.
      unfold of_slot in Es. simpl in Es. rewrite Hy, Z.eqb_refl in Es. by injection Es. }
    destruct (lseg_lookup _ _ _ _ y (tk_list _ _ Hok)) as [e He]; [subst l; set_solver|].
    rewrite He. subst l. refine (insert_before H b t l1 y l2 new e0 e Hok Ht He0 Hnew He Eb _).
    unfold place. fold h. by rewrite Es.
Qed.

(** ** Rehashing *)

(** The elements [r] can be followed by [next]. *)
Fixpoint chained (m : gmap nat HashElem) (r : list nat) : Prop :=
  match r with
  | [] => True
  | x :: r => (∃ e, m !! x = Some e ∧ next e = head r) ∧ chained m r
  end.

Lemma lseg_chained m p l : lseg m p l None → chained m l.
Proof.
  revert p. induction l as [|x l IH]; intros p; [done|]. intros (e&He&_&Hn&Hl).
  split; [|by eapply IH]. exists e. rewrite Hn. by destruct l.
Qed.

Lemma chained_frame m m' r : (∀ x, x ∈ r → m' !! x = m !! x) → chained m r → chained m' r.
Proof.
  induction r as [|x r IH]; [done|]. intros Hm [(e&He&Hn) Hr]. split; [|apply IH; set_solver].
  exists e. by rewrite Hm by set_solver.
Qed.

Lemma rehash_loop_ok fuel H l r :
  table_ok H l → is_Some (ht H) → NoDup (r ++ l) → chained (heap H) r → (length r ≤ fuel)%nat →
  let H' := rehash_loop fuel H (head r) in
  (∃ l', table_ok H' l' ∧ l' ≡ₚ r ++ l) ∧ payload (heap H') = payload (heap H) ∧
  htsize H' = htsize H ∧ count H' = count H ∧ is_Some (ht H').
Proof.
  revert fuel H l. induction r as [|x r IH]; intros fuel H l Hok Ht Hd Hc Hf.
  { destruct fuel; simpl; (split_and!; [by exists l|done..]). }
  destruct fuel as [|fuel]; [simpl in Hf; lia|]. destruct Hc as [(e&He&Hn) Hc]. simpl.
  rewrite He, Hn. simpl in Hd. apply NoDup_cons in Hd as [Hx Hd].
  rewrite elem_of_app in Hx.
  assert (Some (strHash (pKey e) mod htsize H) = bucket_of H x) as ->.
  { unfold bucket_of, slot_of, payload. destruct Ht as [t ->]. by rewrite lookup_fmap, He. }
  destruct (insertElement_ok H l x e Hok He) as [(l1&Hok1&Hp1) Hpay (Hs&Hcnt&Ht1) Hoth]; [tauto|].
  destruct (IH fuel (insertElement H (bucket_of H x) x) l1) as ((l2&Hok2&Hp2)&Hpay2&Hs2&Hc2&Ht2).
  - done.
  - by rewrite Ht1.
  - rewrite Hp1. rewrite <- Permutation_middle. constructor; [by rewrite elem_of_app|done].
  - eapply chained_frame; [|exact Hc]. intros z Hz. apply Hoth; [intros ->; tauto|].
    apply NoDup_app in Hd as (_&Hd&_). by apply Hd.
  - simpl in Hf. lia.
  - split_and!; [|congruence..|done]. exists l2. split; [done|].
    rewrite Hp2, Hp1. simpl. by rewrite <- Permutation_middle.
Qed.

Lemma rehash_ok H l new_size o :
  table_ok H l → 0 < new_size → (length l ≤ size (heap H))%nat →
  let '(_, H', _) := rehash H new_size o in
  (∃ l', table_ok H' l' ∧ l' ≡ₚ l) ∧ payload (heap H') = payload (heap H) ∧
  count H' = count H.
Proof.
  intros Hok Hn Hl. unfold rehash.
  set (n := if SQLITE_MALLOC_SOFT_LIMIT <? _ then _ else _).
  assert (0 < n) as Hn' by (unfold n; case_test; done).
  case_test; [by split_and!; [exists l|..]|].
  destruct (hmalloc o) as [[spare|] o']; [|by split_and!; [exists l|..]].
  set (n2 := n + Z.max 0 spare).
  set (H' := mkHash n2 (count H) None (Some (replicate (Z.to_nat n2) (mkBucket 0 None))) (heap H)).
  destruct Hok as [H1 H2 H3 _]. rewrite H2.
  destruct (rehash_loop_ok (size (heap H)) H' [] l) as (Hl'&Hp&_&Hc&_).
  - constructor; simpl; [done|done|constructor|]. split_and!; [lia|by rewrite length_replicate|].
    intros h b Hh Hb. apply lookup_replicate in Hb as [-> _]. by split_and!.
  - by eexists.
  - by rewrite app_nil_r.
  - by eapply lseg_chained.
  - done.
  - rewrite app_nil_r in Hl'. done.
Qed.

(** ** Removal *)

Lemma of_slot_ext f g h l : (∀ x, x ∈ l → f x = g x) → of_slot f h l = of_slot g h l.
Proof.
  unfold of_slot. induction l as [|x l IH]; intros H; simpl; [done|].
  rewrite H by set_solver. rewrite IH by set_solver. done.
Qed.

Lemma none_of_ext f g h l : (∀ x, x ∈ l → f x = g x) → none_of f h l → none_of g h l.
Proof. unfold none_of. rewrite !Forall_forall. intros H Hn x Hx. rewrite <- H; auto. Qed.

Lemma run_of_ext f g h l : (∀ x, x ∈ l → f x = g x) → run_of f h l → run_of g h l.
Proof.
  induction l as [|x l IH]; intros H; simpl; [done|]. rewrite H by set_solver.
  case_test; [apply IH; set_solver|apply none_of_ext; set_solver].
Qed.

Lemma contiguous_ext f g h l : (∀ x, x ∈ l → f x = g x) → contiguous f h l → contiguous g h l.
Proof.
  induction l as [|x l IH]; intros H; simpl; [done|]. rewrite H by set_solver.
  case_test; [apply run_of_ext; set_solver|apply IH; set_solver].
Qed.

Lemma buckets_ext f g l n t : (∀ x, x ∈ l → f x = g x) → buckets_ok f l n t → buckets_ok g l n t.
Proof.
  intros H. destruct t as [t|]; [|done]. intros (Hn&Hl&Hb). split_and!; [done..|].
  intros h b Hh Ht. destruct (Hb h b Hh Ht) as (H1&H2&H3). unfold bucket_ok.
  rewrite <- (of_slot_ext f g) by done. split_and!; [done| |done]. by apply (contiguous_ext f).
Qed.

Lemma buckets_remove f l1 x l2 n t :
  NoDup (l1 ++ x :: l2) → 0 ≤ f x < n → buckets_ok f (l1 ++ x :: l2) n (Some t) →
  buckets_ok f (l1 ++ l2) n
    (Some (alter (λ b, mkBucket (b_count b - 1)
                    (if bool_decide (chain b = Some x) then head l2 else chain b))
             (Z.to_nat (f x)) t)).
Proof.
  intros Hd Hr (Hn&Hl&Hb). split_and!; [done|by rewrite length_alter|].
  intros h b Hh Ht. destruct (decide (h = f x)) as [->|Hne].
  - rewrite list_lookup_alter_eq in Ht. destruct (t !! Z.to_nat (f x)) as [b0|] eqn:Eb; [|done].
    injection Ht as <-. destruct (Hb _ _ Hh Eb) as (H1&H2&H3).
    rewrite of_slot_app in H1, H3. unfold of_slot at 2 in H1. unfold of_slot at 2 4 in H3.
    simpl in H1, H3. rewrite Z.eqb_refl in H1, H3.
    fold (of_slot f (f x) l2) in H1, H3. rewrite length_app in H1. simpl in H1.
    unfold bucket_ok. rewrite of_slot_app, length_app. simpl. split_and!; [lia|by eapply contiguous_remove|].
    intros Hs. destruct (of_slot f (f x) l1) as [|z zs] eqn:E1; simpl in *.
    + rewrite H3, bool_decide_eq_true_2 by done. apply of_slot_none in E1.
      by destruct (contiguous_next f (f x) l1 x l2) as [?| ->].
    + rewrite H3 by done. rewrite bool_decide_eq_false_2; [done|]. intros [= ->].
      assert (x ∈ l1) as Hx.
      { assert (x ∈ of_slot f (f x) l1) as Hx by (rewrite E1; set_solver).
        apply list_elem_of_In, filter_In in Hx as [Hx _]. by apply list_elem_of_In. }
      apply NoDup_app in Hd as (_&Hd&_). apply (Hd x Hx). set_solver.
  - rewrite list_lookup_alter_ne in Ht by lia. destruct (Hb _ _ Hh Ht) as (H1&H2&H3).
    assert (of_slot f h (l1 ++ x :: l2) = of_slot f h (l1 ++ l2)) as E.
    { rewrite !of_slot_app. unfold of_slot at 2. simpl. by rewrite (proj2 (Z.eqb_neq (f x) h)). }
    rewrite E in *. split_and!; [done|by eapply contiguous_remove|done].
Qed.

(** ** What the table promises *)

Definition distinct_keys (m : gmap nat HashElem) : Prop :=
  ∀ p q e e', m !! p = Some e → m !! q = Some e' → lower (pKey e) = lower (pKey e') → p = q.

(** The elements of the heap are those of the list. *)
Record hash_table (H : Hash) (l : list nat) : Prop := {
  hh_table : table_ok H l;
  hh_elems : ∀ p, p ∈ l ↔ is_Some (heap H !! p);
  hh_count : count H = Z.of_nat (length l);
  hh_keys : distinct_keys (heap H);
}.
Definition table_inv (H : Hash) : Prop := ∃ l, hash_table H l.

(** The table binds a key, in any case, to data. *)
Definition binds (H : Hash) (key : list Z) (d : Z) : Prop :=
  ∃ p e, heap H !! p = Some e ∧ lower (pKey e) = lower key ∧ data e = d.

Lemma find_filter {A} (p q : A → bool) l :
  (∀ x, p x = true → q x = true) → List.find p (List.filter q l) = List.find p l.
Proof.
  intros H. induction l as [|x l IH]; simpl; [done|]. destruct (q x) eqn:Eq; simpl.
  - by rewrite IH.
  - destruct (p x) eqn:Ep; [|done]. by rewrite H in Eq.
Qed.

Lemma find_element H l key :
  hash_table H l →
  findElementGivenHash H key (hash_slot H key) = List.find (matches (heap H) key) l.
Proof.
  intros [[H1 H2 H3 H4] _ Hc _]. unfold findElementGivenHash, hash_slot.
  destruct (ht H) as [t|].
  - destruct H4 as (Hn&Hlen&Hb). pose proof (Z.mod_pos_bound (strHash key) (htsize H) Hn) as Hr.
    destruct (lookup_lt_is_Some_2 t (Z.to_nat (strHash key mod htsize H))) as [b Eb]; [lia|].
    rewrite Eb. destruct (Hb _ _ Hr Eb) as (Hcnt&Hcon&Hch). rewrite Hcnt, Nat2Z.id.
    set (f := slot_of _ _) in *. set (h := strHash key mod htsize H) in *.
    destruct (contiguous_split f h l Hcon) as (l1&l2&El&_).
    assert (lseg (heap H) (or_else (last l1) None) (of_slot f h l ++ l2) None) as Hs
      by (rewrite El in H1; apply lseg_app in H1; apply H1).
    rewrite (find_loop_spec _ _ _ _ _ _ _ Hs).
    + apply find_filter. intros p. unfold matches, f, slot_of, payload. rewrite lookup_fmap.
      destruct (heap H !! p) as [e|]; [|done]. rewrite bool_decide_eq_true. simpl. intros Hk.
      apply Z.eqb_eq. unfold h. by rewrite (strHash_lower _ _ Hk).
    + destruct (of_slot f h l) eqn:E; [by left|right; by apply Hch].
  - rewrite Hc, Nat2Z.id. apply (find_loop_spec _ None l [] None); [by rewrite app_nil_r|right; exact H2].
Qed.

Lemma find_matches H l key :
  hash_table H l →
  match List.find (matches (heap H) key) l with
  | Some p => p ∈ l ∧ ∃ e, heap H !! p = Some e ∧ lower (pKey e) = lower key
  | None => ∀ p e, heap H !! p = Some e → lower (pKey e) ≠ lower key
  end.
Proof.
  intros [_ He _ _]. destruct (List.find _ l) as [p|] eqn:E.
  - apply find_some in E as [Hp Hm]. split; [by apply list_elem_of_In|].
    unfold matches in Hm. destruct (heap H !! p) as [e|]; [|done].
    exists e. by apply bool_decide_eq_true in Hm.
  - intros p e Hp Hk. assert (p ∈ l) as Hin by (apply He; by eexists).
    apply list_elem_of_In in Hin. pose proof (find_none _ _ E p Hin) as Hm.
    unfold matches in Hm. rewrite Hp in Hm. by apply bool_decide_eq_false in Hm.
Qed.

Lemma init_table : hash_table sqlite3HashInit [].
Proof.
  split; [constructor; try done; constructor|..]; try done.
  intros p. simpl. rewrite lookup_empty. split; [set_solver|by intros []].
Qed.

(** After an element is unlinked, cleared too if it was the last one. *)
Lemma remove_ok H l p :
  hash_table H l → p ∈ l →
  let H' := removeElementGivenHash H p
              (match ht H with Some _ => slot_of (heap H) (htsize H) p | None => 0 end) in
  table_inv H' ∧ payload (heap H') = delete p (payload (heap H)).
Proof.
  intros [[H1 H2 H3 H4] He Hc Hk] Hp. unfold removeElementGivenHash.
  destruct (proj1 (He p) Hp) as [e Hpe]. rewrite Hpe.
  apply list_elem_of_split in Hp as (l1&l2&->).
  destruct (lseg_remove _ _ _ _ _ H3 Hpe H1) as (Ep&En&Hl).
  set (m := delete p _) in *.
  assert (Hpay : payload m = delete p (payload (heap H))).
  { unfold m, payload. rewrite fmap_delete. fold (payload (write_prev (next e) (prev e)
      (write_next (prev e) (next e) (heap H)))). by rewrite payload_write_prev, payload_write_next. }
  assert (Hd : NoDup (l1 ++ l2)) by (rewrite <- Permutation_middle in H3; apply NoDup_cons in H3; apply H3).
  assert (Hpl : p ∉ l1 ++ l2) by (rewrite <- Permutation_middle in H3; apply NoDup_cons in H3; apply H3).
  assert (He' : ∀ q, q ∈ l1 ++ l2 ↔ is_Some (m !! q)).
  { intros q. assert (is_Some (m !! q) ↔ is_Some (payload m !! q)) as ->
      by (unfold payload; rewrite lookup_fmap; by rewrite fmap_is_Some).
    rewrite Hpay. destruct (decide (q = p)) as [->|Hq].
    - rewrite lookup_delete_eq. split; [done|by intros []].
    - rewrite lookup_delete_ne by done. unfold payload. rewrite lookup_fmap, fmap_is_Some, <- He.
      set_solver. }
  rewrite length_app in Hc. simpl in Hc. simpl. case_test.
  - breflect. destruct l1; [|simpl in *; lia]. destruct l2; [|simpl in *; lia].
    assert (m = ∅) as ->.
    { apply map_eq. intros q. rewrite lookup_empty. destruct (m !! q) eqn:Eq; [|done].
      specialize (He' q). rewrite Eq in He'. destruct He' as [_ He']. simpl in He'.
      specialize (He' ltac:(by eexists)). set_solver. }
    unfold sqlite3HashClear. simpl. rewrite <- Hpay. split; [|done].
    exists []. apply init_table.
  - split; [|done]. exists (l1 ++ l2). split; simpl; [|done|rewrite length_app; lia|].
    + constructor; simpl; [done| |done|].
      * rewrite Ep, En, H2. destruct l1 as [|z l1]; [done|]. rewrite last_cons. by destruct (last l1).
      * destruct (ht H) as [t|]; [|done]. eapply buckets_ext;
          [|rewrite En; apply buckets_remove; [done|apply hash_slot_range; by destruct H4|exact H4]].
        intros x Hx. unfold slot_of. rewrite Hpay, lookup_delete_ne; [done|by intros ->].
    + intros q1 q2 e1 e2 G1 G2 Hlow.
      assert (∀ q f, m !! q = Some f → ∃ f', heap H !! q = Some f' ∧ pKey f' = pKey f) as Hback.
      { intros q f Hq. assert (payload m !! q = Some (data f, pKey f)) as Hq'
          by (unfold payload; by rewrite lookup_fmap, Hq).
        rewrite Hpay in Hq'. apply lookup_delete_Some in Hq' as [_ Hq'].
        unfold payload in Hq'. rewrite lookup_fmap in Hq'.
        destruct (heap H !! q) as [f'|]; [|done]. injection Hq' as _ ?. by exists f'. }
      destruct (Hback _ _ G1) as (f1&F1&E1). destruct (Hback _ _ G2) as (f2&F2&E2).
      apply (Hk q1 q2 f1 f2); congruence.
Qed.

(** New data, and a key that differs in case only, for an element. *)
Lemma replace_ok H l p e key d :
  hash_table H l → heap H !! p = Some e → lower (pKey e) = lower key →
  hash_table (set_heap (<[p := mkElem (next e) (prev e) d key]> (heap H)) H) l.
Proof.
  intros [[H1 H2 H3 H4] He Hc Hk] Hp Hlow.
  assert (Hs : ∀ l pr n, lseg (heap H) pr l n →
    lseg (<[p := mkElem (next e) (prev e) d key]> (heap H)) pr l n).
  { clear -Hp. induction l as [|x l IH]; intros pr n; [done|]. intros (e'&He&Hpr&Hn&Hl).
    destruct (decide (x = p)) as [->|Hx].
    - rewrite He in Hp. injection Hp as ->. eexists. rewrite lookup_insert_eq.
      split_and!; [done..|by apply IH].
    - exists e'. rewrite lookup_insert_ne by done. split_and!; [done..|by apply IH]. }
  assert (Hlk : ∀ q e', <[p := mkElem (next e) (prev e) d key]> (heap H) !! q = Some e' →
    ∃ e0, heap H !! q = Some e0 ∧ lower (pKey e0) = lower (pKey e')).
  { intros q e' Hq. destruct (decide (q = p)) as [->|Hqp].
    - rewrite lookup_insert_eq in Hq. injection Hq as <-. by exists e.
    - rewrite lookup_insert_ne in Hq by done. by exists e'. }
  split; simpl; [|..|done|].
  - constructor; simpl; [by apply Hs|done|done|]. eapply buckets_ext; [|exact H4].
    intros x _. unfold slot_of, payload. rewrite !lookup_fmap.
    destruct (decide (x = p)) as [->|Hx].
    + rewrite Hp, lookup_insert_eq. simpl. by rewrite (strHash_lower _ _ Hlow).
    + by rewrite lookup_insert_ne.
  - intros q. rewrite He. destruct (decide (q = p)) as [->|Hqp].
    + rewrite Hp, lookup_insert_eq. split; by eexists.
    + by rewrite lookup_insert_ne.
  - intros q1 q2 e1 e2 G1 G2 Hl. destruct (Hlk _ _ G1) as (f1&F1&L1).
    destruct (Hlk _ _ G2) as (f2&F2&L2). apply (Hk q1 q2 f1 f2); congruence.
Qed.

Lemma elems_size (m : gmap nat HashElem) l :
  NoDup l → (∀ p, p ∈ l → is_Some (m !! p)) → (length l ≤ size m)%nat.
Proof.
  intros Hd Hl. rewrite <- size_dom, <- (size_list_to_set (C:=gset nat)) by done.
  apply subseteq_size. intros p Hp%elem_of_list_to_set. by apply elem_of_dom, Hl.
Qed.

Lemma insert_new_ok H l key d o :
  hash_table H l → (∀ p e, heap H !! p = Some e → lower (pKey e) ≠ lower key) →
  let '(r, H', _) := insert_new H key d o in
  (r = d ∧ H' = H ∧ o ≠ []) ∨
  (r = 0 ∧ table_inv H' ∧ ∃ new, heap H !! new = None ∧
     payload (heap H') = <[new := (d, key)]> (payload (heap H))).
Proof.
  intros [[H1 H2 H3 H4] He Hc Hk] Hnone. unfold insert_new.
  destruct (hmalloc o) as [[spare|] o1] eqn:Eo.
  2:{ left. split_and!; [done..|]. by intros ->. }
  set (new := fresh (dom (heap H))).
  assert (Hf : heap H !! new = None) by (apply not_elem_of_dom, is_fresh).
  assert (Hnl : new ∉ l) by (rewrite He, Hf; by intros []).
  set (m := <[new := mkElem None None d key]> (heap H)).
  assert (Hm : payload m = <[new := (d, key)]> (payload (heap H)))
    by (unfold m, payload; by rewrite fmap_insert).
  set (Ha := set_count (count H + 1) (set_heap m H)).
  assert (Hoka : table_ok Ha l).
  { constructor; simpl; [|done..|].
    - eapply lseg_frame; [|exact H1]. intros x Hx. apply lookup_insert_ne. set_solver.
    - eapply buckets_ext; [|exact H4]. intros x Hx. unfold slot_of.
      rewrite Hm, lookup_insert_ne; [done|set_solver]. }
  assert (Hsz : (length l ≤ size (heap Ha))%nat).
  { apply elems_size; [done|]. intros p Hp. simpl. unfold m.
    rewrite lookup_insert_ne by set_solver. by apply He. }
  assert (∃ Hb o2 l2, (if (10 <=? count Ha) && (2 * htsize Ha <? count Ha)
            then let '(_, H, o) := rehash Ha (count Ha * 2) o1 in (H, o) else (Ha, o1)) = (Hb, o2) ∧
            table_ok Hb l2 ∧ l2 ≡ₚ l ∧ payload (heap Hb) = payload m ∧ count Hb = count Ha)
    as (Hb&o2&l2&->&Hokb&Hl2&Hpb&Hcb).
  { case_test; [|by exists Ha, o1, l]. breflect.
    pose proof (rehash_ok Ha l (count Ha * 2) o1 Hoka ltac:(lia) Hsz) as Hr.
    destruct (rehash _ _ _) as [[? Hb] o2]. destruct Hr as ((l2&?&?)&?&?). by exists Hb, o2, l2. }
  assert (payload (heap Hb) !! new = Some (d, key)) as Hpn by (rewrite Hpb, Hm; by rewrite lookup_insert_eq).
  pose proof Hpn as Hpn'. unfold payload in Hpn'. rewrite lookup_fmap in Hpn'.
  destruct (heap Hb !! new) as [e0|] eqn:Ee; [|done].
  assert ((match ht Hb with Some _ => Some (hash_slot Hb key) | None => None end)
          = bucket_of Hb new) as ->.
  { unfold bucket_of, hash_slot, slot_of. rewrite Hpn. by destruct (ht Hb). }
  destruct (insertElement_ok Hb l2 new e0 Hokb Ee) as [(l3&Hok3&Hl3) Hp3 (_&Hc3&_) _];
    [by rewrite Hl2|].
  right. split; [done|]. rewrite Hpb, Hm in Hp3. split; [|by exists new].
  exists l3. rewrite Hl2 in Hl3.
  assert (Hlk : ∀ q e', heap (insertElement Hb (bucket_of Hb new) new) !! q = Some e' →
    (q = new ∧ pKey e' = key) ∨ ∃ e0, heap H !! q = Some e0 ∧ pKey e0 = pKey e').
  { intros q e' Hq.
    assert (payload (heap (insertElement Hb (bucket_of Hb new) new)) !! q = Some (data e', pKey e'))
      as Hq' by (unfold payload; by rewrite lookup_fmap, Hq).
    rewrite Hp3 in Hq'. destruct (decide (q = new)) as [->|Hqn].
    - rewrite lookup_insert_eq in Hq'. injection Hq' as _ ->. by left.
    - rewrite lookup_insert_ne in Hq' by done. unfold payload in Hq'. rewrite lookup_fmap in Hq'.
      destruct (heap H !! q) as [f|] eqn:Ef; [|done]. injection Hq' as _ ?. right. by exists f. }
  split; [done|..].
  - intros q.
    assert (is_Some (heap (insertElement Hb (bucket_of Hb new) new) !! q)
      ↔ is_Some (payload (heap (insertElement Hb (bucket_of Hb new) new)) !! q)) as ->
      by (unfold payload; by rewrite lookup_fmap, fmap_is_Some).
    rewrite Hp3, Hl3, elem_of_cons. destruct (decide (q = new)) as [->|Hqn].
    + rewrite lookup_insert_eq. split; [by eexists|by left].
    + rewrite lookup_insert_ne by done. unfold payload. rewrite lookup_fmap, fmap_is_Some, <- He.
      tauto.
  - rewrite Hc3, Hcb, Hl3. simpl. lia.
  - intros q1 q2 e1 e2 G1 G2 Hlow.
    destruct (Hlk _ _ G1) as [[-> L1]|(f1&F1&L1)], (Hlk _ _ G2) as [[-> L2]|(f2&F2&L2)]; [done|..].
    + exfalso. apply (Hnone _ _ F2). congruence.
    + exfalso. apply (Hnone _ _ F1). congruence.
    + apply (Hk q1 q2 f1 f2); congruence.
Qed.

Lemma binds_payload H key d :
  binds H key d ↔ ∃ p k, payload (heap H) !! p = Some (d, k) ∧ lower k = lower key.
Proof.
  unfold binds, payload. split.
  - intros (p&e&Hp&Hk&<-). exists p, (pKey e). by rewrite lookup_fmap, Hp.
  - intros (p&k&Hp&Hk). rewrite lookup_fmap in Hp. destruct (heap H !! p) as [e|] eqn:E; [|done].
    injection Hp as <- <-. by exists p, e.
Qed.

(** What the search of a key finds. *)
Lemma find_cases H l key :
  hash_table H l →
  match findElementGivenHash H key (hash_slot H key) with
  | Some p => p ∈ l ∧ ∃ e, heap H !! p = Some e ∧ lower (pKey e) = lower key ∧
              sqlite3HashFind H key = data e ∧ (∀ v, binds H key v ↔ v = data e)
  | None => (∀ p e, heap H !! p = Some e → lower (pKey e) ≠ lower key) ∧
            sqlite3HashFind H key = 0 ∧ ∀ v, ¬ binds H key v
  end.
Proof.
  intros Hok. unfold sqlite3HashFind. rewrite (find_element H l key Hok).
  pose proof (find_matches H l key Hok) as Hm. destruct (List.find _ l) as [p|].
  - destruct Hm as (Hp&e&He&Hk). split; [done|]. exists e. rewrite He. split_and!; [done..|].
    intros v. split; [|by intros ->; exists p, e]. intros (q&f&Hq&Hf&<-).
    assert (q = p) as -> by (apply (hh_keys _ _ Hok q p f e); congruence). congruence.
  - split_and!; [done..|]. intros v (p&e&Hp&Hk&_). by apply (Hm p e).
Qed.

(** At most one element, at [p], has the key. *)
Definition only_at (H : Hash) (key : list Z) (p : nat) : Prop :=
  ∀ q e, heap H !! q = Some e → lower (pKey e) = lower key → q = p.

Lemma binds_insert H H' key d p :
  only_at H key p → (∀ e, heap H !! p = Some e → lower (pKey e) = lower key) → d ≠ 0 →
  payload (heap H') = <[p := (d, key)]> (payload (heap H)) →
  ∀ k v, binds H' k v ↔ if decide (lower k = lower key) then v = d ∧ d ≠ 0 else binds H k v.
Proof.
  intros Ho Hp Hd Hpay k v. case_decide as Hk; rewrite !binds_payload, Hpay.
  - split; [|intros [-> _]; exists p, key; by rewrite lookup_insert_eq].
    intros (q&k'&Hq&Hk'). destruct (decide (q = p)) as [->|Hqp].
    { rewrite lookup_insert_eq in Hq. by injection Hq as ->. }
    rewrite lookup_insert_ne in Hq by done. unfold payload in Hq. rewrite lookup_fmap in Hq.
    destruct (heap H !! q) as [f|] eqn:Ef; [|done]. injection Hq as _ <-.
    destruct Hqp. apply (Ho q f Ef). congruence.
  - split; intros (q&k'&Hq&Hk'); exists q, k'; (split; [|done]);
      (destruct (decide (q = p)) as [->|Hqp]).
    + rewrite lookup_insert_eq in Hq. injection Hq as _ ->. congruence.
    + by rewrite lookup_insert_ne in Hq.
    + unfold payload in Hq. rewrite lookup_fmap in Hq.
      destruct (heap H !! p) as [f|] eqn:Ef; [|done]. injection Hq as _ <-.
      specialize (Hp f eq_refl). congruence.
    + by rewrite lookup_insert_ne.
Qed.

Lemma binds_delete H H' key p e :
  only_at H key p → heap H !! p = Some e → lower (pKey e) = lower key →
  payload (heap H') = delete p (payload (heap H)) →
  ∀ k v, binds H' k v ↔ if decide (lower k = lower key) then v = 0 ∧ 0 ≠ 0 else binds H k v.
Proof.
  intros Ho He Hp Hpay k v. case_decide as Hk; rewrite !binds_payload, Hpay.
  - split; [|tauto]. intros (q&k'&Hq&Hk'). apply lookup_delete_Some in Hq as [Hqp Hq].
    unfold payload in Hq. rewrite lookup_fmap in Hq.
    destruct (heap H !! q) as [f|] eqn:Ef; [|done]. injection Hq as _ <-.
    destruct Hqp. symmetry. apply (Ho q f Ef). congruence.
  - split; intros (q&k'&Hq&Hk'); exists q, k'; (split; [|done]).
    + by apply lookup_delete_Some in Hq as [_ Hq].
    + rewrite lookup_delete_ne; [done|]. intros <-. unfold payload in Hq.
      rewrite lookup_fmap, He in Hq. injection Hq as _ <-. congruence.
Qed.

(** C10. The hash table is a map on names without regard to case: a search
    returns the data bound to the key, or null; an insertion binds the key to its
    new data, removes it when the data is null, leaves the other keys alone and
    returns the data bound before; it fails only for lack of memory, and then
    returns the new data and changes nothing.  This holds of small tables that are
    searched one by one, of tables with buckets, and through rehashing. *)
Theorem hash_refines_map H key d o :
  table_inv H →
  (∀ v, binds H key v → sqlite3HashFind H key = v) ∧
  ((∀ v, ¬ binds H key v) → sqlite3HashFind H key = 0) ∧
  let '(old, H', _) := sqlite3HashInsert H key d o in
  (old = d ∧ H' = H ∧ o ≠ [] ∧ ∀ v, ¬ binds H key v) ∨
  (old = sqlite3HashFind H key ∧ table_inv H' ∧
   ∀ k v, binds H' k v ↔ if decide (lower k = lower key) then v = d ∧ d ≠ 0 else binds H k v).
Proof.
  intros [l Hok]. pose proof (find_cases H l key Hok) as Hf. unfold sqlite3HashInsert.
  destruct (findElementGivenHash H key (hash_slot H key)) as [p|].
  - destruct Hf as (Hp&e&He&Hk&Hfind&Hb). split_and!; [by intros v ->%Hb| |].
    { intros Hn. destruct (Hn (data e)). by apply Hb. }
    assert (Ho : only_at H key p)
      by (intros q f Hq Hl; apply (hh_keys _ _ Hok q p f e); congruence).
    rewrite He. right. split; [done|]. case_test; breflect.
    + subst d. pose proof (remove_ok H l p Hok Hp) as [Hinv Hpay].
      assert ((match ht H with Some _ => slot_of (heap H) (htsize H) p | None => 0 end)
              = hash_slot H key) as Es.
      { unfold hash_slot, slot_of, payload. rewrite lookup_fmap, He. simpl.
        by rewrite (strHash_lower _ _ Hk). }
      rewrite Es in Hinv, Hpay. split; [done|]. by apply (binds_delete H _ key p e).
    + split; [exists l; by apply replace_ok|]. apply (binds_insert H _ key d p); try done.
      * congruence.
      * simpl. unfold payload at 1. by rewrite fmap_insert.
  - destruct Hf as (Hnone&Hfind&Hb). split_and!; [by intros v ?%Hb|done|].
    case_test; breflect.
    + subst d. right. rewrite Hfind. split_and!; [done|by exists l|]. intros k v.
      case_decide as Hd; [|done]. split; [|tauto]. intros (p&e&Hp&Hk&_).
      destruct (Hnone p e Hp). congruence.
    + pose proof (insert_new_ok H l key d o Hok Hnone) as Hi.
      destruct (insert_new H key d o) as [[old H'] o'].
      destruct Hi as [(->&->&Ho)|(->&Hinv&new&Hnew&Hpay)]; [by left|right].
      rewrite Hfind. split_and!; [done..|]. apply (binds_insert H _ key d new); try done.
      * intros q f Hq Hl. by destruct (Hnone q f Hq).
      * congruence.
Qed.

Lemma hash_refines_map_witness :
  sqlite3HashFind sqlite3HashInit (bytes_of "t1") = 0.
Proof.
  refine (proj1 (proj2 (hash_refines_map sqlite3HashInit (bytes_of "t1") 5 [] _)) _).
  - exists []. apply init_table.
  - intros v (p&e&Hp&_). discriminate Hp.
Defined.
