(* ===== verification/SqlMem.v ===== *)
(** * Memory cells of the virtual machine

    Models the values of src/org.glite.wms.ice/src/iceDb/sqlite/sqlite3.c: the
    structure [Mem] with its type flags, the memory it points to, doubles as their
    64 bits, the operations of vdbemem.c that the record format uses, the
    collating functions of main.c, and the comparison of two values. *)

From Stdlib Require Import SpecFloat.
From S2P Require Import Prelude.
From S2P Require Import Machine.
From S2P Require Import SqlUtil.
From S2P Require SqlUtf.

(** ** Data *)

Definition MEM_Null : Z := 0x0001.
Definition MEM_Str : Z := 0x0002.
Definition MEM_Int : Z := 0x0004.
Definition MEM_Real : Z := 0x0008.
Definition MEM_Blob : Z := 0x0010.
Definition MEM_Term : Z := 0x0200.
Definition MEM_Dyn : Z := 0x0400.
Definition MEM_Static : Z := 0x0800.
Definition MEM_Ephem : Z := 0x1000.
Definition MEM_Zero : Z := 0x4000.

(** The union [Mem.u], by the member written last. *)
Inductive MemU :=
| U_i (i : Z)
| U_nZero (nZero : Z).

(** [struct Mem]: [z] is the memory from the pointer on, of which the first [n]
    bytes are the value; it is empty when the pointer is null.  [r] is the bit
    pattern of the double. *)
Record Mem := mkMem {
  m_z : list Z;
  m_r : Z;
  m_u : MemU;
  m_n : Z;
  m_flags : Z;
  m_enc : Z;
}.

Definition u_i (m : Mem) : Z := match m_u m with U_i i => i | U_nZero _ => 0 end.
Definition u_nZero (m : Mem) : Z := match m_u m with U_nZero k => k | U_i _ => 0 end.

(** [flags & f] as a condition *)
Definition has (m : Mem) (f : Z) : bool := negb (Z.land (m_flags m) f =? 0).

Definition set_flags (f : Z) (m : Mem) : Mem := mkMem (m_z m) (m_r m) (m_u m) (m_n m) f (m_enc m).
Definition set_z (p : list Z) (m : Mem) : Mem := mkMem p (m_r m) (m_u m) (m_n m) (m_flags m) (m_enc m).
Definition set_n (k : Z) (m : Mem) : Mem := mkMem (m_z m) (m_r m) (m_u m) k (m_flags m) (m_enc m).
Definition set_u (v : MemU) (m : Mem) : Mem := mkMem (m_z m) (m_r m) v (m_n m) (m_flags m) (m_enc m).
Definition set_r (v : Z) (m : Mem) : Mem := mkMem (m_z m) v (m_u m) (m_n m) (m_flags m) (m_enc m).
Definition set_enc (e : Z) (m : Mem) : Mem := mkMem (m_z m) (m_r m) (m_u m) (m_n m) (m_flags m) e.

(** ** Doubles *)

(** The IEEE 754 double of a bit pattern. *)
Definition double (b : Z) : spec_float :=
  let s := Z.testbit b 63 in
  let e := Z.land (Z.shiftr b 52) 0x7ff in
  let m := Z.land b (Z.ones 52) in
  if e =? 0x7ff then (if m =? 0 then S754_infinity s else S754_nan)
  else if e =? 0 then match m with Zpos p => S754_finite s p (-1074) | _ => S754_zero s end
  else match m + 2 ^ 52 with Zpos p => S754_finite s p (e - 1075) | _ => S754_nan end.

(** The conversion [(double)i]. *)
Definition double_of_int (i : Z) : spec_float := binary_normalize 53 1024 i 0 false.

(** [sqlite3IsNaN]: [y != z] on two copies *)
Definition sqlite3IsNaN (x : Z) : bool := negb (SFeqb (double x) (double x)).

(** ** Memory *)

(** [sqlite3VdbeMemGrow]: the result code is [true] for [SQLITE_OK].  [ok] says
    that there is a buffer of the size, the present one or a new one.  The bytes
    after the content are not determined: the memory ends with the content. *)
Definition sqlite3VdbeMemGrow (m : Mem) (size : Z) (preserve ok : bool) : bool * Mem :=
  if ok then
    (true, set_flags (Z.land (m_flags m) (Z.lnot (Z.lor MEM_Ephem MEM_Static)))
             (set_z (if preserve then take (Z.to_nat (m_n m)) (m_z m) else []) m))
  else (false, set_flags MEM_Null (set_z [] m)).

(** [sqlite3VdbeMemExpandBlob] *)
Definition sqlite3VdbeMemExpandBlob (m : Mem) (ok : bool) : bool * Mem :=
  if has m MEM_Zero then
    let nByte := m_n m + u_nZero m in
    let nByte := if nByte <=? 0 then 1 else nByte in
    let '(rc, m) := sqlite3VdbeMemGrow m nByte true ok in
    if negb rc then (false, m)
    else
      let m := set_z (m_z m ++ replicate (Z.to_nat (u_nZero m)) 0) m in
      let m := set_n (m_n m + u_nZero m) m in
      (true, set_flags (Z.land (m_flags m) (Z.lnot (Z.lor MEM_Zero MEM_Term))) m)
  else (true, m).

(** [sqlite3VdbeChangeEncoding]; the bytes of the text go through the translation
    of [SqlUtf].  The flags that say who owns the memory are left as they are. *)
Definition sqlite3VdbeChangeEncoding (m : Mem) (desiredEnc : Z) (oom : bool) : bool * Mem :=
  if negb (has m MEM_Str) || (m_enc m =? desiredEnc) then (true, m)
  else
    let '(rc, t) :=
      SqlUtf.sqlite3VdbeMemTranslate (SqlUtf.mkMem (m_enc m) (take (Z.to_nat (m_n m)) (m_z m)))
        desiredEnc oom in
    if negb rc then (false, m)
    else (true, set_n (Z.of_nat (length (SqlUtf.m_z t)))
                  (set_z (SqlUtf.m_z t) (set_enc (SqlUtf.m_enc t) m))).

(** [sqlite3ValueText] on a cell that holds text: the text in the encoding, with
    its length, or the null pointer when one of its allocations fails. *)
Definition SQLITE_UTF16_ALIGNED : Z := 8.
Definition sqlite3ValueText (m : Mem) (e : Z) (oom : bool) : option (Z * list Z) :=
  if oom then None
  else
    let m := (sqlite3VdbeMemExpandBlob m true).2 in
    let m := (sqlite3VdbeChangeEncoding m (Z.land e (Z.lnot SQLITE_UTF16_ALIGNED)) false).2 in
    Some (m_n m, m_z m).

(** ** Collating functions (main.c) *)

(** [memcmp] on bytes *)
Fixpoint memcmp (a b : list Z) (k : nat) : Z :=
  match k with
  | O => 0
  | S k => if at_ a 0 =? at_ b 0 then memcmp (tail a) (tail b) k else at_ a 0 - at_ b 0
  end.

(** [allSpaces]: the last bytes first *)
Fixpoint allSpaces (p : list Z) (k : nat) : bool :=
  match k with
  | O => true
  | S k => if at_ p (Z.of_nat k) =? chr " " then allSpaces p k else false
  end.

(** [binCollFunc]; with [padFlag] it is the collation RTRIM. *)
Definition binCollFunc (padFlag : bool) (nKey1 : Z) (pKey1 : list Z) (nKey2 : Z) (pKey2 : list Z)
    : Z :=
  let k := Z.to_nat (if nKey1 <? nKey2 then nKey1 else nKey2) in
  let rc := memcmp pKey1 pKey2 k in
  if rc =? 0 then
    if padFlag && allSpaces (drop k pKey1) (Z.to_nat nKey1 - k)
       && allSpaces (drop k pKey2) (Z.to_nat nKey2 - k)
    then rc
    else nKey1 - nKey2
  else rc.

(** [nocaseCollatingFunc] *)
Definition nocaseCollatingFunc (nKey1 : Z) (pKey1 : list Z) (nKey2 : Z) (pKey2 : list Z) : Z :=
  let rc := sqlite3_strnicmp pKey1 pKey2 (if nKey1 <? nKey2 then nKey1 else nKey2) in
  if 0 =? rc then nKey1 - nKey2 else rc.

(** [struct CollSeq]: the encoding it wants, and [xCmp] with its user data. *)
Record CollSeq := mkCollSeq {
  c_enc : Z;
  xCmp : Z → list Z → Z → list Z → Z;
}.

(** The collation BINARY for a text encoding. *)
Definition BINARY (e : Z) : CollSeq := mkCollSeq e (binCollFunc false).

(** ** Comparison *)

(** The bytes of a cell, with its zero-filled tail. *)
Definition content (m : Mem) : list Z :=
  take (Z.to_nat (m_n m)) (m_z m)
  ++ (if has m MEM_Zero then replicate (Z.to_nat (u_nZero m)) 0 else []).


Section compare.
(** Which texts cannot be converted to another encoding for lack of memory. *)
Context (oom : list Z → bool).

(** Two cells that hold text, under a collation. *)
Definition compare_text (m1 m2 : Mem) (c : CollSeq) : Z :=
  if m_enc m1 =? c_enc c then xCmp c (m_n m1) (m_z m1) (m_n m2) (m_z m2)
  else
    let '(n1, v1) := default (0, []) (sqlite3ValueText m1 (c_enc c) (oom (content m1))) in
    let '(n2, v2) := default (0, []) (sqlite3ValueText m2 (c_enc c) (oom (content m2))) in
    xCmp c n1 v1 n2 v2.

Definition compare_blob (m1 m2 : Mem) : Z :=
  let rc := memcmp (m_z m1) (m_z m2) (Z.to_nat (if m_n m2 <? m_n m1 then m_n m2 else m_n m1)) in
  if rc =? 0 then m_n m1 - m_n m2 else rc.

(** The number of a cell, as a double. *)
Definition as_double (m : Mem) : option spec_float :=
  if has m MEM_Real then Some (double (m_r m))
  else if has m MEM_Int then Some (double_of_int (u_i m))
  else None.

Definition compare_numbers (m1 m2 : Mem) : Z :=
  if has m1 MEM_Int && has m2 MEM_Int then
    if u_i m1 <? u_i m2 then -1 else if u_i m2 <? u_i m1 then 1 else 0
  else
    match as_double m1, as_double m2 with
    | None, _ => 1
    | _, None => -1
    | Some r1, Some r2 => if SFltb r1 r2 then -1 else if SFltb r2 r1 then 1 else 0
    end.

(** [sqlite3MemCompare] *)
Definition sqlite3MemCompare (m1 m2 : Mem) (pColl : option CollSeq) : Z :=
  let either f := has m1 f || has m2 f in
  if either MEM_Null then Z.land (m_flags m2) MEM_Null - Z.land (m_flags m1) MEM_Null
  else if either MEM_Int || either MEM_Real then compare_numbers m1 m2
  else if either MEM_Str then
    if negb (has m1 MEM_Str) then 1
    else if negb (has m2 MEM_Str) then -1
    else match pColl with
         | Some c => compare_text m1 m2 c
         | None => compare_blob m1 m2
         end
  else compare_blob m1 m2.
End compare.

(** ** Values *)

(** What a cell stands for, as the type flags say it, in the order in which the
    code tests them. *)
Inductive value :=
| VNull
| VInt (i : Z)
| VReal (b : Z)
| VText (s : list Z)
| VBlob (s : list Z).

Definition value_of (m : Mem) : value :=
  if has m MEM_Null then VNull
  else if has m MEM_Int then VInt (u_i m)
  else if has m MEM_Real then VReal (m_r m)
  else if has m MEM_Str then VText (content m)
  else VBlob (content m).

Instance value_eq_dec : EqDecision value.
Proof. solve_decision. Defined.

Definition cell_int (i : Z) : Mem := mkMem [] 0 (U_i i) 0 MEM_Int SQLITE_UTF8.
Definition cell_real (b : Z) : Mem := mkMem [] b (U_i 0) 0 MEM_Real SQLITE_UTF8.
Definition cell_null : Mem := mkMem [] 0 (U_i 0) 0 MEM_Null SQLITE_UTF8.
Definition cell_text (s : list Z) : Mem :=
  mkMem s 0 (U_i 0) (Z.of_nat (length s)) (Z.lor MEM_Str MEM_Static) SQLITE_UTF8.
Definition cell_blob (s : list Z) : Mem :=
  mkMem s 0 (U_i 0) (Z.of_nat (length s)) (Z.lor MEM_Blob MEM_Static) SQLITE_UTF8.
Definition cell_zeros (k : Z) : Mem :=
  mkMem [] 0 (U_nZero k) 0 (Z.lor MEM_Blob MEM_Zero) SQLITE_UTF8.

Example compare_sample :
  let cmp a b := sqlite3MemCompare (λ _, false) a b (Some (BINARY SQLITE_UTF8)) in
  cmp cell_null (cell_int 3) = -1 ∧ cmp (cell_int 3) (cell_real 0x4008000000000000) = 0 ∧
  cmp (cell_int 4) (cell_real 0x4008000000000000) = 1 ∧
  cmp (cell_int 4) (cell_text [97]) = -1 ∧ cmp (cell_text [97]) (cell_text [97; 98]) = -1 ∧
  cmp (cell_text [99]) (cell_blob [97]) = -1 ∧ cmp (cell_blob [0]) (cell_text [99]) = 1 ∧
  cmp (cell_real 0xBFF0000000000000) (cell_real 0x4008000000000000) = -1.
Proof. vm_compute. done. Qed.

(** ** Comparisons as orders *)

(** A three-way comparison of the C library's kind is a total preorder on the
    elements that satisfy [P]. *)
Class TotalCompare {A} (P : A → Prop) (f : A → A → Z) : Prop := {
  cmp_refl x : P x → f x x = 0;
  cmp_antisym x y : P x → P y → Z.sgn (f y x) = - Z.sgn (f x y);
  cmp_trans x y t : P x → P y → P t → f x y ≤ 0 → f y t ≤ 0 → f x t ≤ 0;
}.

(** A comparison is an order as soon as it has the sign of one. *)
Lemma TotalCompare_sgn {A} (P Q : A → Prop) (f g : A → A → Z) :
  (∀ x y, P x → P y → Z.sgn (f x y) = Z.sgn (g x y)) → (∀ x, P x → Q x) →
  TotalCompare Q g → TotalCompare P f.
Proof.
  intros Hfg HPQ [H1 H2 H3]. split.
  - intros x Hx. apply Z.sgn_null_iff. rewrite Hfg, (H1 x) by auto. done.
  - intros x y Hx Hy. rewrite !Hfg by done. auto.
  - intros x y t Hx Hy Ht E1 E2.
    assert (Hs : ∀ x y, P x → P y → f x y ≤ 0 ↔ g x y ≤ 0).
    { intros a b Ha Hb. specialize (Hfg a b Ha Hb). lia. }
    rewrite Hs in * by done. eauto.
Qed.

(** The comparison by a key. *)
Instance TotalCompare_key {A} (k : A → Z) : TotalCompare (λ _, True) (λ x y, k x - k y).
Proof. split; intros; lia. Qed.

(** The comparison of the images under a function. *)
Lemma TotalCompare_map {A B} (P : A → Prop) (Q : B → Prop) (h : A → B) g :
  (∀ x, P x → Q (h x)) → TotalCompare Q g → TotalCompare P (λ x y, g (h x) (h y)).
Proof.
  intros Hh [H1 H2 H3]. split; [auto|auto|].
  intros x y t Hx Hy Ht. apply H3; auto.
Qed.

(** By a first key, and among equal keys by another comparison. *)
Lemma TotalCompare_lex {A} (P : A → Prop) (k : A → Z) (g : A → A → Z) :
  (∀ i, TotalCompare (λ x, P x ∧ k x = i) g) →
  TotalCompare P (λ x y, if k x =? k y then g x y else k x - k y).
Proof.
  intros Hg. split.
  - intros x Hx. rewrite Z.eqb_refl. by apply (cmp_refl (TotalCompare := Hg (k x))).
  - intros x y Hx Hy. rewrite (Z.eqb_sym (k y)). case_test; breflect; [|lia].
    by apply (cmp_antisym (TotalCompare := Hg (k y))).
  - intros x y t Hx Hy Ht. repeat case_test; breflect; intros ??; try lia.
    eapply (cmp_trans (TotalCompare := Hg (k t)) x y t); (done || (split; [done|congruence])).
Qed.

(** Byte strings, the shorter first when it is a prefix of the other. *)
Fixpoint lex (a b : list Z) : Z :=
  match a, b with
  | [], [] => 0
  | [], _ => -1
  | _, [] => 1
  | x :: a, y :: b => if x =? y then lex a b else x - y
  end.

Instance lex_order : TotalCompare (λ _, True) lex.
Proof.
  split.
  - intros a _. induction a; cbn; [done|]. by rewrite Z.eqb_refl.
  - intros a. induction a as [|x a IH]; intros [|y b] _ _; cbn; try done.
    rewrite (Z.eqb_sym y). case_test; breflect; [by apply IH|lia].
  - intros a. induction a as [|x a IH]; intros [|y b] [|w t] _ _ _; cbn; try lia.
    repeat case_test; breflect; try lia. by apply IH.
Qed.

Lemma memcmp_lex a b k :
  (k ≤ length a)%nat → (k ≤ length b)%nat →
  memcmp a b k = lex (take k a) (take k b).
Proof.
  revert a b. induction k as [|k IH]; intros [|x a] [|y b]; cbn [length]; try lia; try done.
  intros Ha Hb. cbn. change (Z.to_nat 0) with 0%nat. cbn.
  case_test; [apply IH; lia|done].
Qed.

(** Comparing the common length first, and then the lengths. *)
Lemma lex_lengths a b :
  Z.sgn (lex a b) =
  Z.sgn (let rc := lex (take (min (length a) (length b)) a) (take (min (length a) (length b)) b) in
         if rc =? 0 then Z.of_nat (length a) - Z.of_nat (length b) else rc).
Proof.
  revert b. induction a as [|x a IH]; intros [|y b]; try done.
  cbn [length min take lex]. case_test; breflect; [rewrite IH|]; cbv zeta.
  - repeat case_test; breflect; lia.
  - case_test; breflect; lia.
Qed.

Lemma memcmp_order n1 z1 n2 z2 :
  0 ≤ n1 ≤ Z.of_nat (length z1) → 0 ≤ n2 ≤ Z.of_nat (length z2) →
  Z.sgn (let rc := memcmp z1 z2 (Z.to_nat (Z.min n1 n2)) in if rc =? 0 then n1 - n2 else rc)
  = Z.sgn (lex (take (Z.to_nat n1) z1) (take (Z.to_nat n2) z2)).
Proof.
  intros H1 H2. rewrite lex_lengths, !length_take, !(Nat.min_l _ (length _)) by lia. cbv zeta.
  replace (Z.to_nat n1 `min` Z.to_nat n2)%nat with (Z.to_nat (Z.min n1 n2)) by lia.
  rewrite memcmp_lex, !take_take, !(Nat.min_l (Z.to_nat (Z.min _ _))), !Z2Nat.id by lia. done.
Qed.

(** ** Doubles in order *)

(** The bits of a double but its sign, with the sign: the order of the doubles is
    the one of these integers. *)
Definition real_key (b : Z) : Z :=
  let k := b mod 2 ^ 63 in if Z.testbit b 63 then - k else k.

(** A double from its fields. *)
Definition double_fields (s : bool) (e m : Z) : spec_float :=
  if e =? 0x7ff then (if m =? 0 then S754_infinity s else S754_nan)
  else if e =? 0 then match m with Zpos p => S754_finite s p (-1074) | _ => S754_zero s end
  else match m + 2 ^ 52 with Zpos p => S754_finite s p (e - 1075) | _ => S754_nan end.

Lemma double_split b : ∃ s e m,
  double b = double_fields s e m ∧ real_key b = (if s : bool then - (e * 2 ^ 52 + m) else e * 2 ^ 52 + m)
  ∧ 0 ≤ e < 2 ^ 11 ∧ 0 ≤ m < 2 ^ 52.
Proof.
  exists (Z.testbit b 63), (Z.land (Z.shiftr b 52) 0x7ff), (Z.land b (Z.ones 52)).
  split; [done|].
  rewrite Z.land_ones by lia.
  rewrite (Z.land_ones (Z.shiftr b 52) 11 ltac:(lia) : Z.land (Z.shiftr b 52) 0x7ff = _).
  rewrite Z.shiftr_div_pow2 by lia. unfold real_key.
  split; [|split; apply Z.mod_pos_bound; lia].
  assert (E : b mod 2 ^ 63 = (b / 2 ^ 52) mod 2 ^ 11 * 2 ^ 52 + b mod 2 ^ 52); [|by rewrite E].
  change (2 ^ 63) with (2 ^ 52 * 2 ^ 11). rewrite Z.rem_mul_r by lia. lia.
Qed.

(** The three shapes of a double that is not NaN, with the magnitude of its key. *)
Inductive shape (s : bool) : spec_float → Z → Prop :=
| shape_zero : shape s (S754_zero s) 0
| shape_finite p e : 1 ≤ e < 2047 → Z.pos p < 2 ^ 53 → (e = 1 ∨ 2 ^ 52 ≤ Z.pos p) →
    shape s (S754_finite s p (e - 1075)) ((e - 1) * 2 ^ 52 + Z.pos p)
| shape_infinity : shape s (S754_infinity s) (2047 * 2 ^ 52).

Lemma fields_shape s e m :
  0 ≤ e < 2 ^ 11 → 0 ≤ m < 2 ^ 52 → double_fields s e m ≠ S754_nan →
  shape s (double_fields s e m) (e * 2 ^ 52 + m).
Proof.
  intros He Hm. unfold double_fields.
  destruct (Z.eqb_spec e 0x7ff) as [->|H7]; [destruct (Z.eqb_spec m 0) as [->|]; [|done]|].
  { intros _. constructor. }
  destruct (Z.eqb_spec e 0) as [->|H0]; intros _.
  - destruct m as [|p|p]; [constructor| |lia].
    apply (shape_finite s p 1); lia.
  - destruct (m + 2 ^ 52) as [|p|p] eqn:E; try lia.
    replace (e * 2 ^ 52 + m) with ((e - 1) * 2 ^ 52 + Z.pos p) by lia. constructor; lia.
Qed.

Ltac compare_cases :=
  f_equal; symmetry;
  first [apply Z.compare_eq_iff; lia|apply Z.compare_lt_iff; lia|apply Z.compare_gt_iff; lia].

Lemma shape_compare s1 f1 k1 s2 f2 k2 :
  shape s1 f1 k1 → shape s2 f2 k2 →
  SFcompare f1 f2 = Some ((if s1 then - k1 else k1) ?= (if s2 then - k2 else k2)).
Proof.
  intros H1 H2. destruct H1 as [|p1 e1 He1 Hp1 Hn1|], H2 as [|p2 e2 He2 Hp2 Hn2|].
  5:{ unfold SFcompare. change (Pos.compare_cont Eq p1 p2) with (p1 ?= p2)%positive.
      change (p1 ?= p2)%positive with (Z.pos p1 ?= Z.pos p2).
      destruct s1, s2, (Z.compare_spec (e1 - 1075) (e2 - 1075));
        try destruct (Z.compare_spec (Z.pos p1) (Z.pos p2)); cbn [CompOpp]; compare_cases. }
  all: destruct s1, s2; cbn [SFcompare]; compare_cases.
Qed.

Lemma real_compare a b :
  double a ≠ S754_nan → double b ≠ S754_nan →
  SFcompare (double a) (double b) = Some (real_key a ?= real_key b).
Proof.
  destruct (double_split a) as (s1&e1&m1&->&->&?&?), (double_split b) as (s2&e2&m2&->&->&?&?).
  intros Ha Hb. by apply shape_compare; apply fields_shape.
Qed.

Lemma isNaN_spec b : sqlite3IsNaN b = true ↔ double b = S754_nan.
Proof.
  unfold sqlite3IsNaN, SFeqb. split.
  - intros H. destruct (double b) eqn:E; [..|done|]; rewrite <- E, real_compare in H by congruence.
    all: by rewrite Z.compare_refl in H.
  - by intros ->.
Qed.

(** ** Values in order *)

(** The class of a cell: NULL, number, text, blob. *)
Definition rank (m : Mem) : Z :=
  if has m MEM_Null then 0 else if has m MEM_Int || has m MEM_Real then 1
  else if has m MEM_Str then 2 else 3.

(** The bytes of a cell lie in its memory. *)
Definition bytes_ok (m : Mem) : Prop := 0 ≤ m_n m ≤ Z.of_nat (length (m_z m)).

(** A collating function orders the texts in memory. *)
Definition collating (c : CollSeq) : Prop :=
  TotalCompare bytes_ok (λ a b, xCmp c (m_n a) (m_z a) (m_n b) (m_z b)).

(** Cells that can be compared with one another: their numbers are all integers or
    all doubles, a double is not NaN, a text has the encoding of the collation. *)
Record comparable (real : bool) (pColl : option CollSeq) (m : Mem) : Prop := {
  co_bytes : bytes_ok m;
  co_number : has m (if real then MEM_Int else MEM_Real) = false;
  co_nan : has m MEM_Real = true → sqlite3IsNaN (m_r m) = false;
  co_enc : ∀ c, pColl = Some c → has m MEM_Str = true → m_enc m = c_enc c;
}.

Lemma bytes_order :
  TotalCompare (λ _, True) (λ a b, lex (take (Z.to_nat (m_n a)) (m_z a)) (take (Z.to_nat (m_n b)) (m_z b))).
Proof.
  exact (TotalCompare_map (λ _, True) (λ _, True) (λ a, take (Z.to_nat (m_n a)) (m_z a)) lex
           (λ _ H, H) lex_order).
Qed.

Lemma binColl_order e : collating (BINARY e).
Proof.
  eapply (TotalCompare_sgn bytes_ok (λ _, True) _ (λ a b, lex (take (Z.to_nat (m_n a)) (m_z a))
            (take (Z.to_nat (m_n b)) (m_z b)))); [|done|].
  - intros a b Ha Hb. rewrite <- memcmp_order by done. cbn. unfold binCollFunc.
    replace (Z.to_nat (if m_n a <? m_n b then m_n a else m_n b))
      with (Z.to_nat (Z.min (m_n a) (m_n b))) by (destruct (Z.ltb_spec (m_n a) (m_n b)); lia).
    reflexivity.
  - apply bytes_order.
Qed.

Lemma blob_order : TotalCompare bytes_ok compare_blob.
Proof.
  eapply (TotalCompare_sgn bytes_ok (λ _, True) _ (λ a b, lex (take (Z.to_nat (m_n a)) (m_z a))
            (take (Z.to_nat (m_n b)) (m_z b)))); [|done|].
  - intros a b Ha Hb. rewrite <- memcmp_order by done. unfold compare_blob.
    replace (Z.to_nat (if m_n b <? m_n a then m_n b else m_n a))
      with (Z.to_nat (Z.min (m_n a) (m_n b))) by (destruct (Z.ltb_spec (m_n b) (m_n a)); lia).
    reflexivity.
  - apply bytes_order.
Qed.

(** Numbers of one kind have a key. *)
Definition number_key (m : Mem) : Z := if has m MEM_Real then real_key (m_r m) else u_i m.

Lemma numbers_key real pColl a b :
  comparable real pColl a → comparable real pColl b →
  has a MEM_Int || has a MEM_Real = true → has b MEM_Int || has b MEM_Real = true →
  Z.sgn (compare_numbers a b) = Z.sgn (number_key a - number_key b).
Proof.
  intros [_ Ha Hna _] [_ Hb Hnb _] Ea Eb. unfold compare_numbers, number_key, as_double.
  destruct real.
  - rewrite Ha, Hb in *. cbn in Ea, Eb. rewrite Ea, Eb. cbn [andb].
    assert (∀ x, sqlite3IsNaN x = false → double x ≠ S754_nan)
      by (intros x Hx; rewrite <- isNaN_spec; congruence).
    unfold SFltb. rewrite !real_compare by auto.
    destruct (Z.compare_spec (real_key (m_r a)) (real_key (m_r b)));
      destruct (Z.compare_spec (real_key (m_r b)) (real_key (m_r a))); lia.
  - rewrite Ha, Hb in *. rewrite orb_false_r in Ea, Eb. rewrite Ea, Eb. cbn [andb].
    repeat case_test; breflect; lia.
Qed.

(** The comparison goes by the class first. *)
Lemma compare_rank oom a b pColl :
  Z.sgn (sqlite3MemCompare oom a b pColl)
  = Z.sgn (if rank a =? rank b then
             if rank a =? 0 then 0
             else if rank a =? 1 then compare_numbers a b
             else if rank a =? 2 then
               match pColl with Some c => compare_text oom a b c | None => compare_blob a b end
             else compare_blob a b
           else rank a - rank b).
Proof.
  assert (Hn : ∀ m, Z.land (m_flags m) MEM_Null = if has m MEM_Null then 1 else 0).
  { intros m. unfold has. pose proof (land_pow2_eqb (m_flags m) 0 ltac:(lia)) as E.
    change (2 ^ 0) with MEM_Null in E. rewrite E, negb_involutive. apply Z.bits_inj'. intros i Hi.
    rewrite Z.land_spec. destruct (Z.eq_dec i 0) as [->|].
    - destruct (Z.testbit (m_flags m) 0); done.
    - replace (Z.testbit MEM_Null i) with false.
      + rewrite andb_false_r. destruct (Z.testbit (m_flags m) 0); [|by rewrite Z.bits_0].
        symmetry. apply (testbit_above 1 1 i); lia.
      + symmetry. apply (testbit_above 1 1 i); unfold MEM_Null; lia. }
  unfold sqlite3MemCompare, rank. rewrite !Hn. cbv zeta.
  destruct (has a MEM_Null), (has b MEM_Null); cbn [orb]; try reflexivity.
  - destruct (has b MEM_Int || has b MEM_Real), (has b MEM_Str); done.
  - destruct (has a MEM_Int || has a MEM_Real), (has a MEM_Str); done.
  - unfold compare_numbers at 1, as_double.
    destruct (has a MEM_Int) eqn:Ai, (has a MEM_Real) eqn:Ar, (has b MEM_Int) eqn:Bi,
      (has b MEM_Real) eqn:Br; cbn [orb andb]; cbn [Z.eqb];
      try (unfold compare_numbers, as_double; rewrite ?Ai, ?Ar, ?Bi, ?Br; reflexivity);
      destruct (has a MEM_Str), (has b MEM_Str); reflexivity.
Qed.
Lemma rank_number m : rank m = 1 → has m MEM_Int || has m MEM_Real = true.
Proof. unfold rank. repeat case_test; done. Qed.
Lemma rank_text m : rank m = 2 → has m MEM_Str = true.
Proof. unfold rank. repeat case_test; done. Qed.

Lemma class_order real pColl oom i :
  (∀ c, pColl = Some c → collating c) →
  TotalCompare (λ m, comparable real pColl m ∧ rank m = i)
    (λ a b, if rank a =? 0 then 0
            else if rank a =? 1 then compare_numbers a b
            else if rank a =? 2 then
              match pColl with Some c => compare_text oom a b c | None => compare_blob a b end
            else compare_blob a b).
Proof.
  intros Hc.
  assert (Hblob : ∀ g, (∀ a b, rank a = i → g a b = compare_blob a b) →
    TotalCompare (λ m, comparable real pColl m ∧ rank m = i) g).
  { intros g Hg. eapply (TotalCompare_sgn _ bytes_ok); [|by intros m [[]]|apply blob_order].
    intros a b [_ Ha] _. by rewrite Hg. }
  destruct (Z.eq_dec i 0) as [->|H0]; [|destruct (Z.eq_dec i 1) as [->|H1];
    [|destruct (Z.eq_dec i 2) as [->|H2]]].
  - split; intros; try lia; repeat match goal with H : _ ∧ rank _ = _ |- _ => destruct H as [_ H]; rewrite H end; done.
  - eapply (TotalCompare_sgn _ (λ _, True)); [|done|apply (TotalCompare_key number_key)].
    intros a b [Ca Ra] [Cb Rb]. rewrite Ra. cbn [Z.eqb].
    eapply numbers_key; eauto using rank_number.
  - destruct pColl as [c|]; [|apply Hblob; intros a b ->; done].
    eapply (TotalCompare_sgn _ bytes_ok); [|by intros m [[]]|apply (Hc c eq_refl)].
    intros a b [Ca Ra] [Cb Rb]. rewrite Ra. cbn [Z.eqb Pos.eqb]. unfold compare_text.
    rewrite (co_enc _ _ _ Ca c eq_refl (rank_text _ Ra)), Z.eqb_refl. done.
  - apply Hblob. intros a b ->.
    rewrite (proj2 (Z.eqb_neq i 0)), (proj2 (Z.eqb_neq i 1)), (proj2 (Z.eqb_neq i 2)) by done. done.
Qed.

(** The comparison of values is a total preorder: NULL before numbers, before
    texts, before blobs; numbers numerically, texts by the collation, blobs byte by
    byte.  It holds of cells whose numbers are all integers or all doubles, for
    every collation that orders its texts, as BINARY does. *)
Theorem mem_compare_order real pColl oom :
  (∀ c, pColl = Some c → collating c) →
  TotalCompare (comparable real pColl) (λ a b, sqlite3MemCompare oom a b pColl) ∧
  (∀ e, collating (BINARY e)) ∧
  (∀ a b, rank a < rank b → sqlite3MemCompare oom a b pColl < 0) ∧
  (∀ a b, rank a = 1 → rank b = 1 → comparable real pColl a → comparable real pColl b →
     (sqlite3MemCompare oom a b pColl < 0 ↔ number_key a < number_key b)).
Proof.
  intros Hc. split_and!.
  - eapply (TotalCompare_sgn _ (comparable real pColl)); [intros a b _ _; apply compare_rank|done|].
    apply TotalCompare_lex. intros i. by apply class_order.
  - apply binColl_order.
  - intros a b H. pose proof (compare_rank oom a b pColl) as E.
    rewrite (proj2 (Z.eqb_neq _ _)) in E by lia. lia.
  - intros a b Ra Rb Ca Cb. pose proof (compare_rank oom a b pColl) as E. rewrite Ra, Rb in E.
    pose proof (numbers_key real pColl a b Ca Cb (rank_number _ Ra) (rank_number _ Rb)) as E'.
    cbn [Z.eqb Pos.eqb] in E. lia.
Qed.

(** The comparison is not an order when integers meet doubles, nor under the
    collation RTRIM: there are an integer equal to a double that is equal to a
    greater integer, and a text equal to a text smaller than a third one that the
    first is greater than. *)
Theorem mem_compare_not_transitive :
  let cmp c a b := sqlite3MemCompare (λ _, false) a b c in
  (∃ a b d, cmp None a b = 0 ∧ cmp None b d = 0 ∧ cmp None a d = -1) ∧
  (let rtrim := Some (mkCollSeq SQLITE_UTF8 (binCollFunc true)) in
   ∃ a b d, cmp rtrim a b = 0 ∧ cmp rtrim b d < 0 ∧ 0 < cmp rtrim a d).
Proof.
  split.
  - exists (cell_int (2 ^ 53)), (cell_real 0x4340000000000000), (cell_int (2 ^ 53 + 1)).
    vm_compute. done.
  - exists (cell_text [97; 32; 32]), (cell_text [97]), (cell_text [97; 1]). vm_compute. done.
Qed.

(** Witness: two doubles and a text under BINARY. *)
Lemma mem_compare_order_witness :
  TotalCompare (comparable true (Some (BINARY SQLITE_UTF8)))
    (λ a b, sqlite3MemCompare (λ _, false) a b (Some (BINARY SQLITE_UTF8))) ∧
  sqlite3MemCompare (λ _, false) (cell_real 0xBFF0000000000000) (cell_text [97])
    (Some (BINARY SQLITE_UTF8)) < 0.
Proof.
  destruct (mem_compare_order true (Some (BINARY SQLITE_UTF8)) (λ _, false)) as (H1&_&H2&_).
  - intros c [= <-]. apply binColl_order.
  - split; [exact H1|]. apply H2. vm_compute. reflexivity.
Defined.
