(* ===== verification/SqlRecord.v ===== *)
(** * The record format

    Models how src/org.glite.wms.ice/src/iceDb/sqlite/sqlite3.c stores the values
    of a row or of an index entry as a sequence of bytes: the serial types and the
    serialised values of vdbeaux.c, the instruction OP_MakeRecord of vdbe.c that
    builds a record, the decoding of a record, the comparison of a record with a
    decoded one without decoding it first, and the reading of the row identifier at
    the end of an index entry. *)

From S2P Require Import Prelude.
From S2P Require Import Machine.
From S2P Require Import SqlUtil.
From S2P Require Import SqlVarint.
From S2P Require Import SqlMem.

(** ** Serial types *)

Definition MAX_6BYTE : Z := Z.shiftl 0x00008000 32 - 1.

(** [sqlite3VdbeSerialType] *)
Definition sqlite3VdbeSerialType (pMem : Mem) (file_format : Z) : Z :=
  if has pMem MEM_Null then 0
  else if has pMem MEM_Int then
    let i := u_i pMem in
    if (i <? 0) && (i <? - MAX_6BYTE) then 6
    else
      let u := u64 (if i <? 0 then - i else i) in
      if u <=? 127 then
        if (Z.land i 1 =? i) && (4 <=? file_format) then 8 + u32 u else 1
      else if u <=? 32767 then 2
      else if u <=? 8388607 then 3
      else if u <=? 2147483647 then 4
      else if u <=? MAX_6BYTE then 5
      else 6
  else if has pMem MEM_Real then 7
  else
    let n := if has pMem MEM_Zero then m_n pMem + u_nZero pMem else m_n pMem in
    u32 (n * 2 + 12 + (if has pMem MEM_Str then 1 else 0)).

(** [sqlite3VdbeSerialTypeLen] *)
Definition sqlite3VdbeSerialTypeLen (serial_type : Z) : Z :=
  if 12 <=? serial_type then (serial_type - 12) / 2
  else nth (Z.to_nat serial_type) [0; 1; 2; 3; 4; 6; 8; 8; 0; 0; 0; 0] 0.

(** The loop of [sqlite3VdbeSerialPut] on an integer or a double: from the last of
    [i] bytes to the first. *)
Fixpoint serial_put_loop (i : nat) (v : Z) (buf : list Z) : list Z :=
  match i with
  | O => buf
  | S i => serial_put_loop i (Z.shiftr v 8) (u8 (Z.land v 0xFF) :: buf)
  end.

(** [sqlite3VdbeSerialPut]: the bytes it writes to a buffer of [nBuf]; the result is
    their number. *)
Definition sqlite3VdbeSerialPut (nBuf : Z) (pMem : Mem) (file_format : Z) : list Z :=
  let serial_type := sqlite3VdbeSerialType pMem file_format in
  if (serial_type <=? 7) && (0 <? serial_type) then
    let v := u64 (if serial_type =? 7 then m_r pMem else u_i pMem) in
    serial_put_loop (Z.to_nat (sqlite3VdbeSerialTypeLen serial_type)) v []
  else if 12 <=? serial_type then
    let prefix := take (Z.to_nat (m_n pMem)) (m_z pMem) in
    if has pMem MEM_Zero then
      let len := u32 (m_n pMem + u_nZero pMem) in
      let len := if u32 nBuf <? len then u32 nBuf else len in
      prefix ++ replicate (Z.to_nat (len - m_n pMem)) 0
    else prefix
  else [].

Definition set_int (i : Z) (pMem : Mem) : Mem := set_flags MEM_Int (set_u (U_i i) pMem).

(** The 64 bits of [buf[0..7]] *)
Definition get_u64 (buf : list Z) : Z :=
  let word i := Z.lor (Z.lor (Z.lor (Z.shiftl (at_ buf i) 24) (Z.shiftl (at_ buf (i + 1)) 16))
                          (Z.shiftl (at_ buf (i + 2)) 8)) (at_ buf (i + 3)) in
  let x := u64 (i32 (word 0)) in
  let y := u32 (word 4) in
  Z.lor (u64 (Z.shiftl x 32)) y.

(** [sqlite3VdbeSerialGet]: the number of bytes read, and the cell. *)
Definition sqlite3VdbeSerialGet (buf : list Z) (serial_type : Z) (pMem : Mem) : Z * Mem :=
  let b := at_ buf in
  if (serial_type =? 0) || (serial_type =? 10) || (serial_type =? 11) then
    (0, set_flags MEM_Null pMem)
  else if serial_type =? 1 then (1, set_int (i8 (b 0)) pMem)
  else if serial_type =? 2 then (2, set_int (Z.lor (Z.shiftl (i8 (b 0)) 8) (b 1)) pMem)
  else if serial_type =? 3 then
    (3, set_int (Z.lor (Z.lor (Z.shiftl (i8 (b 0)) 16) (Z.shiftl (b 1) 8)) (b 2)) pMem)
  else if serial_type =? 4 then
    (4, set_int (i32 (Z.lor (Z.lor (Z.lor (Z.shiftl (b 0) 24) (Z.shiftl (b 1) 16))
                              (Z.shiftl (b 2) 8)) (b 3))) pMem)
  else if serial_type =? 5 then
    let x := u64 (Z.lor (Z.shiftl (i8 (b 0)) 8) (b 1)) in
    let y := u32 (Z.lor (Z.lor (Z.lor (Z.shiftl (b 2) 24) (Z.shiftl (b 3) 16))
                           (Z.shiftl (b 4) 8)) (b 5)) in
    (6, set_int (i64 (Z.lor (u64 (Z.shiftl x 32)) y)) pMem)
  else if serial_type =? 6 then (8, set_int (i64 (get_u64 buf)) pMem)
  else if serial_type =? 7 then
    let x := get_u64 buf in
    (8, set_flags (if sqlite3IsNaN x then MEM_Null else MEM_Real) (set_r x pMem))
  else if (serial_type =? 8) || (serial_type =? 9) then (0, set_int (serial_type - 8) pMem)
  else
    let len := (serial_type - 12) / 2 in
    let f := if Z.land serial_type 1 =? 0 then Z.lor MEM_Blob MEM_Ephem
             else Z.lor MEM_Str MEM_Ephem in
    (len, set_flags f (set_n len (set_z buf pMem))).

(** ** [OP_MakeRecord] *)

Section make_record.
(** [applyAffinity]: the conversion of a register to the affinity of its column, which
    goes through the number and text routines that are not modelled. *)
Context (applyAffinity : Z → Mem → Mem).

(** The first loop on one register: its affinity, and the expansion of a blob that
    has both a prefix and a zero-filled tail; [ok] says that there is memory for it. *)
Definition prepare_field (zAffinity : option Z) (ok : bool) (pRec : Mem) : Mem :=
  let pRec := match zAffinity with Some a => applyAffinity a pRec | None => pRec end in
  if has pRec MEM_Zero && (0 <? m_n pRec) then (sqlite3VdbeMemExpandBlob pRec ok).2 else pRec.

Fixpoint prepare_fields (zAffinity : option (list Z)) (o : list bool) (pData : list Mem) : list Mem :=
  match pData with
  | [] => []
  | pRec :: rest =>
      prepare_field ((λ z, at_ z 0) <$> zAffinity) (default true (head o)) pRec
      :: prepare_fields (tail <$> zAffinity) (tail o) rest
  end.
End make_record.

(** The sizes the first loop adds up: [nData], [nHdr] and [nZero]. *)
Fixpoint record_sizes (file_format : Z) (pData : list Mem) (nData nHdr nZero : Z) : Z * Z * Z :=
  match pData with
  | [] => (nData, nHdr, nZero)
  | pRec :: rest =>
      let serial_type := sqlite3VdbeSerialType pRec file_format in
      let len := sqlite3VdbeSerialTypeLen serial_type in
      record_sizes file_format rest (u64 (nData + len)) (nHdr + sqlite3VarintLen serial_type)
        (if has pRec MEM_Zero then nZero + u_nZero pRec
         else if len =? 0 then nZero else 0)
  end.

(** The header size, with its own varint. *)
Definition header_size (nHdr : Z) : Z :=
  let nVarint := sqlite3VarintLen nHdr in
  let nHdr := nHdr + nVarint in
  if nVarint <? sqlite3VarintLen nHdr then nHdr + 1 else nHdr.

(** The last loop: the data of the registers, in what is left of the buffer. *)
Fixpoint put_data (file_format nByte i : Z) (pData : list Mem) : list Z :=
  match pData with
  | [] => []
  | pRec :: rest =>
      let d := sqlite3VdbeSerialPut (i32 (nByte - i)) pRec file_format in
      d ++ put_data file_format nByte (i + Z.of_nat (length d)) rest
  end.

Inductive made :=
| Made (pOut : Mem)
| TooBig
| NoMem.

(** The record of the registers [pData], which the first loop has prepared. *)
Definition build_record (limit file_format : Z) (ok : bool) (pOut : Mem) (pData : list Mem) : made :=
  let '(nData, nHdr, nZero) := record_sizes file_format pData 0 0 0 in
  let nHdr := header_size nHdr in
  let nByte := i64 (u64 (nHdr + nData - nZero)) in
  if limit <? nByte then TooBig
  else
    let '(rc, pOut) := sqlite3VdbeMemGrow pOut (i32 nByte) false ok in
    if negb rc then NoMem
    else
      let header := putVarint32 nHdr ++
        concat (map (λ pRec, putVarint32 (sqlite3VdbeSerialType pRec file_format)) pData) in
      let zNewRecord := header ++ put_data file_format nByte (Z.of_nat (length header)) pData in
      let pOut := set_flags (Z.lor MEM_Blob MEM_Dyn) (set_n (i32 nByte) (set_z zNewRecord pOut)) in
      let pOut := if nZero =? 0 then pOut
                  else set_flags (Z.lor (m_flags pOut) MEM_Zero) (set_u (U_nZero nZero) pOut) in
      Made (set_enc SQLITE_UTF8 pOut).

(** The instruction: the registers afterwards, and the record. *)
Definition OP_MakeRecord (applyAffinity : Z → Mem → Mem) (limit file_format : Z)
    (zAffinity : option (list Z)) (o : list bool) (ok : bool) (pOut : Mem) (pData : list Mem)
    : list Mem * made :=
  let pData := prepare_fields applyAffinity zAffinity o pData in
  (pData, build_record limit file_format ok pOut pData).

(** ** Decoding and comparison *)

(** [struct KeyInfo] *)
Record KeyInfo := mkKeyInfo {
  k_enc : Z;
  k_nField : Z;
  aColl : list (option CollSeq);
  aSortOrder : list bool;
}.

Definition UNPACKED_INCRKEY : Z := 0x01.
Definition UNPACKED_PREFIX_MATCH : Z := 0x02.
Definition UNPACKED_PREFIX_SEARCH : Z := 0x04.

(** [struct UnpackedRecord], with its [nField] cells. *)
Record UnpackedRecord := mkUnpacked {
  pKeyInfo : KeyInfo;
  p_flags : Z;
  rowid : Z;
  aMem : list Mem;
}.

(** The fields of the record [aKey] of [nKey] bytes, at most one per cell of [cells]. *)
Fixpoint unpack_loop (e : Z) (nKey : Z) (aKey : list Z) (szHdr idx d : Z) (cells : list Mem)
    : list Mem :=
  match cells with
  | [] => []
  | pMem :: cells =>
      if (idx <? szHdr) && (d <=? nKey) then
        let '(serial_type, k) := getVarint32 (drop (Z.to_nat idx) aKey) in
        let '(len, pMem) :=
          sqlite3VdbeSerialGet (drop (Z.to_nat d) aKey) serial_type (set_enc e pMem) in
        pMem :: unpack_loop e nKey aKey szHdr (u32 (idx + k)) (i32 (d + len)) cells
      else []
  end.

(** [sqlite3VdbeRecordUnpack] into the cells of [p]. *)
Definition sqlite3VdbeRecordUnpack (pKeyInfo : KeyInfo) (nKey : Z) (aKey : list Z)
    (p : UnpackedRecord) : UnpackedRecord :=
  let '(szHdr, idx) := getVarint32 aKey in
  mkUnpacked (SqlRecord.pKeyInfo p) 0 (rowid p)
    (unpack_loop (k_enc pKeyInfo) nKey aKey szHdr idx (i32 szHdr) (aMem p)).

(** The loop of [sqlite3VdbeRecordCompare] on the cells of the right key, from
    [aMem[i]] on: [inl] is the return inside the loop, with the right key as it is
    left, and [inr] the header index at the end of the loop. *)
Section compare_loop.
Context (oom : list Z → bool) (nKey1 : Z) (aKey1 : list Z) (szHdr1 : Z) (pPKey2 : UnpackedRecord).

Fixpoint compare_loop (idx1 d1 : Z) (i : nat) (mem1 : Mem) (cells : list Mem)
    : (Z * UnpackedRecord) + Z :=
  match cells with
  | [] => inr idx1
  | pMem2 :: cells =>
      if negb (idx1 <? szHdr1) then inr idx1
      else
        let '(serial_type1, k) := getVarint32 (drop (Z.to_nat idx1) aKey1) in
        let idx1 := u32 (idx1 + k) in
        if (u32 nKey1 <? u32 (d1 + serial_type1 + 2))
           && (u32 nKey1 <? u32 (d1 + sqlite3VdbeSerialTypeLen serial_type1))
        then inr idx1
        else
          let '(len, mem1) :=
            sqlite3VdbeSerialGet (drop (Z.to_nat d1) aKey1) serial_type1 mem1 in
          let rc := sqlite3MemCompare oom mem1 pMem2
                      (default None (aColl (pKeyInfo pPKey2) !! i)) in
          if rc =? 0 then compare_loop idx1 (u32 (d1 + len)) (S i) mem1 cells
          else
            let rc := if default false (aSortOrder (pKeyInfo pPKey2) !! i) then - rc else rc in
            inl (rc,
              if negb (Z.land (p_flags pPKey2) UNPACKED_PREFIX_SEARCH =? 0)
                 && (i =? length (aMem pPKey2) - 1)%nat
              then mkUnpacked (pKeyInfo pPKey2)
                     (Z.land (p_flags pPKey2) (Z.lnot UNPACKED_PREFIX_SEARCH)) (u_i mem1)
                     (aMem pPKey2)
              else pPKey2)
  end.
End compare_loop.

(** [sqlite3VdbeRecordCompare]; [mem1] is what the cell on the stack holds at first. *)
Definition sqlite3VdbeRecordCompare (oom : list Z → bool) (mem1 : Mem) (nKey1 : Z) (aKey1 : list Z)
    (pPKey2 : UnpackedRecord) : Z * UnpackedRecord :=
  let mem1 := set_enc (k_enc (pKeyInfo pPKey2)) mem1 in
  let '(szHdr1, idx1) := getVarint32 aKey1 in
  match compare_loop oom nKey1 aKey1 szHdr1 pPKey2 idx1 szHdr1 0 mem1 (aMem pPKey2) with
  | inl r => r
  | inr idx1 =>
      (if negb (Z.land (p_flags pPKey2) UNPACKED_INCRKEY =? 0) then -1
       else if negb (Z.land (p_flags pPKey2) UNPACKED_PREFIX_MATCH =? 0) then 0
       else if idx1 <? szHdr1 then 1 else 0, pPKey2)
  end.

Definition SQLITE_OK : Z := 0.
Definition SQLITE_CORRUPT : Z := 11.

(** [sqlite3VdbeIdxRowid] on the index entry that was read from the b-tree, or the
    error of the reading; the row identifier is written when the code is SQLITE_OK. *)
Definition sqlite3VdbeIdxRowid (entry : Z + list Z) (v : Mem) : Z * option Z :=
  match entry with
  | inl rc => (rc, None)
  | inr m =>
      let m_n := Z.of_nat (length m) in
      let '(szHdr, _) := getVarint32 m in
      if (szHdr <? 3) || (m_n <? i32 szHdr) then (SQLITE_CORRUPT, None)
      else
        let '(typeRowid, _) := getVarint32 (drop (Z.to_nat (szHdr - 1)) m) in
        if (typeRowid <? 1) || (9 <? typeRowid) || (typeRowid =? 7) then (SQLITE_CORRUPT, None)
        else
          let lenRowid := sqlite3VdbeSerialTypeLen typeRowid in
          if m_n <? u32 (szHdr + lenRowid) then (SQLITE_CORRUPT, None)
          else
            let '(_, v) := sqlite3VdbeSerialGet (drop (Z.to_nat (m_n - lenRowid)) m) typeRowid v in
            (SQLITE_OK, Some (u_i v))
  end.

(** [sqlite3VdbeIdxKeyCompare]: the code, and the result; the size of the entry is
    asked for before it is read. *)
Definition sqlite3VdbeIdxKeyCompare (oom : list Z → bool) (mem1 : Mem) (nCellKey : Z)
    (entry : Z + list Z) (pUnpacked : UnpackedRecord) : Z * option Z :=
  if (nCellKey <=? 0) || (0x7fffffff <? nCellKey) then (SQLITE_CORRUPT, Some 0)
  else match entry with
       | inl rc => (rc, None)
       | inr m =>
           (SQLITE_OK,
            Some (sqlite3VdbeRecordCompare oom mem1 (Z.of_nat (length m)) m pUnpacked).1)
       end.

Definition sample_row : list Mem :=
  [cell_int 5; cell_null; cell_text [104; 105]; cell_real 0x400921FB54442D18; cell_int (-70000);
   cell_int 1; cell_blob [1; 2; 3]; cell_zeros 4].
Definition sample_key : KeyInfo := mkKeyInfo SQLITE_UTF8 7 (replicate 8 None) (replicate 8 false).

Example record_sample :
  match (OP_MakeRecord (λ _ m, m) 1000000000 4 None [] true cell_null sample_row).2 with
  | Made m =>
      m_z m = [9; 1; 0; 17; 7; 3; 9; 18; 20; 5; 104; 105; 64; 9; 33; 251; 84; 68; 45; 24;
               254; 238; 144; 1; 2; 3] ∧
      u_nZero m = 4 ∧
      map value_of (aMem (sqlite3VdbeRecordUnpack sample_key (m_n m + 4) (content m)
        (mkUnpacked sample_key 0 0 (replicate 8 cell_null)))) = map value_of sample_row
  | _ => False
  end.
Proof. vm_compute. done. Qed.
(** ** Integers as bytes *)

(** The number of a sequence of bytes, the most significant first. *)
Definition be_value (l : list Z) : Z := foldl (λ a b, a * 256 + b) 0 l.

Lemma be_value_acc l a : foldl (λ a b, a * 256 + b) a l = a * 256 ^ Z.of_nat (length l) + be_value l.
Proof.
  unfold be_value. revert a. induction l as [|b l IH]; intros a; [cbn; lia|].
  cbn [foldl length]. rewrite IH, (IH (0 * 256 + b)), Nat2Z.inj_succ, Z.pow_succ_r by lia. lia.
Qed.

Lemma put_loop_value k v acc :
  be_value (serial_put_loop k v acc)
  = v mod 256 ^ Z.of_nat k * 256 ^ Z.of_nat (length acc) + be_value acc.
Proof.
  revert v acc. induction k as [|k IH]; intros v acc; cbn [serial_put_loop].
  - cbn. rewrite Z.mod_1_r. lia.
  - rewrite IH. cbn [length]. unfold be_value at 1. cbn [foldl]. rewrite be_value_acc.
    rewrite !Nat2Z.inj_succ, !Z.pow_succ_r by lia. rewrite Z.shiftr_div_pow2 by lia.
    change (Z.land v 0xFF) with (u8 v).
    rewrite (u8_small (u8 v)) by apply u8_range. rewrite u8_mod.
    change (2 ^ 8) with 256. set (P := 256 ^ Z.of_nat k). set (Q := 256 ^ Z.of_nat (length acc)).
    assert (0 < P) by (apply Z.pow_pos_nonneg; lia).
    rewrite Z.rem_mul_r by lia. lia.
Qed.

Lemma put_loop_bytes k v acc : Forall is_byte acc → Forall is_byte (serial_put_loop k v acc).
Proof.
  revert v acc. induction k as [|k IH]; intros v acc Ha; [done|]. apply IH.
  constructor; [apply u8_byte|done].
Qed.

Lemma put_loop_length k v acc : length (serial_put_loop k v acc) = (k + length acc)%nat.
Proof.
  revert v acc. induction k as [|k IH]; intros v acc; [done|]. cbn [serial_put_loop].
  rewrite IH. cbn. lia.
Qed.

(** What [k] bytes are, when they are written from an integer of [64] bits. *)
Lemma put_loop_spec k v :
  let l := serial_put_loop k v [] in
  length l = k ∧ Forall is_byte l ∧ be_value l = v mod 256 ^ Z.of_nat k.
Proof.
  cbv zeta. rewrite put_loop_length, put_loop_value. cbn. split_and!; [lia| |lia].
  by apply put_loop_bytes.
Qed.

(** Disjoint fields. *)
Lemma lor_add a b k : 0 ≤ k → 0 ≤ b < 2 ^ k → Z.lor (Z.shiftl a k) b = a * 2 ^ k + b.
Proof.
  intros Hk Hb. rewrite <- Z.shiftl_mul_pow2 by done.
  assert (Hd : Z.land (Z.shiftl a k) b = 0).
  { apply Z.bits_inj'. intros i Hi. rewrite Z.land_spec, Z.bits_0.
    destruct (Z_lt_le_dec i k).
    - by rewrite Z.shiftl_spec_low.
    - rewrite (testbit_above b k i) by done. apply andb_false_r. }
  rewrite <- Z.lxor_lor by done. symmetry. by apply Z.add_nocarry_lxor.
Qed.

(** A signed integer of [w] bits followed by a byte. *)
Lemma signed_byte w a b : 0 < w → 0 ≤ b < 256 → signed (w + 8) (a * 256 + b) = signed w a * 256 + b.
Proof.
  intros Hw Hb. unfold signed.
  replace (w + 8 - 1) with (w - 1 + 8) by lia. rewrite !Z.pow_add_r by lia.
  change (2 ^ 8) with 256. replace (2 ^ w) with (2 * 2 ^ (w - 1)).
  2:{ rewrite <- Z.pow_succ_r by lia. f_equal. lia. }
  set (P := 2 ^ (w - 1)). assert (0 < P) by (apply Z.pow_pos_nonneg; lia).
  replace (a * 256 + b + P * 256) with (b + (a + P) * 256) by lia.
  rewrite (Z.mul_comm (2 * P) 256), Z.rem_mul_r by lia.
  rewrite Z_mod_plus_full, (Z.mod_small b) by lia.
  rewrite Z.div_add, (Z.div_small b), Z.add_0_l by lia. lia.
Qed.

Lemma signed_mod w a : 0 < w → signed w (a mod 2 ^ w) = signed w a.
Proof. intros Hw. unfold signed. by rewrite Z.add_mod_idemp_l by (apply Z.pow_nonzero; lia). Qed.

Lemma signed_range w a : 0 < w → - 2 ^ (w - 1) ≤ signed w a < 2 ^ (w - 1).
Proof.
  intros Hw. unfold signed. pose proof (Z.pow_pos_nonneg 2 w).
  pose proof (Z.mod_pos_bound (a + 2 ^ (w - 1)) (2 ^ w)).
  replace (2 ^ w) with (2 * 2 ^ (w - 1)) in *; [lia|].
  rewrite <- Z.pow_succ_r by lia. f_equal. lia.
Qed.
(** ** Reading what was written *)

(** Bytes in a list of known length, one by one. *)
Ltac split_bytes l H HF :=
  repeat match type of H with
  | length _ = S _ => destruct l as [|? l]; [discriminate H|injection H as H]; inversion HF; clear HF;
      subst; match goal with HF' : Forall is_byte l |- _ => rename HF' into HF end
  | length _ = O => apply nil_length_inv in H; subst l
  end.

Lemma byte_shift2 a b : is_byte b → Z.lor (Z.shiftl a 8) b = a * 256 + b.
Proof. intros. by rewrite lor_add by (unfold is_byte in *; lia). Qed.

Lemma byte_shift3 a b c :
  is_byte b → is_byte c → Z.lor (Z.lor (Z.shiftl a 16) (Z.shiftl b 8)) c = (a * 256 + b) * 256 + c.
Proof.
  intros Hb Hc. replace 16 with (8 + 8) by lia. rewrite <- Z.shiftl_shiftl, <- Z.shiftl_lor by lia.
  by rewrite !byte_shift2.
Qed.

Lemma byte_shift4 a b c d :
  is_byte b → is_byte c → is_byte d →
  Z.lor (Z.lor (Z.lor (Z.shiftl a 24) (Z.shiftl b 16)) (Z.shiftl c 8)) d
  = ((a * 256 + b) * 256 + c) * 256 + d.
Proof.
  intros Hb Hc Hd. replace 24 with (16 + 8) by lia. replace 16 with (8 + 8) at 2 by lia.
  rewrite <- !Z.shiftl_shiftl, <- !Z.shiftl_lor by lia. by rewrite byte_shift3, byte_shift2.
Qed.

Lemma i64_u64 x : i64 (u64 x) = i64 x.
Proof. rewrite u64_mod. by apply (signed_mod 64). Qed.

(** The two halves of a 64-bit number. *)
Lemma halves a y : 0 ≤ y < 2 ^ 32 → Z.lor (u64 (Z.shiftl a 32)) y = u64 (a * 2 ^ 32 + y).
Proof.
  intros Hy. rewrite !u64_mod, Z.shiftl_mul_pow2 by lia.
  change (2 ^ 64) with (2 ^ 32 * 2 ^ 32). rewrite Z.mul_mod_distr_r by lia.
  rewrite <- Z.shiftl_mul_pow2, lor_add by lia.
  rewrite Z.rem_mul_r, (Z.add_comm (a * 2 ^ 32)), Z.mod_add, Z.div_add by lia.
  rewrite (Z.mod_small y), (Z.div_small y), Z.add_0_l by lia. lia.
Qed.

Definition int_type (t : Z) (k : nat) : Prop :=
  (t, k) ∈ [(1, 1%nat); (2, 2%nat); (3, 3%nat); (4, 4%nat); (5, 6%nat); (6, 8%nat)].

Lemma get_u64_be l rest :
  length l = 8%nat → Forall is_byte l → get_u64 (l ++ rest) = be_value l.
Proof.
  intros Hl HF. split_bytes l Hl HF. unfold get_u64, at_. cbn [app]. cbv zeta.
  change (0 + 1) with 1. change (0 + 2) with 2. change (0 + 3) with 3.
  change (4 + 1) with 5. change (4 + 2) with 6. change (4 + 3) with 7.
  nat_indices. cbn [nth].
  rewrite !byte_shift4 by done. unfold is_byte in *.
  rewrite (u32_small _) by lia. rewrite halves by lia.
  unfold i32. rewrite u64_mod. unfold signed, be_value. cbn [foldl].
  rewrite u64_mod. Z.to_euclidean_division_equations. lia.
Qed.

Lemma get_int t k l rest m :
  int_type t k → length l = k → Forall is_byte l →
  sqlite3VdbeSerialGet (l ++ rest) t m
  = (Z.of_nat k, set_int (signed (8 * Z.of_nat k) (be_value l)) m).
Proof.
  intros Ht Hl HF. unfold int_type in Ht.
  repeat (apply elem_of_cons in Ht as [[= -> ->]|Ht]); [..|by apply not_elem_of_nil in Ht].
  6:{ unfold sqlite3VdbeSerialGet. cbn [Z.eqb Pos.eqb orb]. cbv zeta. by rewrite get_u64_be. }
  all: split_bytes l Hl HF; unfold sqlite3VdbeSerialGet, at_; cbn [Z.eqb Pos.eqb orb app]; cbv zeta;
    nat_indices; cbn [nth]; do 2 f_equal;
    unfold be_value; cbn [foldl]; rewrite Z.mul_0_l, Z.add_0_l.
  - rewrite byte_shift2 by done. symmetry. by apply (signed_byte 8).
  - rewrite byte_shift3 by done. symmetry. rewrite (signed_byte 16) by done.
    by rewrite (signed_byte 8).
  - by rewrite byte_shift4.
  - rewrite byte_shift4, byte_shift2 by done. unfold is_byte in *. rewrite (u32_small _) by lia.
    rewrite <- (signed_byte 8) by lia.
    set (s := signed (8 + 8) (z * 256 + z0)).
    assert (- 2 ^ 15 ≤ s < 2 ^ 15) by (apply (signed_range 16); lia).
    assert (E : Z.lor (u64 (Z.shiftl (u64 s) 32)) (((z1 * 256 + z2) * 256 + z3) * 256 + z4)
                = u64 (s * 2 ^ 32 + (((z1 * 256 + z2) * 256 + z3) * 256 + z4))).
    { rewrite halves by lia. rewrite !u64_mod.
      by rewrite <- Z.add_mod_idemp_l, Z.mul_mod_idemp_l, Z.add_mod_idemp_l by lia. }
    rewrite E, i64_u64. unfold i64. rewrite (signed_small 64) by lia.
    change (8 * Z.of_nat 6) with (16 + 8 + 8 + 8 + 8). rewrite !signed_byte by lia. unfold s. change (8 + 8) with 16. lia.
Qed.
(** ** One value *)

(** The zero-filled tail of a blob. *)
Definition tail_len (m : Mem) : Z := if has m MEM_Zero then u_nZero m else 0.

(** A cell as the virtual machine keeps it. *)
Record cell_ok (m : Mem) : Prop := {
  ce_int : has m MEM_Int = true → - 2 ^ 63 ≤ u_i m < 2 ^ 63;
  ce_real : 0 ≤ m_r m < 2 ^ 64;
  ce_bytes : bytes_ok m;
  ce_tail : 0 ≤ tail_len m;
  ce_size : m_n m + tail_len m ≤ SQLITE_MAX_LENGTH;
  ce_data : Forall is_byte (take (Z.to_nat (m_n m)) (m_z m));
  ce_zero : has m MEM_Zero = true → has m MEM_Null || has m MEM_Int || has m MEM_Real = false;
}.

(** What a record keeps of a value: NaN is stored as NULL. *)
Definition stored (v : value) : value :=
  match v with VReal b => if sqlite3IsNaN b then VNull else v | _ => v end.

(** The four kinds of cell the serial type tells apart. *)
Inductive cell_type (m : Mem) (ff : Z) (t : Z) : Prop :=
| type_null : value_of m = VNull → t = 0 → cell_type m ff t
| type_small i : value_of m = VInt i → 0 ≤ i ≤ 1 → t = 8 + i → cell_type m ff t
| type_int i k : value_of m = VInt i → u_i m = i → int_type t k →
    - 2 ^ (8 * Z.of_nat k - 1) ≤ i < 2 ^ (8 * Z.of_nat k - 1) → cell_type m ff t
| type_real : value_of m = VReal (m_r m) → t = 7 → cell_type m ff t
| type_bytes : value_of m = (if has m MEM_Str then VText (content m) else VBlob (content m)) →
    t = (m_n m + tail_len m) * 2 + 12 + (if has m MEM_Str then 1 else 0) → cell_type m ff t.

Ltac width k :=
  exists k; split; [rewrite !elem_of_cons; tauto|];
  let c := eval vm_compute in (8 * Z.of_nat k - 1) in change (8 * Z.of_nat k - 1) with c; lia.

Lemma type_of_int i ff :
  - 2 ^ 63 ≤ i < 2 ^ 63 →
  let u := u64 (if i <? 0 then - i else i) in
  let t := if (i <? 0) && (i <? - MAX_6BYTE) then 6
    else if u <=? 127 then if (Z.land i 1 =? i) && (4 <=? ff) then 8 + u32 u else 1
    else if u <=? 32767 then 2
    else if u <=? 8388607 then 3
    else if u <=? 2147483647 then 4
    else if u <=? MAX_6BYTE then 5 else 6 in
  (t = 8 + i ∧ 0 ≤ i ≤ 1) ∨
  ∃ k, int_type t k ∧ - 2 ^ (8 * Z.of_nat k - 1) ≤ i < 2 ^ (8 * Z.of_nat k - 1).
Proof.
  intros Hi. cbv zeta. change MAX_6BYTE with 140737488355327.
  assert (Eu : u64 (if i <? 0 then - i else i) = Z.abs i) by (rewrite u64_small by case_tests; case_tests).
  rewrite Eu.
  assert (Hb : Z.land i 1 = i → 0 ≤ i ≤ 1).
  { intros <-. rewrite (Z.land_ones i 1 ltac:(lia) : Z.land i 1 = _).
    pose proof (Z.mod_pos_bound i (2 ^ 1)). lia. }
  assert (Hn : (i <? 0) && (i <? - (140737488355327)) = false → - 140737488355327 ≤ i)
    by (rewrite andb_false_iff; intros []; breflect; lia).
  unfold int_type.
  repeat (case_test; breflect); try specialize (Hn eq_refl).
  all: try (left; split; [rewrite u32_small by lia; specialize (Hb ltac:(assumption)); lia|apply Hb; assumption]).
  all: right; first [width 1%nat|width 2%nat|width 3%nat|width 4%nat|width 6%nat|width 8%nat].
Qed.

Lemma cell_type_ok m ff : cell_ok m → cell_type m ff (sqlite3VdbeSerialType m ff).
Proof.
  intros [Hi Hr Hb Ht Hs _ _]. unfold sqlite3VdbeSerialType.
  destruct (has m MEM_Null) eqn:En; [apply type_null; [by unfold value_of; rewrite En|done]|].
  destruct (has m MEM_Int) eqn:Ei.
  { assert (Hv : value_of m = VInt (u_i m)) by (unfold value_of; by rewrite En, Ei).
    pose proof (type_of_int (u_i m) ff (Hi eq_refl)) as [[Et H01]|(k&Hk&Hi')]; cbv zeta in *.
    - rewrite Et. by eapply type_small.
    - by eapply type_int. }
  destruct (has m MEM_Real) eqn:Er; [apply type_real; [by unfold value_of; rewrite En, Ei, Er|done]|].
  apply type_bytes; [unfold value_of; by rewrite En, Ei, Er|].
  unfold tail_len, bytes_ok, SQLITE_MAX_LENGTH in *.
  destruct (has m MEM_Zero), (has m MEM_Str); rewrite u32_small; lia.
Qed.
(** The serialised value, in a buffer that is large enough. *)
Definition serial_data (m : Mem) (ff : Z) : list Z := sqlite3VdbeSerialPut 0x7fffffff m ff.

Lemma put_bytes nBuf m ff :
  cell_ok m → 0 ≤ nBuf < 2 ^ 31 → 12 ≤ sqlite3VdbeSerialType m ff →
  sqlite3VdbeSerialPut nBuf m ff
  = take (Z.to_nat (m_n m)) (m_z m)
    ++ replicate (Z.to_nat (Z.min (tail_len m) (nBuf - m_n m))) 0.
Proof.
  intros Hok Hb Ht. unfold sqlite3VdbeSerialPut.
  rewrite (proj2 (Z.leb_gt _ 7)), (proj2 (Z.leb_le 12 _)) by lia. cbn [andb].
  destruct Hok as [_ _ Hb' Htl Hs _ _]. unfold tail_len, bytes_ok, SQLITE_MAX_LENGTH in *.
  destruct (has m MEM_Zero).
  - rewrite !u32_small by lia. f_equal. f_equal. case_tests.
  - replace (Z.to_nat (Z.min 0 (nBuf - m_n m))) with 0%nat by lia. by rewrite app_nil_r.
Qed.

Lemma type_len_bytes m ff :
  cell_ok m → 12 ≤ sqlite3VdbeSerialType m ff →
  sqlite3VdbeSerialTypeLen (sqlite3VdbeSerialType m ff) = m_n m + tail_len m.
Proof.
  intros Hok Ht. unfold sqlite3VdbeSerialTypeLen. rewrite (proj2 (Z.leb_le _ _)) by lia.
  destruct (cell_type_ok m ff Hok) as [_ E|i _ ? E|i k _ _ Hk _|_ E|_ E]; try lia.
  - unfold int_type in Hk. repeat (apply elem_of_cons in Hk as [[= E _]|Hk]; [lia|]).
    by apply not_elem_of_nil in Hk.
  - rewrite E. destruct (has m MEM_Str); Z.to_euclidean_division_equations; lia.
Qed.

Lemma int_type_range t k : int_type t k → 1 ≤ t ≤ 6 ∧ 0 < 8 * Z.of_nat k ≤ 64 ∧ sqlite3VdbeSerialTypeLen t = Z.of_nat k.
Proof.
  unfold int_type. intros Hk. repeat (apply elem_of_cons in Hk as [[= -> ->]|Hk]; [split_and!; done || lia|]).
  by apply not_elem_of_nil in Hk.
Qed.

Lemma data_bytes m ff :
  cell_ok m → 12 ≤ sqlite3VdbeSerialType m ff → serial_data m ff = content m.
Proof.
  intros Hok Ht. unfold serial_data. rewrite put_bytes by (done || lia). unfold content.
  destruct Hok as [_ _ Hb' Htl Hs _ _]. unfold tail_len, bytes_ok, SQLITE_MAX_LENGTH in *.
  f_equal. destruct (has m MEM_Zero); [|by rewrite Z2Nat.nonpos by lia].
  f_equal. lia.
Qed.

Lemma content_length m : cell_ok m → Z.of_nat (length (content m)) = m_n m + tail_len m.
Proof.
  intros [_ _ Hb Ht _ _ _]. unfold content, bytes_ok, tail_len in *.
  rewrite length_app, length_take. destruct (has m MEM_Zero); rewrite ?length_replicate; cbn; lia.
Qed.

Lemma signed_u64 w x : 0 < w ≤ 64 → signed w (u64 x) = signed w x.
Proof.
  intros Hw. rewrite <- signed_mod, u64_mod by lia. rewrite Z.mod_mod_divide; [apply signed_mod; lia|].
  exists (2 ^ (64 - w)). rewrite <- Z.pow_add_r by lia. f_equal. lia.
Qed.

(** A value that is serialised and read back. *)
Lemma serial_roundtrip m ff rest m0 :
  cell_ok m →
  let t := sqlite3VdbeSerialType m ff in
  let d := serial_data m ff in
  0 ≤ t < 2 ^ 32 ∧ Z.of_nat (length d) = sqlite3VdbeSerialTypeLen t ∧
  ∃ m', sqlite3VdbeSerialGet (d ++ rest) t m0 = (Z.of_nat (length d), m') ∧
        value_of m' = stored (value_of m) ∧ m_enc m' = m_enc m0.
Proof.
  intros Hok. cbv zeta. pose proof (cell_type_ok m ff Hok) as Hct.
  pose proof (data_bytes m ff Hok) as Hd. pose proof (type_len_bytes m ff Hok) as Hl.
  revert Hd Hl. unfold serial_data.
  destruct Hct as [Hv Et|i Hv Hi Et|i k Hv Hi Hk Hr|Hv Et|Hv Et]; intros Hd Hl.
  - rewrite Hv, Et in *. unfold sqlite3VdbeSerialPut. rewrite Et. split_and!; try done.
    by eexists.
  - rewrite Hv, Et in *. unfold sqlite3VdbeSerialPut. rewrite Et.
    assert (i = 0 ∨ i = 1) as [-> | ->] by lia; split_and!; try done; by eexists.
  - destruct (int_type_range _ _ Hk) as (Ht&Hw&Hlen). unfold sqlite3VdbeSerialPut.
    rewrite (proj2 (Z.leb_le _ 7)), (proj2 (Z.ltb_lt 0 _)), Hlen, Nat2Z.id by lia. cbn [andb].
    rewrite (proj2 (Z.eqb_neq _ 7)), Hi by lia.
    destruct (put_loop_spec k (u64 i)) as (H1&H2&H3). rewrite H1. split_and!; [lia|lia|done|].
    eexists. rewrite (get_int _ k) by done. split; [done|]. split; [|done]. rewrite Hv, H3.
    replace (256 ^ Z.of_nat k) with (2 ^ (8 * Z.of_nat k)) by (by rewrite Z.pow_mul_r by lia).
    rewrite signed_mod, signed_u64, signed_small by lia. done.
  - unfold sqlite3VdbeSerialPut. rewrite Et. cbn [Z.leb Z.ltb Z.compare Pos.compare Pos.compare_cont andb Z.eqb Pos.eqb].
    rewrite u64_small by (by apply ce_real). destruct (put_loop_spec 8 (m_r m)) as (H1&H2&H3).
    change (Z.to_nat (sqlite3VdbeSerialTypeLen 7)) with 8%nat. rewrite H1. split_and!; [lia|lia|done|].
    rewrite Z.mod_small in H3 by (by apply ce_real).
    eexists. unfold sqlite3VdbeSerialGet. cbn [Z.eqb Pos.eqb orb]. cbv zeta.
    rewrite get_u64_be, H3 by done. split; [done|]. split; [|done]. rewrite Hv.
    unfold stored. by destruct (sqlite3IsNaN (m_r m)).
  - assert (12 ≤ sqlite3VdbeSerialType m ff ∧ sqlite3VdbeSerialType m ff < 2 ^ 32) as [Ht Ht'].
    { rewrite Et. destruct Hok as [_ _ Hb' Htl Hs _ _]. unfold bytes_ok, SQLITE_MAX_LENGTH in *.
      destruct (has m MEM_Str); lia. }
    assert (Hc : Z.of_nat (length (content m)) = m_n m + tail_len m) by (by apply content_length).
    rewrite Hd, Hl by done. split_and!; [lia|lia|lia|].
    unfold sqlite3VdbeSerialGet. repeat rewrite (proj2 (Z.eqb_neq _ _)) by lia. cbn [orb].
    eexists. split; [do 2 f_equal; rewrite Hc, Et; destruct (has m MEM_Str);
      Z.to_euclidean_division_equations; lia|]. split; [|done]. rewrite Hv.
    set (c := content m) in *. clearbody c. rewrite (Z.land_ones _ 1 ltac:(lia) : Z.land _ 1 = _), Et.
    replace ((_ - 12) / 2) with (Z.of_nat (length c))
      by (destruct (has m MEM_Str); Z.to_euclidean_division_equations; lia).
    assert (Htk : take (Z.to_nat (Z.of_nat (length c))) (c ++ rest) ++ [] = c)
      by (by rewrite app_nil_r, Nat2Z.id, take_app_length).
    destruct (has m MEM_Str).
    + replace (_ mod 2 ^ 1) with 1 by (Z.to_euclidean_division_equations; lia).
      exact (f_equal VText Htk).
    + replace (_ mod 2 ^ 1) with 0 by (Z.to_euclidean_division_equations; lia).
      exact (f_equal VBlob Htk).
Qed.
(** ** The format of a record *)

(** A varint of 32 bits, read back. *)
Lemma varint32_decode v rest :
  0 ≤ v < 2 ^ 32 → Forall is_byte rest →
  getVarint32 (putVarint32 v ++ rest) = (v, Z.of_nat (length (putVarint32 v))) ∧
  sqlite3VarintLen v = Z.of_nat (length (putVarint32 v)) ∧ (0 < length (putVarint32 v))%nat ∧
  Forall is_byte (putVarint32 v).
Proof.
  intros Hv Hrest. rewrite putVarint32_eq by done.
  destruct (round_trip v) as (n&Hr&Hl&Hn); [lia|]. destruct (Hr rest) as [Hg Hp].
  pose proof (PutVarint_bytes v) as Hb.
  assert (Hbr : Forall is_byte (sqlite3PutVarint v ++ rest)) by (by apply Forall_app).
  rewrite Hl, Hp, getVarint32_saturates, Hg
    by (try apply at_byte; rewrite ?Hg; cbn [fst]; done || lia).
  unfold saturate. cbn [fst snd]. rewrite (proj2 (Z.ltb_lt _ _)) by lia. split_and!; try done; lia.
Qed.

Lemma VarintLen_spec v :
  0 ≤ v < 2 ^ 32 →
  sqlite3VarintLen v = if v <? 2 ^ 7 then 1 else if v <? 2 ^ 14 then 2 else if v <? 2 ^ 21 then 3
                       else if v <? 2 ^ 28 then 4 else 5.
Proof.
  intros Hv. unfold sqlite3VarintLen. cbn [varint_len_loop].
  rewrite ?Z.shiftr_shiftr, ?shiftr_eqb by lia.
  change (7 + 7) with 14. change (14 + 7) with 21. change (21 + 7) with 28. change (28 + 7) with 35.
  rewrite (proj2 (Z.ltb_lt v (2 ^ 35))) by lia.
  destruct (v <? 2 ^ 7); [done|]. destruct (v <? 2 ^ 14); [done|].
  destruct (v <? 2 ^ 21); [done|]. by destruct (v <? 2 ^ 28).
Qed.

Section format.
Context (ff : Z).

Definition record_types (cells : list Mem) : list Z :=
  concat (map (λ m, putVarint32 (sqlite3VdbeSerialType m ff)) cells).
Definition record_data (cells : list Mem) : list Z := concat (map (λ m, serial_data m ff) cells).

(** The header: its own size first, which is the smallest that counts itself. *)
Definition record_header (cells : list Mem) : list Z :=
  putVarint32 (header_size (Z.of_nat (length (record_types cells)))) ++ record_types cells.

(** The format of a record of these cells. *)
Definition record_format (cells : list Mem) : list Z := record_header cells ++ record_data cells.

Lemma header_size_self h :
  0 ≤ h < 2 ^ 31 → header_size h = h + sqlite3VarintLen (header_size h) ∧ h < header_size h < 2 ^ 32.
Proof.
  intros Hh. unfold header_size. rewrite (VarintLen_spec h) by lia.
  repeat match goal with |- context [h <? ?x] => destruct (Z.ltb_spec h x); try lia end.
  all: rewrite (VarintLen_spec (h + _)) by lia.
  all: repeat match goal with |- context [?a + ?c <? ?x] => destruct (Z.ltb_spec (a + c) x); try lia end.
  all: cbn [Z.ltb Z.compare Pos.compare Pos.compare_cont].
  all: rewrite VarintLen_spec by lia.
  all: repeat (case_test; breflect); lia.
Qed.

Lemma header_size_spec h :
  0 ≤ h < 2 ^ 31 →
  h < header_size h < 2 ^ 32 ∧
  header_size h = h + Z.of_nat (length (putVarint32 (header_size h))).
Proof.
  intros Hh. destruct (header_size_self h Hh) as [E Hr]. split; [done|].
  destruct (varint32_decode (header_size h) []) as (_&E'&_); [lia|done|]. lia.
Qed.

(** The data of the cells, zeros at the end included. *)
Lemma zero_type m :
  cell_ok m → has m MEM_Zero = true → 12 ≤ sqlite3VdbeSerialType m ff.
Proof.
  intros Hok Hz. pose proof (ce_zero m Hok Hz) as Hn. breflect.
  destruct (cell_type_ok m ff Hok) as [Hv _|i Hv|i k Hv|Hv|_ ->].
  1-4: unfold value_of in Hv; rewrite H, H0, H1 in Hv; by destruct (has m MEM_Str).
  destruct Hok as [_ _ Hb' Htl _ _ _]. unfold bytes_ok in *. destruct (has m MEM_Str); lia.
Qed.

(** What the first loop has prepared: a zero-filled tail has no prefix. *)
Definition prepared (m : Mem) : Prop := cell_ok m ∧ (has m MEM_Zero = true → m_n m = 0).

Lemma zero_data m :
  prepared m → has m MEM_Zero = true →
  0 ≤ u_nZero m ∧ serial_data m ff = replicate (Z.to_nat (u_nZero m)) 0.
Proof.
  intros [Hok Hn] Hz. rewrite data_bytes by (done || by apply zero_type).
  pose proof (ce_tail m Hok) as Ht. unfold tail_len in Ht. rewrite Hz in Ht.
  split; [done|]. unfold content. by rewrite Hz, (Hn Hz).
Qed.

Lemma data_length m :
  cell_ok m →
  Z.of_nat (length (serial_data m ff)) = sqlite3VdbeSerialTypeLen (sqlite3VdbeSerialType m ff).
Proof. intros Hok. by destruct (serial_roundtrip m ff [] cell_null Hok) as (_&H&_). Qed.

(** A buffer with room for a value, or for a part of its zeros. *)
Lemma put_take m nBuf :
  prepared m → 0 ≤ nBuf < 2 ^ 31 →
  (has m MEM_Zero = true ∨ Z.of_nat (length (serial_data m ff)) ≤ nBuf) →
  sqlite3VdbeSerialPut nBuf m ff = take (Z.to_nat nBuf) (serial_data m ff).
Proof.
  intros Hp Hb Hor. destruct (has m MEM_Zero) eqn:Hz.
  - destruct (zero_data m Hp Hz) as [Hk ->]. destruct Hp as [Hok Hn].
    rewrite put_bytes by (done || by apply zero_type). rewrite (Hn Hz). change (take (Z.to_nat 0) (m_z m)) with (@nil Z). cbn [app].
    unfold tail_len. rewrite Hz, take_replicate. f_equal. lia.
  - destruct Hor as [|Hl]; [done|]. rewrite take_ge by lia.
    unfold serial_data, sqlite3VdbeSerialPut. rewrite Hz. done.
Qed.

Definition zeros_step (m : Mem) (nZero : Z) : Z :=
  if has m MEM_Zero then nZero + u_nZero m
  else if sqlite3VdbeSerialTypeLen (sqlite3VdbeSerialType m ff) =? 0 then nZero else 0.
Definition zeros (cells : list Mem) (nZero : Z) : Z := foldl (λ nz m, zeros_step m nz) nZero cells.

(** The record ends with the zeros that were counted. *)
Lemma zeros_suffix cells nz :
  Forall prepared cells → 0 ≤ nz →
  0 ≤ zeros cells nz ∧ ∃ p, replicate (Z.to_nat nz) 0 ++ record_data cells
    = p ++ replicate (Z.to_nat (zeros cells nz)) 0.
Proof.
  revert nz. induction cells as [|m cells IH]; intros nz HF Hnz.
  - split; [done|]. exists []. by rewrite app_nil_r.
  - apply Forall_cons in HF as [Hm HF]. change (zeros (m :: cells) nz) with (zeros cells (zeros_step m nz)).
    change (record_data (m :: cells)) with (serial_data m ff ++ record_data cells). unfold zeros_step.
    destruct (has m MEM_Zero) eqn:Hz.
    + destruct (zero_data m Hm Hz) as [Hk ->].
      destruct (IH (nz + u_nZero m) HF) as [H0 [p Hp]]; [lia|].
      split; [exact H0|]. exists p. rewrite <- Hp, app_assoc, <- replicate_add. do 2 f_equal; lia.
    + rewrite <- data_length by apply Hm. case_test; breflect.
      * assert (serial_data m ff = []) as -> by (apply nil_length_inv; lia). by apply IH.
      * destruct (IH 0 HF) as [H0 [p Hp]]; [lia|]. split; [exact H0|].
        exists (replicate (Z.to_nat nz) 0 ++ serial_data m ff ++ p).
        change (replicate (Z.to_nat 0) 0 ++ record_data cells) with (record_data cells) in Hp.
        rewrite Hp. by rewrite !app_assoc.
Qed.

Lemma zeros_le cells nz :
  Forall prepared cells → 0 ≤ nz →
  zeros cells nz ≤ nz + Z.of_nat (length (record_data cells)).
Proof.
  intros HF Hnz. destruct (zeros_suffix cells nz HF Hnz) as [H0 [p Hp]].
  apply (f_equal length) in Hp. rewrite !length_app, !length_replicate in Hp. lia.
Qed.

(** The last loop writes the data as far as the buffer goes, which is up to the zeros
    at the end. *)
Lemma put_data_spec nByte i cells nz :
  Forall prepared cells → 0 ≤ nz →
  nByte - i = Z.max 0 (Z.of_nat (length (record_data cells)) - zeros cells nz) →
  nByte - i < 2 ^ 31 →
  put_data ff nByte i cells = take (Z.to_nat (nByte - i)) (record_data cells).
Proof.
  revert i nz. induction cells as [|m cells IH]; intros i nz HF Hnz Hav Hlt; [cbn; by rewrite take_nil|].
  apply Forall_cons in HF as [Hm HF].
  change (zeros (m :: cells) nz) with (zeros cells (zeros_step m nz)) in Hav.
  change (record_data (m :: cells)) with (serial_data m ff ++ record_data cells) in *.
  rewrite length_app in Hav. cbn [put_data]. unfold i32. rewrite signed_small by lia.
  unfold zeros_step in Hav. destruct (has m MEM_Zero) eqn:Hz.
  - destruct (zero_data m Hm Hz) as [Hk Ed]. rewrite put_take by (auto; lia).
    rewrite take_app. f_equal.
    rewrite (IH _ (nz + u_nZero m)); rewrite ?length_take, ?Ed, ?length_replicate in *; try done; try lia.
    f_equal. lia.
  - rewrite <- data_length in Hav by apply Hm. case_test_in Hav; breflect.
    + assert (Ed : serial_data m ff = []) by (apply nil_length_inv; lia).
      rewrite put_take by first [done|lia|right; rewrite Ed; cbn; lia]. rewrite Ed in *. rewrite take_nil. cbn.
      rewrite (IH _ nz); try done; cbn in *; rewrite ?Z.add_0_r; try done; lia.
    + pose proof (zeros_le cells 0 HF) as Hz0.
      rewrite put_take by first [done|lia|right; lia]. rewrite take_app, take_ge by lia. f_equal.
      rewrite (IH _ 0); try done; try lia. f_equal. lia.
Qed.

Lemma record_sizes_spec cells nData nHdr nZero :
  Forall prepared cells → 0 ≤ nData →
  nData + Z.of_nat (length (record_data cells)) < 2 ^ 64 →
  record_sizes ff cells nData nHdr nZero
  = (nData + Z.of_nat (length (record_data cells)),
     nHdr + Z.of_nat (length (record_types cells)), zeros cells nZero).
Proof.
  revert nData nHdr nZero. induction cells as [|m cells IH]; intros nData nHdr nZero HF H0 Hlt.
  - cbn. by rewrite !Z.add_0_r.
  - apply Forall_cons in HF as [Hm HF].
    change (zeros (m :: cells) nZero) with (zeros cells (zeros_step m nZero)).
    change (record_data (m :: cells)) with (serial_data m ff ++ record_data cells) in *.
    change (record_types (m :: cells)) with
      (putVarint32 (sqlite3VdbeSerialType m ff) ++ record_types cells).
    rewrite !length_app in *. cbn [record_sizes].
    destruct (serial_roundtrip m ff [] cell_null (proj1 Hm)) as (Ht&Hl&_).
    destruct (varint32_decode _ [] Ht) as (_&Hv&_); [done|].
    rewrite <- Hl, Hv, u64_small by lia. rewrite IH by (done || lia).
    unfold zeros_step. rewrite <- Hl. do 2 f_equal; lia.
Qed.

(** ** Building a record *)

Lemma types_range m : cell_ok m → 0 ≤ sqlite3VdbeSerialType m ff < 2 ^ 32.
Proof. intros Hok. by destruct (serial_roundtrip m ff [] cell_null Hok) as (?&_). Qed.

Lemma serial_bytes m : cell_ok m → Forall is_byte (serial_data m ff).
Proof.
  intros Hok. destruct (Z_le_gt_dec 12 (sqlite3VdbeSerialType m ff)) as [H|H].
  - rewrite data_bytes by done. unfold content. apply Forall_app. split; [by apply ce_data|].
    destruct (has m MEM_Zero); [|done]. apply Forall_replicate. done.
  - unfold serial_data, sqlite3VdbeSerialPut. case_test; [by apply put_loop_bytes|].
    by rewrite (proj2 (Z.leb_gt _ _)) by lia.
Qed.

Lemma format_bytes cells :
  Forall cell_ok cells → Forall is_byte (record_types cells) ∧ Forall is_byte (record_data cells).
Proof.
  induction 1 as [|m cells Hm _ [IH1 IH2]]; [done|].
  split; apply Forall_app; split; try done; [|by apply serial_bytes].
  destruct (varint32_decode _ [] (types_range m Hm)) as (_&_&_&H); [done|done].
Qed.

Lemma header_length cells :
  Z.of_nat (length (record_types cells)) < 2 ^ 31 →
  header_size (Z.of_nat (length (record_types cells))) = Z.of_nat (length (record_header cells)).
Proof.
  intros Hl. destruct (header_size_spec (Z.of_nat (length (record_types cells)))) as [_ H]; [lia|].
  unfold record_header. rewrite length_app. lia.
Qed.

Lemma format_length cells :
  length (record_format cells) = (length (record_header cells) + length (record_data cells))%nat
  ∧ (length (record_types cells) ≤ length (record_header cells))%nat.
Proof.
  unfold record_format. rewrite length_app. split; [done|].
  unfold record_header. rewrite length_app. lia.
Qed.

Lemma build_record_spec limit ok pOut cells :
  Forall prepared cells → Z.of_nat (length (record_format cells)) < 2 ^ 31 → 0 ≤ limit →
  let size := Z.of_nat (length (record_format cells)) - zeros cells 0 in
  match build_record limit ff ok pOut cells with
  | Made m => size ≤ limit ∧ ok = true ∧ value_of m = VBlob (record_format cells) ∧
              m_n m = size ∧ Z.of_nat (length (m_z m)) = size ∧ tail_len m = zeros cells 0
  | TooBig => limit < size
  | NoMem => ok = false
  end.
Proof.
  intros HF Hlen Hlim size. destruct (format_length cells) as [El Htl].
  destruct (zeros_suffix cells 0 HF) as [Hz0 [p Hp]]; [done|].
  change (replicate (Z.to_nat 0) 0 ++ record_data cells) with (record_data cells) in Hp.
  assert (Hzl : zeros cells 0 ≤ Z.of_nat (length (record_data cells)))
    by (pose proof (zeros_le cells 0 HF); lia).
  unfold build_record. rewrite record_sizes_spec by (done || lia). rewrite !Z.add_0_l.
  rewrite header_length by lia.
  assert (Es : Z.of_nat (length (record_header cells)) + Z.of_nat (length (record_data cells))
               - zeros cells 0 = size) by (unfold size; lia).
  assert (Hs : 0 ≤ size < 2 ^ 31) by lia.
  rewrite Es, u64_small by lia. unfold i64. rewrite (signed_small 64) by lia.
  case_test; breflect; [done|]. unfold sqlite3VdbeMemGrow. destruct ok; cbn [negb]; [|done].
  change (putVarint32 _ ++ concat _) with
    (putVarint32 (Z.of_nat (length (record_header cells))) ++ record_types cells).
  rewrite <- header_length by lia. fold (record_header cells).
  rewrite (put_data_spec _ _ cells 0) by (done || lia).
  assert (Ep : Z.of_nat (length p) = size - Z.of_nat (length (record_header cells))).
  { apply (f_equal length) in Hp. rewrite length_app, length_replicate in Hp. lia. }
  rewrite Hp, take_app_length' by lia. unfold i32. rewrite signed_small by lia.
  set (h := record_header cells) in *.
  assert (Ht : take (Z.to_nat size) (h ++ p) = h ++ p) by (apply take_ge; rewrite length_app; lia).
  assert (Hv : ∀ tl, tl = replicate (Z.to_nat (zeros cells 0)) 0 →
                 take (Z.to_nat size) (h ++ p) ++ tl = record_format cells).
  { intros tl ->. rewrite Ht, <- app_assoc, <- Hp. done. }
  assert (Hn : Z.of_nat (length (h ++ p)) = size) by (rewrite length_app; lia).
  destruct (Z.eqb_spec (zeros cells 0) 0) as [Ez|Ez]; split_and!; try done.
  - apply (f_equal VBlob (Hv [] ltac:(rewrite Ez; done))).
  - apply (f_equal VBlob (Hv _ eq_refl)).
Qed.

(** ** Reading a record *)

(** A position in a record: the fields from [cells] on are still to be read; [idx] is
    the offset of their types and [d] the one of their data. *)
Record at_field (aKey : list Z) (cells : list Mem) (idx d : Z) : Prop := {
  af_cells : Forall cell_ok cells;
  af_types : ∃ rest, drop (Z.to_nat idx) aKey = record_types cells ++ rest;
  af_data : drop (Z.to_nat d) aKey = record_data cells;
  af_idx : 0 ≤ idx;
  af_d : 0 ≤ d;
  af_end : d + Z.of_nat (length (record_data cells)) = Z.of_nat (length aKey);
  af_bytes : Forall is_byte aKey;
  af_size : Z.of_nat (length aKey) < 2 ^ 31;
  af_room : idx + Z.of_nat (length (record_types cells)) ≤ Z.of_nat (length aKey);
}.

(** Reading one field. *)
Lemma at_field_step aKey m cells idx d m0 :
  at_field aKey (m :: cells) idx d →
  let t := sqlite3VdbeSerialType m ff in
  let k := Z.of_nat (length (putVarint32 t)) in
  let len := Z.of_nat (length (serial_data m ff)) in
  getVarint32 (drop (Z.to_nat idx) aKey) = (t, k) ∧
  (∃ m', sqlite3VdbeSerialGet (drop (Z.to_nat d) aKey) t m0 = (len, m') ∧
         value_of m' = stored (value_of m) ∧ m_enc m' = m_enc m0) ∧
  at_field aKey cells (idx + k) (d + len) ∧
  0 < k ∧ len = sqlite3VdbeSerialTypeLen t ∧ 0 ≤ t < 2 ^ 32 ∧
  Z.of_nat (length (record_types (m :: cells))) = k + Z.of_nat (length (record_types cells)) ∧
  d + len ≤ Z.of_nat (length aKey).
Proof.
  intros [HF [rest Ht] Hd Hi Hd0 He Hb Hs Hr]. cbv zeta.
  apply Forall_cons in HF as [Hm HF].
  change (record_types (m :: cells)) with
    (putVarint32 (sqlite3VdbeSerialType m ff) ++ record_types cells) in *.
  change (record_data (m :: cells)) with (serial_data m ff ++ record_data cells) in *.
  pose proof (types_range m Hm) as Htr. rewrite <- app_assoc in Ht. rewrite length_app in *.
  assert (Hbr : Forall is_byte (record_types cells ++ rest)).
  { apply (Forall_drop _ (Z.to_nat idx)) in Hb. rewrite Ht in Hb. by apply Forall_app in Hb as [_ Hb]. }
  destruct (varint32_decode _ _ Htr Hbr) as (Hg&_&Hk&_).
  destruct (serial_roundtrip m ff (record_data cells) m0 Hm) as (_&Hl&m'&Hget&Hv&Henc).
  split_and!; try done; try lia.
  - by rewrite Ht, Hg.
  - exists m'. by rewrite Hd.
  - split; try done; try lia.
    + exists rest. rewrite Z2Nat.inj_add, Nat2Z.id, <- drop_drop, Ht by lia. apply drop_app_length.
    + rewrite Z2Nat.inj_add, Nat2Z.id, <- drop_drop, Hd by lia. apply drop_app_length.
Qed.

Lemma unpack_loop_spec e aKey cells idx d blanks :
  at_field aKey cells idx d →
  map value_of (unpack_loop e (Z.of_nat (length aKey)) aKey
                  (idx + Z.of_nat (length (record_types cells))) idx d blanks)
  = take (length blanks) (map (λ m, stored (value_of m)) cells).
Proof.
  revert idx d blanks. induction cells as [|m cells IH]; intros idx d blanks Hat.
  - destruct blanks; [done|]. cbn. by rewrite Z.add_0_r, Z.ltb_irrefl.
  - destruct blanks as [|b blanks]; [done|].
    destruct (at_field_step _ _ _ _ _ (set_enc e b) Hat) as (Hg&(m'&Hget&Hv&_)&Hat'&Hk&Hl&_&Ht&Hd).
    cbv zeta in *. rewrite Ht. cbn [unpack_loop].
    rewrite (proj2 (Z.ltb_lt _ _)), (proj2 (Z.leb_le _ _)) by (destruct Hat; lia).
    cbn [andb]. rewrite Hg, Hget.
    destruct Hat' as [H1 H2 H3 H4 H5 H6 H7 H8 H9].
    rewrite u32_small by lia. unfold i32. rewrite signed_small by (destruct Hat; lia).
    cbn [map take length]. rewrite Hv. f_equal. rewrite Z.add_assoc. by apply IH.
Qed.

(** The start of a record. *)
Lemma at_field_start cells :
  Forall cell_ok cells → Z.of_nat (length (record_format cells)) < 2 ^ 31 →
  let szHdr := Z.of_nat (length (record_header cells)) in
  let k := szHdr - Z.of_nat (length (record_types cells)) in
  getVarint32 (record_format cells) = (szHdr, k) ∧
  at_field (record_format cells) cells k szHdr ∧ 0 < k ∧
  Z.of_nat (length (record_types cells)) ≤ szHdr.
Proof.
  intros HF Hl. cbv zeta. destruct (format_length cells) as [El Htl].
  pose proof (header_length cells ltac:(lia)) as Eh.
  destruct (format_bytes cells HF) as [Hbt Hbd].
  assert (Hk : Z.of_nat (length (putVarint32 (Z.of_nat (length (record_header cells)))))
               = Z.of_nat (length (record_header cells)) - Z.of_nat (length (record_types cells))).
  { assert (E : length (record_header cells)
      = (length (putVarint32 (header_size (Z.of_nat (length (record_types cells)))))
         + length (record_types cells))%nat) by (unfold record_header; apply length_app).
    rewrite Eh in E. lia. }
  assert (Ef : record_format cells = putVarint32 (Z.of_nat (length (record_header cells)))
                 ++ record_types cells ++ record_data cells).
  { unfold record_format. unfold record_header at 1. by rewrite Eh, app_assoc. }
  destruct (varint32_decode (Z.of_nat (length (record_header cells)))
              (record_types cells ++ record_data cells)) as (Hg&_&Hpos&Hbh);
    [lia|by apply Forall_app|].
  rewrite <- Ef, Hk in Hg. split_and!; [done| |lia|lia].
  split; try done; try lia.
  - exists (record_data cells). rewrite <- Hk, Nat2Z.id, Ef. apply drop_app_length.
  - rewrite Nat2Z.id. unfold record_format. apply drop_app_length.
  - rewrite Ef. by repeat (apply Forall_app; split).
Qed.

(** A decoded record is the list of the values that were put in it. *)
Lemma unpack_spec cells e nKey blanks :
  Forall cell_ok cells → Z.of_nat (length (record_format cells)) < 2 ^ 31 →
  nKey = Z.of_nat (length (record_format cells)) →
  let '(szHdr, idx) := getVarint32 (record_format cells) in
  map value_of (unpack_loop e nKey (record_format cells) szHdr idx (i32 szHdr) blanks)
  = take (length blanks) (map (λ m, stored (value_of m)) cells).
Proof.
  intros HF Hl ->. destruct (at_field_start cells HF Hl) as (Hg&Hat&Hk&Hle). rewrite Hg.
  destruct (format_length cells) as [El _].
  unfold i32. rewrite signed_small by lia.
  rewrite <- (unpack_loop_spec e _ _ _ _ blanks Hat). do 2 f_equal. lia.
Qed.
End format.

(** The registers after their affinity. *)
Fixpoint with_affinity (applyAffinity : Z → Mem → Mem) (zAffinity : option (list Z))
    (pData : list Mem) : list Mem :=
  match pData with
  | [] => []
  | m :: rest =>
      match zAffinity with Some z => applyAffinity (at_ z 0) m | None => m end
      :: with_affinity applyAffinity (tail <$> zAffinity) rest
  end.

(** The flags of a cell without those of a zero-filled tail. *)
Lemma expand_flags m f :
  Z.land f (Z.lor (Z.lor MEM_Ephem MEM_Static) (Z.lor MEM_Zero MEM_Term)) = 0 →
  Z.land (Z.land (Z.land (m_flags m) (Z.lnot (Z.lor MEM_Ephem MEM_Static)))
            (Z.lnot (Z.lor MEM_Zero MEM_Term))) f = Z.land (m_flags m) f.
Proof.
  intros Hf. rewrite <- !Z.land_assoc. f_equal. apply Z.bits_inj'. intros i Hi.
  apply (f_equal (λ x, Z.testbit x i)) in Hf. revert Hf.
  rewrite !Z.land_spec, !Z.lnot_spec, !Z.lor_spec, Z.bits_0 by done.
  destruct (Z.testbit f i), (Z.testbit MEM_Ephem i), (Z.testbit MEM_Static i),
    (Z.testbit MEM_Zero i), (Z.testbit MEM_Term i); done.
Qed.

(** The first loop leaves every value as it is. *)
Lemma expand_prepared m :
  cell_ok m →
  let m' := if has m MEM_Zero && (0 <? m_n m) then (sqlite3VdbeMemExpandBlob m true).2 else m in
  prepared m' ∧ value_of m' = value_of m.
Proof.
  intros Hok. destruct (has m MEM_Zero) eqn:Hz; cbn [andb].
  2:{ split; [split; [done|congruence]|done]. }
  destruct (Z.ltb_spec 0 (m_n m)).
  2:{ split; [split; [done|]|done]. intros _. pose proof (ce_bytes m Hok). unfold bytes_ok in *. lia. }
  pose proof (content_length m Hok) as Hc. pose proof (ce_zero m Hok Hz) as Hn.
  pose proof Hok as [_ Hr Hb Htl Hs Hd _].
  set (m' := (sqlite3VdbeMemExpandBlob m true).2).
  assert (Em : m' = mkMem (content m) (m_r m) (m_u m) (m_n m + u_nZero m)
    (Z.land (Z.land (m_flags m) (Z.lnot (Z.lor MEM_Ephem MEM_Static)))
       (Z.lnot (Z.lor MEM_Zero MEM_Term))) (m_enc m)).
  { unfold m', sqlite3VdbeMemExpandBlob, content. by rewrite Hz. }
  clearbody m'.
  assert (Hf : ∀ g, Z.land g (Z.lor (Z.lor MEM_Ephem MEM_Static) (Z.lor MEM_Zero MEM_Term)) = 0 →
                 has m' g = has m g) by (intros g Hg; rewrite Em; unfold has; cbn; by rewrite expand_flags).
  assert (Hz' : has m' MEM_Zero = false).
  { rewrite Em. unfold has. cbn [m_flags]. rewrite <- !Z.land_assoc.
    change (Z.land (Z.lnot (Z.lor MEM_Ephem MEM_Static)) _) with 0. by rewrite Z.land_0_r. }
  assert (Ez : m_z m' = content m) by (by rewrite Em).
  assert (En : m_n m' = m_n m + u_nZero m) by (by rewrite Em).
  assert (Er : m_r m' = m_r m ∧ u_i m' = u_i m) by (by rewrite Em). destruct Er as [Er Eu].
  unfold tail_len in *. rewrite Hz in *.
  assert (Ec : content m' = content m).
  { unfold content at 1. rewrite Hz', app_nil_r, Ez, En. apply take_ge. lia. }
  split.
  - split; [|congruence]. split.
    + rewrite Hf by done. breflect. congruence.
    + by rewrite Er.
    + unfold bytes_ok. rewrite Ez, En. lia.
    + unfold tail_len. by rewrite Hz'.
    + unfold tail_len. rewrite Hz', En. lia.
    + rewrite Ez. apply Forall_take. unfold content. apply Forall_app. split; [done|].
      rewrite Hz. by apply Forall_replicate.
    + congruence.
  - unfold value_of. rewrite !Hf by done. rewrite Ec. breflect. by rewrite H0, H1, H2.
Qed.

Lemma prepare_spec applyAffinity zAffinity pData :
  (∀ a m, cell_ok m → cell_ok (applyAffinity a m)) → Forall cell_ok pData →
  Forall prepared (prepare_fields applyAffinity zAffinity [] pData) ∧
  map value_of (prepare_fields applyAffinity zAffinity [] pData)
  = map value_of (with_affinity applyAffinity zAffinity pData).
Proof.
  intros Ha HF. revert zAffinity. induction HF as [|m rest Hm _ IH]; intros zA; [done|].
  destruct (IH (tail <$> zA)) as [IH1 IH2].
  set (m0 := match zA with Some z => applyAffinity (at_ z 0) m | None => m end).
  assert (Hm0 : cell_ok m0) by (unfold m0; destruct zA; auto).
  destruct (expand_prepared m0 Hm0) as [H1 H2].
  assert (E : prepare_field applyAffinity ((λ z, at_ z 0) <$> zA) true m
              = if has m0 MEM_Zero && (0 <? m_n m0) then (sqlite3VdbeMemExpandBlob m0 true).2 else m0)
    by (by destruct zA).
  cbn [prepare_fields with_affinity map head tail default]. rewrite E.
  split; [by constructor|]. by f_equal.
Qed.

(** C12. A record keeps what it was made of.  For every row of cells, with any
    column affinities, OP_MakeRecord produces a blob that is the documented format
    of the values - the header with its own size and the serial types, and then the
    data - leaving out the zeros at the end, whose number it keeps; it refuses
    exactly the records longer than the limit, and fails only for lack of memory.
    Decoding the blob gives the values of the cells in order, as many as there are
    cells to decode into, NaN having become NULL. *)
Theorem record_roundtrip applyAffinity limit ff zAffinity ok pOut pData ki rid blanks :
  (∀ a m, cell_ok m → cell_ok (applyAffinity a m)) → Forall cell_ok pData → 0 ≤ limit →
  let values := map value_of (with_affinity applyAffinity zAffinity pData) in
  let '(regs, result) := OP_MakeRecord applyAffinity limit ff zAffinity [] ok pOut pData in
  let key := record_format ff regs in
  let nKey := Z.of_nat (length key) in
  nKey < 2 ^ 31 →
  map value_of regs = values ∧
  match result with
  | Made m =>
      value_of m = VBlob key ∧ m_n m = nKey - zeros ff regs 0 ∧ tail_len m = zeros ff regs 0 ∧
      m_n m ≤ limit ∧
      map value_of (aMem (sqlite3VdbeRecordUnpack ki nKey key (mkUnpacked ki 0 rid blanks)))
      = take (length blanks) (map stored values)
  | TooBig => limit < nKey - zeros ff regs 0
  | NoMem => ok = false
  end.
Proof.
  intros Ha HF Hlim values. unfold OP_MakeRecord. cbv beta iota zeta.
  destruct (prepare_spec applyAffinity zAffinity pData Ha HF) as [Hp Hv].
  set (regs := prepare_fields applyAffinity zAffinity [] pData) in *. intros Hlen.
  split; [done|]. 
  pose proof (build_record_spec ff limit ok pOut regs Hp Hlen Hlim) as Hb. cbv zeta in Hb.
  destruct (build_record limit ff ok pOut regs) as [m| |]; [|done|done].
  destruct Hb as (H1&_&H2&H3&_&H4).
  split_and!; [done|done|done|lia|].
  assert (Hc : Forall cell_ok regs) by (apply (Forall_impl _ _ _ Hp); intros x Hx; exact (proj1 Hx)).
  pose proof (unpack_spec ff regs (k_enc ki) _ blanks Hc Hlen eq_refl) as Hu.
  unfold sqlite3VdbeRecordUnpack. destruct (getVarint32 (record_format ff regs)) as [szHdr idx].
  cbn [aMem]. rewrite Hu. f_equal. unfold values. rewrite <- Hv, map_map. done.
Qed.

(** ** Comparing without decoding *)

(** Two cells that agree on everything their flags make significant. *)
Record same_cell (a b : Mem) : Prop := {
  sc_flags : m_flags a = m_flags b;
  sc_enc : m_enc a = m_enc b;
  sc_int : has a MEM_Int = true → u_i a = u_i b;
  sc_real : has a MEM_Real = true → m_r a = m_r b;
  sc_bytes : has a MEM_Null || has a MEM_Int || has a MEM_Real = false →
    has a MEM_Zero = false ∧ m_n a = m_n b ∧ m_z a = m_z b;
}.

Instance compare_same oom : Proper (same_cell ==> eq ==> eq ==> eq) (sqlite3MemCompare oom).
Proof.
  intros a b [Hf He Hi Hr Hb] m2 _ <- c _ <-.
  assert (Hh : ∀ f, has a f = has b f) by (intros f; unfold has; by rewrite Hf).
  unfold sqlite3MemCompare, compare_numbers, as_double. rewrite <- !Hh, <- Hf.
  destruct (has a MEM_Null); [done|]. cbn [orb].
  destruct (has a MEM_Int) eqn:Ei, (has a MEM_Real) eqn:Er; cbn [orb andb] in *;
    rewrite <- ?Hi, <- ?Hr by done; try done; try (by destruct (has m2 MEM_Int), (has m2 MEM_Null)).
  destruct (Hb eq_refl) as (Hz&Hn&Hp).
  assert (Hc : content a = content b) by (unfold content; by rewrite <- Hh, Hz, Hn, Hp).
  assert (Ht : ∀ e o, sqlite3ValueText a e o = sqlite3ValueText b e o).
  { intros e o. unfold sqlite3ValueText, sqlite3VdbeMemExpandBlob. destruct o; [done|].
    rewrite <- Hh, Hz. cbn [snd]. unfold sqlite3VdbeChangeEncoding. rewrite <- Hh, <- He, <- Hn, <- Hp.
    case_test; [cbn; congruence|]. case_match. case_match; cbn; congruence. }
  unfold compare_text, compare_blob. destruct c; rewrite <- ?He, <- Hn, <- Hp, <- ?Hc, <- ?Ht; done.
Qed.

(** Reading the same bytes into two cells. *)
Lemma get_same buf t a b :
  m_enc a = m_enc b →
  (sqlite3VdbeSerialGet buf t a).1 = (sqlite3VdbeSerialGet buf t b).1 ∧
  same_cell (sqlite3VdbeSerialGet buf t a).2 (sqlite3VdbeSerialGet buf t b).2.
Proof.
  intros He. unfold sqlite3VdbeSerialGet.
  repeat case_test; (split; [done|]); split; cbn; try done.
Qed.

Section decoded.
Context (oom : list Z → bool) (pKey2 : UnpackedRecord).
Let ki := pKeyInfo pKey2.

(** The first field at which two decoded keys differ, from field [i] on: its number,
    the cell of the left key, and the comparison with the sort order of the field. *)
Fixpoint first_difference (i : nat) (key1 key2 : list Mem) : option (nat * Mem * Z) :=
  match key1, key2 with
  | a :: key1, b :: key2 =>
      let rc := sqlite3MemCompare oom a b (default None (aColl (pKeyInfo pKey2) !! i)) in
      if rc =? 0 then first_difference (S i) key1 key2
      else Some (i, a, if default false (aSortOrder (pKeyInfo pKey2) !! i) then - rc else rc)
  | _, _ => None
  end.

(** The right key after a comparison that stopped at a field. *)
Definition searched (i : nat) (a : Mem) : UnpackedRecord :=
  if negb (Z.land (p_flags pKey2) UNPACKED_PREFIX_SEARCH =? 0) && (i =? length (aMem pKey2) - 1)%nat
  then mkUnpacked (pKeyInfo pKey2) (Z.land (p_flags pKey2) (Z.lnot UNPACKED_PREFIX_SEARCH)) (u_i a)
         (aMem pKey2)
  else pKey2.

Lemma compare_loop_spec ff e aKey cells2 cells idx d i mem1 blanks :
  at_field ff aKey cells idx d → m_enc mem1 = e → length blanks = length cells2 →
  let szHdr := idx + Z.of_nat (length (record_types ff cells)) in
  let nKey := Z.of_nat (length aKey) in
  let result := compare_loop oom nKey aKey szHdr pKey2 idx d i mem1 cells2 in
  match first_difference i (unpack_loop e nKey aKey szHdr idx d blanks) cells2 with
  | Some (j, a, rc) => ∃ a', same_cell a' a ∧ result = inl (rc, searched j a')
  | None => ∃ idx', result = inr idx' ∧ (idx' <? szHdr) = (length cells2 <? length cells)%nat
  end.
Proof.
  cbv zeta. revert cells idx d i mem1 blanks.
  induction cells2 as [|b cells2 IH]; intros cells idx d i mem1 blanks Hat He Hl.
  { destruct blanks; [|done]. cbn. eexists. split; [done|].
    destruct cells as [|m cells]; [cbn; rewrite Z.add_0_r; apply Z.ltb_irrefl|].
    destruct (at_field_step _ _ _ _ _ _ mem1 Hat) as (_&_&_&Hk&_&_&Ht&_). cbv zeta in *.
    rewrite Ht. cbn. apply Z.ltb_lt. lia. }
  destruct blanks as [|bl blanks]; [done|]. destruct cells as [|m cells].
  { cbn. rewrite Z.add_0_r, Z.ltb_irrefl. cbn. eexists. split; [done|]. apply Z.ltb_irrefl. }
  destruct (at_field_step _ _ _ _ _ _ (set_enc e bl) Hat)
    as (Hg&(m'&Hget&_&Henc)&Hat'&Hk&Hlen&Ht32&Ht&Hd).
  cbv zeta in *. rewrite Ht. cbn [unpack_loop compare_loop].
  assert (Hsz : Z.of_nat (length aKey) < 2 ^ 31) by (by destruct Hat).
  assert (0 ≤ idx ∧ 0 ≤ d) as [Hi0 Hd0] by (by destruct Hat).
  assert (Hroom := af_room _ _ _ _ _ Hat').
  rewrite (proj2 (Z.ltb_lt idx _)), (proj2 (Z.leb_le d _)) by lia.
  cbn [andb negb]. rewrite Hg, Hget.
  pose proof (get_same (drop (Z.to_nat d) aKey) (sqlite3VdbeSerialType m ff) mem1 (set_enc e bl)) as Hs.
  rewrite Hget in Hs. destruct Hs as [Hs1 Hs2]; [done|].
  destruct (sqlite3VdbeSerialGet (drop (Z.to_nat d) aKey) _ mem1) as [len m1]. cbn [fst snd] in *.
  subst len. rewrite <- Hlen.
  rewrite (u32_small (Z.of_nat (length aKey))), (u32_small (d + Z.of_nat _)) by lia.
  rewrite (proj2 (Z.ltb_ge (Z.of_nat (length aKey)) (d + _))), andb_false_r by lia.
  unfold i32. rewrite signed_small, (u32_small (idx + _)) by lia.
  rewrite (compare_same oom m1 m' Hs2 b b eq_refl _ _ eq_refl). cbn [first_difference].
  case_test; [|by exists m1]. rewrite Z.add_assoc.
  cbn [length]. apply IH; [done| |by injection Hl].
  rewrite (sc_enc _ _ Hs2). done.
Qed.
End decoded.

(** C13. Comparing a stored key with a decoded one, which reads the stored key field by
    field and stops at the first difference, gives what decoding it first would
    give: the comparison of the first fields that differ, reversed where the sort
    order is descending; when the common fields are equal, the stored key is smaller
    if the right key was told to count as larger, equal if a prefix is enough, and
    otherwise larger exactly when it has more fields.  A search by prefix that
    stops at the last field takes the row identifier of the stored key. *)
Theorem record_compare_decoded oom ff cells mem1 p blank :
  Forall cell_ok cells →
  let key := record_format ff cells in
  let nKey := Z.of_nat (length key) in
  nKey < 2 ^ 31 →
  let decoded := aMem (sqlite3VdbeRecordUnpack (pKeyInfo p) nKey key
                   (mkUnpacked (pKeyInfo p) 0 0 (replicate (length (aMem p)) blank))) in
  let '(rc, p') := sqlite3VdbeRecordCompare oom mem1 nKey key p in
  map value_of decoded = take (length (aMem p)) (map (λ m, stored (value_of m)) cells) ∧
  match first_difference oom p 0 decoded (aMem p) with
  | Some (i, a, c) => rc = c ∧ (has a MEM_Int = true → p' = searched p i a)
  | None =>
      p' = p ∧
      rc = if negb (Z.land (p_flags p) UNPACKED_INCRKEY =? 0) then -1
           else if negb (Z.land (p_flags p) UNPACKED_PREFIX_MATCH =? 0) then 0
           else if (length (aMem p) <? length cells)%nat then 1 else 0
  end.
Proof.
  intros HF. cbv zeta. intros Hl.
  pose proof (unpack_spec ff cells (k_enc (pKeyInfo p)) _ (replicate (length (aMem p)) blank)
                HF Hl eq_refl) as Hu.
  destruct (at_field_start ff cells HF Hl) as (Hg&Hat&Hk&Hle).
  destruct (format_length ff cells) as [El _].
  unfold sqlite3VdbeRecordUnpack, sqlite3VdbeRecordCompare. rewrite Hg in *. cbn [aMem].
  rewrite length_replicate in Hu. unfold i32 in *. rewrite signed_small in * by lia.
  pose proof (compare_loop_spec oom p ff (k_enc (pKeyInfo p)) _ (aMem p) cells _ _ 0
    (set_enc (k_enc (pKeyInfo p)) mem1) (replicate (length (aMem p)) blank) Hat eq_refl
    (length_replicate _ _)) as Hc. cbv zeta in Hc.
  replace (Z.of_nat (length (record_header ff cells)) - Z.of_nat (length (record_types ff cells))
           + Z.of_nat (length (record_types ff cells)))
    with (Z.of_nat (length (record_header ff cells))) in Hc by lia.
  destruct (first_difference oom p 0 _ (aMem p)) as [[[i a] c]|].
  - destruct Hc as (a'&Hs&->). split; [done|]. split; [done|]. intros Hint.
    unfold searched. rewrite (sc_int _ _ Hs); [done|].
    unfold has in *. by rewrite (sc_flags _ _ Hs).
  - destruct Hc as (idx'&->&->). done.
Qed.

(** ** The row identifier of an index entry *)

Lemma value_of_int m i : value_of m = VInt i → u_i m = i.
Proof. unfold value_of. repeat case_test; congruence. Qed.

(** The serial type of an integer is one byte. *)
Lemma int_cell_type m i ff :
  cell_ok m → value_of m = VInt i →
  let t := sqlite3VdbeSerialType m ff in 1 ≤ t ≤ 9 ∧ t ≠ 7 ∧ putVarint32 t = [t].
Proof.
  intros Hok Hv. cbv zeta.
  assert (Ht : 1 ≤ sqlite3VdbeSerialType m ff ≤ 9 ∧ sqlite3VdbeSerialType m ff ≠ 7).
  { destruct (cell_type_ok m ff Hok) as [Hv'|j Hv' Hj ->|j k Hv' _ Hk _|Hv'|Hv']; rewrite Hv in Hv'; try done.
    - lia.
    - destruct (int_type_range _ _ Hk). lia.
    - by destruct (has m MEM_Str). }
  split_and!; try tauto. unfold putVarint32. rewrite (proj2 (Z.ltb_lt _ 0x80)) by lia.
  rewrite u8_small by lia. done.
Qed.

Lemma record_snoc ff cells m :
  record_types ff (cells ++ [m]) = record_types ff cells ++ putVarint32 (sqlite3VdbeSerialType m ff)
  ∧ record_data ff (cells ++ [m]) = record_data ff cells ++ serial_data m ff.
Proof.
  unfold record_types, record_data. rewrite !map_app, !concat_app. cbn. by rewrite !app_nil_r.
Qed.

(** The row identifier at the end of an index entry is the integer that was
    stored there, whatever the fields before it; an entry that cannot be read
    returns the error of the reading. *)
Theorem index_rowid ff cells m i v rc :
  Forall cell_ok cells → cells ≠ [] → cell_ok m → value_of m = VInt i →
  let entry := record_format ff (cells ++ [m]) in
  Z.of_nat (length entry) < 2 ^ 31 →
  sqlite3VdbeIdxRowid (inr entry) v = (SQLITE_OK, Some i) ∧
  sqlite3VdbeIdxRowid (inl rc) v = (rc, None).
Proof.
  intros HF Hne Hm Hv entry Hl. split; [|done].
  assert (HF' : Forall cell_ok (cells ++ [m])) by (apply Forall_app; split; [done|by apply Forall_singleton]).
  destruct (at_field_start ff _ HF' Hl) as (Hg&Hat&Hk&Hle).
  destruct (format_length ff (cells ++ [m])) as [El _]. fold entry in Hg, Hat, El.
  destruct (int_cell_type m i ff Hm Hv) as (Ht&Ht7&Hp). destruct (record_snoc ff cells m) as [Et Ed].
  destruct (serial_roundtrip m ff [] v Hm) as (_&Hdl&m'&Hget&Hvm&_). rewrite app_nil_r in Hget.
  rewrite Hv in Hvm. apply value_of_int in Hvm.
  set (t := sqlite3VdbeSerialType m ff) in *.
  assert (Hh : ∃ h, record_header ff (cells ++ [m]) = h ++ [t]).
  { unfold record_header. rewrite Et, Hp, app_assoc. by eexists. }
  destruct Hh as [h Hh].
  assert (Hc : (0 < length (record_types ff cells))%nat).
  { destruct cells as [|c cells]; [done|]. apply Forall_cons in HF as [Hc HF].
    destruct (varint32_decode _ [] (types_range ff c Hc)) as (_&_&H&_); [done|].
    change (record_types ff (c :: cells)) with (putVarint32 (sqlite3VdbeSerialType c ff) ++ record_types ff cells).
    rewrite length_app. lia. }
  rewrite Et, Hp, length_app in *. rewrite Hh, length_app in *. cbn [length] in *.
  unfold sqlite3VdbeIdxRowid. rewrite Hg. rewrite El in Hl.
  assert (Hd : length (record_data ff (cells ++ [m]))
               = (length (record_data ff cells) + length (serial_data m ff))%nat)
    by (by rewrite Ed, length_app).
  unfold i32. rewrite signed_small by lia.
  rewrite (proj2 (Z.ltb_ge _ 3)), (proj2 (Z.ltb_ge _ (Z.of_nat (length h + 1)))) by lia. cbn [orb].
  assert (Edr : drop (Z.to_nat (Z.of_nat (length h + 1) - 1)) entry = t :: record_data ff (cells ++ [m])).
  { unfold entry, record_format. rewrite Hh, <- app_assoc.
    replace (Z.to_nat _) with (length h) by lia. by rewrite drop_app_length. }
  rewrite Edr. unfold getVarint32 at 1, at_. change (Z.to_nat 0) with 0%nat. cbn [nth].
  rewrite (proj2 (Z.ltb_lt t 0x80)) by lia.
  rewrite (proj2 (Z.ltb_ge t 1)), (proj2 (Z.ltb_ge 9 t)), (proj2 (Z.eqb_neq t 7)) by lia. cbn [orb].
  rewrite <- Hdl, u32_small, (proj2 (Z.ltb_ge _ (Z.of_nat (length h + 1) + _))) by lia.
  replace (drop _ entry) with (serial_data m ff).
  2:{ unfold entry, record_format. rewrite Ed, app_assoc. symmetry. apply drop_app_length'.
      rewrite length_app, Hh, length_app. cbn [length]. lia. }
  by rewrite Hget, Hvm.
Qed.

(** ** Concrete records *)

Lemma sample_row_ok : Forall cell_ok sample_row.
Proof.
  unfold sample_row. repeat constructor; unfold bytes_ok, SQLITE_MAX_LENGTH; cbn; try done; try lia.
Qed.

(** Witness: the sample row, decoded into eight cells. *)
Lemma record_roundtrip_witness :
  let '(regs, result) :=
    OP_MakeRecord (λ _ m, m) 1000000000 4 None [] true cell_null sample_row in
  match result with
  | Made m => value_of m = VBlob (record_format 4 regs) ∧ tail_len m = 4
  | _ => False
  end.
Proof.
  pose proof (record_roundtrip (λ _ m, m) 1000000000 4 None true cell_null sample_row sample_key 0
    (replicate 8 cell_null) (λ _ _ H, H) sample_row_ok ltac:(lia)) as H.
  cbv zeta in H.
  destruct (OP_MakeRecord (λ _ m, m) 1000000000 4 None [] true cell_null sample_row)
    as [regs result] eqn:E.
  destruct H as [_ H]; [injection E as <- _; vm_compute; reflexivity|].
  destruct result as [m| |].
  - destruct H as (H1&_&H2&_). split; [exact H1|]. rewrite H2. injection E as <- _. by vm_compute.
  - injection E as <- E. vm_compute in E. discriminate E.
  - discriminate H.
Defined.

(** Witness: the sample record compared with its first two fields. *)
Lemma record_compare_decoded_witness :
  let p := mkUnpacked sample_key UNPACKED_PREFIX_MATCH 0 [cell_int 5; cell_null] in
  (sqlite3VdbeRecordCompare (λ _, false) cell_null (Z.of_nat (length (record_format 4 sample_row)))
     (record_format 4 sample_row) p).1 = 0.
Proof.
  set (p := mkUnpacked sample_key UNPACKED_PREFIX_MATCH 0 [cell_int 5; cell_null]).
  pose proof (record_compare_decoded (λ _, false) 4 sample_row cell_null p cell_null sample_row_ok
                ltac:(vm_compute; reflexivity)) as H.
  cbv zeta in *. destruct (sqlite3VdbeRecordCompare _ _ _ _ _) as [rc p'].
  destruct H as [_ H].
  replace (first_difference _ _ _ _ _) with (@None (nat * Mem * Z)) in H by by vm_compute.
  destruct H as [_ ->]. by vm_compute.
Defined.

(** Witness: the identifier -70000 after a text and a NULL. *)
Lemma index_rowid_witness :
  sqlite3VdbeIdxRowid (inr (record_format 4 ([cell_text [104; 105]; cell_null] ++ [cell_int (-70000)])))
    cell_null = (SQLITE_OK, Some (-70000)).
Proof.
  refine (proj1 (index_rowid 4 [cell_text [104; 105]; cell_null] (cell_int (-70000)) (-70000) cell_null
            0 _ _ _ _ _)); [|done| |done|by vm_compute].
  - repeat constructor; unfold bytes_ok, SQLITE_MAX_LENGTH; cbn; try done; try lia.
  - split; unfold bytes_ok, SQLITE_MAX_LENGTH; cbn; try done; try lia.
Defined.
