(* ===== verification/FileText.v ===== *)
(** * The text of a file container (filecontainer.cpp)

    Numbers as the output streams print them (a base, a width, filled with zeros) and
    as the input streams read them back, the regular expressions that guard the
    reading, the widths of the fields and their offsets in the file. *)

From S2P Require Import Prelude Machine.

#[local] Open Scope char_scope.
#[local] Open Scope Z_scope.

Notation bytes := (list ascii).

(** ** Characters *)

Definition newline : ascii := "010".
Definition blank : ascii := " ".

(** The value of a digit, up to base 16, in either case. *)
Definition digit_value (c : ascii) : option Z :=
  let n := Z.of_nat (nat_of_ascii c) in
  if (48 <=? n) && (n <=? 57) then Some (n - 48)
  else if (97 <=? n) && (n <=? 102) then Some (n - 87)
  else if (65 <=? n) && (n <=? 70) then Some (n - 55)
  else None.

Definition is_digit (base : Z) (c : ascii) : bool :=
  match digit_value c with Some d => d <? base | None => false end.

(** The white space of the regular expressions and of the input streams. *)
Definition is_space (c : ascii) : bool :=
  let n := Z.of_nat (nat_of_ascii c) in ((9 <=? n) && (n <=? 13)) || (n =? 32).

Definition is_blank (c : ascii) : bool := bool_decide (c = blank).

(** ** Printing *)

Definition digit (d : Z) : ascii :=
  ascii_of_nat (Z.to_nat (if d <? 10 then 48 + d else 87 + d)).

(** The digits of [v], the most significant one first, before [acc]. *)
Fixpoint digits (fuel : nat) (base v : Z) (acc : bytes) : bytes :=
  match fuel with
  | O => acc
  | S fuel =>
      let acc := digit (v mod base) :: acc in
      if v <? base then acc else digits fuel base (v / base) acc
  end.

(** [setfill('0') << setw(width)], in the base of the stream; the digits of a 64-bit
    number in base 10 are at most 20. *)
Definition print_num (base : Z) (width : nat) (v : Z) : bytes :=
  let s := digits 64 base v [] in
  replicate (width - length s) "0" ++ s.

(** ** Reading *)

(** The number a sequence of digits stands for. *)
Definition number (base : Z) (s : bytes) : Z :=
  fold_left (λ a c, a * base + default 0 (digit_value c)) s 0.

(** ** The regular expressions *)

(** [^\s*[0-9a-fA-F]+ +[0-9a-fA-F]+] of [FileIterator::read], on the whole of a line. *)
Definition match_iterator (s : bytes) : bool :=
  let '(_, s) := span is_space s in
  let '(h1, s) := span (is_digit 16) s in
  let '(b, s) := span is_blank s in
  let '(h2, s) := span (is_digit 16) s in
  negb (bool_decide (h1 = [])) && negb (bool_decide (b = [])) && negb (bool_decide (h2 = []))
  && bool_decide (s = []).

(** [^\d+ +\d+$] of [TimeStamp::read]. *)
Definition match_stamp (s : bytes) : bool :=
  let '(h1, s) := span (is_digit 10) s in
  let '(b, s) := span is_blank s in
  let '(h2, s) := span (is_digit 10) s in
  negb (bool_decide (h1 = [])) && negb (bool_decide (b = [])) && negb (bool_decide (h2 = []))
  && bool_decide (s = []).

(** [^[0-9a-fA-F]+ [0-9a-fA-F]+ [0-9a-fA-F]+$] of [readIteratorBackup]. *)
Definition match_backup (s : bytes) : bool :=
  let '(h1, s) := span (is_digit 16) s in
  match s with
  | c :: s =>
      let '(h2, s) := span (is_digit 16) s in
      match s with
      | c' :: s =>
          let '(h3, s) := span (is_digit 16) s in
          is_blank c && is_blank c'
          && negb (bool_decide (h1 = [])) && negb (bool_decide (h2 = []))
          && negb (bool_decide (h3 = [])) && bool_decide (s = [])
      | [] => false
      end
  | [] => false
  end.

(** [^[0-9]+ +(g|i)$] of [readSizeAndState]. *)
Definition match_header (s : bytes) : bool :=
  let '(h1, s) := span (is_digit 10) s in
  let '(b, s) := span is_blank s in
  negb (bool_decide (h1 = [])) && negb (bool_decide (b = []))
  && bool_decide (s = ["g"] ∨ s = ["i"]).

(** [^[ 01a-y]\n$] of [readFileStatus], on the first byte. *)
Definition match_status (c : ascii) : bool :=
  let n := Z.of_nat (nat_of_ascii c) in
  bool_decide (c = " ") || bool_decide (c = "0") || bool_decide (c = "1")
  || ((97 <=? n) && (n <=? 121)).

(** ** The sizes and offsets, [staticInitialize] *)

(** [integer_size]: the digits in base [basen] of the largest integer of [size]
    bytes. The code takes the logarithm of 256^size - 1 in [basen], rounded up. *)
Fixpoint size_search (fuel : nat) (basen top answer : Z) : Z :=
  match fuel with
  | O => answer
  | S fuel =>
      if top <=? basen ^ answer then answer else size_search fuel basen top (answer + 1)
  end.

Definition integer_size (size basen : Z) : Z := size_search 64 basen (256 ^ size - 1) 0.

Definition fi_s_width : Z := Eval cbv in integer_size 8 16.
Definition ts_s_twidth : Z := Eval cbv in integer_size 8 10.
Definition ts_s_swidth : Z := Eval cbv in integer_size 2 10.

Definition fc_s_iteratorBackupNumber : Z := 4.
Definition fc_s_stampSize : Z := (ts_s_swidth + ts_s_twidth + 1) + 1.
Definition fc_s_sizeSize : Z := Eval cbv in integer_size 8 10 + 3.
Definition fc_s_numberSize : Z := Eval cbv in integer_size 8 10 + 1.
Definition fc_s_statusPosition : Z := fc_s_stampSize + fc_s_numberSize + 1.
Definition fc_s_iteratorBackupSize : Z :=
  ((fc_s_iteratorBackupNumber * 3) * fi_s_width) + (fc_s_iteratorBackupNumber * 3).
Definition fc_s_limitsBackupSize : Z := (2 * fi_s_width) + 2.
Definition fc_s_listBackupSize : Z := fc_s_limitsBackupSize.
Definition fc_s_backupSize : Z :=
  fc_s_iteratorBackupSize + fc_s_limitsBackupSize + fc_s_listBackupSize + 3.
Definition fc_s_headerSize : Z :=
  fc_s_stampSize + fc_s_numberSize + fc_s_backupSize + (4 * fi_s_width) + 4.
Definition fc_s_positionPosition : Z := fc_s_stampSize + fc_s_numberSize + fc_s_backupSize.
Definition fc_s_listPosition : Z := fc_s_positionPosition + fc_s_limitsBackupSize.

Example layout_sizes :
  (fi_s_width, fc_s_stampSize, fc_s_statusPosition, fc_s_positionPosition, fc_s_listPosition,
   fc_s_headerSize) = (16, 27, 49, 323, 357, 391).
Proof. reflexivity. Qed.

(** [calculateDataSize] *)
Definition calculateDataSize (size sizeSize : Z) : Z := (4 * fi_s_width) + sizeSize + size + 8.

(** ** The fields *)

(** [TimeStamp] *)
Record TimeStamp := mkStamp { ts_epoch : Z; ts_counter : Z }.

(** [FileIterator] *)
Record FileIterator := mkIt { fi_prev : Z; fi_next : Z; fi_current : Z }.

#[export] Instance TimeStamp_eq_dec : EqDecision TimeStamp.
Proof. solve_decision. Defined.
#[export] Instance FileIterator_eq_dec : EqDecision FileIterator.
Proof. solve_decision. Defined.

(** A number in hexadecimal, as a signed one is printed: its two's complement. *)
Definition hex (v : Z) : bytes := print_num 16 (Z.to_nat fi_s_width) (u64 v).

(** [FileIterator::write] *)
Definition write_iterator (it : FileIterator) : bytes := hex (fi_prev it) ++ blank :: hex (fi_next it).

(** [TimeStamp::write] *)
Definition write_stamp (ts : TimeStamp) : bytes :=
  print_num 10 (Z.to_nat ts_s_twidth) (ts_epoch ts)
  ++ blank :: print_num 10 (Z.to_nat ts_s_swidth) (ts_counter ts).

Definition line (s : bytes) : bytes := s ++ [newline].
(** ** Printing and reading back *)

Definition base_ok (base : Z) : Prop := base = 10 ∨ base = 16.

Lemma digit_inv base d :
  base_ok base → 0 ≤ d < base →
  digit_value (digit d) = Some d ∧ is_digit base (digit d) = true.
Proof.
  intros Hb Hd.
  assert (H : digit_value (digit d) = Some d).
  { assert (Hc : d ∈ seqZ 0 16) by (apply elem_of_seqZ; destruct Hb; lia).
    revert Hc. generalize d. apply Forall_forall. repeat constructor. }
  split; [done|]. unfold is_digit. rewrite H. apply Z.ltb_lt. lia.
Qed.

Lemma number_app base l1 l2 :
  number base (l1 ++ l2) = fold_left (λ a c, a * base + default 0 (digit_value c)) l2 (number base l1).
Proof. apply fold_left_app. Qed.

Lemma number_cons base c l x :
  fold_left (λ a c, a * base + default 0 (digit_value c)) (c :: l) x =
  fold_left (λ a c, a * base + default 0 (digit_value c)) l (x * base + default 0 (digit_value c)).
Proof. done. Qed.

Lemma number_shift base l x :
  fold_left (λ a c, a * base + default 0 (digit_value c)) l x =
  x * base ^ Z.of_nat (length l) + number base l.
Proof.
  unfold number. revert x. induction l as [|c l IH]; intros x; [simpl; lia|].
  cbn [fold_left length]. rewrite IH, (IH (0 * base + _)), Nat2Z.inj_succ, Z.pow_succ_r by lia. lia.
Qed.

Lemma digits_spec fuel base v acc :
  base_ok base → 0 ≤ v < base ^ Z.of_nat fuel →
  ∃ l, digits fuel base v acc = l ++ acc ∧ Forall (λ c, is_digit base c = true) l
       ∧ number base l = v ∧ (fuel ≠ O → l ≠ [])
       ∧ ∀ k, 0 < k → v < base ^ k → Z.of_nat (length l) ≤ k.
Proof.
  intros Hb. assert (1 < base) by (destruct Hb; lia).
  revert v acc. induction fuel as [|fuel IH]; intros v acc Hv.
  { exists []. simpl in *. split_and!; [done|constructor|unfold number; simpl; lia|done|lia]. }
  cbn [digits]. pose proof (Z.mod_pos_bound v base) as Hm.
  destruct (digit_inv base (v mod base)) as [Hd1 Hd2]; [done|lia|].
  destruct (Z.ltb_spec v base) as [Hlt|Hge].
  - exists [digit (v mod base)]. split_and!; [done|by repeat constructor| |done|].
    + unfold number. simpl. rewrite Hd1. simpl. rewrite Z.mod_small by lia. lia.
    + intros k Hk _. simpl. lia.
  - rewrite Nat2Z.inj_succ, Z.pow_succ_r in Hv by lia.
    destruct (IH (v / base) (digit (v mod base) :: acc)) as (l&E&Hl&Hn&Hne&Hk).
    { split; [apply Z.div_pos; lia|]. apply Z.div_lt_upper_bound; lia. }
    exists (l ++ [digit (v mod base)]). split_and!.
    + rewrite E, <- app_assoc. done.
    + apply Forall_app. by repeat constructor.
    + rewrite number_app, Hn. simpl. rewrite Hd1. simpl. pose proof (Z.div_mod v base). lia.
    + intros _ H'. by apply app_eq_nil in H' as [_ H'].
    + intros k Hk0 Hvk. rewrite length_app. simpl.
      destruct (Z.eq_dec k 1) as [->|Hk1]; [rewrite Z.pow_1_r in Hvk; lia|].
      specialize (Hk (k - 1)).
      replace k with (Z.succ (k - 1)) in Hvk by lia. rewrite Z.pow_succ_r in Hvk by lia.
      assert (v / base < base ^ (k - 1)) by (apply Z.div_lt_upper_bound; lia). lia.
Qed.

(** What is printed, as long as it fits the width. *)
Record printed (base : Z) (w : nat) (v : Z) (l : bytes) : Prop := {
  pr_length : length l = w;
  pr_digits : Forall (λ c, is_digit base c = true) l;
  pr_number : number base l = v
}.

Lemma print_num_spec base w v :
  base_ok base → (0 < w ≤ 64)%nat → 0 ≤ v < base ^ Z.of_nat w → printed base w v (print_num base w v).
Proof.
  intros Hb Hw Hv. unfold print_num. assert (1 < base) by (destruct Hb; lia).
  destruct (digits_spec 64 base v [] Hb) as (l&E&Hl&Hn&_&Hk).
  { split; [lia|]. pose proof (Z.pow_le_mono_r base (Z.of_nat w) (Z.of_nat 64)). lia. }
  rewrite E, app_nil_r. specialize (Hk (Z.of_nat w)). constructor.
  - rewrite length_app, length_replicate. lia.
  - apply Forall_app. split; [|done]. apply Forall_replicate.
    destruct Hb as [-> | ->]; done.
  - rewrite number_app, number_shift, Hn.
    assert (Hz : ∀ n, number base (replicate n "0") = 0).
    { induction n as [|n IH]; [done|]. replace (S n) with (n + 1)%nat by lia.
      rewrite replicate_add, number_app, IH. done. }
    rewrite Hz. lia.
Qed.

Lemma span_stop {A} (p : A → bool) l r :
  Forall (λ x, p x = true) l → match r with [] => True | c :: _ => p c = false end →
  span p (l ++ r) = (l, r).
Proof.
  intros Hl Hr. induction Hl as [|x l Hx Hl IH]; simpl.
  - destruct r as [|c r]; [done|]. simpl. by rewrite Hr.
  - by rewrite Hx, IH.
Qed.

Lemma is_digit_space base c : is_digit base c = true → is_space c = false.
Proof.
  unfold is_digit, digit_value, is_space. intros H. destruct (_ && _) eqn:E1 in H; breflect.
  - apply orb_false_iff. split; [apply andb_false_iff; right; apply Z.leb_gt; lia|apply Z.eqb_neq; lia].
  - destruct (_ && _) eqn:E2 in H; breflect.
    + apply orb_false_iff. split; [apply andb_false_iff; right; apply Z.leb_gt; lia|apply Z.eqb_neq; lia].
    + destruct (_ && _) eqn:E3 in H; [|done]. breflect.
      apply orb_false_iff. split; [apply andb_false_iff; right; apply Z.leb_gt; lia|apply Z.eqb_neq; lia].
Qed.
Lemma is_space_digit base c : is_space c = true → is_digit base c = false.
Proof. intros H. destruct (is_digit base c) eqn:E; [|done]. apply is_digit_space in E. congruence. Qed.

Lemma is_digit_blank base c : is_digit base c = true → is_blank c = false.
Proof.
  intros H. apply bool_decide_eq_false. intros ->. apply is_digit_space in H. done.
Qed.
(** A nonempty sequence of digits. *)
Record numeral (base : Z) (l : bytes) : Prop := mkNumeral {
  num_ne : l ≠ [];
  num_digits : Forall (λ c, is_digit base c = true) l
}.

Lemma printed_numeral base w v l : (0 < w)%nat → printed base w v l → numeral base l.
Proof. intros Hw [Hl Hd _]. split; [|done]. intros ->. simpl in Hl. lia. Qed.

(** What follows a numeral ends it. *)
Definition ends_numeral (base : Z) (r : bytes) : Prop :=
  match r with [] => True | c :: _ => is_digit base c = false end.

Lemma span_numeral base l r :
  numeral base l → ends_numeral base r → span (is_digit base) (l ++ r) = (l, r).
Proof. intros [_ Hl]. by apply span_stop. Qed.

Lemma span_spaces w base d r :
  Forall (λ c, is_space c = true) w → numeral base d →
  span is_space (w ++ d ++ r) = (w, d ++ r).
Proof.
  intros Hw [Hne Hd]. apply span_stop; [done|]. destruct d as [|c d]; [done|]. simpl.
  apply Forall_cons in Hd as [Hd _]. by eapply is_digit_space.
Qed.

Lemma span_blanks base d r :
  numeral base d → span is_blank (blank :: d ++ r) = ([blank], d ++ r).
Proof.
  intros [Hne Hd]. apply (span_stop is_blank [blank]); [by repeat constructor|].
  destruct d as [|c d]; [done|]. simpl. apply Forall_cons in Hd as [Hd _].
  by eapply is_digit_blank.
Qed.

Lemma numeral_ne base d : numeral base d → bool_decide (d = []) = false.
Proof. intros [H _]. by apply bool_decide_eq_false. Qed.

Lemma match_iterator_ok w d1 d2 :
  Forall (λ c, is_space c = true) w → numeral 16 d1 → numeral 16 d2 →
  match_iterator (w ++ d1 ++ blank :: d2) = true.
Proof.
  intros Hw H1 H2. unfold match_iterator. rewrite (span_spaces w 16) by done.
  rewrite span_numeral by done. rewrite <- (app_nil_r d2). rewrite (span_blanks 16) by done.
  rewrite (span_numeral 16 d2 []) by done. by rewrite (numeral_ne 16 d1), (numeral_ne 16 d2) by done.
Qed.

Lemma match_stamp_ok d1 d2 :
  numeral 10 d1 → numeral 10 d2 → match_stamp (d1 ++ blank :: d2) = true.
Proof.
  intros H1 H2. unfold match_stamp. rewrite span_numeral by done.
  rewrite <- (app_nil_r d2), (span_blanks 10) by done.
  rewrite (span_numeral 10 d2 []) by done. by rewrite (numeral_ne 10 d1), (numeral_ne 10 d2) by done.
Qed.

Lemma match_backup_ok d1 d2 d3 :
  numeral 16 d1 → numeral 16 d2 → numeral 16 d3 →
  match_backup (d1 ++ blank :: d2 ++ blank :: d3) = true.
Proof.
  intros H1 H2 H3. unfold match_backup. rewrite span_numeral by done.
  rewrite span_numeral by done. rewrite <- (app_nil_r d3), (span_numeral 16 d3 []) by done.
  by rewrite (numeral_ne 16 d1), (numeral_ne 16 d2), (numeral_ne 16 d3) by done.
Qed.

Lemma match_header_ok d (st : ascii) :
  numeral 10 d → st = "g"%char ∨ st = "i"%char → match_header (d ++ [blank; st]) = true.
Proof.
  intros H1 Hst. unfold match_header. rewrite span_numeral by done.
  replace [blank; st] with ([blank] ++ [st]) by done.
  rewrite (span_stop is_blank [blank]) by (destruct Hst as [-> | ->]; by repeat constructor).
  rewrite (numeral_ne 10) by done. destruct Hst as [-> | ->]; done.
Qed.

Lemma hex_printed v : 0 ≤ v < 2 ^ 63 → printed 16 16 v (hex v).
Proof.
  intros Hv. unfold hex. rewrite u64_small by lia.
  apply (print_num_spec 16 16); [by right|lia|]. change (16 ^ Z.of_nat 16) with (2 ^ 64). lia.
Qed.
Lemma hex_numeral v : 0 ≤ v < 2 ^ 63 → numeral 16 (hex v).
Proof. intros Hv. eapply printed_numeral; [|by apply hex_printed]. lia. Qed.

Lemma numeral_no_newline base d : numeral base d → Forall (λ c, c ≠ newline) d.
Proof.
  intros [_ H]. eapply Forall_impl; [exact H|]. intros c Hc ->.
  apply is_digit_space in Hc. done.
Qed.
