(* ===== verification/FileContainer.v ===== *)
(** * The file container (filecontainer.cpp)

    A list of strings kept in a file as a doubly-linked list of records, with backups
    of what is being changed, so that an interrupted operation is undone or completed
    by the next process that opens the file. The state is the bytes of the file, the
    stream through which the process reads and writes them, and the object with its
    cached copies of the header. *)

From S2P Require Import Prelude Machine FileText.

(** ** Results, statuses and state *)

(** [FileContainerError::iostatus_t], without [all_good], which is the absence of an
    error. *)
Inductive iostatus_t :=
| unknown | cannot_open | file_closed | syntax_error | io_error | data_error
| unavailable_position | container_modified | try_recover | unrecoverable_data
| decrementing_from_zero | not_removing_last
| cannot_convert_from_string | cannot_convert_to_string.

#[export] Instance iostatus_eq_dec : EqDecision iostatus_t.
Proof. solve_decision. Defined.

(** [FileContainer::filestatus_t]; [status_y] is the one character that the regular
    expression of the status admits and that is no enumerator. *)
Inductive filestatus_t :=
| empty | opened | closed
| ae_iterator | ae_limits | ae_writing | ae_written
| ab_iterator | ab_writing | ab_written | ab_last | ab_limits
| am_iterator1 | am_iterator2 | am_writing | am_written | am_last
| rd_limits | rd_iterator | rd_iterator2 | rd_iterator3 | rd_mark1 | rd_mark2
| ft_begin | ft_end | ad_empty | rd_empty | status_y.

#[export] Instance filestatus_eq_dec : EqDecision filestatus_t.
Proof. solve_decision. Defined.

Definition statuses : list filestatus_t :=
  [ae_iterator; ae_limits; ae_writing; ae_written;
   ab_iterator; ab_writing; ab_written; ab_last; ab_limits;
   am_iterator1; am_iterator2; am_writing; am_written; am_last;
   rd_limits; rd_iterator; rd_iterator2; rd_iterator3; rd_mark1; rd_mark2;
   ft_begin; ft_end; ad_empty; rd_empty; status_y].

(** The position in the enumeration that starts at ['a']. *)
Fixpoint status_index (l : list filestatus_t) (x : filestatus_t) : nat :=
  match l with
  | [] => O
  | y :: l => if bool_decide (x = y) then O else S (status_index l x)
  end.

Definition status_char (x : filestatus_t) : ascii :=
  match x with
  | empty => " "
  | opened => "1"
  | closed => "0"
  | _ => ascii_of_nat (97 + status_index statuses x)
  end%char.

Definition status_of (c : ascii) : option filestatus_t :=
  find (λ x, bool_decide (status_char x = c)) (empty :: opened :: closed :: statuses).

(** [static_cast<filestatus_t>(static_cast<int>(status) + 1)] *)
Definition status_succ (x : filestatus_t) : filestatus_t :=
  default status_y (status_of (ascii_of_nat (S (nat_of_ascii (status_char x))))).

(** The members of [FileContainer], but for the stream and the name. *)
Record Container := mkFC {
  fc_initialized : bool;
  fc_size : Z;
  fc_stamp : TimeStamp;
  fc_limits : FileIterator;
  fc_removed : FileIterator
}.

Definition un_dead : Z := 0xdead.
Definition un_beef : Z := 0xbeef.

(** The stream of the container on its file, the copy [backupFile] makes, the clock,
    and the object. [s_budget] is the number of writes and truncations that reach the
    disk before the first that fails: [None] when none fails. What is on the disk
    after that is also what a process that dies there leaves. *)
Record St := mkSt {
  s_file : bytes;
  s_pos : Z;
  s_eof : bool;
  s_fail : bool;
  s_bad : bool;
  s_budget : option nat;
  s_bak : option bytes;
  s_now : Z;
  fc : Container
}.

(** An operation ends with a status or a result, and is not defined where the code
    reads what it has not written or does not stop. *)
Definition E (A : Type) : Type := St → option ((iostatus_t + A) * St).

#[export] Instance E_ret : MRet E := λ A a s, Some (inr a, s).
#[export] Instance E_bind : MBind E := λ A B k m s,
  match m s with
  | Some (inr a, s) => k a s
  | Some (inl e, s) => Some (inl e, s)
  | None => None
  end.

Definition throw {A} (e : iostatus_t) : E A := λ s, Some (inl e, s).
Definition undefined {A} : E A := λ _, None.
Definition gets {A} (f : St → A) : E A := λ s, Some (inr (f s), s).
Definition modify (f : St → St) : E unit := λ s, Some (inr tt, f s).
Definition attempt {A} (m : E A) : E (iostatus_t + A) := λ s,
  match m s with Some (r, s) => Some (inr r, s) | None => None end.

Definition on_stream (file : bytes) (pos : Z) (eof fail bad : bool) (s : St) : St :=
  mkSt file pos eof fail bad (s_budget s) (s_bak s) (s_now s) (fc s).
Definition set_pos (p : Z) (s : St) : St :=
  on_stream (s_file s) p (s_eof s) (s_fail s) (s_bad s) s.
Definition set_fail (s : St) : St :=
  on_stream (s_file s) (s_pos s) (s_eof s) true (s_bad s) s.
Definition set_fc (o : Container) (s : St) : St :=
  mkSt (s_file s) (s_pos s) (s_eof s) (s_fail s) (s_bad s) (s_budget s) (s_bak s) (s_now s) o.
Definition set_size (n : Z) (o : Container) : Container :=
  mkFC (fc_initialized o) n (fc_stamp o) (fc_limits o) (fc_removed o).
Definition set_stamp (t : TimeStamp) (o : Container) : Container :=
  mkFC (fc_initialized o) (fc_size o) t (fc_limits o) (fc_removed o).
Definition set_limits (l : FileIterator) (o : Container) : Container :=
  mkFC (fc_initialized o) (fc_size o) (fc_stamp o) l (fc_removed o).
Definition set_removed (l : FileIterator) (o : Container) : Container :=
  mkFC (fc_initialized o) (fc_size o) (fc_stamp o) (fc_limits o) l.
Definition set_initialized (o : Container) : Container :=
  mkFC true (fc_size o) (fc_stamp o) (fc_limits o) (fc_removed o).
Definition update (f : Container → Container) : E unit := modify (λ s, set_fc (f (fc s)) s).
Definition member {A} (f : Container → A) : E A := gets (λ s, f (fc s)).

(** ** The stream *)

Definition is_good (s : St) : bool := negb (s_eof s || s_fail s || s_bad s).
Definition good : E bool := gets is_good.

(** [if( this->fc_stream->bad() ) answer = e] *)
Definition check_bad (e : iostatus_t) : E unit := λ s,
  if s_bad s then Some (inl e, s) else Some (inr tt, s).

(** [tellg] and [tellp]: there is one position for both. *)
Definition tell : E Z := gets (λ s, if s_fail s || s_bad s then -1 else s_pos s).

Definition seek (p : Z) : E unit := modify (λ s,
  if s_fail s || s_bad s then s else if p <? 0 then set_fail s else set_pos p s).

Definition file_size (s : St) : Z := Z.of_nat (length (s_file s)).

Definition seek_end : E unit := s ← gets file_size; seek s.
Definition seek_cur (n : Z) : E unit := p ← gets s_pos; seek (p + n).

(** What every input and output function does first. *)
Definition sentry : E bool := λ s, if is_good s then Some (inr true, s) else Some (inr false, set_fail s).

(** [sync]: every write of the code is flushed at once. *)
Definition sync_stream : E unit := _ ← sentry; mret tt.

Definition rest (s : St) : bytes := drop (Z.to_nat (s_pos s)) (s_file s).

(** [n] bytes further; at the end of the file if [eof], having failed if [fail]. *)
Definition advance (n : nat) (eof fail : bool) : E unit := modify (λ s,
  on_stream (s_file s) (s_pos s + Z.of_nat n) (s_eof s || eof) (s_fail s || fail) (s_bad s) s).

Definition is_newline (c : ascii) : bool := bool_decide (c = newline).

(** [getline] into an empty string. *)
Definition getline : E bytes :=
  ok ← sentry;
  if ok : bool then
    r ← gets rest;
    let '(l, r) := span (λ c, negb (is_newline c)) r in
    match r with
    | _ :: _ => advance (S (length l)) false false;; mret l
    | [] => advance (length l) true (bool_decide (l = []));; mret l
    end
  else mret [].

(** [read]: the bytes that were there. *)
Definition read (n : Z) : E bytes :=
  ok ← sentry;
  if ok : bool then
    r ← gets rest;
    let l := take (Z.to_nat n) r in
    let short := Z.of_nat (length l) <? n in
    advance (length l) short short;; mret l
  else mret [].

(** [get] *)
Definition get : E (option ascii) :=
  ok ← sentry;
  if ok : bool then
    r ← gets rest;
    match r with
    | c :: _ => advance 1 false false;; mret (Some c)
    | [] => advance 0 true true;; mret None
    end
  else mret None.

(** [>>] on an integer whose largest value is [max]: [v] is what the variable holds,
    and keeps when nothing is read. The fields of the file have no signs. *)
Definition extract (base max v : Z) : E Z :=
  ok ← sentry;
  if ok : bool then
    r ← gets rest;
    let '(w, r) := span is_space r in
    let '(d, r) := span (is_digit base) r in
    let x := number base d in
    let fail := bool_decide (d = []) || (max <? x) in
    advance (length w + length d) (bool_decide (r = [])) fail;;
    mret (if fail then v else x)
  else mret v.

(** [>>] on a character. *)
Definition extract_char (v : ascii) : E ascii :=
  ok ← sentry;
  if ok : bool then
    r ← gets rest;
    let '(w, r) := span is_space r in
    match r with
    | c :: _ => advance (S (length w)) false false;; mret c
    | [] => advance (length w) true true;; mret v
    end
  else mret v.

Definition max_streamoff : Z := 2 ^ 63 - 1.
Definition max_size : Z := 2 ^ 64 - 1.
Definition max_ushort : Z := 2 ^ 16 - 1.

(** The bytes [l] at [p] of a file, which grows where it has to. *)
Definition overwrite (f : bytes) (p : nat) (l : bytes) : bytes :=
  take p (f ++ replicate (p - length f) "000"%char) ++ l ++ drop (p + length l) f.

(** Bytes that are written at the position and flushed. *)
Definition flush (l : bytes) : E unit := λ s,
  match s_budget s with
  | Some O => Some (inr tt, on_stream (s_file s) (s_pos s) (s_eof s) (s_fail s) true s)
  | b =>
      Some (inr tt, mkSt (overwrite (s_file s) (Z.to_nat (s_pos s)) l)
                      (s_pos s + Z.of_nat (length l)) (s_eof s) (s_fail s) (s_bad s)
                      (pred <$> b) (s_bak s) (s_now s) (fc s))
  end.

Definition put (l : bytes) : E unit := ok ← sentry; if ok : bool then flush l else mret tt.

(** [ftruncate] *)
Definition ftruncate (size : Z) : E bool := λ s,
  match s_budget s with
  | Some O => Some (inr false, s)
  | b =>
      let f := take (Z.to_nat size) (s_file s) in
      Some (inr true, mkSt (f ++ replicate (Z.to_nat size - length f) "000"%char) (s_pos s)
                        (s_eof s) (s_fail s) (s_bad s) (pred <$> b) (s_bak s) (s_now s) (fc s))
  end.

Definition getEnd : E Z := seek_end;; tell.
Definition getBegin : E Z := member (λ o, fi_prev (fc_limits o)).
Definition getLast : E Z := member (λ o, fi_next (fc_limits o)).

(** ** Reading the fields *)

(** [FileIterator::read]: [None] when the text is not one. *)
Definition read_iterator (it : FileIterator) : E (option FileIterator) :=
  position ← tell;
  buffer ← getline;
  if match_iterator buffer then
    seek position;;
    prev ← extract 16 max_streamoff (fi_prev it);
    next ← extract 16 max_streamoff (fi_next it);
    mret (Some (mkIt prev next (fi_current it)))
  else mret None.

(** [TimeStamp::read] *)
Definition read_stamp (ts : TimeStamp) : E (option TimeStamp) :=
  position ← tell;
  buffer ← getline;
  if match_stamp buffer then
    seek position;;
    epoch ← extract 10 max_streamoff (ts_epoch ts);
    counter ← extract 10 max_ushort (ts_counter ts);
    mret (Some (mkStamp epoch counter))
  else mret None.

Definition readStamp : E unit :=
  sync_stream;;
  seek 0;;
  ts ← member fc_stamp;
  r ← read_stamp ts;
  update (set_stamp (default ts r));;
  check_bad file_closed.

Definition readSize : E unit :=
  old ← tell;
  update (set_size 0);;
  seek fc_s_stampSize;;
  n ← extract 10 max_size 0;
  update (set_size n);;
  seek old;;
  check_bad io_error.

(** The two bytes are read into an array that is not initialised. *)
Definition readFileStatus : E filestatus_t :=
  old ← tell;
  sync_stream;;
  seek fc_s_statusPosition;;
  sbuf ← read 2;
  seek old;;
  check_bad io_error;;
  match sbuf with
  | [c; n] =>
      if match_status c && is_newline n then mret (default status_y (status_of c))
      else throw syntax_error
  | _ => undefined
  end.

Definition backup_position (what : Z) : Z :=
  fc_s_statusPosition + 2 + (what mod fc_s_iteratorBackupNumber) * ((3 * fi_s_width) + 3).

Definition readIteratorBackup (what : Z) : E FileIterator :=
  old ← tell;
  seek (backup_position what);;
  buffer ← getline;
  seek (backup_position what);;
  ok ← good;
  if ok : bool then
    if match_backup buffer then
      pointer ← extract 16 max_streamoff 0;
      it ← read_iterator (mkIt 0 0 0);
      seek old;;
      ok ← good;
      let it := default (mkIt 0 0 0) it in
      if ok : bool then mret (mkIt (fi_prev it) (fi_next it) pointer) else throw io_error
    else throw syntax_error
  else throw io_error.

Definition limits_backup_position (isList : bool) : Z :=
  fc_s_statusPosition + fc_s_iteratorBackupSize + 2 + (if isList then fc_s_limitsBackupSize else 0).

Definition readLimitsBackup (limits : FileIterator) (isList : bool) : E FileIterator :=
  old ← tell;
  seek (limits_backup_position isList);;
  r ← read_iterator limits;
  seek old;;
  check_bad io_error;;
  match r with Some it => mret it | None => throw syntax_error end.

Definition initial_position (isList : bool) : Z :=
  if isList then fc_s_listPosition else fc_s_positionPosition.

Definition readInitialPosition (limits : FileIterator) (isList : bool) : E FileIterator :=
  sync_stream;;
  seek (initial_position isList);;
  r ← read_iterator limits;
  match r with
  | Some it => check_bad io_error;; mret it
  | None => throw syntax_error
  end.

Definition readLimits : E unit :=
  l ← member fc_limits;
  it ← readInitialPosition l false;
  update (set_limits it).
Definition readRemoved : E unit :=
  l ← member fc_removed;
  it ← readInitialPosition l true;
  update (set_removed it).

Definition readIteratorHere : E FileIterator :=
  here ← tell;
  r ← read_iterator (mkIt 0 0 0);
  match r with
  | Some it =>
      c ← get;
      if bool_decide (c = Some newline) then
        ok ← good;
        if ok : bool then mret (mkIt (fi_prev it) (fi_next it) here) else throw io_error
      else throw syntax_error
  | None => throw syntax_error
  end.

(** The line is matched first, so the two variables are always assigned. *)
Definition readSizeAndState : E (Z * ascii) :=
  position ← tell;
  buffer ← getline;
  if match_header buffer then
    seek position;;
    size ← extract 10 max_size 0;
    state ← extract_char blank;
    check_bad io_error;;
    c ← get;
    if bool_decide (c = Some newline) then mret (size, state) else throw syntax_error
  else throw syntax_error.

Definition readIterator (where_ : Z) (fileorder : bool) : E FileIterator :=
  end_ ← getEnd;
  if (fc_s_headerSize <=? where_) && (where_ <? end_) then
    seek where_;;
    it ← readIteratorHere;
    if fileorder then
      '(size, _) ← readSizeAndState;
      seek_cur (size + 1);;
      it ← readIteratorHere;
      mret (mkIt (fi_prev it) (fi_next it) where_)
    else mret it
  else if where_ =? end_ then mret (mkIt 0 0 end_)
  else if where_ =? 0 then mret (mkIt 0 0 0)
  else throw unavailable_position.

Definition bufsiz : Z := 8192.

(** The loop of [readDataHere], which reads pieces of [BUFSIZ] bytes: a piece that is
    cut short ends it, and one that has nothing left to read makes it go on for ever. *)
Fixpoint read_pieces (fuel : nat) (size : Z) (data : bytes) : E bytes :=
  match fuel with
  | O => undefined
  | S fuel =>
      if 0 <? size then
        let toread := if bufsiz <? size then bufsiz else size in
        l ← read toread;
        let n := Z.of_nat (length l) in
        let size := if n =? toread then size - toread else if 0 <? n then 0 else size in
        read_pieces fuel size (data ++ l)
      else mret data
  end.

Definition readDataHere (force : bool) : E (FileIterator * FileIterator * bytes) :=
  r ← attempt readIteratorHere;
  match r with
  | inl _ => throw syntax_error
  | inr it =>
      '(size, state) ← readSizeAndState;
      if bool_decide (state = "g"%char) || (force && bool_decide (state = "i"%char)) then
        fuel ← gets (λ s, S (S (length (s_file s))));
        data ← read_pieces fuel size [];
        c ← get;
        if bool_decide (c = Some newline) then
          r ← read_iterator (mkIt 0 0 0);
          ok ← good;
          if ok : bool then
            match r with Some lit => mret (it, lit, data) | None => throw syntax_error end
          else throw io_error
        else throw syntax_error
      else if bool_decide (state = "i"%char) then throw unavailable_position
      else throw syntax_error
  end.

(** ** Writing the fields *)

Definition writeFileStatus (status : filestatus_t) : E unit :=
  old ← tell;
  sync_stream;;
  check_bad io_error;;
  seek fc_s_statusPosition;;
  put (line [status_char status]);;
  seek old;;
  sync_stream;;
  check_bad io_error.

Definition writeAndSetSize (size : Z) : E unit :=
  old ← tell;
  seek fc_s_stampSize;;
  put (line (print_num 10 (Z.to_nat fc_s_numberSize) size));;
  seek old;;
  check_bad io_error;;
  update (set_size size).

Definition vuoto : FileIterator := mkIt 0 0 0.

(** A line of the iterator backups. *)
Definition write_backup (it : FileIterator) : bytes := hex (fi_current it) ++ blank :: write_iterator it.

Definition empty_backup : bytes :=
  concat (replicate (Z.to_nat fc_s_iteratorBackupNumber) (line (write_backup vuoto)))
  ++ line (write_iterator vuoto) ++ line (write_iterator vuoto).

Definition createEmptyBackup (state : filestatus_t) : E unit :=
  old ← tell;
  seek (fc_s_statusPosition + 2);;
  put empty_backup;;
  seek old;;
  check_bad io_error;;
  writeFileStatus state.

Definition writeIteratorBackup (what : Z) (it : FileIterator) (status : filestatus_t) : E unit :=
  old ← tell;
  seek (backup_position what);;
  put (line (write_backup it));;
  seek old;;
  check_bad io_error;;
  writeFileStatus status.

Definition writeLimitsBackup (status : filestatus_t) (limits : FileIterator) (isList : bool) : E unit :=
  old ← tell;
  seek (limits_backup_position isList);;
  put (line (write_iterator limits));;
  seek old;;
  check_bad io_error;;
  writeFileStatus status.

Definition writeStamp : E unit :=
  seek 0;;
  ts ← member fc_stamp;
  put (line (write_stamp ts));;
  sync_stream;;
  check_bad file_closed.

Definition writeInitialPosition (position : FileIterator) (isList : bool) : E unit :=
  sync_stream;;
  seek (initial_position isList);;
  put (line (write_iterator position));;
  check_bad io_error.

(** The guard is the code's: a disjunction. *)
Definition writeIterator (where_ : Z) (it : FileIterator) : E unit :=
  ok ← (if fc_s_headerSize <=? where_ then mret true else end_ ← getEnd; mret (where_ <? end_));
  if ok : bool then
    seek where_;;
    put (line (write_iterator it));;
    sync_stream;;
    check_bad io_error
  else throw unavailable_position.

Definition write_size_and_state (size : Z) (state : ascii) : bytes :=
  print_num 10 (Z.to_nat fc_s_sizeSize) size ++ [blank; state].

Definition writeDataHeader (it : FileIterator) (size : Z) (state : ascii) : E unit :=
  put (line (write_iterator it));;
  put (line (write_size_and_state size state));;
  check_bad io_error.

(** ** Time stamps *)

(** [TimeStamp::update_stamp] *)
Definition update_stamp (now : Z) (this ts : TimeStamp) : TimeStamp :=
  let this :=
    if ts_epoch this =? now then mkStamp (ts_epoch this) (u16 (ts_counter this + 1))
    else mkStamp now 0 in
  if ts_epoch this <? ts_epoch ts then mkStamp (ts_epoch ts) (u16 (ts_counter ts + 1))
  else if (ts_epoch this =? ts_epoch ts) && (ts_counter this <=? ts_counter ts)
  then mkStamp (ts_epoch this) (u16 (ts_counter ts + 1))
  else this.

(** [TimeStamp::operator>] *)
Definition stamp_gt (a b : TimeStamp) : bool :=
  (ts_epoch b <? ts_epoch a) || ((ts_epoch a =? ts_epoch b) && (ts_counter b <? ts_counter a)).

(** The source reads the clock twice: for the local stamp, whose two members are then
    overwritten by what is read from the file, and in [update_stamp]. Only the second
    reading is used; here both are [s_now]. *)
Definition updateTimeStamp : E unit :=
  now ← gets s_now;
  sync_stream;;
  seek 0;;
  r ← read_stamp (mkStamp now 0);
  match r with
  | Some stamp =>
      update (λ o, set_stamp (update_stamp now (fc_stamp o) stamp) o);;
      seek 0;;
      ts ← member fc_stamp;
      put (line (write_stamp ts));;
      check_bad file_closed
  | None => throw syntax_error
  end.

Definition checkStamp : E bool :=
  now ← gets s_now;
  sync_stream;;
  seek 0;;
  r ← read_stamp (mkStamp now 0);
  match r with
  | Some stamp =>
      ok ← good;
      mine ← member fc_stamp;
      if ok : bool then mret (stamp_gt stamp mine) else throw file_closed
  | None => throw syntax_error
  end.

(** ** Creating, truncating and copying *)

Definition syncData (stamp : bool) : E unit :=
  readLimits;;
  readRemoved;;
  readSize;;
  if stamp then readStamp else mret tt.

Definition empty_limits : FileIterator := mkIt fc_s_headerSize fc_s_headerSize 0.
Definition no_removed : FileIterator := mkIt un_dead un_beef 0.

Definition createEmptyFile : E unit :=
  now ← gets s_now;
  update (set_stamp (mkStamp now 0));;
  writeStamp;;
  writeAndSetSize 0;;
  writeFileStatus opened;;
  update (set_limits empty_limits);;
  update (set_removed no_removed);;
  createEmptyBackup empty;;
  (l ← member fc_limits; writeInitialPosition l false);;
  (l ← member fc_removed; writeInitialPosition l true);;
  writeFileStatus closed.

Definition truncateFile (size : Z) : E unit :=
  seek 0;;
  ok ← good;
  if ok : bool then
    ok ← ftruncate size;
    if ok : bool then
      (if size =? 0 then createEmptyFile else mret tt);;
      writeFileStatus ft_end
    else throw io_error
  else throw io_error.

Definition eraseFile (size : Z) : E unit :=
  writeIteratorBackup 0 (mkIt size size size) ft_begin;;
  truncateFile size.

(** [backupFile]: the copy in the file with the suffix [.bak] ([keep]), or in the one
    of a diagnostic. The stream is cleared of its errors, but for a failed device that
    is not at the end. *)
Definition backupFile (keep : bool) : E unit := λ s,
  if s_bad s && negb (s_eof s) then Some (inl io_error, s)
  else
    let copy := if is_good s then s_file s else [] in
    Some (inr tt, mkSt (s_file s) 0 false false false (s_budget s)
                    (if keep then Some copy else s_bak s) (s_now s) (fc s)).

(** ** Consistency and recovery *)

(** The test at the end of an iteration of [checkConsistency], reached with [answer]
    and the iterator; [inr (Some it)] goes on. *)
Definition check_bounds (end_ : Z) (it : FileIterator) : E unit :=
  if (fi_next it <? fc_s_headerSize) || (end_ <=? fi_next it)
  then throw unavailable_position else mret tt.

(** What the loop does at the last element. *)
Definition check_last (allowable_size_offset end_ max_reached_offset detected_size : Z)
    (it : FileIterator) : E unit :=
  size ← member fc_size;
  let detected_offset := i32 (detected_size - size) in
  (if negb (detected_size =? size)
      && (((0 <? allowable_size_offset) && (0 <? detected_offset)
            && (detected_offset <=? allowable_size_offset))
          || ((allowable_size_offset <? 0) && (detected_offset <? 0)
               && (allowable_size_offset <=? detected_offset))
          || (allowable_size_offset =? 0))
   then writeAndSetSize detected_size else mret tt);;
  if max_reached_offset <? end_ then
    truncateFile max_reached_offset;;
    end_ ← getEnd;
    if negb (fi_next it =? end_)
    then writeIterator (fi_current it) (mkIt (fi_prev it) end_ (fi_current it))
    else mret tt
  else mret tt.

(** The loop of [checkConsistency] from the iterator just read; a list longer than the
    file goes round for ever. The error of an element is forgotten when the next one
    is read. *)
Fixpoint check_loop (fuel : nat) (allowable_size_offset end_ max_reached_offset detected_size : Z)
    (it : FileIterator) : E unit :=
  match fuel with
  | O => undefined
  | S fuel =>
      ok ← good;
      r ← attempt (if ok : bool then readSizeAndState else throw io_error);
      last ← getLast;
      let '(max_reached_offset, detected_size, is_last) :=
        match r with
        | inr (size, _) =>
            (Z.max max_reached_offset (fi_current it + calculateDataSize size fc_s_sizeSize),
             u64 (detected_size + 1), fi_current it =? last)
        | inl _ => (max_reached_offset, detected_size, false)
        end in
      if is_last : bool then
        check_last allowable_size_offset end_ max_reached_offset detected_size it
      else
        check_bounds end_ it;;
        it ← readIterator (fi_next it) false;
        check_loop fuel allowable_size_offset end_ max_reached_offset detected_size it
  end.

Definition checkConsistency (allowable_size_offset : Z) : E unit :=
  end_ ← getEnd;
  readSize;;
  begin ← getBegin;
  it ← readIterator begin false;
  fuel ← gets (λ s, S (length (s_file s)));
  check_loop fuel allowable_size_offset end_ 0 0 it.

Definition markDataAsErased (iter : FileIterator) (size : Z) (status : filestatus_t) : E unit :=
  writeIteratorBackup 2 iter status;;
  seek (fi_current iter);;
  ok ← good;
  if ok : bool then
    writeDataHeader iter size "i";;
    sync_stream;;
    check_bad io_error
  else throw io_error.

Definition markDataAsUnerased (it : FileIterator) : E unit :=
  seek (fi_current it + (2 * fi_s_width + 2));;
  ok ← good;
  if ok : bool then
    '(size, _) ← readSizeAndState;
    seek (fi_current it);;
    ok ← good;
    if ok : bool then writeDataHeader it size "g" else throw io_error
  else throw io_error.

(** What several cases of [recover_data] do. *)
Definition restore_iterator (what : Z) : E unit :=
  temp ← readIteratorBackup what;
  writeIterator (fi_current temp) temp.
Definition restore_limits : E unit :=
  l ← member fc_limits;
  l ← readLimitsBackup l false;
  update (set_limits l);;
  l ← member fc_limits;
  writeInitialPosition l false.
Definition unerase : E unit :=
  temp ← readIteratorBackup 2;
  markDataAsUnerased temp.

(** The cases that fall through, from the last one of each group. *)
Definition recover_ae_iterator : E unit := restore_iterator 0;; checkConsistency 1.
Definition recover_ae_limits : E unit := restore_limits;; recover_ae_iterator.
Definition recover_ae_writing : E unit :=
  limits ← readInitialPosition (mkIt 0 0 0) false;
  truncateFile (fi_next limits);;
  recover_ae_limits.

Definition recover_ab_iterator : E unit := restore_iterator 0;; checkConsistency 1.
Definition recover_ab_limits : E unit := restore_limits;; recover_ab_iterator.
Definition recover_ab_writing : E unit :=
  limits ← readInitialPosition (mkIt 0 0 0) false;
  truncateFile (fi_prev limits);;
  recover_ab_limits.
Definition recover_ab_last : E unit := restore_iterator 2;; recover_ab_writing.

Definition recover_am_iterator1 : E unit := restore_iterator 0;; checkConsistency 1.
Definition recover_am_iterator2 : E unit := restore_iterator 1;; recover_am_iterator1.
Definition recover_am_writing : E unit :=
  temp ← readIteratorBackup 0;
  temp ← readIterator (fi_current temp) false;
  truncateFile (fi_prev temp);;
  recover_am_iterator2.
Definition recover_am_last : E unit := restore_iterator 2;; recover_am_writing.

Definition recover_rd_limits : E unit := restore_limits;; checkConsistency (-1).
Definition recover_rd_iterator : E unit := restore_iterator 0;; recover_rd_limits.
Definition recover_rd_mark1 : E unit := unerase;; recover_rd_iterator.
Definition recover_rd_iterator2 : E unit := restore_iterator 0;; checkConsistency (-1).
Definition recover_rd_iterator3 : E unit := restore_iterator 1;; recover_rd_iterator2.
Definition recover_rd_mark2 : E unit := unerase;; recover_rd_iterator3.

Definition recover_empty : E unit :=
  writeFileStatus closed;;
  syncData true;;
  size ← member fc_size;
  begin ← getBegin;
  if size =? 0 then
    end_ ← getEnd;
    if negb (begin =? end_) then eraseFile 0;; update (set_size 0) else mret tt
  else mret tt.

(** The [switch] of [recover_data]. *)
Definition recover_status (status : filestatus_t) : E unit :=
  match status with
  | closed => mret tt
  | empty => recover_empty
  | opened | ft_end => writeFileStatus closed
  | ae_writing | ae_written => recover_ae_writing
  | ae_limits => recover_ae_limits
  | ae_iterator => recover_ae_iterator
  | ab_last => recover_ab_last
  | ab_writing | ab_written => recover_ab_writing
  | ab_limits => recover_ab_limits
  | ab_iterator => recover_ab_iterator
  | am_last => recover_am_last
  | am_writing | am_written => recover_am_writing
  | am_iterator2 => recover_am_iterator2
  | am_iterator1 => recover_am_iterator1
  | ad_empty => checkConsistency 1
  | ft_begin => temp ← readIteratorBackup 0; truncateFile (fi_current temp)
  | rd_mark1 => recover_rd_mark1
  | rd_iterator => recover_rd_iterator
  | rd_limits => recover_rd_limits
  | rd_mark2 => recover_rd_mark2
  | rd_iterator3 => recover_rd_iterator3
  | rd_iterator2 => recover_rd_iterator2
  | rd_empty => checkConsistency (-1)
  | status_y => throw unrecoverable_data
  end.

(** [recover_data] without its checks. *)
Definition recover_unchecked (status : filestatus_t) : E unit :=
  backupFile true;;
  status ← (if bool_decide (status = closed) then readFileStatus else mret status);
  sync_stream;;
  recover_status status;;
  if bool_decide (status = closed) then mret tt else writeFileStatus closed.

Definition initContainer : E unit :=
  check_bad file_closed;;
  readStamp;;
  readLimits;;
  readRemoved;;
  readSize;;
  status ← readFileStatus;
  (if bool_decide (status = closed) then mret tt else recover_unchecked status);;
  update set_initialized.

(** [checkStream] with what it does about a status that is not [closed]. *)
Definition checkStream (recover : option (filestatus_t → E unit)) : E unit :=
  check_bad file_closed;;
  status ← readFileStatus;
  match recover with
  | Some f => if bool_decide (status = closed) then mret tt else f status
  | None => mret tt
  end.

Definition checkStreamAndStamp (recover : option (filestatus_t → E unit)) : E unit :=
  checkStream recover;;
  modified ← checkStamp;
  if modified : bool then throw container_modified else mret tt.

(** [m], and [h] when [m] reports that the container was modified; the result tells
    whether it did. *)
Definition on_modified (m h : E unit) : E bool :=
  r ← attempt m;
  match r with
  | inr _ => mret false
  | inl e => if bool_decide (e = container_modified) then h;; mret true else throw e
  end.

Definition recover_data (status : filestatus_t) (check : bool) : E unit :=
  initialized ← member fc_initialized;
  (if check then
     if negb initialized then initContainer
     else _ ← on_modified (checkStreamAndStamp None) (syncData true); mret tt
   else mret tt);;
  recover_unchecked status.

(** What the public operations start with: [h] when the container was modified. *)
Definition checked : E unit := checkStreamAndStamp (Some (λ status, recover_data status true)).
Definition prologue (h : E unit) : E bool :=
  initialized ← member fc_initialized;
  if negb initialized then initContainer;; mret false else on_modified checked h.

(** The same in an operation that has asked for the end of the file before, and asks
    again only when the container was modified. *)
Definition prologue_end (h : E unit) : E Z :=
  end_ ← getEnd;
  modified ← prologue h;
  if modified : bool then getEnd else mret end_.

(** ** Adding *)

Definition resetNextOfLast (status : filestatus_t) : E unit :=
  last ← getLast;
  iter ← readIterator last false;
  writeIteratorBackup 2 iter status;;
  end_ ← getEnd;
  writeIterator last (mkIt (fi_prev iter) end_ (fi_current iter)).

(** [write(data) << '\n' << lit << endl]: the buffer of the file takes a text of
    less than 1024 characters, a longer one goes to the file at once. *)
Definition write_record (lit : FileIterator) (data : bytes) : E unit :=
  if (1024 <=? length data)%nat then put data;; put (newline :: line (write_iterator lit))
  else put (data ++ newline :: line (write_iterator lit)).

Definition writeDataHere (it lit : FileIterator) (data : bytes) (status : filestatus_t) : E unit :=
  if (0 <? length data)%nat then
    seek_end;;
    writeFileStatus status;;
    writeDataHeader it (Z.of_nat (length data)) "g";;
    write_record lit data;;
    sync_stream;;
    check_bad io_error;;
    writeFileStatus (status_succ status)
  else throw data_error.

Definition set_prev (p : Z) (it : FileIterator) : FileIterator := mkIt p (fi_next it) (fi_current it).
Definition set_next (n : Z) (it : FileIterator) : FileIterator := mkIt (fi_prev it) n (fi_current it).

(** The size of the record of [data]. *)
Definition data_size (data : bytes) : Z :=
  calculateDataSize (Z.of_nat (length data)) fc_s_sizeSize.

Definition addDataAtBegin (data : bytes) (end_ : Z) : E FileIterator :=
  next ← getBegin;
  previous ← getLast;
  temp ← readIterator next false;
  writeIteratorBackup 0 temp ab_iterator;;
  writeIterator next (set_prev end_ temp);;
  (l ← member fc_limits; writeLimitsBackup ab_limits l false);;
  update (λ o, set_limits (set_prev end_ (fc_limits o)) o);;
  (l ← member fc_limits; writeInitialPosition l false);;
  let it := mkIt 0 next end_ in
  writeDataHere it (mkIt previous (end_ + data_size data) end_) data ab_writing;;
  resetNextOfLast ab_last;;
  mret it.

Definition addDataAtEnd (data : bytes) (end_ : Z) : E FileIterator :=
  let next := end_ + data_size data in
  previous ← getLast;
  prev ← (if previous =? end_ then mret 0
          else
            temp ← readIterator previous false;
            writeIteratorBackup 0 temp ae_iterator;;
            writeIterator previous (set_next end_ temp);;
            mret previous);
  (l ← member fc_limits; writeLimitsBackup ae_limits l false);;
  update (λ o, set_limits (set_next end_ (fc_limits o)) o);;
  (l ← member fc_limits; writeInitialPosition l false);;
  let it := mkIt prev next end_ in
  writeDataHere it (mkIt previous next end_) data ae_writing;;
  mret it.

Definition addDataInMiddle (data : bytes) (where_ end_ : Z) : E FileIterator :=
  previous ← getLast;
  temp1 ← readIterator where_ false;
  temp2 ← readIterator (fi_prev temp1) false;
  let it := mkIt (fi_prev temp1) where_ end_ in
  writeIteratorBackup 0 temp1 am_iterator1;;
  writeIteratorBackup 1 temp2 am_iterator2;;
  writeIterator where_ (set_prev end_ temp1);;
  writeIterator (fi_current temp2) (set_next end_ temp2);;
  writeDataHere it (mkIt previous (end_ + data_size data) end_) data am_writing;;
  resetNextOfLast am_last;;
  mret it.

Definition add_data (data : bytes) (where_ : Z) : E FileIterator :=
  end_ ← prologue_end (syncData false);
  updateTimeStamp;;
  writeFileStatus opened;;
  begin ← getBegin;
  it ← (if where_ =? end_ then addDataAtEnd data end_
        else if where_ =? begin then addDataAtBegin data end_
        else addDataInMiddle data where_ end_);
  createEmptyBackup ad_empty;;
  (n ← member fc_size; writeAndSetSize (u64 (n + 1)));;
  writeFileStatus closed;;
  mret it.

(** ** Removing *)

(** The case of the only element. *)
Definition remove_only : E unit :=
  size ← member fc_size;
  (if negb (size =? 1) then
     backupFile false;;
     r ← attempt (checkConsistency (i32 (1 - size)));
     match r with inr _ => mret tt | inl _ => throw not_removing_last end
   else mret tt);;
  eraseFile fc_s_headerSize;;
  update (λ o, set_removed no_removed (set_limits empty_limits o));;
  (l ← member fc_limits; writeInitialPosition l false);;
  (l ← member fc_removed; writeInitialPosition l true).

Definition remove_last (iter : FileIterator) (size end_ : Z) : E unit :=
  (l ← member fc_limits; writeLimitsBackup rd_limits l false);;
  update (λ o, set_limits (set_next (fi_prev iter) (fc_limits o)) o);;
  (l ← member fc_limits; writeInitialPosition l false);;
  temp ← readIterator (fi_prev iter) false;
  writeIteratorBackup 0 temp rd_iterator;;
  writeIterator (fi_current temp) (set_next end_ temp);;
  markDataAsErased iter size rd_mark1.

Definition remove_first (iter : FileIterator) (size : Z) : E unit :=
  (l ← member fc_limits; writeLimitsBackup rd_limits l false);;
  update (λ o, set_limits (set_prev (fi_next iter) (fc_limits o)) o);;
  (l ← member fc_limits; writeInitialPosition l false);;
  temp ← readIterator (fi_next iter) false;
  writeIteratorBackup 0 temp rd_iterator;;
  writeIterator (fi_current temp) (set_prev 0 temp);;
  markDataAsErased iter size rd_mark1.

Definition remove_middle (iter : FileIterator) (size : Z) : E unit :=
  next ← readIterator (fi_next iter) false;
  prev ← readIterator (fi_prev iter) false;
  writeIteratorBackup 0 next rd_iterator2;;
  writeIteratorBackup 1 prev rd_iterator3;;
  writeIterator (fi_current next) (set_prev (fi_current prev) next);;
  writeIterator (fi_current prev) (set_next (fi_current next) prev);;
  markDataAsErased iter size rd_mark2.

Definition removeDataPointer (iter : FileIterator) (size : Z) : E unit :=
  end_ ← getEnd;
  if (fi_next iter =? end_) && (fi_prev iter =? 0) then remove_only
  else if fi_next iter =? end_ then remove_last iter size end_
  else if fi_prev iter =? 0 then remove_first iter size
  else remove_middle iter size.

Definition remove_data (where_ : Z) : E unit :=
  _ ← prologue (syncData false);
  updateTimeStamp;;
  writeFileStatus opened;;
  iter ← readIterator where_ false;
  '(size, state) ← readSizeAndState;
  (if bool_decide (state = "g"%char) then removeDataPointer iter size
   else throw unavailable_position);;
  createEmptyBackup rd_empty;;
  n ← member fc_size;
  (if n =? 0 then
     r ← attempt (checkConsistency 0);
     match r with
     | inr _ => update (λ o, set_size (u64 (fc_size o + 1)) o)
     | inl _ => throw decrementing_from_zero
     end
   else mret tt);;
  (n ← member fc_size; writeAndSetSize (u64 (n - 1)));;
  writeFileStatus closed.

(** ** Reading and moving along the list *)

Definition read_data (where_ : Z) (fileorder : bool) : E (bytes * FileIterator) :=
  end_ ← prologue_end (syncData true);
  if where_ <=? end_ then
    seek where_;;
    '(it, fileIt, data) ← readDataHere fileorder;
    mret (data, if fileorder then mkIt (fi_prev fileIt) (fi_next fileIt) where_ else it)
  else throw unavailable_position.

(** [increment_iterator] and [increment_fileorder_iterator] *)
Definition increment_iterator (fileorder : bool) (it : FileIterator) : E FileIterator :=
  end_ ← prologue_end (syncData true);
  if fi_current it =? 0 then begin ← getBegin; readIterator begin fileorder
  else if fi_next it =? end_ then mret (mkIt 0 0 end_)
  else it ← readIterator (fi_current it) fileorder; readIterator (fi_next it) fileorder.

(** [decrement_iterator] and [decrement_fileorder_iterator] *)
Definition decrement_iterator (fileorder : bool) (it : FileIterator) : E FileIterator :=
  _ ← prologue (syncData true);
  end_ ← getEnd;
  if fi_current it =? end_ then last ← getLast; readIterator last fileorder
  else if fi_prev it =? 0 then mret (mkIt 0 0 0)
  else it ← readIterator (fi_current it) fileorder; readIterator (fi_prev it) fileorder.

(** [get_iterator] and [get_fileorder_iterator] *)
Definition get_iterator (where_ : Z) (fileorder : bool) : E FileIterator :=
  _ ← prologue (syncData true);
  readIterator where_ fileorder.

Definition modified : E bool :=
  initialized ← member fc_initialized;
  (if negb initialized then initContainer else mret tt);;
  checkStamp.

Definition read_begin : E Z := _ ← prologue (syncData true); getBegin.
Definition read_end : E Z := _ ← prologue (syncData true); getEnd.
Definition read_last : E Z := _ ← prologue (syncData true); getLast.
Definition read_file_end : E Z := _ ← prologue (syncData true); seek_end;; tell.

(** An error is forgotten when the cached size cannot be right. *)
Definition read_size : E Z :=
  end_ ← getEnd;
  initialized ← member fc_initialized;
  r ← attempt (if negb initialized : bool then initContainer else checked);
  end_ ← (match r with
          | inr _ => if initialized : bool then getEnd else mret end_
          | inl _ => mret end_
          end);
  begin ← getBegin;
  size ← member fc_size;
  (if bool_decide (r = inl container_modified) || (negb (begin =? end_) && (size =? 0))
   then syncData true
   else match r with inr _ => mret tt | inl e => throw e end);;
  member fc_size.

(** The result of the second reading is not looked at: [container_modified] is
    reported although the data are in step again. *)
Definition sync : E unit :=
  initialized ← member fc_initialized;
  r ← attempt (if negb initialized : bool then initContainer else checked);
  (if bool_decide (r = inl container_modified) then _ ← attempt (syncData true); mret tt
   else mret tt);;
  match r with inr _ => mret tt | inl e => throw e end.

(** ** Truncating and compacting *)

Definition truncate : E unit :=
  initialized ← member fc_initialized;
  (if negb initialized then initContainer else checked);;
  eraseFile 0;;
  update (set_size 0).

(** The loop of [fillVector]. *)
Fixpoint fill_loop (fuel : nat) (where_ end_ : Z) (vec : list bytes) : E (list bytes) :=
  match fuel with
  | O => undefined
  | S fuel =>
      if where_ <? end_ then
        seek where_;;
        '(it, _, data) ← readDataHere false;
        fill_loop fuel (fi_next it) end_ (vec ++ [data])
      else mret vec
  end.

Definition fillVector : E (list bytes) :=
  end_ ← getEnd;
  _ ← on_modified checked (syncData true);
  begin ← getBegin;
  it ← readIterator begin false;
  fuel ← gets (λ s, S (length (s_file s)));
  fill_loop fuel (fi_current it) end_ [].

(** The loop of [compact_data]. *)
Fixpoint add_all (copy : list bytes) (end_ : Z) : E unit :=
  match copy with
  | [] => mret tt
  | data :: copy => it ← addDataAtEnd data end_; add_all copy (fi_next it)
  end.

Definition compact_data : E unit :=
  initialized ← member fc_initialized;
  (if negb initialized then initContainer else mret tt);;
  copy ← fillVector;
  backupFile true;;
  eraseFile 0;;
  writeFileStatus opened;;
  end_ ← getEnd;
  add_all copy end_;;
  createEmptyBackup empty;;
  writeAndSetSize (Z.of_nat (length copy));;
  writeFileStatus closed.

(** ** Opening *)

(** [FileContainer::FileContainer] *)
Definition new_container (now : Z) : Container :=
  mkFC false 0 (mkStamp now 0) (mkIt 0 0 0) no_removed.

(** [openFile] on a file that exists, by a process that has just started. *)
Definition open_file (file : bytes) (now : Z) (budget : option nat) : St :=
  mkSt file 0 false false false budget None now (new_container now).

(** [open] of a file that does not exist: [createFile]. *)
Definition create : E unit :=
  createEmptyFile;;
  updateTimeStamp;;
  update set_initialized.
