(* ===== verification/FileLayout.v ===== *)
(** * The layout of a file container and the rules for its operations

    A well-laid-out file is the text of a [disk]: the fields of the header, the records
    in the order of the file, and what follows the last whole record. The rules say
    what each access of FileContainer.v does to the disk, whether every write reaches
    it or one of them is the last that does. *)

From S2P Require Import Prelude Machine FileText FileContainer.

(** ** Disks *)

Record rec := mkRec {
  r_prev : Z;
  r_next : Z;
  r_data : bytes;
  r_good : bool;
  r_lprev : Z;
  r_lnext : Z
}.

Record disk := mkDisk {
  d_stamp : TimeStamp;
  d_size : Z;
  d_status : filestatus_t;
  d_backups : list FileIterator;
  d_lb : Z * Z;
  d_rb : Z * Z;
  d_limits : Z * Z;
  d_removed : Z * Z;
  d_recs : list rec;
  d_tail : bytes
}.

Definition with_stamp x D := mkDisk x (d_size D) (d_status D) (d_backups D) (d_lb D) (d_rb D)
  (d_limits D) (d_removed D) (d_recs D) (d_tail D).
Definition with_size x D := mkDisk (d_stamp D) x (d_status D) (d_backups D) (d_lb D) (d_rb D)
  (d_limits D) (d_removed D) (d_recs D) (d_tail D).
Definition with_status x D := mkDisk (d_stamp D) (d_size D) x (d_backups D) (d_lb D) (d_rb D)
  (d_limits D) (d_removed D) (d_recs D) (d_tail D).
Definition with_backups x D := mkDisk (d_stamp D) (d_size D) (d_status D) x (d_lb D) (d_rb D)
  (d_limits D) (d_removed D) (d_recs D) (d_tail D).
Definition with_lb x D := mkDisk (d_stamp D) (d_size D) (d_status D) (d_backups D) x (d_rb D)
  (d_limits D) (d_removed D) (d_recs D) (d_tail D).
Definition with_rb x D := mkDisk (d_stamp D) (d_size D) (d_status D) (d_backups D) (d_lb D) x
  (d_limits D) (d_removed D) (d_recs D) (d_tail D).
Definition with_limits x D := mkDisk (d_stamp D) (d_size D) (d_status D) (d_backups D) (d_lb D)
  (d_rb D) x (d_removed D) (d_recs D) (d_tail D).
Definition with_removed x D := mkDisk (d_stamp D) (d_size D) (d_status D) (d_backups D) (d_lb D)
  (d_rb D) (d_limits D) x (d_recs D) (d_tail D).
Definition with_recs x D := mkDisk (d_stamp D) (d_size D) (d_status D) (d_backups D) (d_lb D)
  (d_rb D) (d_limits D) (d_removed D) x (d_tail D).
Definition with_tail x D := mkDisk (d_stamp D) (d_size D) (d_status D) (d_backups D) (d_lb D)
  (d_rb D) (d_limits D) (d_removed D) (d_recs D) x.

(** ** Their text *)

Definition pair_line (x : Z * Z) : bytes := line (write_iterator (mkIt x.1 x.2 0)).
Definition state_char (g : bool) : ascii := if g then "g"%char else "i"%char.
Definition header_line (n : nat) (g : bool) : bytes :=
  line (write_size_and_state (Z.of_nat n) (state_char g)).
Definition print_rec (r : rec) : bytes :=
  pair_line (r_prev r, r_next r) ++ header_line (length (r_data r)) (r_good r)
  ++ r_data r ++ newline :: pair_line (r_lprev r, r_lnext r).

Definition stamp_line (t : TimeStamp) : bytes := line (write_stamp t).
Definition size_line (n : Z) : bytes := line (print_num 10 (Z.to_nat fc_s_numberSize) n).
Definition status_line (x : filestatus_t) : bytes := line [status_char x].
Definition backup_lines (l : list FileIterator) : bytes := concat ((λ it, line (write_backup it)) <$> l).
Definition rec_lines (l : list rec) : bytes := concat (print_rec <$> l).

Definition layout (D : disk) : bytes :=
  stamp_line (d_stamp D) ++ size_line (d_size D) ++ status_line (d_status D)
  ++ backup_lines (d_backups D) ++ pair_line (d_lb D) ++ pair_line (d_rb D)
  ++ pair_line (d_limits D) ++ pair_line (d_removed D) ++ rec_lines (d_recs D) ++ d_tail D.

(** ** Numbers that fit the fields *)

Definition off_ok (x : Z) : Prop := 0 ≤ x < 2 ^ 63.
Definition pair_ok (x : Z * Z) : Prop := off_ok x.1 ∧ off_ok x.2.
Definition it_ok (it : FileIterator) : Prop :=
  off_ok (fi_prev it) ∧ off_ok (fi_next it) ∧ off_ok (fi_current it).
Definition stamp_ok (t : TimeStamp) : Prop := off_ok (ts_epoch t) ∧ 0 ≤ ts_counter t < 2 ^ 16.
Definition rec_ok (r : rec) : Prop :=
  pair_ok (r_prev r, r_next r) ∧ pair_ok (r_lprev r, r_lnext r) ∧ off_ok (Z.of_nat (length (r_data r))).

Record disk_ok (D : disk) : Prop := {
  ok_stamp : stamp_ok (d_stamp D);
  ok_size : 0 ≤ d_size D < 2 ^ 64;
  ok_backups : length (d_backups D) = 4%nat;
  ok_backup : Forall it_ok (d_backups D);
  ok_lb : pair_ok (d_lb D);
  ok_rb : pair_ok (d_rb D);
  ok_limits : pair_ok (d_limits D);
  ok_removed : pair_ok (d_removed D);
  ok_recs : Forall rec_ok (d_recs D)
}.

(** ** Lengths *)

Lemma line_length l : length (line l) = S (length l).
Proof. unfold line. rewrite length_app. simpl. lia. Qed.

Lemma hex_length v : off_ok v → length (hex v) = 16%nat.
Proof. intros H. apply (pr_length _ _ _ _ (hex_printed v H)). Qed.

Lemma pair_line_length x : pair_ok x → length (pair_line x) = 34%nat.
Proof.
  intros [H1 H2]. unfold pair_line, write_iterator. rewrite line_length, length_app. simpl.
  rewrite !hex_length by done. lia.
Qed.

Lemma backup_line_length it : it_ok it → length (line (write_backup it)) = 51%nat.
Proof.
  intros (H1&H2&H3). unfold write_backup, write_iterator.
  rewrite line_length, length_app. simpl. rewrite length_app. simpl.
  rewrite !hex_length by done. lia.
Qed.

Lemma dec_printed w v :
  (0 < w ≤ 64)%nat → 0 ≤ v < 10 ^ Z.of_nat w → printed 10 w v (print_num 10 w v).
Proof. intros. apply print_num_spec; [by left|done|done]. Qed.

Lemma pow_64_20 : 2 ^ 64 < 10 ^ 20.
Proof. done. Qed.

Lemma epoch_printed t : stamp_ok t → printed 10 20 (ts_epoch t) (print_num 10 20 (ts_epoch t)).
Proof. intros [[H1 H2] _]. apply dec_printed; [lia|]. change (Z.of_nat 20) with 20. lia. Qed.
Lemma counter_printed t : stamp_ok t → printed 10 5 (ts_counter t) (print_num 10 5 (ts_counter t)).
Proof. intros [_ H]. apply dec_printed; [lia|]. change (10 ^ Z.of_nat 5) with 100000. lia. Qed.
Lemma size_printed n : 0 ≤ n < 2 ^ 64 → printed 10 21 n (print_num 10 21 n).
Proof. intros H. apply dec_printed; [lia|]. change (Z.of_nat 21) with 21. lia. Qed.
Lemma dsize_printed n : 0 ≤ n < 2 ^ 64 → printed 10 23 n (print_num 10 23 n).
Proof. intros H. apply dec_printed; [lia|]. change (Z.of_nat 23) with 23. lia. Qed.

Lemma stamp_line_length t : stamp_ok t → length (stamp_line t) = 27%nat.
Proof.
  intros H. unfold stamp_line, write_stamp. rewrite line_length, length_app. cbn [length].
  change (Z.to_nat ts_s_twidth) with 20%nat. change (Z.to_nat ts_s_swidth) with 5%nat.
  rewrite (pr_length _ _ _ _ (epoch_printed t H)), (pr_length _ _ _ _ (counter_printed t H)). lia.
Qed.
Lemma size_line_length n : 0 ≤ n < 2 ^ 64 → length (size_line n) = 22%nat.
Proof. intros H. unfold size_line. rewrite line_length.
  change (Z.to_nat fc_s_numberSize) with 21%nat. by rewrite (pr_length _ _ _ _ (size_printed n H)). Qed.
Lemma status_line_length x : length (status_line x) = 2%nat.
Proof. done. Qed.
Lemma header_line_length n g : off_ok (Z.of_nat n) → length (header_line n g) = 26%nat.
Proof.
  intros [H1 H2]. unfold header_line, write_size_and_state. rewrite line_length, length_app.
  change (Z.to_nat fc_s_sizeSize) with 23%nat.
  rewrite (pr_length _ _ _ _ (dsize_printed _ (conj H1 (Z.lt_trans _ _ (2 ^ 64) H2 ltac:(done))))).
  done.
Qed.

Definition rec_size (r : rec) : Z := Z.of_nat (length (r_data r)) + 95.
Fixpoint recs_size (l : list rec) : Z :=
  match l with [] => 0 | r :: l => rec_size r + recs_size l end.

Lemma print_rec_length r : rec_ok r → Z.of_nat (length (print_rec r)) = rec_size r.
Proof.
  intros (H1&H2&H3). unfold print_rec, rec_size. rewrite !length_app. simpl.
  rewrite !pair_line_length, header_line_length by done. lia.
Qed.

Lemma rec_lines_length l : Forall rec_ok l → Z.of_nat (length (rec_lines l)) = recs_size l.
Proof.
  induction 1 as [|r l Hr Hl IH]; [done|]. change (rec_lines (r :: l)) with (print_rec r ++ rec_lines l).
  rewrite length_app. cbn [recs_size]. rewrite Nat2Z.inj_add, print_rec_length, IH by done. lia.
Qed.

Lemma backup_lines_length l : Forall it_ok l → length (backup_lines l) = (length l * 51)%nat.
Proof.
  induction 1 as [|it l Hr Hl IH]; [done|]. 
  change (backup_lines (it :: l)) with (line (write_backup it) ++ backup_lines l).
  rewrite length_app. cbn [length]. rewrite backup_line_length, IH by done. lia.
Qed.

Definition file_end (D : disk) : Z := 391 + recs_size (d_recs D) + Z.of_nat (length (d_tail D)).

Lemma layout_length D : disk_ok D → Z.of_nat (length (layout D)) = file_end D.
Proof.
  intros []. unfold layout, file_end. rewrite !length_app, !Nat2Z.inj_add.
  rewrite rec_lines_length, stamp_line_length, size_line_length, backup_lines_length,
    !pair_line_length, status_line_length by done. rewrite ok_backups0. lia.
Qed.
(** ** Fields and records in place *)

(** [l] is at [off] in the text of [D], and with [l'] in its place the text is that of
    [D']. *)
Definition slot (D : disk) (off : Z) (l : bytes) (D' : disk) (l' : bytes) : Prop :=
  ∃ pre post, Z.of_nat (length pre) = off ∧ layout D = pre ++ l ++ post
    ∧ layout D' = pre ++ l' ++ post.

Ltac lengths :=
  rewrite ?length_app, ?Nat2Z.inj_add, ?rec_lines_length, ?stamp_line_length, ?size_line_length,
    ?backup_lines_length, ?pair_line_length, ?status_line_length by done.

Lemma slot_stamp D x : slot D 0 (stamp_line (d_stamp D)) (with_stamp x D) (stamp_line x).
Proof. by exists [], (drop (length (stamp_line (d_stamp D))) (layout D));
  unfold layout; rewrite drop_app_length; split_and!. Qed.

Lemma slot_size D x :
  disk_ok D → slot D 27 (size_line (d_size D)) (with_size x D) (size_line x).
Proof.
  intros [? ? Hbk ? ? ? ? ? ?]. exists (stamp_line (d_stamp D)). eexists. split_and!.
  - by lengths.
  - reflexivity.
  - reflexivity.
Qed.

Lemma slot_status D x :
  disk_ok D → slot D 49 (status_line (d_status D)) (with_status x D) (status_line x).
Proof.
  intros [? ? Hbk ? ? ? ? ? ?]. exists (stamp_line (d_stamp D) ++ size_line (d_size D)). eexists. split_and!.
  - by lengths.
  - unfold layout. rewrite <- !app_assoc. reflexivity.
  - unfold layout. rewrite <- !app_assoc. reflexivity.
Qed.

Lemma backup_lines_app l1 l2 : backup_lines (l1 ++ l2) = backup_lines l1 ++ backup_lines l2.
Proof. unfold backup_lines. by rewrite fmap_app, concat_app. Qed.

Lemma slot_backup D k it x :
  disk_ok D → d_backups D !! k = Some it →
  slot D (51 + 51 * Z.of_nat k) (line (write_backup it))
    (with_backups (<[k:=x]> (d_backups D)) D) (line (write_backup x)).
Proof.
  intros [? ? Hbk ? ? ? ? ? ?] Hk. pose proof (lookup_lt_Some _ _ _ Hk).
  exists (stamp_line (d_stamp D) ++ size_line (d_size D) ++ status_line (d_status D)
    ++ backup_lines (take k (d_backups D))).
  eexists. split_and!.
  - lengths. rewrite backup_lines_length by by apply Forall_take. rewrite length_take_le by lia. lia.
  - unfold layout. rewrite <- (take_drop_middle _ _ _ Hk) at 1.
    rewrite backup_lines_app, <- !app_assoc. do 4 f_equal.
    change (backup_lines (it :: ?l)) with (line (write_backup it) ++ backup_lines l).
    rewrite <- app_assoc. reflexivity.
  - unfold layout. cbn [d_backups with_backups d_stamp d_size d_status].
    rewrite insert_take_drop by lia.
    rewrite backup_lines_app, <- !app_assoc. do 4 f_equal.
    change (backup_lines (x :: ?l)) with (line (write_backup x) ++ backup_lines l).
    rewrite <- app_assoc. reflexivity.
Qed.

Lemma slot_all_backups D l :
  disk_ok D →
  slot D 51 (backup_lines (d_backups D) ++ pair_line (d_lb D) ++ pair_line (d_rb D))
    (with_rb (0, 0) (with_lb (0, 0) (with_backups l D)))
    (backup_lines l ++ pair_line (0, 0) ++ pair_line (0, 0)).
Proof.
  intros [? ? Hbk ? ? ? ? ? ?]. exists (stamp_line (d_stamp D) ++ size_line (d_size D) ++ status_line (d_status D)).
  eexists. split_and!.
  - by lengths.
  - unfold layout. rewrite <- !app_assoc. reflexivity.
  - unfold layout. rewrite <- !app_assoc. reflexivity.
Qed.

Lemma slot_lb D x : disk_ok D → slot D 255 (pair_line (d_lb D)) (with_lb x D) (pair_line x).
Proof.
  intros [? ? Hbk ? ? ? ? ? ?]. exists (stamp_line (d_stamp D) ++ size_line (d_size D) ++ status_line (d_status D)
    ++ backup_lines (d_backups D)). eexists. split_and!.
  - lengths. rewrite Hbk. lia.
  - unfold layout. rewrite <- !app_assoc. reflexivity.
  - unfold layout. rewrite <- !app_assoc. reflexivity.
Qed.

Lemma slot_limits D x :
  disk_ok D → slot D 323 (pair_line (d_limits D)) (with_limits x D) (pair_line x).
Proof.
  intros [? ? Hbk ? ? ? ? ? ?]. exists (stamp_line (d_stamp D) ++ size_line (d_size D) ++ status_line (d_status D)
    ++ backup_lines (d_backups D) ++ pair_line (d_lb D) ++ pair_line (d_rb D)).
  eexists. split_and!.
  - lengths. rewrite Hbk. lia.
  - unfold layout. rewrite <- !app_assoc. reflexivity.
  - unfold layout. rewrite <- !app_assoc. reflexivity.
Qed.

Lemma slot_removed D x :
  disk_ok D → slot D 357 (pair_line (d_removed D)) (with_removed x D) (pair_line x).
Proof.
  intros [? ? Hbk ? ? ? ? ? ?]. exists (stamp_line (d_stamp D) ++ size_line (d_size D) ++ status_line (d_status D)
    ++ backup_lines (d_backups D) ++ pair_line (d_lb D) ++ pair_line (d_rb D)
    ++ pair_line (d_limits D)).
  eexists. split_and!.
  - lengths. rewrite Hbk. lia.
  - unfold layout. rewrite <- !app_assoc. reflexivity.
  - unfold layout. rewrite <- !app_assoc. reflexivity.
Qed.

(** The record at an offset, and its replacement. *)
Fixpoint rec_in (base : Z) (l : list rec) (p : Z) : option rec :=
  match l with
  | [] => None
  | r :: l => if p =? base then Some r else rec_in (base + rec_size r) l p
  end.
Fixpoint alter_in (base : Z) (l : list rec) (p : Z) (g : rec → rec) : list rec :=
  match l with
  | [] => []
  | r :: l => if p =? base then g r :: l else r :: alter_in (base + rec_size r) l p g
  end.
Definition rec_at (D : disk) (p : Z) : option rec := rec_in 391 (d_recs D) p.
Definition alter_rec (p : Z) (g : rec → rec) (D : disk) : disk :=
  with_recs (alter_in 391 (d_recs D) p g) D.

Lemma rec_in_split base l p r :
  rec_in base l p = Some r →
  ∃ l1 l2, l = l1 ++ r :: l2 ∧ p = base + recs_size l1
    ∧ ∀ g, alter_in base l p g = l1 ++ g r :: l2.
Proof.
  revert base. induction l as [|x l IH]; intros base; [done|]. simpl.
  destruct (Z.eqb_spec p base) as [->|Hne].
  - intros [= ->]. exists [], l. simpl. split_and!; [done|lia|done].
  - intros (l1&l2&->&->&H)%IH. exists (x :: l1), l2. simpl. split_and!; [done|lia|].
    intros g. by rewrite H.
Qed.

Lemma rec_lines_app l1 l2 : rec_lines (l1 ++ l2) = rec_lines l1 ++ rec_lines l2.
Proof. unfold rec_lines. by rewrite fmap_app, concat_app. Qed.

(** What precedes the records. *)
Definition head_text (D : disk) : bytes :=
  stamp_line (d_stamp D) ++ size_line (d_size D) ++ status_line (d_status D)
  ++ backup_lines (d_backups D) ++ pair_line (d_lb D) ++ pair_line (d_rb D)
  ++ pair_line (d_limits D) ++ pair_line (d_removed D).

Lemma head_text_length D : disk_ok D → Z.of_nat (length (head_text D)) = 391.
Proof. intros [? ? Hbk ? ? ? ? ? ?]. unfold head_text. lengths. rewrite Hbk. done. Qed.

Lemma layout_head D : layout D = head_text D ++ rec_lines (d_recs D) ++ d_tail D.
Proof. unfold layout, head_text. by rewrite <- !app_assoc. Qed.

(** Any part [l] of the text of a record, which [g] changes into [l']. *)
Lemma slot_rec D p r g k a l b l' :
  disk_ok D → rec_at D p = Some r →
  print_rec r = a ++ l ++ b → print_rec (g r) = a ++ l' ++ b → Z.of_nat (length a) = k →
  slot D (p + k) l (alter_rec p g D) l'.
Proof.
  intros Hok Hr E1 E2 Hk. destruct (rec_in_split _ _ _ _ Hr) as (l1&l2&E&->&Hg).
  exists (head_text D ++ rec_lines l1 ++ a), (b ++ rec_lines l2 ++ d_tail D).
  assert (Forall rec_ok l1).
  { pose proof (ok_recs D Hok) as H. rewrite E in H. by apply Forall_app in H as [H _]. }
  split_and!.
  - rewrite !length_app, !Nat2Z.inj_add, head_text_length, rec_lines_length by done. lia.
  - rewrite layout_head, E, rec_lines_app.
    change (rec_lines (r :: l2)) with (print_rec r ++ rec_lines l2). rewrite E1.
    by rewrite <- !app_assoc.
  - rewrite layout_head. cbn [alter_rec d_recs with_recs d_tail]. unfold alter_rec, head_text.
    cbn [d_recs with_recs d_tail d_stamp d_size d_status d_backups d_lb d_rb d_limits d_removed].
    rewrite (Hg g), rec_lines_app.
    change (rec_lines (g r :: l2)) with (print_rec (g r) ++ rec_lines l2). rewrite E2.
    by rewrite <- !app_assoc.
Qed.

Definition relink (x : Z * Z) (r : rec) : rec :=
  mkRec x.1 x.2 (r_data r) (r_good r) (r_lprev r) (r_lnext r).
Definition remark (g : bool) (r : rec) : rec :=
  mkRec (r_prev r) (r_next r) (r_data r) g (r_lprev r) (r_lnext r).

Lemma slot_links D p r x :
  disk_ok D → rec_at D p = Some r →
  slot D p (pair_line (r_prev r, r_next r)) (alter_rec p (relink x) D) (pair_line x).
Proof.
  intros. rewrite <- (Z.add_0_r p) at 1.
  apply (slot_rec D p r (relink x) 0 [] _
    (header_line (length (r_data r)) (r_good r)
     ++ r_data r ++ newline :: pair_line (r_lprev r, r_lnext r))); try done; by destruct x.
Qed.

Lemma slot_mark D p r g :
  disk_ok D → rec_at D p = Some r → pair_ok (r_prev r, r_next r) →
  slot D (p + 34) (header_line (length (r_data r)) (r_good r))
    (alter_rec p (remark g) D) (header_line (length (r_data r)) g).
Proof.
  intros Hok Hr Hp.
  apply (slot_rec D p r (remark g) 34 (pair_line (r_prev r, r_next r)) _
    (r_data r ++ newline :: pair_line (r_lprev r, r_lnext r))); try done.
  by rewrite pair_line_length.
Qed.

Lemma slot_data D p r :
  disk_ok D → rec_at D p = Some r → rec_ok r →
  slot D (p + 60) (r_data r ++ newline :: pair_line (r_lprev r, r_lnext r)) D
    (r_data r ++ newline :: pair_line (r_lprev r, r_lnext r)).
Proof.
  intros Hok Hr (H1&H2&H3).
  assert (E : D = alter_rec p id D).
  { destruct (rec_in_split _ _ _ _ Hr) as (l1&l2&E&->&Hg). unfold alter_rec. rewrite Hg.
    simpl. rewrite <- E. by destruct D. }
  rewrite E at 2.
  apply (slot_rec D p r id 60
    (pair_line (r_prev r, r_next r) ++ header_line (length (r_data r)) (r_good r)) _ []);
    rewrite ?app_nil_r; try done.
  - unfold print_rec. by rewrite <- app_assoc.
  - unfold print_rec. by rewrite <- app_assoc.
  - by rewrite length_app, pair_line_length, header_line_length.
Qed.
(** ** Records by offset *)

(** A change of a record that leaves its place as it is. *)
Definition in_place (g : rec → rec) : Prop := ∀ r, rec_size (g r) = rec_size r.
Lemma relink_in_place x : in_place (relink x). Proof. done. Qed.
Lemma remark_in_place g : in_place (remark g). Proof. done. Qed.
#[export] Hint Resolve relink_in_place remark_in_place : filecontainer.

Lemma rec_size_pos r : 95 ≤ rec_size r.
Proof. unfold rec_size. lia. Qed.
Lemma recs_size_nonneg l : 0 ≤ recs_size l.
Proof. induction l as [|r l IH]; simpl; [lia|]. pose proof (rec_size_pos r). lia. Qed.

Lemma recs_size_app l1 l2 : recs_size (l1 ++ l2) = recs_size l1 + recs_size l2.
Proof. induction l1 as [|r l1 IH]; simpl; lia. Qed.

Lemma rec_in_bounds base l p r :
  rec_in base l p = Some r → base ≤ p ∧ p + rec_size r ≤ base + recs_size l.
Proof.
  intros (l1&l2&->&->&_)%rec_in_split. rewrite recs_size_app. simpl.
  pose proof (recs_size_nonneg l1). pose proof (recs_size_nonneg l2). lia.
Qed.

Lemma alter_in_size base l p g : in_place g → recs_size (alter_in base l p g) = recs_size l.
Proof.
  intros Hg. revert base. induction l as [|r l IH]; intros base; [done|]. simpl.
  destruct (Z.eqb_spec p base); simpl; [by rewrite Hg|by rewrite IH].
Qed.

Lemma rec_in_alter base l p g q :
  in_place g →
  rec_in base (alter_in base l p g) q = if q =? p then g <$> rec_in base l p else rec_in base l q.
Proof.
  intros Hg. revert base. induction l as [|r l IH]; intros base; simpl; [by destruct (q =? p)|].
  destruct (Z.eqb_spec p base) as [->|Hp]; simpl.
  - rewrite Hg. by destruct (Z.eqb_spec q base).
  - rewrite IH. destruct (Z.eqb_spec q base) as [->|Hq]; [|done].
    destruct (Z.eqb_spec base p); [lia|done].
Qed.

Lemma rec_in_app base l1 l2 p :
  rec_in base (l1 ++ l2) p =
  match rec_in base l1 p with Some r => Some r | None => rec_in (base + recs_size l1) l2 p end.
Proof.
  revert base. induction l1 as [|r l1 IH]; intros base; simpl.
  - by rewrite Z.add_0_r.
  - destruct (p =? base); [done|]. rewrite IH. by rewrite Z.add_assoc.
Qed.

Lemma rec_in_out base l p : base + recs_size l ≤ p → rec_in base l p = None.
Proof.
  intros H. destruct (rec_in base l p) as [r|] eqn:E; [|done].
  apply rec_in_bounds in E. pose proof (rec_size_pos r). lia.
Qed.

Lemma rec_in_next base l p r :
  rec_in base l p = Some r → p + rec_size r < base + recs_size l →
  ∃ r', rec_in base l (p + rec_size r) = Some r'.
Proof.
  intros (l1&l2&->&->&_)%rec_in_split. rewrite recs_size_app. simpl. intros Hl.
  destruct l2 as [|r2 l2]; simpl in Hl; [lia|]. exists r2.
  rewrite rec_in_app, rec_in_out by (pose proof (rec_size_pos r); lia). simpl.
  destruct (Z.eqb_spec (base + recs_size l1 + rec_size r) (base + recs_size l1)) as [E|_];
    [pose proof (rec_size_pos r); lia|].
  by destruct (Z.eqb_spec (base + recs_size l1 + rec_size r) (base + recs_size l1 + rec_size r)).
Qed.

(** The records before an offset. *)
Fixpoint cut_in (base : Z) (l : list rec) (p : Z) : list rec :=
  match l with
  | [] => []
  | r :: l => if base <? p then r :: cut_in (base + rec_size r) l p else []
  end.

Lemma cut_in_prefix base l p : ∃ l', l = cut_in base l p ++ l'.
Proof.
  revert base. induction l as [|r l IH]; intros base; simpl; [by exists []|].
  destruct (base <? p); [|by eexists]. destruct (IH (base + rec_size r)) as [l' E].
  exists l'. by rewrite <- app_comm_cons, <- E.
Qed.

Lemma cut_in_app base l1 l2 : cut_in base (l1 ++ l2) (base + recs_size l1) = l1.
Proof.
  revert base. induction l1 as [|r l1 IH]; intros base; simpl.
  - rewrite Z.add_0_r. destruct l2; simpl; [done|]. by rewrite Z.ltb_irrefl.
  - pose proof (rec_size_pos r). pose proof (recs_size_nonneg l1).
    destruct (Z.ltb_spec base (base + (rec_size r + recs_size l1))); [|lia].
    rewrite Z.add_assoc, IH. done.
Qed.

Lemma cut_in_all base l p : base + recs_size l ≤ p → cut_in base l p = l.
Proof.
  revert base. induction l as [|r l IH]; intros base Hp; simpl in *; [done|].
  pose proof (rec_size_pos r). pose proof (recs_size_nonneg l).
  destruct (Z.ltb_spec base p); [|lia]. by rewrite IH by lia.
Qed.

(** Where a record starts or the records end. *)
Definition boundary (D : disk) (p : Z) : Prop :=
  p = 391 + recs_size (d_recs D) ∨ ∃ r, rec_at D p = Some r.

Lemma boundary_split D p :
  boundary D p → ∃ l1 l2, d_recs D = l1 ++ l2 ∧ p = 391 + recs_size l1.
Proof.
  intros [->|[r Hr]].
  - exists (d_recs D), []. by rewrite app_nil_r.
  - apply rec_in_split in Hr as (l1&l2&->&->&_). eauto.
Qed.

(** [ftruncate] at a boundary. *)
Definition truncated (p : Z) (D : disk) : disk :=
  with_tail [] (with_recs (cut_in 391 (d_recs D) p) D).

Lemma truncated_at D p q :
  boundary D p → rec_at (truncated p D) q = if q <? p then rec_at D q else None.
Proof.
  intros (l1&l2&E&->)%boundary_split. unfold rec_at, truncated. simpl. rewrite E, cut_in_app.
  rewrite rec_in_app. destruct (rec_in 391 l1 q) as [r|] eqn:Er.
  - apply rec_in_bounds in Er. pose proof (rec_size_pos r).
    by destruct (Z.ltb_spec q (391 + recs_size l1)); [|lia].
  - destruct (Z.ltb_spec q (391 + recs_size l1)); [|done].
    destruct (rec_in (391 + recs_size l1) l2 q) as [r|] eqn:Er2; [|done].
    apply rec_in_bounds in Er2. lia.
Qed.

Lemma truncated_layout D p :
  disk_ok D → boundary D p → layout (truncated p D) = take (Z.to_nat p) (layout D).
Proof.
  intros Hok (l1&l2&E&->)%boundary_split.
  assert (Hl1 : Forall rec_ok l1).
  { pose proof (ok_recs D Hok) as H. rewrite E in H. by apply Forall_app in H as [H _]. }
  assert (Hok1 : length (head_text D ++ rec_lines l1) = Z.to_nat (391 + recs_size l1)).
  { rewrite length_app. pose proof (head_text_length D Hok). pose proof (rec_lines_length l1 Hl1). lia. }
  assert (E2 : layout D = (head_text D ++ rec_lines l1) ++ rec_lines l2 ++ d_tail D)
    by (rewrite layout_head, E, rec_lines_app; by rewrite <- !app_assoc).
  rewrite E2, take_app_length' by done.
  rewrite layout_head. unfold truncated. simpl. rewrite E, cut_in_app, app_nil_r. done.
Qed.

Lemma truncated_end D p : boundary D p → file_end (truncated p D) = p.
Proof.
  intros (l1&l2&E&->)%boundary_split. unfold file_end, truncated. simpl. rewrite E, cut_in_app. lia.
Qed.

(** A record after the last. *)
Definition appended (r : rec) (D : disk) : disk := with_recs (d_recs D ++ [r]) (with_tail [] D).

Lemma appended_at D r q :
  d_tail D = [] →
  rec_at (appended r D) q = if q =? file_end D then Some r else rec_at D q.
Proof.
  intros Ht. unfold rec_at, appended, file_end. simpl. rewrite Ht, rec_in_app. simpl.
  cbn [length]; destruct (Z.eqb_spec q (391 + recs_size (d_recs D) + Z.of_nat 0)) as [->|Hq].
  - rewrite rec_in_out by lia.
    cbn [length]. by rewrite !Z.add_0_r, !Z.eqb_refl.
  - destruct (rec_in 391 (d_recs D) q); [done|].
    destruct (Z.eqb_spec q (391 + recs_size (d_recs D))); [lia|done].
Qed.

Lemma appended_end D r : d_tail D = [] → file_end (appended r D) = file_end D + rec_size r.
Proof. intros Ht. unfold file_end, appended. simpl. rewrite Ht, recs_size_app. simpl. lia. Qed.

Lemma appended_layout D r : d_tail D = [] → layout (appended r D) = layout (with_tail (print_rec r) D).
Proof.
  intros Ht. rewrite (layout_head (appended r D)), (layout_head (with_tail _ _)). simpl.
  rewrite rec_lines_app, app_nil_r. f_equal. f_equal. unfold rec_lines. simpl. by rewrite app_nil_r.
Qed.

Lemma tail_layout D l : layout (with_tail (d_tail D ++ l) D) = layout D ++ l.
Proof. rewrite !layout_head. simpl. by rewrite <- !app_assoc. Qed.
