(* ===== verification/FileRules.v ===== *)
(** * The rules for the accesses of a file container

    What each access of FileContainer.v does to a well-laid-out file: a weakest
    precondition with a second postcondition, for the disk that is left where a write
    does not reach it. *)

From S2P Require Import Prelude Machine FileText FileContainer FileLayout.

(** ** The stream on a text *)

(** The stream is good and [l] is what is left to read. *)
Record cursor (s : St) (l : bytes) : Prop := {
  cur_good : is_good s = true;
  cur_pos : 0 ≤ s_pos s;
  cur_rest : rest s = l
}.

Lemma set_pos_set_pos p q s : set_pos p (set_pos q s) = set_pos p s.
Proof. done. Qed.
Lemma set_pos_same s : set_pos (s_pos s) s = s.
Proof. by destruct s. Qed.

Lemma cursor_advance s l1 l2 n :
  cursor s (l1 ++ l2) → n = length l1 → cursor (set_pos (s_pos s + Z.of_nat n) s) l2.
Proof.
  intros [Hg Hp Hr] ->. constructor; [done|simpl; lia|].
  unfold rest in *. simpl. rewrite Z2Nat.inj_add, Nat2Z.id by lia.
  rewrite <- drop_drop, Hr. by rewrite drop_app_length.
Qed.

Lemma seek_ok s p : is_good s = true → 0 ≤ p → seek p s = Some (inr tt, set_pos p s).
Proof.
  intros Hg Hp. unfold seek, modify. unfold is_good in Hg.
  destruct (s_eof s), (s_fail s), (s_bad s); try done. simpl.
  by destruct (Z.ltb_spec p 0); [lia|].
Qed.

Lemma tell_ok s : is_good s = true → tell s = Some (inr (s_pos s), s).
Proof.
  intros Hg. unfold tell, gets. unfold is_good in Hg.
  by destruct (s_eof s), (s_fail s), (s_bad s).
Qed.

Lemma sentry_ok s : is_good s = true → sentry s = Some (inr true, s).
Proof. intros Hg. unfold sentry. by rewrite Hg. Qed.

Lemma sync_ok s : is_good s = true → sync_stream s = Some (inr tt, s).
Proof. intros Hg. unfold sync_stream, mbind, E_bind. by rewrite sentry_ok. Qed.

Lemma good_ok s : is_good s = true → good s = Some (inr true, s).
Proof. intros Hg. unfold good, gets. by rewrite Hg. Qed.

Lemma check_bad_ok e s : is_good s = true → check_bad e s = Some (inr tt, s).
Proof.
  intros Hg. unfold check_bad. unfold is_good in Hg. by destruct (s_eof s), (s_fail s), (s_bad s).
Qed.

Lemma advance_ok n s :
  is_good s = true → advance n false false s = Some (inr tt, set_pos (s_pos s + Z.of_nat n) s).
Proof.
  intros Hg. unfold advance, modify, set_pos. unfold is_good in Hg.
  by destruct (s_eof s), (s_fail s), (s_bad s).
Qed.

Lemma bind_ok {A B} (m : E A) (k : A → E B) s a s' :
  m s = Some (inr a, s') → (m ≫= k) s = k a s'.
Proof. intros H. unfold mbind, E_bind. by rewrite H. Qed.

Lemma getline_ok s l r :
  cursor s (l ++ newline :: r) → Forall (λ c, c ≠ newline) l →
  getline s = Some (inr l, set_pos (s_pos s + Z.of_nat (S (length l))) s).
Proof.
  intros [Hg Hp Hr] Hl. unfold getline. rewrite (bind_ok _ _ _ _ _ (sentry_ok s Hg)).
  rewrite (bind_ok _ _ s (rest s) s) by done. rewrite Hr, span_stop.
  - by rewrite (bind_ok _ _ _ _ _ (advance_ok _ s Hg)).
  - eapply Forall_impl; [exact Hl|]. intros c Hc. unfold is_newline.
    by rewrite bool_decide_eq_false_2.
  - done.
Qed.

Lemma get_ok s c r :
  cursor s (c :: r) → get s = Some (inr (Some c), set_pos (s_pos s + 1) s).
Proof.
  intros [Hg Hp Hr]. unfold get. rewrite (bind_ok _ _ _ _ _ (sentry_ok s Hg)).
  rewrite (bind_ok _ _ s (rest s) s) by done. rewrite Hr.
  by rewrite (bind_ok _ _ _ _ _ (advance_ok _ s Hg)).
Qed.

Lemma extract_ok s w d r base top v :
  cursor s (w ++ d ++ r) → Forall (λ c, is_space c = true) w → numeral base d →
  r ≠ [] → ends_numeral base r → number base d ≤ top →
  extract base top v s =
  Some (inr (number base d), set_pos (s_pos s + Z.of_nat (length w + length d)) s).
Proof.
  intros [Hg Hp Hr] Hw Hd Hne He Ht. unfold extract.
  rewrite (bind_ok _ _ _ _ _ (sentry_ok s Hg)).
  rewrite (bind_ok _ _ s (rest s) s) by done.
  rewrite Hr, (span_spaces w base), span_numeral by done.
  rewrite (numeral_ne base), (bool_decide_eq_false_2 (r = [])) by done.
  destruct (Z.ltb_spec top (number base d)); [lia|]. simpl.
  by rewrite (bind_ok _ _ _ _ _ (advance_ok _ s Hg)).
Qed.

Lemma extract_char_ok s c r v :
  cursor s (blank :: c :: r) → is_space c = false →
  extract_char v s = Some (inr c, set_pos (s_pos s + 2) s).
Proof.
  intros [Hg Hp Hr] Hc. unfold extract_char. rewrite (bind_ok _ _ _ _ _ (sentry_ok s Hg)).
  rewrite (bind_ok _ _ s (rest s) s) by done. rewrite Hr.
  change (blank :: c :: r) with ([blank] ++ c :: r).
  rewrite span_stop by (done || by repeat constructor).
  by rewrite (bind_ok _ _ _ _ _ (advance_ok _ s Hg)).
Qed.

Lemma read_ok s l r :
  cursor s (l ++ r) →
  read (Z.of_nat (length l)) s = Some (inr l, set_pos (s_pos s + Z.of_nat (length l)) s).
Proof.
  intros [Hg Hp Hr]. unfold read. rewrite (bind_ok _ _ _ _ _ (sentry_ok s Hg)).
  rewrite (bind_ok _ _ s (rest s) s) by done. rewrite Hr, Nat2Z.id, take_app_length.
  rewrite Z.ltb_irrefl. by rewrite (bind_ok _ _ _ _ _ (advance_ok _ s Hg)).
Qed.
#[local] Opaque hex print_num.

(** ** Iterators and time stamps *)

Lemma newline_ends base r : ends_numeral base (newline :: r).
Proof. simpl. apply (is_space_digit base). done. Qed.
Lemma blank_ends base r : ends_numeral base (blank :: r).
Proof. simpl. apply (is_space_digit base). done. Qed.

Lemma numeral_line base d : numeral base d → Forall (λ c, c ≠ newline) (blank :: d).
Proof. intros H. constructor; [done|by eapply numeral_no_newline]. Qed.

Lemma pos_eq s p q : p = q → set_pos p s = set_pos q s.
Proof. by intros ->. Qed.

(** An iterator, with a blank before it in a line of the backups. *)
Lemma read_iterator_ok s w it x r :
  cursor s (w ++ pair_line x ++ r) → w = [] ∨ w = [blank] → pair_ok x →
  read_iterator it s =
  Some (inr (Some (mkIt x.1 x.2 (fi_current it))), set_pos (s_pos s + Z.of_nat (length w) + 33) s).
Proof.
  intros Hc Hw [H1 H2]. unfold read_iterator.
  assert (Hws : Forall (λ c, is_space c = true) w) by (destruct Hw as [-> | ->]; by repeat constructor).
  assert (Hn1 := hex_numeral _ H1). assert (Hn2 := hex_numeral _ H2).
  destruct (hex_printed _ H1) as [L1 _ V1]. destruct (hex_printed _ H2) as [L2 _ V2].
  unfold pair_line, line, write_iterator in Hc. cbn [fi_prev fi_next] in Hc.
  rewrite <- !app_assoc in Hc. cbn [app] in Hc. pose proof (cur_good _ _ Hc) as Hg.
  rewrite (bind_ok _ _ _ _ _ (tell_ok s Hg)).
  assert (Hl : cursor s ((w ++ hex x.1 ++ blank :: hex x.2) ++ newline :: r))
    by (rewrite <- !app_assoc; exact Hc).
  erewrite bind_ok; [|eapply getline_ok; [exact Hl|]].
  2:{ apply Forall_app. split; [destruct Hw as [-> | ->]; by repeat constructor|].
      apply Forall_app. split; [exact (numeral_no_newline _ _ Hn1)|exact (numeral_line _ _ Hn2)]. }
  rewrite (match_iterator_ok w _ _ Hws Hn1 Hn2).
  erewrite bind_ok; [|apply seek_ok; [exact Hg|exact (cur_pos _ _ Hc)]].
  rewrite set_pos_set_pos, set_pos_same.
  assert (Hm : ∀ v, off_ok v → v ≤ max_streamoff) by (unfold off_ok, max_streamoff; lia).
  erewrite bind_ok; [|eapply (extract_ok s w (hex x.1)); [exact Hc|exact Hws|exact Hn1|discriminate|apply blank_ends|]].
  2:{ rewrite V1. by apply Hm. }
  assert (Hc2 : cursor (set_pos (s_pos s + Z.of_nat (length w + length (hex x.1))) s)
    (blank :: hex x.2 ++ newline :: r)).
  { apply (cursor_advance s (w ++ hex x.1)); [rewrite <- app_assoc; exact Hc|].
    by rewrite length_app. }
  erewrite bind_ok; [|eapply (extract_ok _ [blank] (hex x.2));
    [exact Hc2|by repeat constructor|exact Hn2|discriminate|apply newline_ends|]].
  2:{ rewrite V2. by apply Hm. }
  rewrite V1, V2. cbn [s_pos set_pos on_stream length]. rewrite L1, L2.
  unfold mret, E_ret. do 2 f_equal. rewrite set_pos_set_pos. apply pos_eq. lia.
Qed.

Lemma read_stamp_ok s ts t r :
  cursor s (stamp_line t ++ r) → stamp_ok t →
  read_stamp ts s = Some (inr (Some t), set_pos (s_pos s + 26) s).
Proof.
  intros Hc Ht. unfold read_stamp.
  destruct (epoch_printed t Ht) as [L1 D1 V1]. destruct (counter_printed t Ht) as [L2 D2 V2].
  assert (Hn1 : numeral 10 (print_num 10 20 (ts_epoch t))).
  { eapply (printed_numeral 10 20); [lia|]. by apply epoch_printed. }
  assert (Hn2 : numeral 10 (print_num 10 5 (ts_counter t))).
  { eapply (printed_numeral 10 5); [lia|]. by apply counter_printed. }
  unfold stamp_line, line, write_stamp in Hc.
  change (Z.to_nat ts_s_twidth) with 20%nat in Hc. change (Z.to_nat ts_s_swidth) with 5%nat in Hc.
  rewrite <- !app_assoc in Hc. cbn [app] in Hc. pose proof (cur_good _ _ Hc) as Hg.
  rewrite (bind_ok _ _ _ _ _ (tell_ok s Hg)).
  assert (Hl : cursor s ((print_num 10 20 (ts_epoch t) ++ blank :: print_num 10 5 (ts_counter t))
    ++ newline :: r)) by (rewrite <- !app_assoc; exact Hc).
  erewrite bind_ok; [|eapply getline_ok; [exact Hl|]].
  2:{ apply Forall_app. split; [exact (numeral_no_newline _ _ Hn1)|exact (numeral_line _ _ Hn2)]. }
  rewrite (match_stamp_ok _ _ Hn1 Hn2).
  erewrite bind_ok; [|apply seek_ok; [exact Hg|exact (cur_pos _ _ Hc)]].
  rewrite set_pos_set_pos, set_pos_same. destruct Ht as [He Hk].
  erewrite bind_ok; [|eapply (extract_ok s [] (print_num 10 20 (ts_epoch t)));
    [exact Hc|constructor|exact Hn1|discriminate|apply blank_ends|]].
  2:{ rewrite V1. unfold off_ok, max_streamoff in *. lia. }
  pose proof (cursor_advance s _ _ _ Hc eq_refl) as Hc2.
  erewrite bind_ok; [|eapply (extract_ok _ [blank] (print_num 10 5 (ts_counter t)));
    [exact Hc2|by repeat constructor|exact Hn2|discriminate|apply newline_ends|]].
  2:{ rewrite V2. unfold max_ushort. lia. }
  rewrite V1, V2. cbn [s_pos set_pos on_stream length]. rewrite L1, L2.
  unfold mret, E_ret. destruct t. do 2 f_equal. rewrite set_pos_set_pos. apply pos_eq. lia.
Qed.

Lemma read_header_ok s n g r :
  cursor s (header_line n g ++ r) → off_ok (Z.of_nat n) →
  readSizeAndState s = Some (inr (Z.of_nat n, state_char g), set_pos (s_pos s + 26) s).
Proof.
  intros Hc Hn. unfold readSizeAndState.
  assert (Hn64 : 0 ≤ Z.of_nat n < 2 ^ 64) by (unfold off_ok in Hn; lia).
  destruct (dsize_printed _ Hn64) as [L1 D1 V1].
  assert (Hn1 : numeral 10 (print_num 10 23 (Z.of_nat n))).
  { eapply (printed_numeral 10 23); [lia|]. by apply dsize_printed. }
  unfold header_line, line, write_size_and_state in Hc.
  change (Z.to_nat fc_s_sizeSize) with 23%nat in Hc.
  rewrite <- !app_assoc in Hc. cbn [app] in Hc. pose proof (cur_good _ _ Hc) as Hg.
  rewrite (bind_ok _ _ _ _ _ (tell_ok s Hg)).
  assert (Hl : cursor s ((print_num 10 23 (Z.of_nat n) ++ [blank; state_char g]) ++ newline :: r))
    by (rewrite <- !app_assoc; exact Hc).
  erewrite bind_ok; [|eapply getline_ok; [exact Hl|]].
  2:{ apply Forall_app. split; [exact (numeral_no_newline _ _ Hn1)|by destruct g; repeat constructor]. }
  rewrite (match_header_ok _ _ Hn1) by (destruct g; auto).
  erewrite bind_ok; [|apply seek_ok; [exact Hg|exact (cur_pos _ _ Hc)]].
  rewrite set_pos_set_pos, set_pos_same.
  erewrite bind_ok; [|eapply (extract_ok s [] (print_num 10 23 (Z.of_nat n)));
    [exact Hc|constructor|exact Hn1|discriminate|apply blank_ends|]].
  2:{ rewrite V1. unfold max_size. lia. }
  pose proof (cursor_advance s _ _ _ Hc eq_refl) as Hc2.
  erewrite bind_ok; [|eapply extract_char_ok; [exact Hc2|by destruct g]].
  rewrite set_pos_set_pos.
  rewrite (bind_ok _ _ _ _ _ (check_bad_ok io_error (set_pos _ s) Hg)).
  pose proof (cursor_advance _ [blank; state_char g] (newline :: r) 2 Hc2 eq_refl) as Hc3.
  erewrite bind_ok; [|eapply get_ok; exact Hc3].
  rewrite bool_decide_eq_true_2 by done. rewrite V1. rewrite !set_pos_set_pos.
  cbn [s_pos set_pos on_stream length]. rewrite L1.
  unfold mret, E_ret. do 2 f_equal. apply pos_eq. lia.
Qed.
(** ** Triples *)

(** The container is good, its file is the text of [D] and its object is [o]. *)
Record holds (s : St) (D : disk) (o : Container) : Prop := {
  h_file : s_file s = layout D;
  h_ok : disk_ok D;
  h_good : is_good s = true;
  h_pos : 0 ≤ s_pos s;
  h_fc : fc s = o;
  h_now : off_ok (s_now s)
}.

(** [m] ends with a result for which [Q] holds, or with an error, after the last write
    that reaches the disk, when it leaves one for which [C] holds. The latter does not
    happen when every write reaches the disk. *)
Definition wp {A} (m : E A) (Q : A → St → Prop) (C : disk → Prop) (s : St) : Prop :=
  ∃ r s', m s = Some (r, s') ∧ (s_budget s = None → s_budget s' = None) ∧
    match r with
    | inr a => Q a s'
    | inl _ => s_budget s' = Some O ∧ ∃ D, s_file s' = layout D ∧ disk_ok D ∧ C D
    end.

Section rules.
Context {A B : Type} (C : disk → Prop).
Implicit Types (Q : B → St → Prop).

Lemma wp_ret (Q : B → St → Prop) b s : Q b s → wp (mret b) Q C s.
Proof. intros H. by exists (inr b), s. Qed.

Lemma wp_bind (m : E A) (k : A → E B) Q s :
  wp m (λ a s', wp (k a) Q C s') C s → wp (m ≫= k) Q C s.
Proof.
  intros (r&s'&E&Hb&H). unfold wp, mbind, E_bind. rewrite E. destruct r as [e|a].
  - by exists (inl e), s'.
  - destruct H as (r&s''&E'&Hb'&H). exists r, s''. split_and!; [done|by auto|done].
Qed.

Lemma wp_unbind (m : E A) (k : A → E B) Q s :
  (∃ a s', m s = Some (inr a, s') ∧ s_budget s' = s_budget s ∧ wp (k a) Q C s') →
  wp (m ≫= k) Q C s.
Proof.
  intros (a&s'&E&Hb&H). apply wp_bind. exists (inr a), s'. split_and!; [done|congruence|done].
Qed.

Lemma wp_run (m : E A) (k : A → E B) Q s a s' :
  m s = Some (inr a, s') → s_budget s' = s_budget s → wp (k a) Q C s' → wp (m ≫= k) Q C s.
Proof. intros. apply wp_unbind. eauto. Qed.
End rules.

Lemma wp_mono {A} (m : E A) (Q Q' : A → St → Prop) (C C' : disk → Prop) s :
  (∀ a s', Q a s' → Q' a s') → (∀ D, C D → C' D) → wp m Q C s → wp m Q' C' s.
Proof.
  intros HQ HC (r&s'&E&Hb&H). exists r, s'. split_and!; [done..|].
  destruct r; [|auto]. destruct H as (?&D&?&?&?). eauto 8.
Qed.

Lemma holds_set_pos s D o p : holds s D o → 0 ≤ p → holds (set_pos p s) D o.
Proof. intros [] Hp. by constructor. Qed.
Lemma holds_set_fc s D o o' : holds s D o → holds (set_fc o' s) D o'.
Proof. intros []. by constructor. Qed.

Lemma holds_cursor s D o l D' l' :
  holds s D o → slot D (s_pos s) l D' l' → ∃ post, cursor s (l ++ post).
Proof.
  intros [] (pre&post&Hp&E&_). exists post. constructor; [done|done|]. unfold rest.
  rewrite h_file0, E, <- Hp, Nat2Z.id. by rewrite drop_app_length.
Qed.

Section steps.
Context {B : Type} (C : disk → Prop) (Q : B → St → Prop) (s : St) (D : disk) (o : Container).
Context (H : holds s D o).

Lemma wp_seek (k : unit → E B) p :
  0 ≤ p → (∀ s', holds s' D o → s_pos s' = p → wp (k tt) Q C s') → wp (seek p ≫= k) Q C s.
Proof.
  intros Hp Hk. eapply wp_run; [apply seek_ok; [apply H|done]|done|].
  apply Hk; [by apply holds_set_pos|done].
Qed.

Lemma wp_tell (k : Z → E B) : wp (k (s_pos s)) Q C s → wp (tell ≫= k) Q C s.
Proof. intros Hk. eapply wp_run; [apply tell_ok, H|done|done]. Qed.

Lemma wp_sync (k : unit → E B) : wp (k tt) Q C s → wp (sync_stream ≫= k) Q C s.
Proof. intros Hk. eapply wp_run; [apply sync_ok, H|done|done]. Qed.

Lemma wp_good (k : bool → E B) : wp (k true) Q C s → wp (good ≫= k) Q C s.
Proof. intros Hk. eapply wp_run; [apply good_ok, H|done|done]. Qed.

Lemma wp_check_bad e (k : unit → E B) : wp (k tt) Q C s → wp (check_bad e ≫= k) Q C s.
Proof. intros Hk. eapply wp_run; [apply check_bad_ok, H|done|done]. Qed.

Lemma wp_member {A} (f : Container → A) (k : A → E B) :
  wp (k (f o)) Q C s → wp (member f ≫= k) Q C s.
Proof. intros Hk. eapply wp_run; [|reflexivity|]; [reflexivity|]. by rewrite (h_fc _ _ _ H). Qed.

Lemma wp_gets {A} (f : St → A) (k : A → E B) : wp (k (f s)) Q C s → wp (gets f ≫= k) Q C s.
Proof. intros Hk. by eapply wp_run. Qed.

Lemma wp_update (f : Container → Container) (k : unit → E B) :
  (∀ s', holds s' D (f o) → s_pos s' = s_pos s → wp (k tt) Q C s') → wp (update f ≫= k) Q C s.
Proof.
  intros Hk. eapply wp_run; [reflexivity|reflexivity|]. apply Hk; [|done].
  rewrite (h_fc _ _ _ H). by eapply holds_set_fc.
Qed.

Lemma getEnd_ok :
  getEnd s = Some (inr (file_end D), set_pos (file_end D) s) ∧ holds (set_pos (file_end D) s) D o.
Proof.
  pose proof (layout_length D (h_ok _ _ _ H)) as Hl.
  assert (E : seek_end s = Some (inr tt, set_pos (file_end D) s)).
  { unfold seek_end. rewrite (bind_ok _ _ s (file_size s) s) by done. unfold file_size.
    rewrite (h_file _ _ _ H), Hl. apply seek_ok; [apply H|lia]. }
  split; [|apply holds_set_pos; [done|lia]].
  unfold getEnd. rewrite (bind_ok _ _ _ _ _ E). apply tell_ok, H.
Qed.

Lemma wp_getEnd (k : Z → E B) :
  (∀ s', holds s' D o → s_pos s' = file_end D → wp (k (file_end D)) Q C s') →
  wp (getEnd ≫= k) Q C s.
Proof. intros Hk. destruct getEnd_ok as [E H']. eapply wp_run; [exact E|done|]. by apply Hk. Qed.
End steps.

(** ** Writes *)

(** [m] only reports that the device has failed. *)
Definition raises {A} (m : E A) : Prop := ∀ s, s_bad s = true →
  ∃ e s', m s = Some (inl e, s') ∧ s_file s' = s_file s ∧ s_budget s' = s_budget s.

Lemma raises_then {A B} (m : E A) (k : A → E B) : raises m → raises (m ≫= k).
Proof.
  intros Hm s Hs. destruct (Hm s Hs) as (e&s'&E&H1&H2). exists e, s'.
  unfold mbind, E_bind. by rewrite E.
Qed.

Lemma raises_check_bad e : raises (check_bad e).
Proof. intros s Hs. exists e, s. unfold check_bad. by rewrite Hs. Qed.

Lemma raises_seek {A} p (k : unit → E A) : raises (k tt) → raises (seek p ≫= k).
Proof.
  intros Hk s Hs. destruct (Hk s Hs) as (e&s'&E&H1&H2). exists e, s'.
  unfold mbind, E_bind, seek, modify. by rewrite Hs, orb_true_r.
Qed.

Lemma bad_not_good s : s_bad s = true → is_good s = false.
Proof. intros H. unfold is_good. by rewrite H, orb_true_r. Qed.

Lemma raises_sync {A} (k : unit → E A) : raises (k tt) → raises (sync_stream ≫= k).
Proof.
  intros Hk s Hs. destruct (Hk (set_fail s)) as (e&s'&E&H1&H2); [done|]. exists e, s'.
  split_and!; [|done|done].
  unfold sync_stream, sentry, mbind, E_bind. by rewrite (bad_not_good s Hs).
Qed.

Lemma raises_put {A} l (k : unit → E A) : raises (k tt) → raises (put l ≫= k).
Proof.
  intros Hk s Hs. destruct (Hk (set_fail s)) as (e&s'&E&H1&H2); [done|]. exists e, s'.
  split_and!; [|done|done].
  unfold put, sentry, mbind, E_bind. by rewrite (bad_not_good s Hs).
Qed.
#[export] Hint Resolve raises_check_bad raises_seek raises_sync raises_put : filecontainer.
#[export] Hint Resolve raises_then | 10 : filecontainer.

Lemma overwrite_app pre l post l' n :
  length l' = length l → n = length pre → overwrite (pre ++ l ++ post) n l' = pre ++ l' ++ post.
Proof.
  intros Hl ->. unfold overwrite. rewrite !length_app.
  replace (length pre - (length pre + (length l + length post)))%nat with O by lia.
  cbn [replicate]. rewrite app_nil_r, take_app_length, Hl. do 2 f_equal.
  rewrite <- drop_drop, drop_app_length, drop_app_length. done.
Qed.

Lemma overwrite_end f l n : n = length f → overwrite f n l = f ++ l.
Proof.
  intros ->. unfold overwrite. rewrite Nat.sub_diag. cbn [replicate].
  rewrite app_nil_r, firstn_all, drop_ge by lia. by rewrite app_nil_r.
Qed.

Lemma flush_ok s D o l D' :
  holds s D o → disk_ok D' → overwrite (layout D) (Z.to_nat (s_pos s)) l = layout D' →
  ∃ s', flush l s = Some (inr tt, s') ∧ (s_budget s = None → s_budget s' = None) ∧
    (holds s' D' o ∧ s_pos s' = s_pos s + Z.of_nat (length l)
     ∨ s_bad s' = true ∧ s_budget s' = Some O ∧ s_file s' = layout D).
Proof.
  intros [] Hok E. unfold flush. destruct (s_budget s) as [[|n]|] eqn:Eb.
  - eexists. split_and!; [done|done|]. right. simpl. by rewrite Eb.
  - eexists. split_and!; [done|done|]. left. split; [|done].
    constructor; simpl; try done; [by rewrite h_file0|lia].
  - eexists. split_and!; [done|done|]. left. split; [|done].
    constructor; simpl; try done; [by rewrite h_file0|lia].
Qed.

Lemma wp_put {B} (C : disk → Prop) (Q : B → St → Prop) s D o l D' (k : unit → E B) :
  holds s D o → disk_ok D' → overwrite (layout D) (Z.to_nat (s_pos s)) l = layout D' →
  C D → raises (k tt) →
  (∀ s', holds s' D' o → s_pos s' = s_pos s + Z.of_nat (length l) → wp (k tt) Q C s') →
  wp (put l ≫= k) Q C s.
Proof.
  intros H Hok E HC Hr Hk. destruct (flush_ok s D o l D' H Hok E) as (s'&Ef&Hb&Hs).
  apply wp_bind. unfold put. eapply wp_run; [apply sentry_ok, H|done|].
  exists (inr tt), s'. split_and!; [done|done|]. destruct Hs as [[Hs Hp]|(H1&H2&H3)]; [by apply Hk|].
  destruct (Hr s' H1) as (e&s''&E2&Ef2&Eb2). exists (inl e), s''. split_and!; [done|congruence|congruence|].
  exists D. split_and!; [congruence|apply H|done].
Qed.

Lemma wp_put_slot {B} (C : disk → Prop) (Q : B → St → Prop) s D o l D' l' (k : unit → E B) :
  holds s D o → slot D (s_pos s) l D' l' → length l' = length l → disk_ok D' → C D → raises (k tt) →
  (∀ s', holds s' D' o → s_pos s' = s_pos s + Z.of_nat (length l') → wp (k tt) Q C s') →
  wp (put l' ≫= k) Q C s.
Proof.
  intros H (pre&post&Hp&E1&E2) Hl Hok HC Hr Hk. eapply wp_put; try done.
  rewrite E1, E2. apply overwrite_app; [done|lia].
Qed.
(** ** Disks that stay within the fields *)

Lemma ok_with_stamp x D : disk_ok D → stamp_ok x → disk_ok (with_stamp x D).
Proof. by intros [] ?. Qed.
Lemma ok_with_size x D : disk_ok D → 0 ≤ x < 2 ^ 64 → disk_ok (with_size x D).
Proof. by intros [] ?. Qed.
Lemma ok_with_status x D : disk_ok D → disk_ok (with_status x D).
Proof. by intros []. Qed.
Lemma ok_with_backup k x D :
  disk_ok D → it_ok x → disk_ok (with_backups (<[k:=x]> (d_backups D)) D).
Proof.
  intros [] Hx. constructor; simpl; try done; [by rewrite length_insert|by apply Forall_insert].
Qed.
Lemma ok_with_lb x D : disk_ok D → pair_ok x → disk_ok (with_lb x D).
Proof. by intros [] ?. Qed.
Lemma ok_with_limits x D : disk_ok D → pair_ok x → disk_ok (with_limits x D).
Proof. by intros [] ?. Qed.
Lemma ok_with_removed x D : disk_ok D → pair_ok x → disk_ok (with_removed x D).
Proof. by intros [] ?. Qed.
Lemma ok_with_tail x D : disk_ok D → disk_ok (with_tail x D).
Proof. by intros []. Qed.

Lemma alter_in_ok base l p g :
  Forall rec_ok l → (∀ r, rec_ok r → rec_ok (g r)) → Forall rec_ok (alter_in base l p g).
Proof.
  intros Hl Hg. revert base. induction Hl as [|r l Hr Hl IH]; intros base; simpl; [done|].
  destruct (p =? base); constructor; auto.
Qed.
Lemma ok_relink p x D : disk_ok D → pair_ok x → disk_ok (alter_rec p (relink x) D).
Proof.
  intros [] Hx. constructor; simpl; try done. apply alter_in_ok; [done|].
  intros r (?&?&?). by split_and!.
Qed.
Lemma ok_remark p g D : disk_ok D → disk_ok (alter_rec p (remark g) D).
Proof. intros []. constructor; simpl; try done. by apply alter_in_ok. Qed.
Lemma ok_truncated p D : disk_ok D → disk_ok (truncated p D).
Proof.
  intros Hok. pose proof (ok_recs D Hok) as Hr. destruct Hok.
  constructor; simpl; try done. destruct (cut_in_prefix 391 (d_recs D) p) as [l E].
  rewrite E in Hr. by apply Forall_app in Hr as [? _].
Qed.
Lemma ok_appended r D : disk_ok D → rec_ok r → disk_ok (appended r D).
Proof.
  intros [] Hr. constructor; simpl; try done. apply Forall_app. split; [done|by constructor].
Qed.
Definition cleared (D : disk) : disk :=
  with_rb (0, 0) (with_lb (0, 0) (with_backups (replicate 4 vuoto) D)).
Lemma ok_cleared D : disk_ok D → disk_ok (cleared D).
Proof. intros []. constructor; simpl; try done. by repeat constructor. Qed.
#[export] Hint Resolve ok_with_stamp ok_with_size ok_with_status ok_with_backup ok_with_lb
  ok_with_limits ok_with_removed ok_with_tail ok_relink ok_remark ok_truncated ok_appended
  ok_cleared : filecontainer.

Lemma backup_at D k : disk_ok D → (k < 4)%nat → ∃ it, d_backups D !! k = Some it.
Proof. intros [] Hk. apply lookup_lt_is_Some. lia. Qed.

(** ** Writing the fields *)

Section writes.
Context (C : disk → Prop) (Q : unit → St → Prop) (s : St) (D : disk) (o : Container).
Context (H : holds s D o).

Lemma wp_check_bad_end e : Q tt s → wp (check_bad e) Q C s.
Proof. intros HQ. exists (inr tt), s. split_and!; [apply check_bad_ok, H|done|done]. Qed.

Lemma wp_update_end (f : Container → Container) :
  (∀ s', holds s' D (f o) → s_pos s' = s_pos s → Q tt s') → wp (update f) Q C s.
Proof.
  intros Hk. eexists (inr tt), _. split_and!; [reflexivity|done|]. apply Hk; [|done].
  rewrite (h_fc _ _ _ H). by eapply holds_set_fc.
Qed.

Lemma wp_writeFileStatus x :
  C D → (∀ s', holds s' (with_status x D) o → s_pos s' = s_pos s → Q tt s') →
  wp (writeFileStatus x) Q C s.
Proof.
  intros HC HQ. unfold writeFileStatus. pose proof (h_pos _ _ _ H).
  eapply wp_tell, wp_sync, wp_check_bad, wp_seek; try done.
  intros s1 H1 P1. eapply wp_put_slot; try exact H1.
  - rewrite P1. apply slot_status, H1.
  - done.
  - apply ok_with_status, H1.
  - done.
  - auto with filecontainer.
  - intros s2 H2 P2. eapply wp_seek; try done. intros s3 H3 P3.
    eapply wp_sync; [done|]. exists (inr tt), s3. split_and!; [apply check_bad_ok, H3|done|].
    by apply HQ.
Qed.
End writes.
Lemma rec_at_ok D p r :
  disk_ok D → rec_at D p = Some r → rec_ok r ∧ 391 ≤ p ∧ p + rec_size r ≤ file_end D.
Proof.
  intros Hok Hr. destruct (rec_in_split _ _ _ _ Hr) as (l1&l2&E&_). split.
  - apply (proj1 (Forall_forall rec_ok (d_recs D)) (ok_recs D Hok)). rewrite E. set_solver.
  - apply rec_in_bounds in Hr. unfold file_end. lia.
Qed.

Section more_writes.
Context (C : disk → Prop) (Q : unit → St → Prop) (s : St) (D : disk) (o : Container).
Context (H : holds s D o).

(** A field that is written and followed by the return to the old position. *)
Lemma wp_put_and_return (k : unit → E unit) e off l D' l' :
  slot D off l D' l' → length l' = length l → disk_ok D' → C D →
  (∀ s', holds s' D' o → s_pos s' = s_pos s → wp (k tt) Q C s') →
  wp (old ← tell; seek off;; put l';; seek old;; check_bad e;; k tt) Q C s.
Proof.
  intros Hs Hl Hok HC Hk. pose proof (h_pos _ _ _ H) as Hp0. eapply wp_tell; [done|].
  assert (Hoff : 0 ≤ off) by (destruct Hs as (pre&?&<-&_); lia).
  eapply wp_seek; [done..|]. intros s1 H1 P1. eapply wp_put_slot; try done; [by rewrite P1|auto with filecontainer|].
  intros s2 H2 P2. eapply wp_seek; try done. intros s3 H3 P3.
  eapply wp_check_bad; [done|]. by apply Hk.
Qed.

Lemma wp_writeAndSetSize n :
  0 ≤ n < 2 ^ 64 → C D →
  (∀ s', holds s' (with_size n D) (set_size n o) → s_pos s' = s_pos s → Q tt s') →
  wp (writeAndSetSize n) Q C s.
Proof.
  intros Hn HC HQ. pose proof (h_ok _ _ _ H) as Hok.
  apply (wp_put_and_return (λ _, update (set_size n)) _ _ (size_line (d_size D)) (with_size n D)
    (size_line n)); [by apply slot_size| | |done|].
  - rewrite !size_line_length; [done| |done]. apply Hok.
  - auto with filecontainer.
  - intros s' H' P'. eapply wp_update_end; [done|]. intros s2 H2 P2. apply HQ; [done|congruence].
Qed.

Lemma wp_writeIteratorBackup (k : nat) it x :
  (k < 4)%nat → it_ok it → C D → C (with_backups (<[k:=it]> (d_backups D)) D) →
  (∀ s', holds s' (with_status x (with_backups (<[k:=it]> (d_backups D)) D)) o →
         s_pos s' = s_pos s → Q tt s') →
  wp (writeIteratorBackup (Z.of_nat k) it x) Q C s.
Proof.
  intros Hk Hit HC1 HC2 HQ. pose proof (h_ok _ _ _ H) as Hok.
  destruct (backup_at D k Hok Hk) as [old Ho].
  assert (Hold : it_ok old) by (eapply Forall_lookup_1; [apply Hok|done]).
  assert (Epos : backup_position (Z.of_nat k) = 51 + 51 * Z.of_nat k).
  { unfold backup_position, fc_s_iteratorBackupNumber. rewrite Z.mod_small by lia.
    change (3 * fi_s_width + 3) with 51. change (fc_s_statusPosition + 2) with 51. lia. }
  unfold writeIteratorBackup. rewrite Epos.
  apply (wp_put_and_return (λ _, writeFileStatus x) _ _ (line (write_backup old))
    (with_backups (<[k:=it]> (d_backups D)) D) (line (write_backup it))); [by apply slot_backup| | |done|].
  - by rewrite !backup_line_length.
  - auto with filecontainer.
  - intros s' H' P'. eapply wp_writeFileStatus; [done..|]. intros s2 H2 P2.
    apply HQ; [done|congruence].
Qed.

Definition pair_of (it : FileIterator) : Z * Z := (fi_prev it, fi_next it).

Lemma pair_line_of it : pair_line (pair_of it) = line (write_iterator it).
Proof. done. Qed.

Lemma wp_writeLimitsBackup x l :
  pair_ok (pair_of l) → C D → C (with_lb (pair_of l) D) →
  (∀ s', holds s' (with_status x (with_lb (pair_of l) D)) o → s_pos s' = s_pos s → Q tt s') →
  wp (writeLimitsBackup x l false) Q C s.
Proof.
  intros Hl HC1 HC2 HQ. pose proof (h_ok _ _ _ H) as Hok.
  apply (wp_put_and_return (λ _, writeFileStatus x) _ _ (pair_line (d_lb D))
    (with_lb (pair_of l) D) (pair_line (pair_of l))); [by apply slot_lb| | |done|].
  - rewrite !pair_line_length; [done|apply Hok|done].
  - auto with filecontainer.
  - intros s' H' P'. eapply wp_writeFileStatus; [done..|]. intros s2 H2 P2.
    apply HQ; [done|congruence].
Qed.

Lemma wp_createEmptyBackup x :
  C D → C (cleared D) →
  (∀ s', holds s' (with_status x (cleared D)) o → s_pos s' = s_pos s → Q tt s') →
  wp (createEmptyBackup x) Q C s.
Proof.
  intros HC1 HC2 HQ. pose proof (h_ok _ _ _ H) as Hok.
  apply (wp_put_and_return (λ _, writeFileStatus x) _ _
    (backup_lines (d_backups D) ++ pair_line (d_lb D) ++ pair_line (d_rb D)) (cleared D) empty_backup);
    [by apply slot_all_backups| | |done|].
  - rewrite !length_app, backup_lines_length, !pair_line_length, (ok_backups D Hok) by apply Hok. done.
  - auto with filecontainer.
  - intros s' H' P'. eapply wp_writeFileStatus; [done..|]. intros s2 H2 P2.
    apply HQ; [done|congruence].
Qed.

Lemma wp_writeInitialPosition l :
  pair_ok (pair_of l) → C D →
  (∀ s', holds s' (with_limits (pair_of l) D) o → Q tt s') →
  wp (writeInitialPosition l false) Q C s.
Proof.
  intros Hl HC HQ. pose proof (h_ok _ _ _ H) as Hok. unfold writeInitialPosition.
  eapply wp_sync, wp_seek; try done. intros s1 H1 P1.
  eapply (wp_put_slot _ _ _ _ _ (pair_line (d_limits D)) (with_limits (pair_of l) D));
    try exact H1; try done.
  - rewrite P1. by apply slot_limits.
  - rewrite <- pair_line_of, !pair_line_length; [done|apply Hok|done].
  - auto with filecontainer.
  - auto with filecontainer.
  - intros s2 H2 P2. eapply wp_check_bad_end; [done|]. by apply HQ.
Qed.

Lemma wp_writeRemoved l :
  pair_ok (pair_of l) → C D →
  (∀ s', holds s' (with_removed (pair_of l) D) o → Q tt s') →
  wp (writeInitialPosition l true) Q C s.
Proof.
  intros Hl HC HQ. pose proof (h_ok _ _ _ H) as Hok. unfold writeInitialPosition.
  eapply wp_sync, wp_seek; try done. intros s1 H1 P1.
  eapply (wp_put_slot _ _ _ _ _ (pair_line (d_removed D)) (with_removed (pair_of l) D));
    try exact H1; try done.
  - rewrite P1. by apply slot_removed.
  - rewrite <- pair_line_of, !pair_line_length; [done|apply Hok|done].
  - auto with filecontainer.
  - auto with filecontainer.
  - intros s2 H2 P2. eapply wp_check_bad_end; [done|]. by apply HQ.
Qed.

Lemma wp_writeIterator p r it :
  rec_at D p = Some r → pair_ok (pair_of it) → C D →
  (∀ s', holds s' (alter_rec p (relink (pair_of it)) D) o → Q tt s') →
  wp (writeIterator p it) Q C s.
Proof.
  intros Hr Hit HC HQ. pose proof (h_ok _ _ _ H) as Hok.
  destruct (rec_at_ok D p r Hok Hr) as (Hrok&Hp&_). unfold writeIterator.
  change fc_s_headerSize with 391. destruct (Z.leb_spec 391 p); [|lia].
  eapply wp_run; [reflexivity|done|]. eapply wp_seek; [done|lia|]. intros s1 H1 P1.
  eapply (wp_put_slot _ _ _ _ _ (pair_line (r_prev r, r_next r))
    (alter_rec p (relink (pair_of it)) D)); try exact H1; try done.
  - rewrite P1. by eapply slot_links.
  - rewrite <- pair_line_of, !pair_line_length; [done|apply Hrok|done].
  - auto with filecontainer.
  - auto with filecontainer.
  - intros s2 H2 P2. eapply wp_sync; [done|]. eapply wp_check_bad_end; [done|]. by apply HQ.
Qed.

(** The header of a record that is there already. *)
Lemma wp_writeDataHeader p r it g :
  rec_at D p = Some r → s_pos s = p → pair_ok (pair_of it) →
  C D → C (alter_rec p (relink (pair_of it)) D) →
  (∀ s', holds s' (alter_rec p (remark g) (alter_rec p (relink (pair_of it)) D)) o → Q tt s') →
  wp (writeDataHeader it (Z.of_nat (length (r_data r))) (state_char g)) Q C s.
Proof.
  intros Hr Hp Hit HC1 HC2 HQ. pose proof (h_ok _ _ _ H) as Hok.
  destruct (rec_at_ok D p r Hok Hr) as ((Hr1&Hr2&Hr3)&Hp'&_). unfold writeDataHeader.
  eapply (wp_put_slot _ _ _ _ _ (pair_line (r_prev r, r_next r))
    (alter_rec p (relink (pair_of it)) D)); try exact H; try done.
  - rewrite Hp. by eapply slot_links.
  - rewrite <- pair_line_of, !pair_line_length; done.
  - auto with filecontainer.
  - auto with filecontainer.
  - intros s1 H1 P1.
    rewrite <- pair_line_of, pair_line_length in P1 by done. rewrite Hp in P1.
    eapply (wp_put_slot _ _ _ _ _ (header_line (length (r_data r)) (r_good r))
      (alter_rec p (remark g) (alter_rec p (relink (pair_of it)) D)) (header_line (length (r_data r)) g)); try exact H1; try done.
    + rewrite P1. change (Z.of_nat 34) with 34.
      apply (slot_mark _ p (relink (pair_of it) r)); [auto with filecontainer| |done].
      unfold rec_at, alter_rec. simpl. rewrite rec_in_alter by auto with filecontainer.
      unfold rec_at in Hr. by rewrite Z.eqb_refl, Hr.
    + by rewrite !header_line_length.
    + auto with filecontainer.
    + auto with filecontainer.
    + intros s2 H2 P2. eapply wp_check_bad_end; [done|]. by apply HQ.
Qed.

Lemma wp_truncateFile p :
  0 < p → boundary D p → C D → C (truncated p D) →
  (∀ s', holds s' (with_status ft_end (truncated p D)) o → Q tt s') →
  wp (truncateFile p) Q C s.
Proof.
  intros Hp Hb HC1 HC2 HQ. pose proof (h_ok _ _ _ H) as Hok. unfold truncateFile.
  eapply wp_seek; [done|done|]. intros s1 H1 P1. eapply wp_good; [done|]. apply wp_bind.
  assert (Hrep : (Z.to_nat p - length (take (Z.to_nat p) (layout D)))%nat = O).
  { destruct (boundary_split D p Hb) as (l1&l2&E&Ep). rewrite length_take.
    pose proof (layout_length D Hok) as Hl. unfold file_end in Hl.
    rewrite E, recs_size_app in Hl. pose proof (recs_size_nonneg l2). lia. }
  pose proof (truncated_layout D p Hok Hb) as Ht.
  assert (Hgo : ∀ s2 (b : option nat), s2 = mkSt (layout (truncated p D)) (s_pos s1) (s_eof s1)
     (s_fail s1) (s_bad s1) b (s_bak s1) (s_now s1) (fc s1) →
     wp ((if p =? 0 then createEmptyFile else mret tt);; writeFileStatus ft_end) Q C s2).
  { intros s2 b ->. destruct (Z.eqb_spec p 0); [lia|]. eapply wp_run; [reflexivity|done|].
    eapply wp_writeFileStatus; [|done|intros s3 H3 P3; by apply HQ].
    destruct H1. by constructor; try (simpl; auto with filecontainer). }
  destruct (s_budget s1) as [[|n]|] eqn:Eb.
  - exists (inr false), s1. split; [unfold ftruncate; by rewrite Eb|]. split; [done|].
    exists (inl io_error), s1. split_and!; [done..|]. exists D. split_and!; [apply H1|done|done].
  - eexists (inr true), _. split_and!; [unfold ftruncate; by rewrite Eb|by rewrite Eb|].
    eapply (Hgo _ (Some n)). by rewrite (h_file _ _ _ H1), Hrep, app_nil_r, Ht.
  - eexists (inr true), _. split_and!; [unfold ftruncate; by rewrite Eb|by rewrite Eb|].
    eapply (Hgo _ None). by rewrite (h_file _ _ _ H1), Hrep, app_nil_r, Ht.
Qed.
End more_writes.
(** ** Reading the fields *)

Lemma status_line_read x : match_status (status_char x) && is_newline newline = true.
Proof. by destruct x. Qed.
Lemma status_of_char x : status_of (status_char x) = Some x.
Proof. by destruct x. Qed.

Lemma wp_ok {A} (C : disk → Prop) (Q : A → St → Prop) (m : E A) s a s' :
  m s = Some (inr a, s') → s_budget s' = s_budget s → Q a s' → wp m Q C s.
Proof. intros H1 H2 H3. exists (inr a), s'. split_and!; [done|congruence|done]. Qed.

Lemma holds_advance s D o n : holds s D o → 0 ≤ n → holds (set_pos (s_pos s + n) s) D o.
Proof. intros H Hn. apply holds_set_pos; [done|]. pose proof (h_pos _ _ _ H). lia. Qed.

Section reads.
Context (C : disk → Prop) (s : St) (D : disk) (o : Container).
Context (H : holds s D o).

Lemma wp_readFileStatus (Q : filestatus_t → St → Prop) :
  (∀ s', holds s' D o → s_pos s' = s_pos s → Q (d_status D) s') → wp readFileStatus Q C s.
Proof.
  intros HQ. unfold readFileStatus. pose proof (h_pos _ _ _ H) as Hp0.
  eapply wp_tell, wp_sync, wp_seek; try done. intros s1 H1 P1.
  destruct (holds_cursor s1 D o (status_line (d_status D)) (with_status closed D)
    (status_line closed)) as [post Hc]; [done|rewrite P1; apply slot_status, H1|].
  eapply wp_run; [exact (read_ok _ _ _ Hc)|done|].
  eapply wp_seek; [apply holds_advance; [exact H1|lia]|done|]. intros s2 H2 P2.
  eapply wp_check_bad; [done|]. unfold status_line, line. cbn [app].
  rewrite status_line_read, status_of_char. apply wp_ret. by apply HQ.
Qed.

Lemma wp_readSize (Q : unit → St → Prop) :
  (∀ s', holds s' D (set_size (d_size D) o) → Q tt s') → wp readSize Q C s.
Proof.
  intros HQ. unfold readSize. pose proof (h_pos _ _ _ H) as Hp0.
  pose proof (h_ok _ _ _ H) as Hok.
  eapply wp_tell; [done|]. eapply wp_update; [done|]. intros s1 H1 P1.
  eapply wp_seek; [done|done|]. intros s2 H2 P2.
  destruct (holds_cursor s2 D (set_size 0 o) (size_line (d_size D)) (with_size 0 D) (size_line 0))
    as [post Hc]; [done|rewrite P2; by apply slot_size|].
  pose proof (size_printed _ (ok_size D Hok)) as Hpr. destruct Hpr as [L1 D1 V1].
  eapply wp_run.
  { eapply (extract_ok s2 [] (print_num 10 21 (d_size D)) (newline :: post)).
    - unfold size_line, line in Hc. rewrite <- app_assoc in Hc. exact Hc.
    - constructor.
    - eapply (printed_numeral 10 21); [lia|]. by apply size_printed, Hok.
    - discriminate.
    - apply newline_ends.
    - rewrite V1. unfold max_size. pose proof (ok_size D Hok). lia. }
  { done. }
  rewrite V1. eapply wp_update; [apply holds_advance; [exact H2|lia]|].
  intros s3 H3 P3. eapply wp_seek; [done|lia|]. intros s4 H4 P4.
  eapply wp_check_bad_end; [done|]. by apply HQ.
Qed.

Lemma wp_readStamp (Q : unit → St → Prop) :
  (∀ s', holds s' D (set_stamp (d_stamp D) o) → Q tt s') → wp readStamp Q C s.
Proof.
  intros HQ. unfold readStamp. pose proof (h_ok _ _ _ H) as Hok.
  eapply wp_sync, wp_seek; try done. intros s1 H1 P1. eapply wp_member; [done|].
  destruct (holds_cursor s1 D o (stamp_line (d_stamp D)) (with_stamp (d_stamp D) D)
    (stamp_line (d_stamp D))) as [post Hc]; [done|rewrite P1; apply slot_stamp|].
  eapply wp_run; [apply (read_stamp_ok _ _ _ _ Hc), Hok|done|].
  eapply wp_update; [apply holds_advance; [exact H1|lia]|].
  intros s2 H2 P2. eapply wp_check_bad_end; [done|]. by apply HQ.
Qed.

Lemma wp_readInitialPosition l (Q : FileIterator → St → Prop) :
  (∀ s', holds s' D o → Q (mkIt (d_limits D).1 (d_limits D).2 (fi_current l)) s') →
  wp (readInitialPosition l false) Q C s.
Proof.
  intros HQ. unfold readInitialPosition. pose proof (h_ok _ _ _ H) as Hok.
  eapply wp_sync, wp_seek; try done. intros s1 H1 P1.
  destruct (holds_cursor s1 D o (pair_line (d_limits D)) (with_limits (0, 0) D)
    (pair_line (0, 0))) as [post Hc]; [done|rewrite P1; by apply slot_limits|].
  eapply wp_run; [eapply (read_iterator_ok s1 []); [exact Hc|by left|apply Hok]|done|].
  assert (Hs : holds (set_pos (s_pos s1 + Z.of_nat (length (A:=ascii) []) + 33) s1) D o).
  { rewrite <- Z.add_assoc. by apply holds_advance. }
  eapply wp_check_bad; [done|]. apply wp_ret. by apply HQ.
Qed.

Lemma wp_readRemovedPosition l (Q : FileIterator → St → Prop) :
  (∀ s', holds s' D o → Q (mkIt (d_removed D).1 (d_removed D).2 (fi_current l)) s') →
  wp (readInitialPosition l true) Q C s.
Proof.
  intros HQ. unfold readInitialPosition. pose proof (h_ok _ _ _ H) as Hok.
  eapply wp_sync, wp_seek; try done. intros s1 H1 P1.
  destruct (holds_cursor s1 D o (pair_line (d_removed D)) (with_removed (0, 0) D)
    (pair_line (0, 0))) as [post Hc]; [done|rewrite P1; by apply slot_removed|].
  eapply wp_run; [eapply (read_iterator_ok s1 []); [exact Hc|by left|apply Hok]|done|].
  assert (Hs : holds (set_pos (s_pos s1 + Z.of_nat (length (A:=ascii) []) + 33) s1) D o).
  { rewrite <- Z.add_assoc. by apply holds_advance. }
  eapply wp_check_bad; [done|]. apply wp_ret. by apply HQ.
Qed.

Lemma wp_readLimits (Q : unit → St → Prop) :
  (∀ s', holds s' D (set_limits (mkIt (d_limits D).1 (d_limits D).2 (fi_current (fc_limits o))) o) →
         Q tt s') → wp readLimits Q C s.
Proof.
  intros HQ. unfold readLimits. eapply wp_member; [done|]. apply wp_bind, wp_readInitialPosition.
  intros s1 H1. eapply wp_update_end; [done|]. intros s2 H2 _. by apply HQ.
Qed.

Lemma wp_readRemoved (Q : unit → St → Prop) :
  (∀ s', holds s' D (set_removed (mkIt (d_removed D).1 (d_removed D).2 (fi_current (fc_removed o))) o) →
         Q tt s') → wp readRemoved Q C s.
Proof.
  intros HQ. unfold readRemoved. eapply wp_member; [done|]. apply wp_bind, wp_readRemovedPosition.
  intros s1 H1. eapply wp_update_end; [done|]. intros s2 H2 _. by apply HQ.
Qed.

Lemma wp_readLimitsBackup l (Q : FileIterator → St → Prop) :
  (∀ s', holds s' D o → Q (mkIt (d_lb D).1 (d_lb D).2 (fi_current l)) s') →
  wp (readLimitsBackup l false) Q C s.
Proof.
  intros HQ. unfold readLimitsBackup. pose proof (h_ok _ _ _ H) as Hok.
  pose proof (h_pos _ _ _ H) as Hp0.
  eapply wp_tell, wp_seek; try done. intros s1 H1 P1.
  destruct (holds_cursor s1 D o (pair_line (d_lb D)) (with_lb (0, 0) D)
    (pair_line (0, 0))) as [post Hc]; [done|rewrite P1; by apply slot_lb|].
  eapply wp_run; [eapply (read_iterator_ok s1 []); [exact Hc|by left|apply Hok]|done|].
  eapply wp_seek; [rewrite <- Z.add_assoc; by apply holds_advance|done|].
  intros s2 H2 P2. eapply wp_check_bad; [done|]. apply wp_ret. by apply HQ.
Qed.
End reads.
(** ** Time stamps *)

(** The stamp of the next modification. *)
Definition later (t t0 : TimeStamp) : Prop :=
  stamp_gt t t0 = true ∧ ts_counter t ≤ ts_counter t0 + 1.

(** A modification is later than what was on the disk, unless the counter of the
    latter wraps round. *)
Lemma update_stamp_later now this ts :
  stamp_ok ts → stamp_ok this → off_ok now → ts_counter ts < 2 ^ 16 - 1 → stamp_gt this ts = false →
  later (update_stamp now this ts) ts ∧ stamp_ok (update_stamp now this ts).
Proof.
  intros [He Hc] [He' Hc'] Hnow Hm. unfold later, update_stamp, stamp_gt, stamp_ok.
  assert (Hu : ∀ x, 0 ≤ x < 2 ^ 16 - 1 → u16 (x + 1) = x + 1).
  { intros x Hx. unfold u16. rewrite Z.land_ones by lia. rewrite Z.mod_small; lia. }
  assert (Hv : ∀ x, 0 ≤ u16 x < 2 ^ 16).
  { intros x. unfold u16. rewrite Z.land_ones by lia. by apply Z.mod_pos_bound. }
  destruct ts as [e c], this as [e' c']. cbn [ts_epoch ts_counter] in *.
  intros [Hb1 Hb2]%orb_false_iff. rewrite andb_false_iff, Z.eqb_neq, Z.ltb_ge in Hb2. breflect.
  assert (Hw' : e' = e → u16 (c' + 1) = c' + 1) by (intros; apply Hu; lia).
  pose proof (Hv (c' + 1)). generalize dependent (u16 (c' + 1)). intros w Hw.
  destruct (Z.eqb_spec e' now); cbn [ts_epoch ts_counter]; rewrite !Hu by lia;
    repeat (case_test; cbn [ts_epoch ts_counter] in *; breflect;
            rewrite ?andb_true_iff, ?andb_false_iff, ?Z.eqb_eq, ?Z.eqb_neq, ?Z.leb_le, ?Z.leb_gt in *);
    rewrite ?orb_true_iff, ?andb_true_iff, ?Z.eqb_eq, ?Z.ltb_lt; unfold off_ok in *; lia.
Qed.

Lemma wp_getEnd_end (C : disk → Prop) (Q : Z → St → Prop) s D o :
  holds s D o → (∀ s', holds s' D o → s_pos s' = file_end D → Q (file_end D) s') → wp getEnd Q C s.
Proof.
  intros H HQ. destruct (getEnd_ok s D o H) as [E H']. exists (inr (file_end D)).
  eexists. split_and!; [exact E|done|]. by apply HQ.
Qed.

Section stamps.
Context (C : disk → Prop) (s : St) (D : disk) (o : Container).
Context (H : holds s D o).

Lemma wp_checkStamp (Q : bool → St → Prop) :
  (∀ s', holds s' D o → Q (stamp_gt (d_stamp D) (fc_stamp o)) s') → wp checkStamp Q C s.
Proof.
  intros HQ. unfold checkStamp. pose proof (h_ok _ _ _ H) as Hok.
  eapply wp_gets, wp_sync, wp_seek; try done. intros s1 H1 P1.
  destruct (holds_cursor s1 D o (stamp_line (d_stamp D)) (with_stamp (d_stamp D) D)
    (stamp_line (d_stamp D))) as [post Hc]; [done|rewrite P1; apply slot_stamp|].
  eapply wp_run; [apply (read_stamp_ok _ _ _ _ Hc), Hok|done|].
  assert (Hs : holds (set_pos (s_pos s1 + 26) s1) D o) by by apply holds_advance.
  eapply wp_good; [done|]. eapply wp_member; [done|]. apply wp_ret. by apply HQ.
Qed.

Lemma wp_updateTimeStamp (Q : unit → St → Prop) :
  stamp_ok (fc_stamp o) → stamp_gt (fc_stamp o) (d_stamp D) = false →
  ts_counter (d_stamp D) < 2 ^ 16 - 1 → C D →
  (∀ s' t, later t (d_stamp D) → stamp_ok t →
     holds s' (with_stamp t D) (set_stamp t o) → Q tt s') →
  wp updateTimeStamp Q C s.
Proof.
  intros Ho Hle Hd HC HQ. unfold updateTimeStamp. pose proof (h_ok _ _ _ H) as Hok.
  pose proof (update_stamp_later (s_now s) (fc_stamp o) (d_stamp D) (ok_stamp D Hok) Ho
    (h_now _ _ _ H) Hd Hle) as [Hgt Hst].
  set (t := update_stamp (s_now s) (fc_stamp o) (d_stamp D)) in *.
  eapply wp_gets, wp_sync, wp_seek; try done. intros s1 H1 P1.
  destruct (holds_cursor s1 D o (stamp_line (d_stamp D)) (with_stamp (d_stamp D) D)
    (stamp_line (d_stamp D))) as [post Hc]; [done|rewrite P1; apply slot_stamp|].
  eapply wp_run; [apply (read_stamp_ok _ _ _ _ Hc), Hok|done|].
  eapply wp_update; [by apply holds_advance|]. intros s2 H2 P2.
  eapply wp_seek; [done|done|]. intros s3 H3 P3. eapply wp_member; [done|].
  change (holds s3 D (set_stamp t o)) in H3. cbn [fc_stamp set_stamp]. fold t.
  eapply (wp_put_slot _ _ _ _ _ (stamp_line (d_stamp D)) (with_stamp t D)); try exact H3; try done.
  - rewrite P3. apply slot_stamp.
  - change (line (write_stamp t)) with (stamp_line t). rewrite !stamp_line_length; [done|apply Hok|done].
  - auto with filecontainer.
  - auto with filecontainer.
  - intros s4 H4 P4. eapply wp_check_bad_end; [done|]. by eapply HQ.
Qed.
End stamps.

(** ** Reading the records *)

Section read_records.
Context (C : disk → Prop) (s : St) (D : disk) (o : Container).
Context (H : holds s D o).

Lemma wp_readIteratorBackup (k : nat) it (Q : FileIterator → St → Prop) :
  d_backups D !! k = Some it → (∀ s', holds s' D o → Q it s') →
  wp (readIteratorBackup (Z.of_nat k)) Q C s.
Proof.
  intros Hit HQ. unfold readIteratorBackup. pose proof (h_ok _ _ _ H) as Hok.
  pose proof (h_pos _ _ _ H) as Hp0.
  assert (Hk : (k < 4)%nat) by (rewrite <- (ok_backups D Hok); by eapply lookup_lt_Some).
  assert (Hitok : it_ok it) by (eapply Forall_lookup_1; [apply Hok|done]).
  destruct Hitok as (I1&I2&I3).
  assert (Epos : backup_position (Z.of_nat k) = 51 + 51 * Z.of_nat k).
  { unfold backup_position, fc_s_iteratorBackupNumber. rewrite Z.mod_small by lia.
    change (3 * fi_s_width + 3) with 51. change (fc_s_statusPosition + 2) with 51. lia. }
  rewrite Epos. eapply wp_tell, wp_seek; try done; [lia|]. intros s1 H1 P1.
  pose proof (slot_backup D k it it Hok Hit) as Hs. rewrite <- P1 in Hs.
  destruct (holds_cursor _ _ _ _ _ _ H1 Hs) as [post Hc].
  unfold write_backup, line in Hc. rewrite <- !app_assoc in Hc. cbn [app] in Hc.
  assert (Hl : cursor s1 ((hex (fi_current it) ++ blank :: write_iterator it) ++ newline :: post)).
  { rewrite <- app_assoc. cbn [app]. exact Hc. }
  assert (N3 := hex_numeral _ I3). assert (N1 := hex_numeral _ I1). assert (N2 := hex_numeral _ I2).
  eapply wp_run; [eapply getline_ok; [exact Hl|]|done|].
  { unfold write_iterator. apply Forall_app. split; [exact (numeral_no_newline _ _ N3)|].
    constructor; [done|]. apply Forall_app.
    split; [exact (numeral_no_newline _ _ N1)|exact (numeral_line _ _ N2)]. }
  eapply wp_seek; [apply holds_advance; [exact H1|lia]|lia|]. intros s2 H2 P2.
  eapply wp_good; [done|]. unfold write_iterator.
  rewrite (match_backup_ok _ _ _ N3 N1 N2).
  assert (Hc2 : cursor s2 (hex (fi_current it) ++ blank :: write_iterator it ++ newline :: post)).
  { constructor; [apply H2|apply H2|]. rewrite <- (cur_rest _ _ Hc). unfold rest.
    by rewrite (h_file _ _ _ H2), (h_file _ _ _ H1), P1, P2. }
  destruct (hex_printed _ I3) as [L3 _ V3].
  eapply wp_run.
  { eapply (extract_ok s2 [] (hex (fi_current it)));
      [exact Hc2|constructor|exact N3|discriminate|apply blank_ends|].
    rewrite V3. unfold off_ok, max_streamoff in *. lia. }
  { done. }
  pose proof (cursor_advance s2 _ _ _ Hc2 eq_refl) as Hc3.
  eapply wp_run.
  { eapply (read_iterator_ok _ [blank] _ (fi_prev it, fi_next it) post); [|by right|by split].
    unfold pair_line, line. rewrite <- app_assoc. exact Hc3. }
  { done. }
  rewrite set_pos_set_pos. eapply wp_seek; [|done|].
  { cbn [s_pos set_pos on_stream]. rewrite <- !Z.add_assoc. apply holds_advance; [exact H2|lia]. }
  intros s3 H3 P3. eapply wp_good; [done|]. apply wp_ret. rewrite V3. destruct it. by apply HQ.
Qed.

Lemma readIteratorHere_ok p r :
  rec_at D p = Some r → s_pos s = p →
  readIteratorHere s = Some (inr (mkIt (r_prev r) (r_next r) p), set_pos (p + 34) s).
Proof.
  intros Hr P2. pose proof (h_ok _ _ _ H) as Hok. destruct (rec_at_ok D p r Hok Hr) as (Hrok&_).
  pose proof (slot_links D p r (0, 0) Hok Hr) as Hs. rewrite <- P2 in Hs.
  destruct (holds_cursor _ _ _ _ _ _ H Hs) as [post Hc].
  unfold readIteratorHere. rewrite (bind_ok _ _ _ _ _ (tell_ok s (cur_good _ _ Hc))).
  erewrite bind_ok; [|eapply (read_iterator_ok s []); [exact Hc|by left|apply Hrok]].
  assert (Hc2 : cursor (set_pos (s_pos s + 33) s) (newline :: post)).
  { apply (cursor_advance s (write_iterator (mkIt (r_prev r) (r_next r) 0)) _ 33).
    - unfold pair_line, line in Hc. rewrite <- app_assoc in Hc. exact Hc.
    - destruct Hrok as (Hpr&_). pose proof (pair_line_length _ Hpr) as E.
      unfold pair_line in E. rewrite line_length in E. cbn in E. lia. }
  cbv beta iota. cbn [length]. change (Z.of_nat 0) with 0. rewrite Z.add_0_r.
  erewrite bind_ok; [|eapply get_ok; exact Hc2].
  rewrite bool_decide_eq_true_2 by done.
  erewrite bind_ok; [|apply good_ok; apply H]. unfold mret, E_ret. rewrite set_pos_set_pos, P2.
  cbn. do 3 f_equal; lia.
Qed.
End read_records.

Section read_records.
Context (C : disk → Prop) (s : St) (D : disk) (o : Container).
Context (H : holds s D o).

Lemma wp_readIterator p r (Q : FileIterator → St → Prop) :
  rec_at D p = Some r →
  (∀ s', holds s' D o → s_pos s' = p + 34 → Q (mkIt (r_prev r) (r_next r) p) s') →
  wp (readIterator p false) Q C s.
Proof.
  intros Hr HQ. unfold readIterator. pose proof (h_ok _ _ _ H) as Hok.
  destruct (rec_at_ok D p r (h_ok _ _ _ H) Hr) as (Hrok&Hp&Hpe). pose proof (rec_size_pos r) as Hsz.
  eapply wp_getEnd; [done|]. intros s1 H1 P1. change fc_s_headerSize with 391.
  rewrite (proj2 (Z.leb_le 391 p)), (proj2 (Z.ltb_lt p (file_end D))) by lia. cbn [andb].
  eapply wp_seek; [done|lia|]. intros s2 H2 P2.
  eapply wp_run; [by eapply readIteratorHere_ok|done|].
  apply wp_ret. apply HQ; [apply holds_set_pos; [done|lia]|done].
Qed.

Lemma wp_readIterator_end (Q : FileIterator → St → Prop) :
  391 ≤ file_end D →
  (∀ s', holds s' D o → s_pos s' = file_end D → Q (mkIt 0 0 (file_end D)) s') →
  wp (readIterator (file_end D) false) Q C s.
Proof.
  intros Hp HQ. unfold readIterator. eapply wp_getEnd; [done|]. intros s1 H1 P1.
  rewrite Z.ltb_irrefl, andb_false_r, Z.eqb_refl. apply wp_ret. by apply HQ.
Qed.

Lemma wp_readSizeAndState p r (Q : Z * ascii → St → Prop) :
  rec_at D p = Some r → s_pos s = p + 34 →
  (∀ s', holds s' D o → s_pos s' = p + 60 →
     Q (Z.of_nat (length (r_data r)), state_char (r_good r)) s') →
  wp readSizeAndState Q C s.
Proof.
  intros Hr Hp HQ. destruct (rec_at_ok D p r (h_ok _ _ _ H) Hr) as (Hrok&Hp'&Hpe).
  pose proof (slot_mark D p r true (h_ok _ _ _ H) Hr (proj1 Hrok)) as Hs. rewrite <- Hp in Hs.
  destruct (holds_cursor _ _ _ _ _ _ H Hs) as [post Hc].
  eapply wp_ok; [apply (read_header_ok _ _ _ _ Hc), Hrok|done|].
  apply HQ; [by apply holds_advance|]. cbn. lia.
Qed.
End read_records.
