(* ===== verification/FileList.v ===== *)
(** * The list in a file container

    When the records of a disk are a doubly-linked list, how the links change when an
    element is added or removed, and what the consistency check does to such a disk. *)

From S2P Require Import Prelude Machine FileText FileContainer FileLayout FileRules.

(** ** Segments *)

Notation elems := (list (Z * bytes)).

Definition hd_pos (L : elems) (e : Z) : Z := match L with [] => e | (p, _) :: _ => p end.
Fixpoint last_pos (p0 : Z) (L : elems) : Z :=
  match L with [] => p0 | (p, _) :: L => last_pos p L end.

(** The records at the positions of [L] hold its data and are linked to each other, the
    first one back to [p0], the last one on to [p1]. *)
Fixpoint seg (D : disk) (p0 : Z) (L : elems) (p1 : Z) : Prop :=
  match L with
  | [] => True
  | (p, d) :: L =>
      (∃ r, rec_at D p = Some r ∧ r_prev r = p0 ∧ r_next r = hd_pos L p1
            ∧ r_good r = true ∧ r_data r = d)
      ∧ seg D p L p1
  end.

Lemma hd_pos_app L1 L2 e : hd_pos (L1 ++ L2) e = hd_pos L1 (hd_pos L2 e).
Proof. by destruct L1 as [|[p d] L1]. Qed.
Lemma last_pos_app p0 L1 L2 : last_pos p0 (L1 ++ L2) = last_pos (last_pos p0 L1) L2.
Proof. revert p0. induction L1 as [|[p d] L1 IH]; intros p0; simpl; [done|apply IH]. Qed.

Lemma last_pos_in p0 L : L ≠ [] → last_pos p0 L ∈ L.*1.
Proof.
  revert p0. induction L as [|[p d] L IH]; intros p0; [done|]. intros _. simpl.
  destruct L as [|[q d'] L]; [set_solver|]. right. by apply (IH p).
Qed.
Lemma hd_pos_in L e : L ≠ [] → hd_pos L e ∈ L.*1.
Proof. destruct L as [|[p d] L]; [done|]. intros _. set_solver. Qed.

Lemma seg_app D p0 L1 L2 p1 :
  seg D p0 (L1 ++ L2) p1 ↔ seg D p0 L1 (hd_pos L2 p1) ∧ seg D (last_pos p0 L1) L2 p1.
Proof.
  revert p0. induction L1 as [|[p d] L1 IH]; intros p0; simpl; [tauto|].
  rewrite IH, hd_pos_app. tauto.
Qed.

Lemma seg_frame D D' p0 L p1 :
  (∀ p, p ∈ L.*1 → rec_at D' p = rec_at D p) → seg D p0 L p1 → seg D' p0 L p1.
Proof.
  revert p0. induction L as [|[p d] L IH]; intros p0 HD; simpl; [done|].
  intros [(r&Hr&H) HL]. split; [exists r; split; [rewrite HD; [done|set_solver]|done]|].
  apply IH; [set_solver|done].
Qed.

Lemma seg_in D p0 L p1 p d :
  seg D p0 L p1 → (p, d) ∈ L → ∃ r, rec_at D p = Some r ∧ r_good r = true ∧ r_data r = d.
Proof.
  revert p0. induction L as [|[q d'] L IH]; intros p0; simpl; [set_solver|].
  intros [(r&Hr&_&_&Hg&Hd) HL] [[= -> ->]|Hp]%elem_of_cons; [eauto|by eapply IH].
Qed.

Lemma seg_at D p0 L p1 p : seg D p0 L p1 → p ∈ L.*1 → ∃ r, rec_at D p = Some r.
Proof.
  intros HL ([q d]&->&Hq)%list_elem_of_fmap. destruct (seg_in _ _ _ _ _ _ HL Hq) as (r&Hr&_). eauto.
Qed.

Lemma rec_at_alter D p g q :
  in_place g → rec_at (alter_rec p g D) q = if q =? p then g <$> rec_at D p else rec_at D q.
Proof. intros Hg. unfold rec_at, alter_rec. simpl. by apply rec_in_alter. Qed.

Lemma file_end_alter D p g : in_place g → file_end (alter_rec p g D) = file_end D.
Proof. intros Hg. unfold file_end, alter_rec. simpl. by rewrite alter_in_size. Qed.

Lemma seg_alter_other D p g p0 L p1 :
  in_place g → p ∉ L.*1 → seg D p0 L p1 → seg (alter_rec p g D) p0 L p1.
Proof.
  intros Hg Hp. apply seg_frame. intros q Hq. rewrite rec_at_alter by done.
  destruct (Z.eqb_spec q p) as [->|]; [done|done].
Qed.

(** The last element linked on to another place. *)
Lemma seg_set_next D p0 L p d e x :
  seg D p0 (L ++ [(p, d)]) e → NoDup (L ++ [(p, d)]).*1 → x.1 = last_pos p0 L →
  seg (alter_rec p (relink x) D) p0 (L ++ [(p, d)]) x.2.
Proof.
  rewrite fmap_app, !seg_app. intros [H1 [(r&Hr&Hp&Hn&Hg&Hd) _]] Hnd Hx. split.
  - apply seg_alter_other; [by auto with filecontainer| |done].
    apply NoDup_app in Hnd as (_&Hnd&_). intros Hin. apply (Hnd p Hin). set_solver.
  - simpl. split; [|done]. eexists. rewrite rec_at_alter by auto with filecontainer.
    rewrite Z.eqb_refl, Hr. by split_and!.
Qed.

(** The first element linked back to another place. *)
Lemma seg_set_prev D p0 L p d e x :
  seg D p0 ((p, d) :: L) e → NoDup ((p, d) :: L).*1 → x.2 = hd_pos L e →
  seg (alter_rec p (relink x) D) x.1 ((p, d) :: L) e.
Proof.
  simpl. intros [(r&Hr&Hp&Hn&Hg&Hd) HL] [Hnin _]%NoDup_cons Hx. split.
  - eexists. rewrite rec_at_alter by auto with filecontainer.
    rewrite Z.eqb_refl, Hr. by split_and!.
  - apply seg_alter_other; [by auto with filecontainer|done|done].
Qed.

(** ** The list of a disk *)

Record list_of (D : disk) (L : elems) : Prop := {
  lo_seg : seg D 0 L (file_end D);
  lo_nodup : NoDup L.*1;
  lo_limits : d_limits D = (hd_pos L 391, last_pos 391 L);
  lo_empty : L = [] → d_recs D = [];
  lo_tail : d_tail D = []
}.

(** A container between two operations. *)
Record wf (D : disk) (L : elems) : Prop := {
  wf_ok : disk_ok D;
  wf_list : list_of D L;
  wf_status : d_status D = closed;
  wf_size : d_size D = Z.of_nat (length L)
}.

(** An object whose cached copies are those of the disk, and one that will notice that
    they are not. *)
Record synced (o : Container) (D : disk) : Prop := {
  sy_init : fc_initialized o = true;
  sy_stamp : fc_stamp o = d_stamp D;
  sy_size : fc_size o = d_size D;
  sy_limits : fc_limits o = mkIt (d_limits D).1 (d_limits D).2 0
}.

Definition valid (o : Container) (D : disk) : Prop :=
  fi_current (fc_limits o) = 0 ∧ stamp_ok (fc_stamp o)
  ∧ (fc_initialized o = true → synced o D ∨ stamp_gt (d_stamp D) (fc_stamp o) = true).

Lemma rec_at_end D p r : rec_at D p = Some r → 391 ≤ p ∧ p + rec_size r ≤ file_end D.
Proof. intros Hr. apply rec_in_bounds in Hr. unfold file_end. lia. Qed.

Lemma list_of_pos D L p : list_of D L → p ∈ L.*1 → 391 ≤ p < file_end D.
Proof.
  intros HL Hp. destruct (seg_at _ _ _ _ _ (lo_seg _ _ HL) Hp) as [r Hr].
  apply rec_at_end in Hr. pose proof (rec_size_pos r). lia.
Qed.

Lemma list_of_ext D D' L :
  (∀ p, p ∈ L.*1 → rec_at D' p = rec_at D p) → file_end D' = file_end D →
  d_limits D' = d_limits D → (L = [] → d_recs D' = []) → d_tail D' = [] →
  list_of D L → list_of D' L.
Proof.
  intros Hr He Hl Hn Ht []. constructor; try done; [|congruence].
  rewrite He. by eapply seg_frame.
Qed.

(** The length of the file is more than enough fuel to follow the list. *)
Lemma list_of_length D L : list_of D L → Z.of_nat (length L) ≤ file_end D.
Proof.
  intros HL. destruct (decide (L = [])) as [->|Hne].
  { unfold file_end. pose proof (recs_size_nonneg (d_recs D)). simpl. lia. }
  assert (Hsub : L.*1 ⊆+ seqZ 0 (file_end D)).
  { apply NoDup_submseteq; [apply HL|]. intros p Hp. apply elem_of_seqZ.
    pose proof (list_of_pos D L p HL Hp). lia. }
  apply submseteq_length in Hsub. rewrite length_fmap, length_seqZ in Hsub.
  pose proof (list_of_pos D L _ HL (hd_pos_in L 0 Hne)). lia.
Qed.
(** ** The beginning of an operation *)

Lemma wp_pure {A} (m : E A) (Q : A → St → Prop) s :
  wp m Q (λ _, False) s →
  ∃ a s', m s = Some (inr a, s') ∧ (s_budget s = None → s_budget s' = None) ∧ Q a s'.
Proof.
  intros (r&s'&E&Hb&H). destruct r as [e|a]; [by destruct H as (_&?&_&_&[])|]. eauto 6.
Qed.

Lemma wp_frame {A} (m : E A) (Q : A → St → Prop) C s a s' :
  m s = Some (inr a, s') → (s_budget s = None → s_budget s' = None) → Q a s' → wp m Q C s.
Proof. intros E Hb HQ. by exists (inr a), s'. Qed.

Lemma stamp_gt_irrefl t : stamp_gt t t = false.
Proof. unfold stamp_gt. rewrite orb_false_iff, andb_false_iff, !Z.ltb_irrefl. tauto. Qed.
Lemma stamp_gt_asym a b : stamp_gt a b = true → stamp_gt b a = false.
Proof.
  unfold stamp_gt. rewrite orb_true_iff, orb_false_iff, andb_true_iff, andb_false_iff.
  rewrite !Z.ltb_lt, !Z.ltb_ge, !Z.eqb_eq, Z.eqb_neq. lia.
Qed.

(** What the object has after the prologue. *)
Record current (o : Container) (D : disk) : Prop := {
  cu_init : fc_initialized o = true;
  cu_size : fc_size o = d_size D;
  cu_limits : fc_limits o = mkIt (d_limits D).1 (d_limits D).2 0;
  cu_stamp : stamp_ok (fc_stamp o);
  cu_behind : stamp_gt (fc_stamp o) (d_stamp D) = false
}.

Lemma wp_syncData b C Q s D o :
  holds s D o → fc_initialized o = true → fi_current (fc_limits o) = 0 → stamp_ok (fc_stamp o) →
  stamp_gt (fc_stamp o) (d_stamp D) = false →
  (∀ s' o', holds s' D o' → current o' D → (b = true → fc_stamp o' = d_stamp D) → Q tt s') →
  wp (syncData b) Q C s.
Proof.
  intros H Hi Hc Hst Hle HQ. unfold syncData. pose proof (h_ok _ _ _ H) as Hok.
  eapply wp_bind, wp_readLimits; [done|]. intros s1 H1.
  eapply wp_bind, wp_readRemoved; [done|]. intros s2 H2.
  eapply wp_bind, wp_readSize; [done|]. intros s3 H3.
  destruct b.
  - eapply wp_readStamp; [done|]. intros s4 H4. eapply HQ; [exact H4| |done].
    constructor; simpl; [done|done|by rewrite Hc|apply Hok|apply stamp_gt_irrefl].
  - apply wp_ret. eapply HQ; [exact H3| |done]. constructor; simpl; [done|done|by rewrite Hc|done|done].
Qed.

Lemma wp_initContainer_closed C Q s D o :
  holds s D o → d_status D = closed → fi_current (fc_limits o) = 0 →
  (∀ s' o', holds s' D o' → current o' D → fc_stamp o' = d_stamp D → Q tt s') →
  wp initContainer Q C s.
Proof.
  intros H Hcl Hc HQ. unfold initContainer. pose proof (h_ok _ _ _ H) as Hok.
  eapply wp_check_bad; [done|].
  eapply wp_bind, wp_readStamp; [done|]. intros s1 H1.
  eapply wp_bind, wp_readLimits; [done|]. intros s2 H2.
  eapply wp_bind, wp_readRemoved; [done|]. intros s3 H3.
  eapply wp_bind, wp_readSize; [done|]. intros s4 H4.
  eapply wp_bind, wp_readFileStatus; [done|]. intros s5 H5 _. rewrite Hcl, bool_decide_eq_true_2 by done.
  eapply wp_run; [reflexivity|done|]. eapply wp_update_end; [done|]. intros s6 H6 _.
  eapply HQ; [exact H6| |done]. constructor; simpl; [done|done|by rewrite Hc|apply Hok|apply stamp_gt_irrefl].
Qed.

(** The check of an object in use tells whether the container was modified since. *)
Lemma checked_ok s D o :
  holds s D o → d_status D = closed →
  ∃ s', checked s = Some (if stamp_gt (d_stamp D) (fc_stamp o) then inl container_modified else inr tt, s')
    ∧ holds s' D o ∧ (s_budget s = None → s_budget s' = None).
Proof.
  intros H Hcl.
  assert (Hm : wp (checkStream (Some (λ status, recover_data status true)))
    (λ _ s', wp checkStamp (λ m s', m = stamp_gt (d_stamp D) (fc_stamp o) ∧ holds s' D o)
               (λ _, False) s') (λ _, False) s).
  { unfold checkStream. eapply wp_check_bad; [done|]. eapply wp_bind, wp_readFileStatus; [done|].
    intros s1 H1 _. rewrite Hcl, bool_decide_eq_true_2 by done. apply wp_ret.
    eapply wp_checkStamp; [done|]. intros s2 H2. done. }
  apply wp_pure in Hm as ([]&s1&E1&Hb1&Hm). apply wp_pure in Hm as (m&s2&E2&Hb2&Hm&H2).
  exists s2. split_and!; [|done|by auto]. unfold checked, checkStreamAndStamp.
  rewrite (bind_ok _ _ _ _ _ E1), (bind_ok _ _ _ _ _ E2), <- Hm. by destruct m.
Qed.

(** On a closed container the object is brought up to date, and the result tells
    whether it had to be. *)
Lemma wp_prologue b C Q s D o :
  holds s D o → d_status D = closed → valid o D →
  (∀ s' o' m, holds s' D o' → current o' D → (b = true → fc_stamp o' = d_stamp D) → Q m s') →
  wp (prologue (syncData b)) Q C s.
Proof.
  intros H Hcl (Hc&Hst&Hv) HQ. unfold prologue. eapply wp_member; [done|].
  destruct (fc_initialized o) eqn:Hi; cbn [negb].
  - specialize (Hv eq_refl). destruct (checked_ok s D o H Hcl) as (s2&E&H2&Hb2).
    unfold on_modified. apply wp_bind. eapply wp_frame; [unfold attempt; rewrite E; reflexivity|done|].
    destruct (stamp_gt (d_stamp D) (fc_stamp o)) eqn:Hm; cbv beta iota.
    + rewrite bool_decide_eq_true_2 by done.
      eapply wp_bind, wp_syncData; [done|done|done|done|by apply stamp_gt_asym|].
      intros s3 o' H3 Hcu Hb. apply wp_ret. by eapply HQ.
    + apply wp_ret. destruct Hv as [[]|Hg]; [|done].
      eapply HQ; [exact H2| |done]. constructor; [done..|]. by rewrite sy_stamp0, stamp_gt_irrefl.
  - eapply wp_bind, wp_initContainer_closed; [done..|]. intros s1 o1 H1 Hcu Hs. apply wp_ret.
    by eapply HQ.
Qed.

Lemma wp_prologue_end b C Q s D o :
  holds s D o → d_status D = closed → valid o D →
  (∀ s' o', holds s' D o' → current o' D → (b = true → fc_stamp o' = d_stamp D) →
     Q (file_end D) s') →
  wp (prologue_end (syncData b)) Q C s.
Proof.
  intros H Hcl Hv HQ. unfold prologue_end. eapply wp_getEnd; [done|]. intros s1 H1 _.
  eapply wp_bind, wp_prologue; [done..|]. intros s2 o2 m H2 Hcu Hs. destruct m.
  - eapply wp_getEnd_end; [done|]. intros s3 H3 _. by eapply HQ.
  - apply wp_ret. by eapply HQ.
Qed.
