(* ===== verification/FileOps.v ===== *)
(** * Adding and removing elements of a file container

    What the operations do to the list, together with the disks they leave on the way:
    each rule asks for [C] of all of them. *)

From S2P Require Import Prelude Machine FileText FileContainer FileLayout FileRules FileList.

(** ** Appending a record *)

Lemma wp_append {B} (C : disk → Prop) (Q : B → St → Prop) s D o l (k : unit → E B) :
  holds s D o → s_pos s = file_end D → C D → raises (k tt) →
  (∀ s', holds s' (with_tail (d_tail D ++ l) D) o →
     s_pos s' = file_end (with_tail (d_tail D ++ l) D) → wp (k tt) Q C s') →
  wp (put l ≫= k) Q C s.
Proof.
  intros H Hp HC Hr Hk. pose proof (h_ok _ _ _ H) as Hok. pose proof (layout_length D Hok) as Hl.
  eapply wp_put; [done|by apply ok_with_tail| |done|done|].
  - rewrite overwrite_end by lia. symmetry. apply tail_layout.
  - intros s' H' P'. apply Hk; [done|]. rewrite P', Hp. unfold file_end. simpl.
    rewrite length_app. lia.
Qed.

Definition new_rec (it lit : FileIterator) (data : bytes) : rec :=
  mkRec (fi_prev it) (fi_next it) data true (fi_prev lit) (fi_next lit).

(** The disks while [writeDataHere] writes a record after the others. *)
Definition writing_disks (x : filestatus_t) (r : rec) (D : disk) : list disk :=
  let D := with_status x D in
  [D; with_tail (pair_line (r_prev r, r_next r)) D;
   with_tail (pair_line (r_prev r, r_next r) ++ header_line (length (r_data r)) true) D;
   with_tail ((pair_line (r_prev r, r_next r) ++ header_line (length (r_data r)) true) ++ r_data r) D;
   appended r D].

Lemma wp_assoc {A B X} (m : E X) (f : X → E A) (k : A → E B) Q C s :
  wp (m ≫= λ x, f x ≫= k) Q C s → wp ((m ≫= f) ≫= k) Q C s.
Proof.
  unfold wp, mbind, E_bind. intros (r&s'&E&H). exists r, s'. split; [|exact H].
  destruct (m s) as [[[]?]|]; done.
Qed.

(** The text and the links at its end, at once or one after the other. *)
Lemma wp_write_record {B} (C : disk → Prop) (Q : B → St → Prop) s D o lit data (k : unit → E B) :
  holds s D o → s_pos s = file_end D → C D → C (with_tail (d_tail D ++ data) D) → raises (k tt) →
  (∀ s', holds s' (with_tail (d_tail D ++ data ++ newline :: line (write_iterator lit)) D) o → wp (k tt) Q C s') →
  wp (write_record lit data ≫= k) Q C s.
Proof.
  intros H Hp HC HC' Hr Hk. unfold write_record. case_match.
  - apply wp_assoc. eapply wp_append; [done|done|done|auto with filecontainer|]. intros s1 H1 P1.
    eapply wp_append; [done|done|done|done|]. intros s2 H2 _. apply Hk.
    cbn [d_tail with_tail] in H2. rewrite <- app_assoc in H2. exact H2.
  - eapply wp_append; [done|done|done|done|]. intros s1 H1 _. by apply Hk.
Qed.

Lemma wp_writeDataHere C Q s D o it lit data x :
  holds s D o → d_tail D = [] → data ≠ [] → rec_ok (new_rec it lit data) →
  C D → Forall C (writing_disks x (new_rec it lit data) D) →
  (∀ s', holds s' (with_status (status_succ x) (appended (new_rec it lit data) (with_status x D))) o →
         Q tt s') →
  wp (writeDataHere it lit data x) Q C s.
Proof.
  intros H Ht Hd Hr HC HCs HQ.
  unfold writing_disks in HCs. rewrite !Forall_cons in HCs. destruct HCs as (C1&C2&C3&C4&C5&_).
  unfold writeDataHere. destruct data as [|c data]; [done|]. cbn [length Nat.ltb Nat.leb].
  assert (He : seek_end s = Some (inr tt, set_pos (file_end D) s)).
  { destruct (getEnd_ok s D o H) as [_ H']. unfold seek_end.
    rewrite (bind_ok _ _ s (file_size s) s) by done. unfold file_size.
    rewrite (h_file _ _ _ H), (layout_length D (h_ok _ _ _ H)).
    apply seek_ok; [apply H|]. pose proof (h_pos _ _ _ H') as Hp. exact Hp. }
  eapply wp_run; [exact He|done|].
  destruct (getEnd_ok s D o H) as [_ H'].
  eapply wp_bind, wp_writeFileStatus; [exact H'|done|]. intros s1 H1 P1. cbn in P1.
  unfold writeDataHeader. apply wp_bind.
  eapply wp_append; [done|by rewrite P1|done|auto with filecontainer|]. intros s2 H2 P2.
  cbn [d_tail with_status] in H2, P2. rewrite Ht in H2, P2. cbn [app] in H2, P2.
  eapply wp_append; [done|done|done|auto with filecontainer|]. intros s3 H3 P3.
  cbn [d_tail with_tail] in H3, P3.
  eapply wp_check_bad_end; [done|].
  eapply wp_write_record; [done|done|done|exact C4|auto with filecontainer|]. intros s4 H4.
  cbn [d_tail with_tail] in H4.
  assert (H5 : holds s4 (appended (new_rec it lit (c :: data)) (with_status x D)) o).
  { destruct H4 as [F4 O4 G4 P4 K4 N4]. constructor; try done.
    - rewrite appended_layout by done. rewrite F4. unfold print_rec. cbn.
      f_equal. unfold with_tail. cbn. f_equal. rewrite <- !app_assoc. done.
    - apply ok_appended; [apply ok_with_status, H|done]. }
  eapply wp_sync, wp_check_bad; [done..|]. eapply wp_writeFileStatus; [done|done|].
  intros s5 H6 _. by apply HQ.
Qed.
(** ** Adding *)

(** The links of a record as an iterator at its place. *)
Definition it_at (p : Z) (r : rec) : FileIterator := mkIt (r_prev r) (r_next r) p.

Lemma rec_links_ok D p r : disk_ok D → rec_at D p = Some r → file_end D < 2 ^ 63 →
  it_ok (it_at p r) ∧ pair_ok (r_prev r, r_next r) ∧ off_ok p.
Proof.
  intros Hok Hr He. destruct (rec_at_ok D p r Hok Hr) as ((H1&_&_)&H2&H3).
  pose proof (rec_size_pos r). destruct H1 as [H1 H1'].
  repeat split; simpl in *; try apply H1; try apply H1'; lia.
Qed.

Definition backup (k : nat) (it : FileIterator) (D : disk) : disk :=
  with_backups (<[k:=it]> (d_backups D)) D.

(** What leaves the records and the end of the file as they are. *)
Lemma file_end_recs D1 D2 : d_recs D1 = d_recs D2 → d_tail D1 = d_tail D2 → file_end D1 = file_end D2.
Proof. unfold file_end. by intros -> ->. Qed.

Section fields.
Context (D : disk).
Lemma recs_status x : d_recs (with_status x D) = d_recs D. Proof. done. Qed.
Lemma recs_stamp x : d_recs (with_stamp x D) = d_recs D. Proof. done. Qed.
Lemma recs_lb x : d_recs (with_lb x D) = d_recs D. Proof. done. Qed.
Lemma recs_limits x : d_recs (with_limits x D) = d_recs D. Proof. done. Qed.
Lemma recs_tail x : d_recs (with_tail x D) = d_recs D. Proof. done. Qed.
Lemma recs_backup k x : d_recs (backup k x D) = d_recs D. Proof. done. Qed.
Lemma tail_status x : d_tail (with_status x D) = d_tail D. Proof. done. Qed.
Lemma tail_stamp x : d_tail (with_stamp x D) = d_tail D. Proof. done. Qed.
Lemma tail_lb x : d_tail (with_lb x D) = d_tail D. Proof. done. Qed.
Lemma tail_limits x : d_tail (with_limits x D) = d_tail D. Proof. done. Qed.
Lemma tail_backup k x : d_tail (backup k x D) = d_tail D. Proof. done. Qed.
Lemma tail_alter p g : d_tail (alter_rec p g D) = d_tail D. Proof. done. Qed.
Lemma tail_appended r : d_tail (appended r D) = []. Proof. done. Qed.
End fields.

Ltac same_recs D :=
  lazymatch D with
  | with_status ?x ?D => constr:(recs_status D x)
  | with_stamp ?x ?D => constr:(recs_stamp D x)
  | with_lb ?x ?D => constr:(recs_lb D x)
  | with_limits ?x ?D => constr:(recs_limits D x)
  | with_tail ?x ?D => constr:(recs_tail D x)
  | backup ?k ?x ?D => constr:(recs_backup D k x)
  end.
Ltac same_tail D :=
  lazymatch D with
  | with_status ?x ?D => constr:(tail_status D x)
  | with_stamp ?x ?D => constr:(tail_stamp D x)
  | with_lb ?x ?D => constr:(tail_lb D x)
  | with_limits ?x ?D => constr:(tail_limits D x)
  | backup ?k ?x ?D => constr:(tail_backup D k x)
  | alter_rec ?p ?g ?D => constr:(tail_alter D p g)
  | appended ?r ?D => constr:(tail_appended D r)
  end.
Ltac tailed :=
  lazymatch goal with
  | |- d_tail ?D = [] => first [assumption | let E := same_tail D in etransitivity; [exact E|tailed]]
  | |- _ => reflexivity
  end.
Ltac ended :=
  repeat match goal with
  | |- context [file_end (alter_rec ?p (?f ?x) ?D)] =>
      rewrite (file_end_alter D p (f x)) by auto with filecontainer
  | |- context [file_end ?D] =>
      let E1 := same_recs D in let E2 := same_tail D in rewrite (file_end_recs _ _ E1 E2)
  end.

Lemma rec_at_backup k it D p : rec_at (backup k it D) p = rec_at D p.
Proof. done. Qed.

(** [resetNextOfLast] *)
Definition reset_disks (x : filestatus_t) (q : Z) (r : rec) (D : disk) : list disk :=
  [D; backup 2 (it_at q r) D; with_status x (backup 2 (it_at q r) D)].
Definition after_reset (x : filestatus_t) (q : Z) (r : rec) (D : disk) : disk :=
  alter_rec q (relink (r_prev r, file_end D)) (with_status x (backup 2 (it_at q r) D)).

Lemma wp_resetNextOfLast C Q s D o x q r :
  holds s D o → fi_next (fc_limits o) = q → rec_at D q = Some r → file_end D < 2 ^ 63 →
  Forall C (reset_disks x q r D) →
  (∀ s', holds s' (after_reset x q r D) o → Q tt s') →
  wp (resetNextOfLast x) Q C s.
Proof.
  intros H Hl Hr He HC HQ. unfold reset_disks in HC. rewrite !Forall_cons in HC.
  destruct HC as (C1&C2&C3&_). pose proof (h_ok _ _ _ H) as Hok.
  destruct (rec_links_ok D q r Hok Hr He) as (I1&I2&I3).
  unfold resetNextOfLast. eapply wp_member; [done|]. rewrite Hl.
  eapply wp_bind, wp_readIterator; [done|done|]. intros s1 H1 _.
  eapply wp_bind, (wp_writeIteratorBackup _ _ _ _ _ H1 2); [lia|done|done|done|]. intros s2 H2 _.
  eapply wp_getEnd; [done|]. intros s3 H3 _.
  eapply wp_writeIterator; [done|done| |done|]; [split; [apply I2|]|].
  - unfold file_end in *. simpl in *. pose proof (recs_size_nonneg (d_recs D)). split; simpl; lia.
  - intros s4 H4. apply HQ. exact H4.
Qed.

(** [addDataAtEnd] on a list whose last element is [r] at [q]. *)
Definition ae1 (q : Z) (r : rec) (D : disk) : disk := with_status ae_iterator (backup 0 (it_at q r) D).
Definition ae2 (q : Z) (r : rec) (D : disk) : disk :=
  alter_rec q (relink (r_prev r, file_end D)) (ae1 q r D).
Definition ae3 (q : Z) (r : rec) (D : disk) : disk :=
  with_status ae_limits (with_lb (d_limits D) (ae2 q r D)).
Definition ae4 (q : Z) (r : rec) (D : disk) : disk :=
  with_limits ((d_limits D).1, file_end D) (ae3 q r D).
Definition ae5 (q : Z) (r nr : rec) (D : disk) : disk :=
  with_status ae_written (appended nr (with_status ae_writing (ae4 q r D))).

Definition add_end_disks (q : Z) (r nr : rec) (D : disk) : list disk :=
  [D; backup 0 (it_at q r) D; ae1 q r D; ae2 q r D; with_lb (d_limits D) (ae2 q r D);
   ae3 q r D; ae4 q r D] ++ writing_disks ae_writing nr (ae4 q r D).

(** The new last element. *)
Definition end_rec (q : Z) (data : bytes) (D : disk) : rec :=
  let n := file_end D + data_size data in mkRec q n data true q n.

Lemma data_size_rec data : data_size data = Z.of_nat (length data) + 95.
Proof.
  unfold data_size, calculateDataSize. change (4 * fi_s_width + fc_s_sizeSize) with 87. lia.
Qed.

Lemma file_end_pos D : 391 ≤ file_end D.
Proof. unfold file_end. pose proof (recs_size_nonneg (d_recs D)). lia. Qed.

Lemma wp_addDataAtEnd C Q s D o q r data :
  holds s D o → d_tail D = [] → current o D → (d_limits D).2 = q → rec_at D q = Some r →
  data ≠ [] → file_end D + data_size data < 2 ^ 63 →
  Forall C (add_end_disks q r (end_rec q data D) D) →
  (∀ s', holds s' (ae5 q r (end_rec q data D) D) (set_limits (mkIt (d_limits D).1 (file_end D) 0) o) →
     Q (mkIt q (file_end D + data_size data) (file_end D)) s') →
  wp (addDataAtEnd data (file_end D)) Q C s.
Proof.
  intros H Ht Hcu Hq Hr Hd He HC HQ. unfold add_end_disks in HC. rewrite Forall_app, !Forall_cons in HC.
  destruct HC as ((C1&C2&C3&C4&C5&C6&C7&_)&HC).
  pose proof (h_ok _ _ _ H) as Hok. pose proof (file_end_pos D) as He0. pose proof (data_size_rec data) as Hds.
  destruct (rec_links_ok D q r Hok Hr) as (I1&I2&I3); [lia|].
  destruct (rec_at_ok D q r Hok Hr) as (_&Hq1&Hq2). pose proof (rec_size_pos r) as Hrs.
  assert (Hlp : pair_ok (d_limits D)) by apply Hok.
  unfold addDataAtEnd. eapply wp_member; [done|].
  rewrite (cu_limits _ _ Hcu). cbn [fi_next]. rewrite Hq.
  destruct (Z.eqb_spec q (file_end D)); [lia|]. apply wp_bind.
  eapply wp_bind, wp_readIterator; [done|done|]. intros s1 H1 _.
  eapply wp_bind, (wp_writeIteratorBackup _ _ _ _ _ H1 0); [lia|done|done|done|]. intros s2 H2 _.
  eapply wp_bind, wp_writeIterator; [done|done|split; simpl; [apply I2|split; lia]|done|]. intros s3 H3.
  apply wp_ret. apply wp_bind.
  eapply wp_member; [done|]. rewrite (cu_limits _ _ Hcu).
  change (alter_rec _ _ _) with (ae2 q r D) in H3.
  eapply wp_writeLimitsBackup; [done|done|done| |].
  { unfold pair_of. cbn. by rewrite <- surjective_pairing. }
  unfold pair_of. cbn [fi_prev fi_next]. rewrite <- surjective_pairing. intros s4 H4 _.
  eapply wp_update; [done|]. intros s5 H5 _. rewrite (cu_limits _ _ Hcu) in H5. cbn in H5.
  apply wp_bind. eapply wp_member; [done|]. eapply wp_writeInitialPosition; [done| |done|].
  { split; simpl; [apply Hlp|split; lia]. }
  intros s6 H6. cbn [fc_limits set_limits pair_of fi_prev fi_next] in H6.
  change (with_limits _ _) with (ae4 q r D) in H6.
  eapply wp_bind, wp_writeDataHere; [done|done|done| |done|exact HC|].
  { split_and!; [split; split; simpl; lia|split; split; simpl; lia|]. split; simpl; lia. }
  intros s7 H7. apply wp_ret. apply HQ. exact H7.
Qed.
(** [addDataAtEnd] on an empty list. *)
Definition aempty (D : disk) : disk :=
  with_limits (391, 391) (with_status ae_limits (with_lb (391, 391) D)).
Definition empty_rec (data : bytes) : rec :=
  let n := 391 + data_size data in mkRec 0 n data true 391 n.

Lemma wp_addDataAtEnd_empty C Q s D o data :
  holds s D o → d_tail D = [] → current o D → d_limits D = (391, 391) → file_end D = 391 →
  data ≠ [] → 391 + data_size data < 2 ^ 63 →
  Forall C ([D; with_lb (391, 391) D; with_status ae_limits (with_lb (391, 391) D); aempty D]
            ++ writing_disks ae_writing (empty_rec data) (aempty D)) →
  (∀ s', holds s' (with_status ae_written (appended (empty_rec data) (with_status ae_writing (aempty D))))
           (set_limits (mkIt 391 391 0) o) → Q (mkIt 0 (391 + data_size data) 391) s') →
  wp (addDataAtEnd data 391) Q C s.
Proof.
  intros H Ht Hcu Hl He Hd Hsz HC HQ. rewrite Forall_app, !Forall_cons in HC.
  destruct HC as ((C1&C2&C3&C4&_)&HC). pose proof (data_size_rec data) as Hds.
  pose proof (cu_limits _ _ Hcu) as Hlim. rewrite Hl in Hlim. cbn in Hlim.
  unfold addDataAtEnd. eapply wp_member; [done|]. rewrite Hlim. cbn [fi_next].
  rewrite Z.eqb_refl. eapply wp_run; [reflexivity|done|]. apply wp_bind.
  eapply wp_member; [done|]. rewrite Hlim.
  eapply wp_writeLimitsBackup; [done|done|done|done|]. intros s4 H4 _.
  eapply wp_update; [done|]. intros s5 H5 _. rewrite Hlim in H5.
  apply wp_bind. eapply wp_member; [done|]. eapply wp_writeInitialPosition; [done|done|done|].
  intros s6 H6. cbn [fc_limits set_limits pair_of fi_prev fi_next set_next] in H6.
  change (with_limits _ _) with (aempty D) in H6.
  eapply wp_bind, wp_writeDataHere; [done|done|done| |done|exact HC|].
  { split_and!; [split; split; simpl; lia|split; split; simpl; lia|]. split; simpl; lia. }
  intros s7 H7. apply wp_ret. apply HQ. exact H7.
Qed.

(** [addDataAtBegin] on a list whose first element is [r] at [f] and whose last one,
    when the new record has been written, is [rq] at [q]. *)
Definition ab1 (f : Z) (r : rec) (D : disk) : disk := with_status ab_iterator (backup 0 (it_at f r) D).
Definition ab2 (f : Z) (r : rec) (D : disk) : disk :=
  alter_rec f (relink (file_end D, r_next r)) (ab1 f r D).
Definition ab3 (f : Z) (r : rec) (D : disk) : disk :=
  with_status ab_limits (with_lb (d_limits D) (ab2 f r D)).
Definition ab4 (f : Z) (r : rec) (D : disk) : disk :=
  with_limits (file_end D, (d_limits D).2) (ab3 f r D).
Definition ab5 (f : Z) (r nr : rec) (D : disk) : disk :=
  with_status ab_written (appended nr (with_status ab_writing (ab4 f r D))).

Definition begin_rec (f : Z) (data : bytes) (D : disk) : rec :=
  mkRec 0 f data true (d_limits D).2 (file_end D + data_size data).

Definition add_begin_disks (f : Z) (r nr : rec) (q : Z) (rq : rec) (D : disk) : list disk :=
  [D; backup 0 (it_at f r) D; ab1 f r D; ab2 f r D; with_lb (d_limits D) (ab2 f r D);
   ab3 f r D; ab4 f r D] ++ writing_disks ab_writing nr (ab4 f r D)
  ++ reset_disks ab_last q rq (ab5 f r nr D).

Lemma wp_addDataAtBegin C Q s D o f r q rq data :
  holds s D o → d_tail D = [] → current o D → d_limits D = (f, q) → rec_at D f = Some r →
  rec_at (ab5 f r (begin_rec f data D) D) q = Some rq →
  data ≠ [] → file_end D + data_size data < 2 ^ 63 → off_ok q →
  Forall C (add_begin_disks f r (begin_rec f data D) q rq D) →
  (∀ s', holds s' (after_reset ab_last q rq (ab5 f r (begin_rec f data D) D))
           (set_limits (mkIt (file_end D) q 0) o) → Q (mkIt 0 f (file_end D)) s') →
  wp (addDataAtBegin data (file_end D)) Q C s.
Proof.
  intros H Ht Hcu Hlim Hr Hrq Hd He Hq HC HQ. unfold add_begin_disks in HC.
  rewrite !Forall_app, !Forall_cons in HC.
  destruct HC as ((C1&C2&C3&C4&C5&C6&C7&_)&HC&HC').
  pose proof (h_ok _ _ _ H) as Hok. pose proof (file_end_pos D) as He0. pose proof (data_size_rec data) as Hds.
  destruct (rec_links_ok D f r Hok Hr) as (I1&I2&I3); [lia|].
  pose proof (cu_limits _ _ Hcu) as Hl. rewrite Hlim in Hl. cbn in Hl.
  unfold addDataAtBegin. eapply wp_member; [done|]. eapply wp_member; [done|]. rewrite Hl. cbn [fi_next fi_prev].
  eapply wp_bind, wp_readIterator; [done|done|]. intros s1 H1 _.
  eapply wp_bind, (wp_writeIteratorBackup _ _ _ _ _ H1 0); [lia|done|done|done|]. intros s2 H2 _.
  eapply wp_bind, wp_writeIterator; [done|done|split; simpl; [split; lia|apply I2]|done|]. intros s3 H3.
  change (alter_rec _ _ _) with (ab2 f r D) in H3. apply wp_bind.
  eapply wp_member; [done|]. rewrite Hl. rewrite Hlim in C5.
  eapply wp_writeLimitsBackup; [done|done|done|done|]. intros s4 H4 _.
  eapply wp_update; [done|]. intros s5 H5 _. rewrite Hl in H5.
  assert (Hw : with_status ab_limits (with_lb (pair_of (mkIt f q 0)) (ab2 f r D)) = ab3 f r D)
    by (unfold ab3; by rewrite Hlim). rewrite Hw in H5.
  apply wp_bind. eapply wp_member; [done|]. eapply wp_writeInitialPosition; [done| |done|].
  { split; simpl; [split; lia|done]. }
  intros s6 H6'.
  assert (H6 : holds s6 (ab4 f r D) (set_limits (mkIt (file_end D) q 0) o))
    by (unfold ab4; rewrite Hlim; exact H6').
  assert (Hnr : begin_rec f data D = new_rec (mkIt 0 f (file_end D))
    (mkIt q (file_end D + data_size data) (file_end D)) data)
    by (unfold begin_rec; by rewrite Hlim).
  rewrite Hnr in HC.
  eapply wp_bind, wp_writeDataHere; [done|done|done| |done|exact HC|].
  { split_and!; [split; split; simpl; try apply I3; lia|split; split; simpl; try apply Hq; lia|].
    split; simpl; lia. }
  intros s7 H7. rewrite <- Hnr in H7. change (status_succ ab_writing) with ab_written in H7.
  change (with_status ab_written _) with (ab5 f r (begin_rec f data D) D) in H7.
  eapply wp_bind, wp_resetNextOfLast; [done|done|done| |exact HC'|].
  { cbn. change (file_end _) with (file_end (appended (begin_rec f data D) (ab4 f r D))).
    rewrite appended_end by done. unfold ab4, ab3, ab2.
    change (file_end _) with (file_end (alter_rec f (relink (file_end D, r_next r)) D)).
    rewrite file_end_alter by auto with filecontainer. unfold rec_size. simpl. lia. }
  intros s8 H8. apply wp_ret. apply HQ. exact H8.
Qed.
(** [addDataInMiddle] before the element [r1] at [w], whose predecessor is [r2] at [p];
    the last one, when the new record has been written, is [rq] at [q]. *)
Definition am1 (w : Z) (r1 : rec) (D : disk) : disk := with_status am_iterator1 (backup 0 (it_at w r1) D).
Definition am2 (w : Z) (r1 : rec) (p : Z) (r2 : rec) (D : disk) : disk :=
  with_status am_iterator2 (backup 1 (it_at p r2) (am1 w r1 D)).
Definition am3 (w : Z) (r1 : rec) (p : Z) (r2 : rec) (D : disk) : disk :=
  alter_rec w (relink (file_end D, r_next r1)) (am2 w r1 p r2 D).
Definition am4 (w : Z) (r1 : rec) (p : Z) (r2 : rec) (D : disk) : disk :=
  alter_rec p (relink (r_prev r2, file_end D)) (am3 w r1 p r2 D).
Definition am5 (w : Z) (r1 : rec) (p : Z) (r2 nr : rec) (D : disk) : disk :=
  with_status am_written (appended nr (with_status am_writing (am4 w r1 p r2 D))).

Definition middle_rec (p w : Z) (data : bytes) (D : disk) : rec :=
  mkRec p w data true (d_limits D).2 (file_end D + data_size data).

Definition add_middle_disks (w : Z) (r1 : rec) (p : Z) (r2 nr : rec) (q : Z) (rq : rec) (D : disk)
    : list disk :=
  [D; backup 0 (it_at w r1) D; am1 w r1 D; backup 1 (it_at p r2) (am1 w r1 D);
   am2 w r1 p r2 D; am3 w r1 p r2 D; am4 w r1 p r2 D]
  ++ writing_disks am_writing nr (am4 w r1 p r2 D)
  ++ reset_disks am_last q rq (am5 w r1 p r2 nr D).

Lemma wp_addDataInMiddle C Q s D o w r1 p r2 q rq data :
  holds s D o → d_tail D = [] → current o D → (d_limits D).2 = q →
  rec_at D w = Some r1 → r_prev r1 = p → rec_at D p = Some r2 → w ≠ p →
  rec_at (am5 w r1 p r2 (middle_rec p w data D) D) q = Some rq →
  data ≠ [] → file_end D + data_size data < 2 ^ 63 →
  Forall C (add_middle_disks w r1 p r2 (middle_rec p w data D) q rq D) →
  (∀ s', holds s' (after_reset am_last q rq (am5 w r1 p r2 (middle_rec p w data D) D)) o →
     Q (mkIt p w (file_end D)) s') →
  wp (addDataInMiddle data w (file_end D)) Q C s.
Proof.
  intros H Ht Hcu Hlim Hr1 Hp Hr2 Hwp Hrq Hd He HC HQ. unfold add_middle_disks in HC.
  rewrite !Forall_app, !Forall_cons in HC.
  destruct HC as ((C1&C2&C3&C4&C5&C6&C7&_)&HC&HC').
  pose proof (h_ok _ _ _ H) as Hok. pose proof (file_end_pos D) as He0. pose proof (data_size_rec data) as Hds.
  destruct (rec_links_ok D w r1 Hok Hr1) as (I1&I2&I3); [lia|].
  destruct (rec_links_ok D p r2 Hok Hr2) as (J1&J2&J3); [lia|].
  pose proof (cu_limits _ _ Hcu) as Hl. pose proof (ok_limits D Hok) as Hlp.
  unfold addDataInMiddle. eapply wp_member; [done|]. rewrite Hl. cbn [fi_next].
  eapply wp_bind, wp_readIterator; [done|done|]. intros s1 H1 _. cbn [fi_prev]. rewrite Hp.
  eapply wp_bind, wp_readIterator; [done|done|]. intros s2 H2 _. cbn [fi_current].
  eapply wp_bind, (wp_writeIteratorBackup _ _ _ _ _ H2 0);
    [lia|rewrite <- Hp; done|done|rewrite <- Hp; done|]. intros s3 H3 _. rewrite <- Hp in H3.
  change (with_status _ _) with (am1 w r1 D) in H3.
  eapply wp_bind, (wp_writeIteratorBackup _ _ _ _ _ H3 1); [lia|done|done|done|]. intros s4 H4 _.
  change (with_status _ _) with (am2 w r1 p r2 D) in H4.
  eapply wp_bind, wp_writeIterator; [done|done|split; simpl; [split; lia|apply I2]|done|]. intros s5 H5.
  change (alter_rec _ _ _) with (am3 w r1 p r2 D) in H5.
  eapply wp_bind, wp_writeIterator; [done| |split; simpl; [apply J2|split; lia]|done|].
  { unfold am3. rewrite rec_at_alter by auto with filecontainer.
    destruct (Z.eqb_spec p w); [done|exact Hr2]. }
  intros s6 H6. change (alter_rec _ _ _) with (am4 w r1 p r2 D) in H6.
  assert (Hnr : middle_rec p w data D = new_rec (mkIt p w (file_end D))
    (mkIt (d_limits D).2 (file_end D + data_size data) (file_end D)) data) by done.
  rewrite Hnr in HC.
  eapply wp_bind, wp_writeDataHere; [done|done|done| |done|exact HC|].
  { split_and!; [split; split; simpl; try apply I3; try apply J3; lia
                |split; split; simpl; try apply Hlp; lia|]. split; simpl; lia. }
  intros s7 H7. rewrite <- Hnr in H7. change (status_succ am_writing) with am_written in H7.
  change (with_status am_written _) with (am5 w r1 p r2 (middle_rec p w data D) D) in H7.
  eapply wp_bind, wp_resetNextOfLast; [done|by rewrite Hl|done| |exact HC'|].
  { change (file_end _) with (file_end (appended (middle_rec p w data D) (am4 w r1 p r2 D))).
    rewrite appended_end by done. unfold am4, am3.
    rewrite !file_end_alter by auto with filecontainer.
    change (file_end (am2 _ _ _ _ _)) with (file_end D). unfold rec_size. simpl. lia. }
  intros s8 H8. apply wp_ret. apply HQ. exact H8.
Qed.
(** ** Adding, on the list *)

Lemma last_pos_snoc p0 L q d : last_pos p0 (L ++ [(q, d)]) = q.
Proof. by rewrite last_pos_app. Qed.

Lemma list_of_last D L q dq :
  list_of D (L ++ [(q, dq)]) →
  ∃ r, rec_at D q = Some r ∧ r_prev r = last_pos 0 L ∧ r_next r = file_end D
    ∧ r_good r = true ∧ r_data r = dq.
Proof.
  intros HL. pose proof (lo_seg _ _ HL) as H. apply seg_app in H as [_ [H _]]. exact H.
Qed.

(** The positions of a list are before the end of the file. *)
Lemma end_not_in D L : list_of D L → file_end D ∉ L.*1.
Proof. intros HL Hin. pose proof (list_of_pos D L _ HL Hin). lia. Qed.

Lemma seg_appended D nr p0 L p1 :
  d_tail D = [] → file_end D ∉ L.*1 → seg D p0 L p1 → seg (appended nr D) p0 L p1.
Proof.
  intros Ht Hin. apply seg_frame. intros p Hp. rewrite appended_at by done.
  destruct (Z.eqb_spec p (file_end D)) as [->|]; [done|done].
Qed.

Lemma list_append D L q dq r data n :
  list_of D (L ++ [(q, dq)]) → rec_at D q = Some r →
  list_of (with_limits ((d_limits D).1, file_end D)
            (appended (mkRec q (file_end D + (Z.of_nat (length data) + 95)) data true n
                         (file_end D + (Z.of_nat (length data) + 95)))
              (alter_rec q (relink (r_prev r, file_end D)) D)))
    (L ++ [(q, dq); (file_end D, data)]).
Proof.
  intros HL Hr. destruct (list_of_last _ _ _ _ HL) as (r'&Hr'&Hp&_). rewrite Hr in Hr'. injection Hr' as <-.
  set (e := file_end D). set (nr := mkRec _ _ _ _ _ _).
  set (D1 := alter_rec q (relink (r_prev r, e)) D).
  assert (Ht : d_tail D1 = []) by apply (lo_tail _ _ HL).
  assert (He1 : file_end D1 = e) by (unfold D1; by rewrite file_end_alter by auto with filecontainer).
  assert (Hend : file_end (appended nr D1) = e + (Z.of_nat (length data) + 95)).
  { rewrite appended_end by done. rewrite He1. unfold rec_size. simpl. lia. }
  replace (L ++ [(q, dq); (e, data)]) with ((L ++ [(q, dq)]) ++ [(e, data)]) by by rewrite <- app_assoc.
  constructor.
  - change (file_end (with_limits _ (appended nr D1))) with (file_end (appended nr D1)).
    rewrite Hend. apply (seg_frame (appended nr D1)); [done|]. apply seg_app. split.
    + apply seg_appended; [done|rewrite He1; by apply end_not_in|].
      apply (seg_set_next D 0 L q dq e (r_prev r, e)); [apply HL|apply HL|by rewrite Hp].
    + rewrite last_pos_snoc. simpl. split; [|done]. exists nr.
      rewrite appended_at, He1, Z.eqb_refl by done. done.
  - rewrite fmap_app. apply NoDup_app. split_and!; [apply HL| |by apply NoDup_singleton].
    intros x Hx ->%list_elem_of_singleton. by apply (end_not_in D _ HL).
  - simpl. rewrite last_pos_snoc. f_equal. rewrite (lo_limits _ _ HL). simpl.
    rewrite !hd_pos_app. by destruct L as [|[? ?] L].
  - intros H'. by destruct L.
  - done.
Qed.

Lemma list_create D data n :
  list_of D [] →
  list_of (with_limits (391, 391)
            (appended (mkRec 0 (391 + (Z.of_nat (length data) + 95)) data true n
                        (391 + (Z.of_nat (length data) + 95))) D))
    [(391, data)].
Proof.
  intros HL. pose proof (lo_empty _ _ HL eq_refl) as Hr. pose proof (lo_tail _ _ HL) as Ht.
  assert (He : file_end D = 391) by (unfold file_end; by rewrite Hr, Ht).
  constructor; try done.
  - simpl. split; [|done]. set (nr := mkRec _ _ _ _ _ _).
    exists nr. change (rec_at (with_limits _ (appended nr D)) 391) with (rec_at (appended nr D) 391).
    change (file_end (with_limits _ (appended nr D))) with (file_end (appended nr D)).
    rewrite appended_at, appended_end, He by done. done.
  - by apply NoDup_singleton.
Qed.

Lemma list_of_first D L f df :
  list_of D ((f, df) :: L) →
  ∃ r, rec_at D f = Some r ∧ r_prev r = 0 ∧ r_next r = hd_pos L (file_end D)
    ∧ r_good r = true ∧ r_data r = df.
Proof. intros HL. apply (lo_seg _ _ HL). Qed.

(** The last element linked on to the new end of the file. *)
Lemma seg_reset D L q rq e :
  seg D 0 L e → NoDup L.*1 → L ≠ [] → last_pos 391 L = q → rec_at D q = Some rq →
  seg (alter_rec q (relink (r_prev rq, file_end D)) D) 0 L (file_end D).
Proof.
  intros He Hnd Hne Hq Hr. destruct (exists_last Hne) as (L0&[q' dq]&->).
  rewrite last_pos_snoc in Hq. subst q'.
  apply (seg_set_next D 0 L0 q dq e (r_prev rq, file_end D)); [done|done|].
  apply seg_app in He as [_ [(r&Hr'&Hp&_) _]]. simpl. congruence.
Qed.

Lemma list_prepend D L f df r q rq data n :
  list_of D ((f, df) :: L) → rec_at D f = Some r → last_pos 391 ((f, df) :: L) = q →
  let D1 := appended (mkRec 0 f data true q n) (alter_rec f (relink (file_end D, r_next r)) D) in
  rec_at D1 q = Some rq →
  list_of (with_limits (file_end D, q) (alter_rec q (relink (r_prev rq, file_end D1)) D1))
    ((file_end D, data) :: (f, df) :: L).
Proof.
  intros HL Hr Hq D1 Hrq. set (e := file_end D) in *. set (nr := mkRec 0 f data true q n) in *.
  destruct (list_of_first _ _ _ _ HL) as (r'&Hr'&Hp&Hn&_). rewrite Hr in Hr'. injection Hr' as <-.
  set (D0 := alter_rec f (relink (e, r_next r)) D) in *.
  assert (Ht : d_tail D0 = []) by apply (lo_tail _ _ HL).
  assert (He0 : file_end D0 = e) by (unfold D0; by rewrite file_end_alter by auto with filecontainer).
  assert (Hin : e ∉ ((f, df) :: L).*1) by by apply end_not_in.
  assert (Hnd : NoDup ((e, data) :: (f, df) :: L).*1) by (apply NoDup_cons; split; [done|apply HL]).
  constructor; try done.
  - change (file_end (with_limits _ (alter_rec q ?g D1))) with (file_end (alter_rec q g D1)).
    rewrite file_end_alter by auto with filecontainer.
    apply (seg_frame (alter_rec q (relink (r_prev rq, file_end D1)) D1)); [done|].
    apply (seg_reset _ _ _ _ e); [|done|done|done|done].
    assert (H1 : seg D1 e ((f, df) :: L) e).
    { apply seg_appended; [done|by rewrite He0|].
      apply (seg_set_prev D 0 L f df e (e, r_next r)); [apply HL|apply HL|done]. }
    split; [|exact H1]. exists nr. unfold D1. rewrite appended_at, He0, Z.eqb_refl by done. done.
  - simpl. f_equal. rewrite <- Hq. done.
Qed.

Lemma list_insert_middle D L1 w dw L2 p dp r1 r2 q rq data n :
  list_of D (L1 ++ (p, dp) :: (w, dw) :: L2) → rec_at D w = Some r1 → rec_at D p = Some r2 →
  last_pos 391 ((w, dw) :: L2) = q →
  let D1 := appended (mkRec p w data true q n)
    (alter_rec p (relink (r_prev r2, file_end D)) (alter_rec w (relink (file_end D, r_next r1)) D)) in
  rec_at D1 q = Some rq →
  list_of (alter_rec q (relink (r_prev rq, file_end D1)) D1)
    (L1 ++ (p, dp) :: (file_end D, data) :: (w, dw) :: L2).
Proof.
  intros HL Hr1 Hr2 Hq D1 Hrq. set (e := file_end D) in *. set (nr := mkRec p w data true q n) in *.
  set (Dw := alter_rec w (relink (e, r_next r1)) D) in *.
  set (Dp := alter_rec p (relink (r_prev r2, e)) Dw) in *.
  pose proof (lo_nodup _ _ HL) as Hnd. pose proof (lo_seg _ _ HL) as Hs.
  assert (Hsplit : L1 ++ (p, dp) :: (w, dw) :: L2 = (L1 ++ [(p, dp)]) ++ (w, dw) :: L2)
    by by rewrite <- app_assoc.
  rewrite Hsplit in Hnd, Hs. rewrite fmap_app in Hnd. apply NoDup_app in Hnd as (Hnd1&Hdisj&Hnd2).
  apply seg_app in Hs as [Hs1 Hs2]. rewrite last_pos_snoc in Hs2. simpl hd_pos in Hs1.
  assert (Hpw : p ∉ ((w, dw) :: L2).*1) by (apply Hdisj; rewrite fmap_app; set_solver).
  assert (Hw1 : w ∉ (L1 ++ [(p, dp)]).*1) by (intros Hin; by apply (Hdisj w Hin); left).
  assert (Ht : d_tail Dp = []) by apply (lo_tail _ _ HL).
  assert (Hep : file_end Dp = e) by (unfold Dp, Dw; by rewrite !file_end_alter by auto with filecontainer).
  assert (Hin : e ∉ ((L1 ++ [(p, dp)]) ++ (w, dw) :: L2).*1)
    by (rewrite <- Hsplit; by apply end_not_in).
  rewrite fmap_app in Hin. apply not_elem_of_app in Hin as [Hin1 Hin2].
  assert (S1 : seg D1 0 (L1 ++ [(p, dp)]) e).
  { apply seg_appended; [done|by rewrite Hep|].
    apply (seg_set_next Dw 0 L1 p dp w (r_prev r2, e)); [|done|].
    - apply seg_alter_other; [auto with filecontainer|done|done].
    - apply seg_app in Hs1 as [_ [(r&Hr&Hp&_) _]]. simpl. congruence. }
  assert (S2 : seg D1 e ((w, dw) :: L2) e).
  { apply seg_appended; [done|by rewrite Hep|].
    apply seg_alter_other; [auto with filecontainer|done|].
    apply (seg_set_prev D p L2 w dw e (e, r_next r1)); [done|done|].
    destruct Hs2 as [(r&Hr&_&Hn&_) _]. rewrite Hr in Hr1. injection Hr1 as <-. exact Hn. }
  assert (Hsplit2 : L1 ++ (p, dp) :: (e, data) :: (w, dw) :: L2 =
    (L1 ++ [(p, dp)]) ++ (e, data) :: (w, dw) :: L2) by by rewrite <- app_assoc.
  rewrite Hsplit2.
  assert (Hnd' : NoDup ((L1 ++ [(p, dp)]) ++ (e, data) :: (w, dw) :: L2).*1).
  { rewrite fmap_app. apply NoDup_app. split_and!; [done| |].
    - intros x Hx [->|Hx2]%elem_of_cons; [by apply Hin1|by apply (Hdisj x)].
    - apply NoDup_cons. done. }
  constructor; try done.
  - rewrite file_end_alter by auto with filecontainer.
    apply (seg_reset _ _ _ _ e); [|done|by destruct L1| |done].
    + apply seg_app. split; [exact S1|]. split; [|exact S2]. exists nr.
      unfold D1. rewrite appended_at, Hep, Z.eqb_refl, last_pos_snoc by done. done.
    + rewrite last_pos_app. simpl. exact Hq.
  - change (d_limits (alter_rec q _ D1)) with (d_limits D). rewrite (lo_limits _ _ HL).
    rewrite Hsplit, !hd_pos_app, !last_pos_app. simpl. by destruct L1 as [|[? ?] ?].
  - by destruct L1.
Qed.
(** ** The whole of [add_data] *)

Definition opened_disk (t : TimeStamp) (D : disk) : disk := with_status opened (with_stamp t D).

(** The last steps of [add_data] and of [remove_data], which end with the size [n]. *)
Definition finish_disks (x : filestatus_t) (n : Z) (D : disk) : list disk :=
  [D; cleared D; with_status x (cleared D); with_size n (with_status x (cleared D))].
Definition finished (x : filestatus_t) (n : Z) (D : disk) : disk :=
  with_status closed (with_size n (with_status x (cleared D))).

(** [add_data], from what the chosen way of adding does. *)
Lemma wp_add_data C Q s D o data w :
  holds s D o → d_status D = closed → valid o D → ts_counter (d_stamp D) < 2 ^ 16 - 1 →
  d_size D + 1 < 2 ^ 64 → C D →
  (∀ t, stamp_ok t → later t (d_stamp D) → C (with_stamp t D)) →
  (∀ t s1 o1, holds s1 (opened_disk t D) o1 → current o1 (opened_disk t D) → fc_stamp o1 = t →
    later t (d_stamp D) → stamp_ok t →
    wp (if w =? file_end D then addDataAtEnd data (file_end D)
        else if w =? (d_limits D).1 then addDataAtBegin data (file_end D)
        else addDataInMiddle data w (file_end D))
      (λ it s2, ∃ D2 o2, holds s2 D2 o2 ∧ fc_size o2 = d_size D
         ∧ Forall C (finish_disks ad_empty (d_size D + 1) D2)
         ∧ ∀ s3, holds s3 (finished ad_empty (d_size D + 1) D2) (set_size (d_size D + 1) o2) → Q it s3)
      C s1) →
  wp (add_data data w) Q C s.
Proof.
  intros H Hcl Hv Hts Hn HC HCt Hbody. unfold add_data.
  pose proof (h_ok _ _ _ H) as Hok. pose proof (ok_size D Hok) as Hsz.
  eapply wp_bind, wp_prologue_end; [done|done|done|]. intros s1 o1 H1 Hcu _.
  eapply wp_bind, wp_updateTimeStamp; [done|apply Hcu|apply Hcu|done|done|]. intros s2 t Hgt Hst H2.
  assert (Hcu2 : current (set_stamp t o1) (opened_disk t D))
    by (destruct Hcu; constructor; try done; apply stamp_gt_irrefl).
  eapply wp_bind, wp_writeFileStatus; [done|by apply HCt|]. intros s3 H3 _.
  eapply wp_member; [done|]. cbn [fc_limits set_stamp].
  rewrite (cu_limits _ _ Hcu). cbn [fi_prev].
  pose proof (Hbody t s3 (set_stamp t o1) H3 Hcu2 eq_refl Hgt Hst) as Hwp.
  eapply wp_bind, wp_mono; [|done|exact Hwp]. intros it s4 (D2&o2&H4&Hsz2&HCs&HQ). cbv beta.
  unfold finish_disks in HCs. rewrite !Forall_cons in HCs. destruct HCs as (C1&C2&C3&C4&_).
  eapply wp_bind, wp_createEmptyBackup; [done|done|done|]. intros s5 H5 _.
  eapply wp_bind, wp_member; [done|]. rewrite Hsz2, u64_small by lia.
  eapply wp_writeAndSetSize; [done|lia|done|]. intros s6 H6 _.
  eapply wp_bind, wp_writeFileStatus; [done|done|]. intros s7 H7 _.
  apply wp_ret. by apply HQ.
Qed.
(** ** The list after an addition *)

Fixpoint insert_before (w : Z) (x : Z * bytes) (L : elems) : elems :=
  match L with
  | [] => [x]
  | (p, d) :: L => if p =? w then x :: (p, d) :: L else (p, d) :: insert_before w x L
  end.

Lemma insert_before_app w x L1 L2 :
  w ∉ L1.*1 → insert_before w x (L1 ++ L2) = L1 ++ insert_before w x L2.
Proof.
  induction L1 as [|[p d] L1 IH]; simpl; [done|]. intros [Hp HL]%not_elem_of_cons.
  destruct (Z.eqb_spec p w) as [->|_]; [done|]. by rewrite IH.
Qed.

(** The result of an operation: a closed container with the list [L] in a file of [e]
    bytes, an object in step with it, and a later time stamp than [t0]. *)
Definition result (L : elems) (e : Z) (t0 : TimeStamp) (s : St) : Prop :=
  ∃ D o, holds s D o ∧ wf D L ∧ synced o D ∧ file_end D = e ∧ later (d_stamp D) t0.

Lemma finished_result s D2 o2 L n e t0 x :
  holds s (finished x n D2) (set_size n o2) → list_of D2 L → n = Z.of_nat (length L) →
  fc_initialized o2 = true → fc_stamp o2 = d_stamp D2 →
  fc_limits o2 = mkIt (d_limits D2).1 (d_limits D2).2 0 → file_end D2 = e → later (d_stamp D2) t0 →
  result L e t0 s.
Proof.
  intros H HL Hn Hi Hs Hl He Hgt. exists (finished x n D2), (set_size n o2).
  split_and!; [done| |by constructor|done|done].
  constructor; [apply H| |done|done]. eapply list_of_ext; [..|exact HL]; try done; apply HL.
Qed.

(** The disks an operation may leave: before the time stamp, after it, and on its way. *)
Definition leaves (D : disk) (way : disk → list disk) (D' : disk) : Prop :=
  D' = D ∨ ∃ t, stamp_ok t ∧ later t (d_stamp D) ∧
    (D' = with_stamp t D ∨ D' ∈ way (opened_disk t D)).

Definition end_way (q : Z) (r : rec) (data : bytes) (D : disk) : list disk :=
  add_end_disks q r (end_rec q data D) D
  ++ finish_disks ad_empty (d_size D + 1) (ae5 q r (end_rec q data D) D).

(** The conditions under which an operation is performed. *)
Record ready (s : St) (D : disk) (o : Container) (L : elems) : Prop := {
  rd_holds : holds s D o;
  rd_wf : wf D L;
  rd_valid : valid o D;
  rd_counter : ts_counter (d_stamp D) < 2 ^ 16 - 1
}.

Lemma ready_size s D o L : ready s D o L → file_end D < 2 ^ 63 → d_size D + 1 < 2 ^ 64.
Proof.
  intros [] He. rewrite (wf_size _ _ rd_wf0). pose proof (list_of_length _ _ (wf_list _ _ rd_wf0)). lia.
Qed.

Lemma Forall_leaves D way (C : disk → Prop) :
  (∀ D', leaves D way D' → C D') →
  C D ∧ ∀ t, stamp_ok t → later t (d_stamp D) →
    C (with_stamp t D) ∧ Forall C (way (opened_disk t D)).
Proof.
  intros HC. split; [apply HC; by left|]. intros t Ht Hg. split.
  - apply HC. right. eauto.
  - apply Forall_forall. intros D' HD'. apply HC. right. eauto.
Qed.

(** The end of the file after an element is appended. *)
Ltac grown HL :=
  let Ht := fresh in pose proof (lo_tail _ _ HL) as Ht; rewrite data_size_rec; unfold ae5, ae4, ae3, ae2, ae1, ab5, ab4, ab3, ab2, ab1, am5, am4, am3, am2, am1,
    aempty, after_reset, opened_disk; ended; rewrite appended_end by tailed; ended; unfold rec_size;
  cbn [r_data end_rec begin_rec middle_rec empty_rec]; lia.

Lemma add_end s D o L q dq r data (C : disk → Prop) :
  ready s D o (L ++ [(q, dq)]) → rec_at D q = Some r → data ≠ [] →
  file_end D + data_size data < 2 ^ 63 → (∀ D', leaves D (end_way q r data) D' → C D') →
  wp (add_data data (file_end D))
    (λ it s', fi_current it = file_end D
       ∧ result (L ++ [(q, dq); (file_end D, data)]) (file_end D + data_size data) (d_stamp D) s') C s.
Proof.
  intros Hrd Hr Hd He HC. pose proof (data_size_rec data) as Hds.
  destruct (Forall_leaves _ _ _ HC) as [C0 C1]. pose proof (ready_size _ _ _ _ Hrd ltac:(lia)) as Hsz.
  destruct Hrd as [H [Hok HL Hcl Hn] Hv Hts].
  assert (Hlast : (d_limits D).2 = q) by (rewrite (lo_limits _ _ HL); simpl; by rewrite last_pos_snoc).
  eapply wp_add_data; [done|done|done|done|done|done|intros t Ht Hg; by apply C1|].
  intros t s1 o1 H1 Hcu Hst Hgt Ht. destruct (C1 t Ht Hgt) as [_ CW].
  unfold end_way in CW. apply Forall_app in CW as [CW CF].
  rewrite Z.eqb_refl.
  eapply (wp_addDataAtEnd C _ s1 (opened_disk t D) o1 q r data); try done; [apply HL|].
  intros s2 H2. eexists _, _. split_and!; [exact H2|apply Hcu|exact CF|]. intros s3 H3.
  split; [done|]. eapply finished_result; [exact H3| |..].
  - pose proof (list_append D L q dq r data q HL Hr) as HA. rewrite <- Hds in HA.
    eapply list_of_ext; [..|exact HA]; try done. by destruct L.
  - rewrite Hn, !length_app. simpl. lia.
  - simpl. apply Hcu.
  - simpl. rewrite Hst. done.
  - done.
  - grown HL.
  - exact Hgt.
Qed.

Lemma alter_exists D p g q r :
  in_place g → rec_at D q = Some r → ∃ r', rec_at (alter_rec p g D) q = Some r'.
Proof.
  intros Hg Hr. rewrite rec_at_alter by done. destruct (Z.eqb_spec q p) as [->|_]; [|eauto].
  rewrite Hr. by eexists.
Qed.
Lemma appended_exists D nr q r : d_tail D = [] → rec_at D q = Some r → ∃ r', rec_at (appended nr D) q = Some r'.
Proof. intros Ht Hr. rewrite appended_at by done. destruct (q =? file_end D); eauto. Qed.

Lemma list_of_at D L p : list_of D L → p ∈ L.*1 → ∃ r, rec_at D p = Some r.
Proof. intros HL. eapply seg_at, HL. Qed.

Lemma last_pos_default a b L : L ≠ [] → last_pos a L = last_pos b L.
Proof. by destruct L as [|[p d] L]. Qed.

Definition begin_way (f : Z) (r : rec) (data : bytes) (q : Z) (rq : rec) (D : disk) : list disk :=
  add_begin_disks f r (begin_rec f data D) q rq D
  ++ finish_disks ad_empty (d_size D + 1)
       (after_reset ab_last q rq (ab5 f r (begin_rec f data D) D)).

Lemma add_begin s D o L f df r q rq data (C : disk → Prop) :
  ready s D o ((f, df) :: L) → rec_at D f = Some r → last_pos 391 ((f, df) :: L) = q →
  rec_at (ab5 f r (begin_rec f data D) D) q = Some rq →
  data ≠ [] → file_end D + data_size data < 2 ^ 63 →
  (∀ D', leaves D (begin_way f r data q rq) D' → C D') →
  wp (add_data data f)
    (λ it s', fi_current it = file_end D
       ∧ result ((file_end D, data) :: (f, df) :: L) (file_end D + data_size data) (d_stamp D) s') C s.
Proof.
  intros Hrd Hr Hq Hrq Hd He HC. pose proof (data_size_rec data) as Hds.
  destruct (Forall_leaves _ _ _ HC) as [C0 C1]. pose proof (ready_size _ _ _ _ Hrd ltac:(lia)) as Hsz.
  destruct Hrd as [H [Hok HL Hcl Hn] Hv Hts].
  pose proof (lo_limits _ _ HL) as Hlim. rewrite Hq in Hlim. cbn [hd_pos] in Hlim.
  assert (Hf : 391 ≤ f < file_end D) by (eapply list_of_pos; [exact HL|set_solver]).
  assert (Hqr : 391 ≤ q < file_end D).
  { eapply list_of_pos; [exact HL|]. rewrite <- Hq. by apply last_pos_in. }
  eapply wp_add_data; [done|done|done|done|done|done|intros t Ht Hg; by apply C1|].
  intros t s1 o1 H1 Hcu Hst Hgt Ht. destruct (C1 t Ht Hgt) as [_ CW].
  unfold begin_way in CW. apply Forall_app in CW as [CW CF].
  destruct (Z.eqb_spec f (file_end D)); [lia|]. rewrite Hlim. cbn [fst]. rewrite Z.eqb_refl.
  eapply (wp_addDataAtBegin C _ s1 (opened_disk t D) o1 f r q rq data); try done;
    [apply HL|split; lia|].
  intros s2 H2. eexists _, _. split_and!; [exact H2|apply Hcu|exact CF|]. intros s3 H3.
  split; [done|]. eapply finished_result; [exact H3| |..].
  - assert (Hnr : begin_rec f data D = mkRec 0 f data true q (file_end D + data_size data))
      by (unfold begin_rec; by rewrite Hlim).
    rewrite Hnr in Hrq.
    pose proof (list_prepend D L f df r q rq data (file_end D + data_size data) HL Hr Hq Hrq) as HA.
    assert (Hnr' : begin_rec f data (opened_disk t D) = mkRec 0 f data true q (file_end D + data_size data))
      by exact Hnr.
    rewrite Hnr'. eapply list_of_ext; [..|exact HA]; try done. simpl. by rewrite Hlim.
  - rewrite Hn. simpl. lia.
  - simpl. apply Hcu.
  - simpl. rewrite Hst. done.
  - simpl. unfold after_reset. simpl. by rewrite Hlim.
  - grown HL.
  - exact Hgt.
Qed.

Definition middle_way (w : Z) (r1 : rec) (p : Z) (r2 : rec) (data : bytes) (q : Z) (rq : rec) (D : disk)
    : list disk :=
  add_middle_disks w r1 p r2 (middle_rec p w data D) q rq D
  ++ finish_disks ad_empty (d_size D + 1)
       (after_reset am_last q rq (am5 w r1 p r2 (middle_rec p w data D) D)).

Lemma add_middle s D o L1 p dp w dw L2 r1 r2 q rq data (C : disk → Prop) :
  ready s D o (L1 ++ (p, dp) :: (w, dw) :: L2) → rec_at D w = Some r1 → rec_at D p = Some r2 →
  last_pos 391 ((w, dw) :: L2) = q →
  rec_at (am5 w r1 p r2 (middle_rec p w data D) D) q = Some rq →
  data ≠ [] → file_end D + data_size data < 2 ^ 63 →
  (∀ D', leaves D (middle_way w r1 p r2 data q rq) D' → C D') →
  wp (add_data data w)
    (λ it s', fi_current it = file_end D
       ∧ result (L1 ++ (p, dp) :: (file_end D, data) :: (w, dw) :: L2)
           (file_end D + data_size data) (d_stamp D) s') C s.
Proof.
  intros Hrd Hr1 Hr2 Hq Hrq Hd He HC. pose proof (data_size_rec data) as Hds.
  destruct (Forall_leaves _ _ _ HC) as [C0 C1]. pose proof (ready_size _ _ _ _ Hrd ltac:(lia)) as Hsz.
  destruct Hrd as [H [Hok HL Hcl Hn] Hv Hts].
  assert (Hsplit : L1 ++ (p, dp) :: (w, dw) :: L2 = (L1 ++ [(p, dp)]) ++ (w, dw) :: L2)
    by by rewrite <- app_assoc.
  assert (Hlast : (d_limits D).2 = q).
  { rewrite (lo_limits _ _ HL), Hsplit. simpl. rewrite last_pos_app. exact Hq. }
  assert (Hw : 391 ≤ w < file_end D).
  { eapply list_of_pos; [exact HL|]. rewrite fmap_app. set_solver. }
  assert (Hnd : w ∉ (L1 ++ [(p, dp)]).*1).
  { pose proof (lo_nodup _ _ HL) as Hnd. rewrite Hsplit, fmap_app in Hnd.
    apply NoDup_app in Hnd as (_&Hdis&_). intros Hin. apply (Hdis w Hin). by left. }
  assert (Hfst : (d_limits D).1 ≠ w).
  { rewrite (lo_limits _ _ HL). simpl. rewrite Hsplit, hd_pos_app. intros E. apply Hnd.
    rewrite <- E. apply hd_pos_in. by destruct L1. }
  assert (Hprev : r_prev r1 = p).
  { pose proof (lo_seg _ _ HL) as Hs. rewrite Hsplit in Hs. apply seg_app in Hs as [_ [(r&Hr&Hp&_) _]].
    rewrite last_pos_snoc in Hp. congruence. }
  assert (Hwp : w ≠ p).
  { intros ->. apply Hnd. rewrite fmap_app. set_solver. }
  eapply wp_add_data; [done|done|done|done|done|done|intros t Ht Hg; by apply C1|].
  intros t s1 o1 H1 Hcu Hst Hgt Ht. destruct (C1 t Ht Hgt) as [_ CW].
  unfold middle_way in CW. apply Forall_app in CW as [CW CF].
  destruct (Z.eqb_spec w (file_end D)); [lia|]. destruct (Z.eqb_spec w (d_limits D).1); [congruence|].
  eapply (wp_addDataInMiddle C _ s1 (opened_disk t D) o1 w r1 p r2 q rq data); try done; [apply HL|].
  intros s2 H2. eexists _, _. split_and!; [exact H2|apply Hcu|exact CF|]. intros s3 H3.
  split; [done|]. eapply finished_result; [exact H3| |..].
  - assert (Hnr : middle_rec p w data D = mkRec p w data true q (file_end D + data_size data))
      by (unfold middle_rec; by rewrite Hlast).
    rewrite Hnr in Hrq.
    pose proof (list_insert_middle D L1 w dw L2 p dp r1 r2 q rq data _ HL Hr1 Hr2 Hq Hrq) as HA.
    assert (Hnr' : middle_rec p w data (opened_disk t D) =
      mkRec p w data true q (file_end D + data_size data)) by exact Hnr.
    rewrite Hnr'. eapply list_of_ext; [..|exact HA]; try done. by destruct L1.
  - rewrite Hn, !length_app. simpl. lia.
  - apply Hcu.
  - rewrite Hst. done.
  - apply Hcu.
  - grown HL.
  - exact Hgt.
Qed.

Definition create_way (data : bytes) (D : disk) : list disk :=
  [D; with_lb (391, 391) D; with_status ae_limits (with_lb (391, 391) D); aempty D]
  ++ writing_disks ae_writing (empty_rec data) (aempty D)
  ++ finish_disks ad_empty (d_size D + 1)
       (with_status ae_written (appended (empty_rec data) (with_status ae_writing (aempty D)))).

Lemma add_create s D o data (C : disk → Prop) :
  ready s D o [] → data ≠ [] → 391 + data_size data < 2 ^ 63 →
  (∀ D', leaves D (create_way data) D' → C D') →
  wp (add_data data 391)
    (λ it s', fi_current it = 391 ∧ result [(391, data)] (391 + data_size data) (d_stamp D) s') C s.
Proof.
  intros Hrd Hd He HC. pose proof (data_size_rec data) as Hds.
  destruct (Forall_leaves _ _ _ HC) as [C0 C1].
  destruct Hrd as [H [Hok HL Hcl Hn] Hv Hts].
  assert (Hend : file_end D = 391)
    by (unfold file_end; by rewrite (lo_empty _ _ HL eq_refl), (lo_tail _ _ HL)).
  eapply wp_add_data; [done|done|done|done|rewrite Hn; done|done|intros t Ht Hg; by apply C1|].
  intros t s1 o1 H1 Hcu Hst Hgt Ht. destruct (C1 t Ht Hgt) as [_ CW].
  unfold create_way in CW. rewrite app_assoc in CW. apply Forall_app in CW as [CW CF].
  rewrite Hend, Z.eqb_refl.
  eapply (wp_addDataAtEnd_empty C _ s1 (opened_disk t D) o1 data); try done; [apply HL|apply HL|].
  intros s2 H2. eexists _, _. split_and!; [exact H2|apply Hcu|exact CF|]. intros s3 H3.
  split; [done|]. eapply finished_result; [exact H3| |..].
  - pose proof (list_create D data 391 HL) as HA. rewrite <- Hds in HA.
    eapply list_of_ext; [..|exact HA]; done.
  - by rewrite Hn.
  - simpl. apply Hcu.
  - simpl. rewrite Hst. done.
  - done.
  - rewrite <- Hend at 1. grown HL.
  - exact Hgt.
Qed.
