(* ===== verification/FileRemove.v ===== *)
(** * Removing elements of a file container

    The same for [remove_data]: the disks on its way and the list it leaves. *)

From S2P Require Import Prelude Machine FileText FileContainer FileLayout FileRules FileList FileOps.

(** ** Marking a record as erased *)

Definition links (r : rec) : Z * Z := (r_prev r, r_next r).

Definition marking (x : filestatus_t) (w : Z) (r : rec) (D : disk) : disk :=
  with_status x (backup 2 (it_at w r) D).
Definition mark_disks (x : filestatus_t) (w : Z) (r : rec) (D : disk) : list disk :=
  [D; backup 2 (it_at w r) D; marking x w r D; alter_rec w (relink (links r)) (marking x w r D)].
Definition marked (x : filestatus_t) (w : Z) (r : rec) (D : disk) : disk :=
  alter_rec w (remark false) (alter_rec w (relink (links r)) (marking x w r D)).

Lemma wp_markDataAsErased C Q s D o x w r :
  holds s D o → rec_at D w = Some r → file_end D < 2 ^ 63 →
  Forall C (mark_disks x w r D) →
  (∀ s', holds s' (marked x w r D) o → Q tt s') →
  wp (markDataAsErased (it_at w r) (Z.of_nat (length (r_data r))) x) Q C s.
Proof.
  intros H Hr He HC HQ. unfold mark_disks in HC. rewrite !Forall_cons in HC.
  destruct HC as (C1&C2&C3&C4&_). pose proof (h_ok _ _ _ H) as Hok.
  destruct (rec_links_ok D w r Hok Hr He) as (I1&I2&I3).
  destruct (rec_at_ok D w r Hok Hr) as (_&Hw&_).
  unfold markDataAsErased.
  eapply wp_bind, (wp_writeIteratorBackup _ _ _ _ _ H 2); [lia|done|done|done|]. intros s1 H1 _.
  eapply wp_seek; [done|cbn; lia|]. intros s2 H2 P2. eapply wp_good; [done|].
  change (with_status _ _) with (marking x w r D) in H2.
  change "i"%char with (state_char false).
  eapply wp_bind, (wp_writeDataHeader _ _ _ _ _ H2 w r (it_at w r) false); [done|done|done|done|done|].
  intros s3 H3. eapply wp_sync; [done|]. eapply wp_check_bad_end; [done|]. apply HQ. exact H3.
Qed.

(** ** The three ways of unlinking an element *)

(** The last one, [rw] at [w], whose predecessor is [rp] at [p]. *)
Definition rl1 (D : disk) : disk := with_status rd_limits (with_lb (d_limits D) D).
Definition rl2 (p : Z) (D : disk) : disk := with_limits ((d_limits D).1, p) (rl1 D).
Definition rl3 (p : Z) (rp : rec) (D : disk) : disk :=
  with_status rd_iterator (backup 0 (it_at p rp) (rl2 p D)).
Definition rl4 (p : Z) (rp : rec) (D : disk) : disk :=
  alter_rec p (relink (r_prev rp, file_end D)) (rl3 p rp D).
Definition remove_last_disks (w : Z) (rw : rec) (p : Z) (rp : rec) (D : disk) : list disk :=
  [D; with_lb (d_limits D) D; rl1 D; rl2 p D; backup 0 (it_at p rp) (rl2 p D); rl3 p rp D]
  ++ mark_disks rd_mark1 w rw (rl4 p rp D).

Lemma wp_remove_last C Q s D o w rw p rp :
  holds s D o → current o D → rec_at D w = Some rw → r_prev rw = p → r_next rw = file_end D →
  rec_at D p = Some rp → w ≠ p → file_end D < 2 ^ 63 →
  Forall C (remove_last_disks w rw p rp D) →
  (∀ s', holds s' (marked rd_mark1 w rw (rl4 p rp D)) (set_limits (mkIt (d_limits D).1 p 0) o) → Q tt s') →
  wp (remove_last (it_at w rw) (Z.of_nat (length (r_data rw))) (file_end D)) Q C s.
Proof.
  intros H Hcu Hrw Hpw Hnw Hrp Hne He HC HQ. unfold remove_last_disks in HC.
  rewrite Forall_app, !Forall_cons in HC. destruct HC as ((C1&C2&C3&C4&C5&C6&_)&HC).
  pose proof (h_ok _ _ _ H) as Hok. pose proof (ok_limits D Hok) as Hlp. pose proof (file_end_pos D).
  destruct (rec_links_ok D p rp Hok Hrp He) as (I1&I2&I3).
  unfold remove_last. apply wp_bind. eapply wp_member; [done|]. rewrite (cu_limits _ _ Hcu).
  eapply wp_writeLimitsBackup; [done|done|done| |].
  { unfold pair_of. cbn. by rewrite <- surjective_pairing. }
  unfold pair_of. cbn [fi_prev fi_next]. rewrite <- surjective_pairing. intros s1 H1 _.
  change (with_status _ _) with (rl1 D) in H1.
  eapply wp_update; [done|]. intros s2 H2 _. rewrite (cu_limits _ _ Hcu) in H2.
  cbn [it_at fi_prev] in H2. rewrite Hpw in H2.
  apply wp_bind. eapply wp_member; [done|].
  eapply wp_writeInitialPosition; [done|split; simpl; [apply Hlp|done]|done|]. intros s3 H3.
  cbn [fc_limits set_limits pair_of fi_prev fi_next set_next] in H3.
  change (with_limits _ _) with (rl2 p D) in H3.
  cbn [it_at fi_prev]. rewrite Hpw. eapply wp_bind, wp_readIterator; [done|done|]. intros s4 H4 _.
  eapply wp_bind, (wp_writeIteratorBackup _ _ _ _ _ H4 0); [lia|done|done|done|]. intros s5 H5 _.
  change (with_status _ _) with (rl3 p rp D) in H5.
  eapply wp_bind, wp_writeIterator; [done|done|split; simpl; [apply I2|split; lia]|done|]. intros s6 H6.
  change (alter_rec _ _ _) with (rl4 p rp D) in H6.
  change (mkIt (r_prev rw) (r_next rw) w) with (it_at w rw).
  eapply wp_markDataAsErased; [done| | |exact HC|].
  - unfold rl4. rewrite rec_at_alter by auto with filecontainer.
    destruct (Z.eqb_spec w p); [done|exact Hrw].
  - unfold rl4. by rewrite file_end_alter by auto with filecontainer.
  - intros s7 H7. apply HQ. exact H7.
Qed.
(** The first one, [rw] at [w], whose successor is [rn] at [n]. *)
Definition rf2 (n : Z) (D : disk) : disk := with_limits (n, (d_limits D).2) (rl1 D).
Definition rf3 (n : Z) (rn : rec) (D : disk) : disk :=
  with_status rd_iterator (backup 0 (it_at n rn) (rf2 n D)).
Definition rf4 (n : Z) (rn : rec) (D : disk) : disk :=
  alter_rec n (relink (0, r_next rn)) (rf3 n rn D).
Definition remove_first_disks (w : Z) (rw : rec) (n : Z) (rn : rec) (D : disk) : list disk :=
  [D; with_lb (d_limits D) D; rl1 D; rf2 n D; backup 0 (it_at n rn) (rf2 n D); rf3 n rn D]
  ++ mark_disks rd_mark1 w rw (rf4 n rn D).

Lemma wp_remove_first C Q s D o w rw n rn :
  holds s D o → current o D → rec_at D w = Some rw → r_next rw = n →
  rec_at D n = Some rn → w ≠ n → file_end D < 2 ^ 63 →
  Forall C (remove_first_disks w rw n rn D) →
  (∀ s', holds s' (marked rd_mark1 w rw (rf4 n rn D)) (set_limits (mkIt n (d_limits D).2 0) o) → Q tt s') →
  wp (remove_first (it_at w rw) (Z.of_nat (length (r_data rw)))) Q C s.
Proof.
  intros H Hcu Hrw Hnw Hrn Hne He HC HQ. unfold remove_first_disks in HC.
  rewrite Forall_app, !Forall_cons in HC. destruct HC as ((C1&C2&C3&C4&C5&C6&_)&HC).
  pose proof (h_ok _ _ _ H) as Hok. pose proof (ok_limits D Hok) as Hlp.
  destruct (rec_links_ok D n rn Hok Hrn He) as (I1&I2&I3).
  unfold remove_first. apply wp_bind. eapply wp_member; [done|]. rewrite (cu_limits _ _ Hcu).
  eapply wp_writeLimitsBackup; [done|done|done| |].
  { unfold pair_of. cbn. by rewrite <- surjective_pairing. }
  unfold pair_of. cbn [fi_prev fi_next]. rewrite <- surjective_pairing. intros s1 H1 _.
  change (with_status _ _) with (rl1 D) in H1.
  eapply wp_update; [done|]. intros s2 H2 _. rewrite (cu_limits _ _ Hcu) in H2.
  cbn [it_at fi_next] in H2. rewrite Hnw in H2.
  apply wp_bind. eapply wp_member; [done|].
  eapply wp_writeInitialPosition; [done|split; simpl; [done|apply Hlp]|done|]. intros s3 H3.
  cbn [fc_limits set_limits pair_of fi_prev fi_next set_prev] in H3.
  change (with_limits _ _) with (rf2 n D) in H3.
  cbn [it_at fi_next]. rewrite Hnw. eapply wp_bind, wp_readIterator; [done|done|]. intros s4 H4 _.
  eapply wp_bind, (wp_writeIteratorBackup _ _ _ _ _ H4 0); [lia|done|done|done|]. intros s5 H5 _.
  change (with_status _ _) with (rf3 n rn D) in H5.
  eapply wp_bind, wp_writeIterator; [done|done|split; simpl; [done|apply I2]|done|]. intros s6 H6.
  change (alter_rec _ _ _) with (rf4 n rn D) in H6.
  change (mkIt (r_prev rw) (r_next rw) w) with (it_at w rw).
  eapply wp_markDataAsErased; [done| | |exact HC|].
  - unfold rf4. rewrite rec_at_alter by auto with filecontainer.
    destruct (Z.eqb_spec w n); [done|exact Hrw].
  - unfold rf4. by rewrite file_end_alter by auto with filecontainer.
  - intros s7 H7. apply HQ. exact H7.
Qed.

(** One between [rp] at [p] and [rn] at [n]. *)
Definition rm1 (n : Z) (rn : rec) (D : disk) : disk := with_status rd_iterator2 (backup 0 (it_at n rn) D).
Definition rm2 (p : Z) (rp : rec) (n : Z) (rn : rec) (D : disk) : disk :=
  with_status rd_iterator3 (backup 1 (it_at p rp) (rm1 n rn D)).
Definition rm3 (p : Z) (rp : rec) (n : Z) (rn : rec) (D : disk) : disk :=
  alter_rec n (relink (p, r_next rn)) (rm2 p rp n rn D).
Definition rm4 (p : Z) (rp : rec) (n : Z) (rn : rec) (D : disk) : disk :=
  alter_rec p (relink (r_prev rp, n)) (rm3 p rp n rn D).
Definition remove_middle_disks (w : Z) (rw : rec) (p : Z) (rp : rec) (n : Z) (rn : rec) (D : disk)
    : list disk :=
  [D; backup 0 (it_at n rn) D; rm1 n rn D; backup 1 (it_at p rp) (rm1 n rn D); rm2 p rp n rn D;
   rm3 p rp n rn D] ++ mark_disks rd_mark2 w rw (rm4 p rp n rn D).

Lemma wp_remove_middle C Q s D o w rw p rp n rn :
  holds s D o → rec_at D w = Some rw → r_prev rw = p → r_next rw = n →
  rec_at D p = Some rp → rec_at D n = Some rn → w ≠ p → w ≠ n → p ≠ n → file_end D < 2 ^ 63 →
  Forall C (remove_middle_disks w rw p rp n rn D) →
  (∀ s', holds s' (marked rd_mark2 w rw (rm4 p rp n rn D)) o → Q tt s') →
  wp (remove_middle (it_at w rw) (Z.of_nat (length (r_data rw)))) Q C s.
Proof.
  intros H Hrw Hpw Hnw Hrp Hrn Hwp Hwn Hpn He HC HQ. unfold remove_middle_disks in HC.
  rewrite Forall_app, !Forall_cons in HC. destruct HC as ((C1&C2&C3&C4&C5&C6&_)&HC).
  pose proof (h_ok _ _ _ H) as Hok.
  destruct (rec_links_ok D n rn Hok Hrn He) as (I1&I2&I3).
  destruct (rec_links_ok D p rp Hok Hrp He) as (J1&J2&J3).
  unfold remove_middle. cbn [it_at fi_next fi_prev]. rewrite Hnw, Hpw.
  eapply wp_bind, wp_readIterator; [done|done|]. intros s1 H1 _.
  eapply wp_bind, wp_readIterator; [done|done|]. intros s2 H2 _.
  eapply wp_bind, (wp_writeIteratorBackup _ _ _ _ _ H2 0); [lia|done|done|done|]. intros s3 H3 _.
  change (with_status _ _) with (rm1 n rn D) in H3.
  eapply wp_bind, (wp_writeIteratorBackup _ _ _ _ _ H3 1); [lia|done|done|done|]. intros s4 H4 _.
  change (with_status _ _) with (rm2 p rp n rn D) in H4.
  eapply wp_bind, wp_writeIterator; [done|done|split; simpl; [done|apply I2]|done|]. intros s5 H5.
  change (alter_rec _ _ _) with (rm3 p rp n rn D) in H5.
  eapply wp_bind, wp_writeIterator; [done| |split; simpl; [apply J2|done]|done|].
  { unfold rm3. cbn [fi_current set_next]. rewrite rec_at_alter by auto with filecontainer.
    destruct (Z.eqb_spec p n); [done|exact Hrp]. }
  intros s6 H6. change (alter_rec _ _ _) with (rm4 p rp n rn D) in H6.
  change (mkIt (r_prev rw) (r_next rw) w) with (it_at w rw).
  eapply wp_markDataAsErased; [done| | |exact HC|].
  - unfold rm4, rm3. rewrite !rec_at_alter by auto with filecontainer.
    destruct (Z.eqb_spec w p); [done|]. destruct (Z.eqb_spec w n); [done|exact Hrw].
  - unfold rm4, rm3. by rewrite !file_end_alter by auto with filecontainer.
  - intros s7 H7. apply HQ. exact H7.
Qed.

(** The only one: the file is cut after the header. *)
Definition sizeIt : FileIterator := mkIt 391 391 391.
Definition ro1 (D : disk) : disk := with_status ft_begin (backup 0 sizeIt D).
Definition ro2 (D : disk) : disk := with_status ft_end (truncated 391 (ro1 D)).
Definition ro3 (D : disk) : disk := with_limits (391, 391) (ro2 D).
Definition ro4 (D : disk) : disk := with_removed (un_dead, un_beef) (ro3 D).
Definition remove_only_disks (D : disk) : list disk :=
  [D; backup 0 sizeIt D; ro1 D; truncated 391 (ro1 D); ro2 D; ro3 D].

Lemma boundary_start D : boundary D 391.
Proof.
  unfold boundary, rec_at. destruct (d_recs D) as [|r l]; [by left|]. right. by exists r.
Qed.

Lemma wp_remove_only C Q s D o :
  holds s D o → fc_size o = 1 → Forall C (remove_only_disks D) →
  (∀ s', holds s' (ro4 D) (set_removed no_removed (set_limits empty_limits o)) → Q tt s') →
  wp remove_only Q C s.
Proof.
  intros H Hsz HC HQ. unfold remove_only_disks in HC. rewrite !Forall_cons in HC.
  destruct HC as (C1&C2&C3&C4&C5&C6&_).
  unfold remove_only. eapply wp_member; [done|]. rewrite Hsz.
  eapply wp_run; [reflexivity|done|]. unfold eraseFile. change fc_s_headerSize with 391. apply wp_bind.
  eapply wp_bind, (wp_writeIteratorBackup _ _ _ _ _ H 0); [lia|done|done|done|]. intros s1 H1 _.
  change (with_status _ _) with (ro1 D) in H1.
  eapply wp_truncateFile; [done|done|apply boundary_start|done|done|]. intros s2 H2.
  eapply wp_update; [done|]. intros s3 H3 _. apply wp_bind. eapply wp_member; [done|].
  eapply wp_writeInitialPosition; [done|done|done|]. intros s4 H4.
  eapply wp_member; [done|].
  eapply wp_writeRemoved; [done|done|done|]. intros s5 H5. apply HQ. exact H5.
Qed.
(** ** Removing, on the list *)

Lemma seg_marked x w r D p0 L p1 :
  w ∉ L.*1 → seg D p0 L p1 → seg (marked x w r D) p0 L p1.
Proof.
  intros Hw HL. unfold marked. do 2 (apply seg_alter_other; [auto with filecontainer|done|]).
  by apply (seg_frame D).
Qed.
Lemma file_end_marked x w r D : file_end (marked x w r D) = file_end D.
Proof. unfold marked. rewrite !file_end_alter by auto with filecontainer. done. Qed.

Lemma list_delete_last D L p dp w dw rp rw x :
  list_of D (L ++ [(p, dp); (w, dw)]) → rec_at D p = Some rp →
  list_of (with_limits ((d_limits D).1, p)
            (marked x w rw (alter_rec p (relink (r_prev rp, file_end D)) D))) (L ++ [(p, dp)]).
Proof.
  intros HL Hrp. assert (Hsplit : L ++ [(p, dp); (w, dw)] = (L ++ [(p, dp)]) ++ [(w, dw)])
    by by rewrite <- app_assoc.
  pose proof (lo_nodup _ _ HL) as Hnd. pose proof (lo_seg _ _ HL) as Hs.
  rewrite Hsplit in Hnd, Hs. rewrite fmap_app in Hnd. apply NoDup_app in Hnd as (Hnd&Hdis&_).
  apply seg_app in Hs as [Hs _].
  assert (Hw : w ∉ (L ++ [(p, dp)]).*1) by (intros Hin; apply (Hdis w Hin); set_solver).
  constructor; try done.
  - change (file_end (with_limits _ ?D')) with (file_end D').
    rewrite file_end_marked, file_end_alter by auto with filecontainer.
    apply (seg_frame (marked x w rw (alter_rec p (relink (r_prev rp, file_end D)) D))); [done|].
    apply seg_marked; [done|].
    apply (seg_set_next D 0 L p dp w (r_prev rp, file_end D)); [done|done|].
    apply seg_app in Hs as [_ [(r&Hr&Hp&_) _]]. simpl. congruence.
  - simpl. rewrite last_pos_snoc, (lo_limits _ _ HL). simpl. rewrite !hd_pos_app. by destruct L.
  - by destruct L.
  - apply (lo_tail _ _ HL).
Qed.

Lemma list_delete_first D L w dw n dn rn rw x :
  list_of D ((w, dw) :: (n, dn) :: L) → rec_at D n = Some rn →
  list_of (with_limits (n, (d_limits D).2)
            (marked x w rw (alter_rec n (relink (0, r_next rn)) D))) ((n, dn) :: L).
Proof.
  intros HL Hrn. pose proof (lo_nodup _ _ HL) as [Hw Hnd]%NoDup_cons.
  destruct (lo_seg _ _ HL) as [_ Hs].
  constructor; try done.
  - change (file_end (with_limits _ ?D')) with (file_end D').
    rewrite file_end_marked, file_end_alter by auto with filecontainer.
    apply (seg_frame (marked x w rw (alter_rec n (relink (0, r_next rn)) D))); [done|].
    apply seg_marked; [done|].
    apply (seg_set_prev D w L n dn (file_end D) (0, r_next rn)); [done|done|].
    destruct Hs as [(r&Hr&_&Hn&_) _]. simpl. congruence.
  - simpl. by rewrite (lo_limits _ _ HL).
  - apply (lo_tail _ _ HL).
Qed.

Lemma list_delete_middle D L1 p dp w dw n dn L2 rp rn rw x :
  list_of D (L1 ++ (p, dp) :: (w, dw) :: (n, dn) :: L2) →
  rec_at D p = Some rp → rec_at D n = Some rn →
  list_of (marked x w rw (alter_rec p (relink (r_prev rp, n)) (alter_rec n (relink (p, r_next rn)) D)))
    (L1 ++ (p, dp) :: (n, dn) :: L2).
Proof.
  intros HL Hrp Hrn.
  assert (Hsplit : L1 ++ (p, dp) :: (w, dw) :: (n, dn) :: L2 =
    (L1 ++ [(p, dp)]) ++ (w, dw) :: (n, dn) :: L2) by by rewrite <- app_assoc.
  assert (Hsplit' : L1 ++ (p, dp) :: (n, dn) :: L2 = (L1 ++ [(p, dp)]) ++ (n, dn) :: L2)
    by by rewrite <- app_assoc.
  pose proof (lo_nodup _ _ HL) as Hnd. pose proof (lo_seg _ _ HL) as Hs.
  rewrite Hsplit in Hnd, Hs. rewrite fmap_app in Hnd. apply NoDup_app in Hnd as (Hnd1&Hdis&Hnd2).
  apply NoDup_cons in Hnd2 as [Hw2 Hnd2].
  apply seg_app in Hs as [Hs1 [_ Hs2]]. simpl hd_pos in Hs1.
  assert (Hw1 : w ∉ (L1 ++ [(p, dp)]).*1) by (intros Hin; apply (Hdis w Hin); set_solver).
  assert (Hp2 : p ∉ ((n, dn) :: L2).*1).
  { intros Hin. apply (Hdis p); [rewrite fmap_app; set_solver|by right]. }
  assert (Hn1 : n ∉ (L1 ++ [(p, dp)]).*1) by (intros Hin; apply (Hdis n Hin); set_solver).
  set (Dn := alter_rec n (relink (p, r_next rn)) D).
  set (Dp := alter_rec p (relink (r_prev rp, n)) Dn).
  rewrite Hsplit'. constructor.
  - rewrite file_end_marked. unfold Dp, Dn. rewrite !file_end_alter by auto with filecontainer.
    apply seg_marked; [rewrite fmap_app; apply not_elem_of_app; done|].
    apply seg_app. split.
    + apply (seg_set_next Dn 0 L1 p dp w (r_prev rp, n)); [|done|].
      * apply seg_alter_other; [auto with filecontainer|done|done].
      * apply seg_app in Hs1 as [_ [(r&Hr&Hp&_) _]]. simpl. congruence.
    + rewrite last_pos_snoc. apply seg_alter_other; [auto with filecontainer|done|].
      apply (seg_set_prev D w L2 n dn (file_end D) (p, r_next rn)); [done|done|].
      destruct Hs2 as [(r&Hr&_&Hn&_) _]. simpl. congruence.
  - rewrite fmap_app. apply NoDup_app. split_and!; [done| |done].
    intros y Hy Hy2. apply (Hdis y Hy). by right.
  - change (d_limits _) with (d_limits D). rewrite (lo_limits _ _ HL).
    rewrite Hsplit, !hd_pos_app, !last_pos_app. simpl. by destruct L1.
  - by destruct L1.
  - apply (lo_tail _ _ HL).
Qed.

Lemma list_delete_only D :
  list_of (with_limits (391, 391) (truncated 391 D)) [].
Proof.
  assert (E : d_recs (truncated 391 D) = []) by (simpl; by destruct (d_recs D)).
  constructor; try done. apply NoDup_nil_2.
Qed.

(** ** The whole of [remove_data] *)

Lemma wp_remove_data C Q s D o w rw :
  holds s D o → d_status D = closed → valid o D → ts_counter (d_stamp D) < 2 ^ 16 - 1 →
  0 < d_size D → rec_at D w = Some rw → r_good rw = true → C D →
  (∀ t, stamp_ok t → later t (d_stamp D) → C (with_stamp t D)) →
  (∀ t s1 o1, holds s1 (opened_disk t D) o1 → current o1 (opened_disk t D) → fc_stamp o1 = t →
    later t (d_stamp D) → stamp_ok t →
    wp (removeDataPointer (it_at w rw) (Z.of_nat (length (r_data rw))))
      (λ _ s2, ∃ D2 o2, holds s2 D2 o2 ∧ fc_size o2 = d_size D
         ∧ Forall C (finish_disks rd_empty (d_size D - 1) D2)
         ∧ ∀ s3, holds s3 (finished rd_empty (d_size D - 1) D2) (set_size (d_size D - 1) o2) → Q tt s3)
      C s1) →
  wp (remove_data w) Q C s.
Proof.
  intros H Hcl Hv Hts Hn Hrw Hg HC HCt Hbody. unfold remove_data.
  pose proof (h_ok _ _ _ H) as Hok. pose proof (ok_size D Hok) as Hsz.
  eapply wp_bind, wp_prologue; [done|done|done|]. intros s1 o1 m H1 Hcu _.
  eapply wp_bind, wp_updateTimeStamp; [done|apply Hcu|apply Hcu|done|done|]. intros s2 t Hgt Hst H2.
  assert (Hcu2 : current (set_stamp t o1) (opened_disk t D))
    by (destruct Hcu; constructor; try done; apply stamp_gt_irrefl).
  eapply wp_bind, wp_writeFileStatus; [done|by apply HCt|]. intros s3 H3 _.
  eapply wp_bind, wp_readIterator; [done|exact Hrw|]. intros s4 H4 P4.
  eapply wp_bind, wp_readSizeAndState; [done|exact Hrw|done|]. intros s5 H5 _.
  rewrite Hg, bool_decide_eq_true_2 by done.
  pose proof (Hbody t s5 (set_stamp t o1) H5 Hcu2 eq_refl Hgt Hst) as Hwp.
  eapply wp_bind, wp_mono; [|done|exact Hwp]. intros it s6 (D2&o2&H6&Hsz2&HCs&HQ). cbv beta.
  unfold finish_disks in HCs. rewrite !Forall_cons in HCs. destruct HCs as (C1&C2&C3&C4&_).
  eapply wp_bind, wp_createEmptyBackup; [done|done|done|]. intros s7 H7 _.
  eapply wp_member; [done|]. rewrite Hsz2. destruct (Z.eqb_spec (d_size D) 0); [lia|].
  eapply wp_run; [reflexivity|done|].
  eapply wp_bind, wp_member; [done|]. rewrite Hsz2, u64_small by lia.
  eapply wp_writeAndSetSize; [done|lia|done|]. intros s8 H8 _.
  eapply wp_writeFileStatus; [done|done|]. intros s9 H9 _. by apply HQ.
Qed.
Definition last_way (w : Z) (rw : rec) (p : Z) (rp : rec) (D : disk) : list disk :=
  remove_last_disks w rw p rp D
  ++ finish_disks rd_empty (d_size D - 1) (marked rd_mark1 w rw (rl4 p rp D)).
Definition first_way (w : Z) (rw : rec) (n : Z) (rn : rec) (D : disk) : list disk :=
  remove_first_disks w rw n rn D
  ++ finish_disks rd_empty (d_size D - 1) (marked rd_mark1 w rw (rf4 n rn D)).
Definition between_way (w : Z) (rw : rec) (p : Z) (rp : rec) (n : Z) (rn : rec) (D : disk) : list disk :=
  remove_middle_disks w rw p rp n rn D
  ++ finish_disks rd_empty (d_size D - 1) (marked rd_mark2 w rw (rm4 p rp n rn D)).
Definition only_way (D : disk) : list disk :=
  remove_only_disks D ++ finish_disks rd_empty (d_size D - 1) (ro4 D).

Section removals.
Context (s : St) (D : disk) (o : Container) (C : disk → Prop).

Lemma remove_the_last L p dp w dw rp rw :
  ready s D o (L ++ [(p, dp); (w, dw)]) → rec_at D p = Some rp → rec_at D w = Some rw →
  file_end D < 2 ^ 63 → (∀ D', leaves D (last_way w rw p rp) D' → C D') →
  wp (remove_data w) (λ _ s', result (L ++ [(p, dp)]) (file_end D) (d_stamp D) s') C s.
Proof.
  intros Hrd Hrp Hrw He HC. destruct (Forall_leaves _ _ _ HC) as [C0 C1].
  destruct Hrd as [H [Hok HL Hcl Hn] Hv Hts].
  assert (Hsplit : L ++ [(p, dp); (w, dw)] = (L ++ [(p, dp)]) ++ [(w, dw)]) by by rewrite <- app_assoc.
  pose proof HL as HL'. rewrite Hsplit in HL'. destruct (list_of_last _ _ _ _ HL') as (r&Hr&Hpr&Hnx&Hg&_).
  rewrite last_pos_snoc in Hpr. rewrite Hrw in Hr. injection Hr as <-.
  assert (Hp : 391 ≤ p < file_end D) by (eapply list_of_pos; [exact HL|rewrite fmap_app; set_solver]).
  assert (Hwp : w ≠ p).
  { pose proof (lo_nodup _ _ HL) as Hnd. rewrite fmap_app in Hnd. apply NoDup_app in Hnd as (_&_&Hnd).
    apply NoDup_cons in Hnd as [Hnd _]. set_solver. }
  rewrite length_app in Hn. simpl in Hn.
  eapply wp_remove_data; [done|done|done|done|lia|exact Hrw|done|done|intros; by apply C1|].
  intros t s1 o1 H1 Hcu Hst Hgt Ht. destruct (C1 t Ht Hgt) as [_ CW].
  unfold last_way in CW. apply Forall_app in CW as [CW CF].
  unfold removeDataPointer. eapply wp_getEnd; [done|]. intros s2 H2 _.
  change (file_end (opened_disk t D)) with (file_end D).
  assert (E1 : fi_next (it_at w rw) = file_end D) by exact Hnx.
  assert (E2 : fi_prev (it_at w rw) = p) by exact Hpr.
  rewrite E1, E2, Z.eqb_refl. destruct (Z.eqb_spec p 0); [lia|]. cbn [andb].
  eapply (wp_remove_last C _ s2 (opened_disk t D) o1 w rw p rp); try done.
  intros s3 H3. eexists _, _. split_and!; [exact H3|apply Hcu|exact CF|]. intros s4 H4.
  eapply finished_result; [exact H4| |..].
  - pose proof (list_delete_last D L p dp w dw rp rw rd_mark1 HL Hrp) as HA.
    eapply list_of_ext; [..|exact HA]; try done.
    + by destruct L.
    + apply HL.
  - simpl. rewrite Hn, length_app. simpl. lia.
  - simpl. apply Hcu.
  - simpl. rewrite Hst. done.
  - done.
  - rewrite file_end_marked. unfold rl4, rl3, rl2, rl1, rf4, rf3, rf2, rm4, rm3, rm2, rm1, opened_disk.
    by ended.
  - exact Hgt.
Qed.

Lemma remove_the_first L w dw n dn rn rw :
  ready s D o ((w, dw) :: (n, dn) :: L) → rec_at D n = Some rn → rec_at D w = Some rw →
  file_end D < 2 ^ 63 → (∀ D', leaves D (first_way w rw n rn) D' → C D') →
  wp (remove_data w) (λ _ s', result ((n, dn) :: L) (file_end D) (d_stamp D) s') C s.
Proof.
  intros Hrd Hrn Hrw He HC. destruct (Forall_leaves _ _ _ HC) as [C0 C1].
  destruct Hrd as [H [Hok HL Hcl Hn] Hv Hts].
  destruct (list_of_first _ _ _ _ HL) as (r&Hr&Hpr&Hnx&Hg&_).
  rewrite Hrw in Hr. injection Hr as <-. simpl in Hnx.
  assert (Hp : 391 ≤ n < file_end D) by (eapply list_of_pos; [exact HL|set_solver]).
  assert (Hwn : w ≠ n).
  { pose proof (lo_nodup _ _ HL) as Hnd. apply NoDup_cons in Hnd as [Hnd _]. set_solver. }
  simpl in Hn.
  eapply wp_remove_data; [done|done|done|done|lia|exact Hrw|done|done|intros; by apply C1|].
  intros t s1 o1 H1 Hcu Hst Hgt Ht. destruct (C1 t Ht Hgt) as [_ CW].
  unfold first_way in CW. apply Forall_app in CW as [CW CF].
  unfold removeDataPointer. eapply wp_getEnd; [done|]. intros s2 H2 _.
  change (file_end (opened_disk t D)) with (file_end D).
  assert (E1 : fi_next (it_at w rw) = n) by exact Hnx. assert (E2 : fi_prev (it_at w rw) = 0) by exact Hpr.
  rewrite E1, E2. destruct (Z.eqb_spec n (file_end D)); [lia|]. cbn [andb]. rewrite Z.eqb_refl.
  eapply (wp_remove_first C _ s2 (opened_disk t D) o1 w rw n rn); try done.
  intros s3 H3. eexists _, _. split_and!; [exact H3|apply Hcu|exact CF|]. intros s4 H4.
  eapply finished_result; [exact H4| |..].
  - pose proof (list_delete_first D L w dw n dn rn rw rd_mark1 HL Hrn) as HA.
    eapply list_of_ext; [..|exact HA]; try done. apply HL.
  - simpl. lia.
  - simpl. apply Hcu.
  - simpl. rewrite Hst. done.
  - done.
  - rewrite file_end_marked. unfold rl4, rl3, rl2, rl1, rf4, rf3, rf2, rm4, rm3, rm2, rm1, opened_disk.
    by ended.
  - exact Hgt.
Qed.

Lemma remove_between L1 p dp w dw n dn L2 rp rw rn :
  ready s D o (L1 ++ (p, dp) :: (w, dw) :: (n, dn) :: L2) →
  rec_at D p = Some rp → rec_at D w = Some rw → rec_at D n = Some rn →
  file_end D < 2 ^ 63 → (∀ D', leaves D (between_way w rw p rp n rn) D' → C D') →
  wp (remove_data w) (λ _ s', result (L1 ++ (p, dp) :: (n, dn) :: L2) (file_end D) (d_stamp D) s') C s.
Proof.
  intros Hrd Hrp Hrw Hrn He HC. destruct (Forall_leaves _ _ _ HC) as [C0 C1].
  destruct Hrd as [H [Hok HL Hcl Hn] Hv Hts].
  pose proof (lo_seg _ _ HL) as Hs.
  change (L1 ++ (p, dp) :: ?l) with (L1 ++ [(p, dp)] ++ l) in Hs. rewrite app_assoc in Hs.
  apply seg_app in Hs as [_ [(r&Hr&Hpr&Hnx&Hg&_) _]].
  rewrite last_pos_snoc in Hpr. rewrite Hrw in Hr. injection Hr as <-. simpl in Hnx.
  assert (Hp : 391 ≤ p < file_end D) by (eapply list_of_pos; [exact HL|rewrite fmap_app; set_solver]).
  assert (Hn' : 391 ≤ n < file_end D) by (eapply list_of_pos; [exact HL|rewrite fmap_app; set_solver]).
  assert (Hdist : p ≠ w ∧ p ≠ n ∧ w ≠ n).
  { pose proof (lo_nodup _ _ HL) as Hnd. rewrite fmap_app in Hnd. apply NoDup_app in Hnd as (_&_&Hnd).
    apply NoDup_cons in Hnd as [Hnd1 Hnd]. apply NoDup_cons in Hnd as [Hnd2 _]. set_solver. }
  rewrite length_app in Hn. simpl in Hn.
  eapply wp_remove_data; [done|done|done|done|lia|exact Hrw|done|done|intros; by apply C1|].
  intros t s1 o1 H1 Hcu Hst Hgt Ht. destruct (C1 t Ht Hgt) as [_ CW].
  unfold between_way in CW. apply Forall_app in CW as [CW CF].
  unfold removeDataPointer. eapply wp_getEnd; [done|]. intros s2 H2 _.
  change (file_end (opened_disk t D)) with (file_end D).
  assert (E1 : fi_next (it_at w rw) = n) by exact Hnx. assert (E2 : fi_prev (it_at w rw) = p) by exact Hpr.
  rewrite E1, E2. destruct (Z.eqb_spec n (file_end D)); [lia|]. destruct (Z.eqb_spec p 0); [lia|]. cbn [andb].
  eapply (wp_remove_middle C _ s2 (opened_disk t D) o1 w rw p rp n rn); try done; try tauto.
  { intros ->. tauto. }
  intros s3 H3. eexists _, _. split_and!; [exact H3|apply Hcu|exact CF|]. intros s4 H4.
  eapply finished_result; [exact H4| |..].
  - pose proof (list_delete_middle D L1 p dp w dw n dn L2 rp rn rw rd_mark2 HL Hrp Hrn) as HA.
    eapply list_of_ext; [..|exact HA]; try done.
    + by destruct L1.
    + apply HL.
  - simpl. rewrite Hn, length_app. simpl. lia.
  - apply Hcu.
  - rewrite Hst. done.
  - apply Hcu.
  - rewrite file_end_marked. unfold rl4, rl3, rl2, rl1, rf4, rf3, rf2, rm4, rm3, rm2, rm1, opened_disk.
    by ended.
  - exact Hgt.
Qed.

Lemma remove_the_only w dw rw :
  ready s D o [(w, dw)] → rec_at D w = Some rw → file_end D < 2 ^ 63 →
  (∀ D', leaves D only_way D' → C D') →
  wp (remove_data w) (λ _ s', result [] 391 (d_stamp D) s') C s.
Proof.
  intros Hrd Hrw He HC. destruct (Forall_leaves _ _ _ HC) as [C0 C1].
  destruct Hrd as [H [Hok HL Hcl Hn] Hv Hts].
  destruct (list_of_first _ _ _ _ HL) as (r&Hr&Hpr&Hnx&Hg&_).
  rewrite Hrw in Hr. injection Hr as <-. simpl in Hnx. simpl in Hn.
  eapply wp_remove_data; [done|done|done|done|lia|exact Hrw|done|done|intros; by apply C1|].
  intros t s1 o1 H1 Hcu Hst Hgt Ht. destruct (C1 t Ht Hgt) as [_ CW].
  unfold only_way in CW. apply Forall_app in CW as [CW CF].
  unfold removeDataPointer. eapply wp_getEnd; [done|]. intros s2 H2 _.
  change (file_end (opened_disk t D)) with (file_end D).
  assert (E1 : fi_next (it_at w rw) = file_end D) by exact Hnx.
  assert (E2 : fi_prev (it_at w rw) = 0) by exact Hpr. rewrite E1, E2, !Z.eqb_refl. cbn [andb].
  eapply (wp_remove_only C _ s2 (opened_disk t D) o1); try done.
  { rewrite (cu_size _ _ Hcu). exact Hn. }
  intros s3 H3. eexists _, _. split_and!; [exact H3|apply Hcu|exact CF|]. intros s4 H4.
  eapply finished_result; [exact H4| |..].
  - pose proof (list_delete_only D) as HA. eapply list_of_ext; [..|exact HA]; try done.
    intros _. simpl. by destruct (d_recs D).
  - simpl. rewrite Hn. done.
  - simpl. apply Hcu.
  - simpl. rewrite Hst. done.
  - done.
  - exact (truncated_end _ _ (boundary_start (ro1 (opened_disk t D)))).
  - exact Hgt.
Qed.
End removals.
