(* ===== verification/FileCrash.v ===== *)
(** * Recovery of a file container

    What the consistency check and the recovery of each status do, and the crash safety
    of the two operations: whatever the write after which a process dies, the next one
    that opens the file finds the list as it was or as it should have become, but for
    one point that is described exactly. *)

From S2P Require Import Prelude Machine FileText FileContainer FileLayout FileRules FileList.
From S2P Require Import FileOps FileRemove.

Notation any := (λ _ : disk, True).

(** ** The consistency check *)

(** The end of the last record of a list, and no less than [m]. *)
Fixpoint ext_max (m : Z) (L : elems) : Z :=
  match L with
  | [] => m
  | (p, d) :: L => ext_max (Z.max m (p + data_size d)) L
  end.

Lemma ext_max_spec m L :
  m ≤ ext_max m L ∧ (∀ p d, (p, d) ∈ L → p + data_size d ≤ ext_max m L)
  ∧ (ext_max m L = m ∨ ∃ p d, (p, d) ∈ L ∧ ext_max m L = p + data_size d).
Proof.
  revert m. induction L as [|[p d] L IH]; intros m; simpl.
  - split_and!; [lia|set_solver|by left].
  - destruct (IH (Z.max m (p + data_size d))) as (H1&H2&H3). split_and!.
    + lia.
    + intros q d' [[= -> ->]|Hq]%elem_of_cons; [lia|by apply (H2 q)].
    + destruct H3 as [->|(q&d'&Hq&->)]; [|right; exists q, d'; split; [by right|done]].
      destruct (Z.max_spec m (p + data_size d)) as [[_ ->]|[_ ->]]; [|by left].
      right. exists p, d. split; [by left|done].
Qed.

Lemma wp_check_loop Q n e L' : ∀ fuel s D o m det p d r pp,
  holds s D o → seg D pp ((p, d) :: L') e → e = file_end D →
  NoDup ((p, d) :: L').*1 → (∀ q, q ∈ ((p, d) :: L').*1 → 391 ≤ q < e) →
  fi_next (fc_limits o) = last_pos p L' → rec_at D p = Some r → s_pos s = p + 34 →
  (length L' < fuel)%nat → 0 ≤ det → det + Z.of_nat (S (length L')) < 2 ^ 64 →
  (∀ s' rl, holds s' D o → rec_at D (last_pos p L') = Some rl →
     wp (check_last n e (ext_max m ((p, d) :: L')) (det + Z.of_nat (S (length L')))
           (it_at (last_pos p L') rl)) Q any s') →
  wp (check_loop fuel n e m det (it_at p r)) Q any s.
Proof.
  induction L' as [|[p2 d2] L' IH];
    intros fuel s D o m det p d r pp H Hs -> Hnd Hpos Hlast Hr Hp Hf Hdet Hlen HQ;
    (destruct fuel as [|fuel]; [simpl in Hf; lia|]); cbn [check_loop];
    destruct Hs as [(r'&Hr'&Hpr&Hnx&Hg&Hd) Hs]; rewrite Hr in Hr'; injection Hr' as <-;
    (eapply wp_good; [done|]);
    (assert (Hrd : ∃ s1, attempt readSizeAndState s =
        Some (inr (inr (Z.of_nat (length d), state_char true)), s1) ∧ holds s1 D o
        ∧ (s_budget s = None → s_budget s1 = None));
      [ pose proof (wp_readSizeAndState (λ _, False) s D o H p r
          (λ a s1, a = (Z.of_nat (length d), state_char true) ∧ holds s1 D o) Hr Hp) as Hw;
        destruct (wp_pure _ _ _ (Hw ltac:(intros s1 H1 _; rewrite Hd, Hg; done))) as (a&s1&E&Hb&->&H1);
        exists s1; unfold attempt; by rewrite E | ]);
    destruct Hrd as (s1&E&H1&Hb); apply wp_bind; eapply wp_frame; [exact E|done| | exact E|done|];
    (eapply wp_member; [done|]); rewrite Hlast; cbn [it_at fi_current];
    change (calculateDataSize (Z.of_nat (length d)) fc_s_sizeSize) with (data_size d).
  - simpl in Hlen. cbn [last_pos]. rewrite Z.eqb_refl. rewrite u64_small by lia.
    apply (HQ s1 r); done.
  - simpl in Hlen, Hf. rewrite u64_small by lia.
    assert (Hne : p ≠ last_pos p ((p2, d2) :: L')).
    { intros E'. apply NoDup_cons in Hnd as [Hnd _]. apply Hnd. rewrite E' at 1. by apply last_pos_in. }
    destruct (Z.eqb_spec p (last_pos p ((p2, d2) :: L'))); [done|].
    assert (Hp2 : 391 ≤ p2 < file_end D) by (apply Hpos; set_solver).
    unfold check_bounds. change (fi_next (it_at p r)) with (r_next r). rewrite Hnx. cbn [hd_pos].
    change fc_s_headerSize with 391. rewrite (proj2 (Z.ltb_ge p2 391)), (proj2 (Z.leb_gt (file_end D) p2)) by lia.
    cbn [orb]. eapply wp_run; [reflexivity|done|].
    pose proof Hs as [(r2&Hr2&_) _].
    eapply wp_bind, wp_readIterator; [exact H1|exact Hr2|]. intros s2 H2 P2.
    eapply (IH fuel s2 D o _ (det + 1) p2 d2 r2 p); try done.
    + by apply NoDup_cons in Hnd as [_ Hnd].
    + intros q Hq. apply Hpos. by right.
    + lia.
    + lia.
    + lia.
    + intros s3 rl H3 Hrl. replace (det + 1 + Z.of_nat (S (length L'))) with
        (det + Z.of_nat (S (length ((p2, d2) :: L')))) by (simpl; lia). by apply HQ.
Qed.
(** Cutting the file after the last record of the list. *)
Lemma boundary_after D p r : rec_at D p = Some r → boundary D (p + rec_size r).
Proof.
  intros Hr. pose proof (rec_in_bounds _ _ _ _ Hr) as [_ Hb].
  destruct (decide (p + rec_size r < 391 + recs_size (d_recs D))) as [Hlt|Hge].
  - right. by apply (rec_in_next 391 (d_recs D) p r).
  - left. lia.
Qed.

Lemma list_extent D L :
  list_of D L → L ≠ [] → boundary D (ext_max 0 L) ∧ 0 < ext_max 0 L ≤ file_end D
    ∧ ∀ p, p ∈ L.*1 → p < ext_max 0 L.
Proof.
  intros HL Hne. destruct (ext_max_spec 0 L) as (H1&H2&H3).
  assert (Hlt : ∀ p, p ∈ L.*1 → p < ext_max 0 L).
  { intros p ([q d]&->&Hq)%list_elem_of_fmap. specialize (H2 q d Hq).
    pose proof (data_size_rec d). simpl. lia. }
  pose proof (Hlt _ (hd_pos_in L 0 Hne)) as Hpos.
  pose proof (list_of_pos D L _ HL (hd_pos_in L 0 Hne)) as Hpos'.
  destruct H3 as [E|(p&d&Hp&E)]; [lia|].
  destruct (seg_in _ _ _ _ _ _ (lo_seg _ _ HL) Hp) as (r&Hr&_&Hd).
  assert (Hsz : rec_size r = data_size d) by (unfold rec_size; rewrite data_size_rec, Hd; done).
  rewrite E, <- Hsz in *. split_and!; [by apply boundary_after|lia| |done].
  by apply rec_at_end.
Qed.

Lemma list_cut D L q rl M :
  list_of D L → L ≠ [] → last_pos 391 L = q → rec_at D q = Some rl →
  M = ext_max 0 L →
  list_of (alter_rec q (relink (r_prev rl, M)) (truncated M D)) L.
Proof.
  intros HL Hne Hq Hrl ->. destruct (list_extent D L HL Hne) as (Hb&Hm&Hlt).
  set (M := ext_max 0 L) in *.
  assert (Hrec : ∀ p, p ∈ L.*1 → rec_at (truncated M D) p = rec_at D p).
  { intros p Hp. rewrite truncated_at by done. specialize (Hlt p Hp).
    by rewrite (proj2 (Z.ltb_lt p M)). }
  constructor; [|apply HL|exact (lo_limits _ _ HL)|done|done].
  rewrite file_end_alter by auto with filecontainer. rewrite <- (truncated_end D M Hb) at 1.
  apply (seg_reset _ _ _ _ (file_end D)).
  - apply (seg_frame D); [done|]. apply HL.
  - apply HL.
  - done.
  - done.
  - rewrite Hrec; [done|]. rewrite <- Hq. by apply last_pos_in.
Qed.

(** How the stored size may differ from the length of the list for the check with the
    allowed offset [n] to put it right. *)
Definition size_ok (n sz len : Z) : Prop :=
  sz = len ∨ n = 1 ∧ sz = len - 1 ∨ n = -1 ∧ sz = len + 1 ∨ n = 0.

(** What a recovery gives back: the list, with an object in step with the disk but for
    the status. *)
Record regained (s : St) (L : elems) (t : TimeStamp) (o0 : Container) : Prop := {
  rg : ∃ D o, holds s D o ∧ list_of D L ∧ d_size D = Z.of_nat (length L)
       ∧ fc_size o = Z.of_nat (length L) ∧ fc_limits o = mkIt (d_limits D).1 (d_limits D).2 0
       ∧ d_stamp D = t ∧ fc_stamp o = fc_stamp o0 ∧ fc_initialized o = fc_initialized o0
}.

Lemma wp_check_last n s D o L rl Q :
  holds s D o → list_of D L → L ≠ [] → fc_limits o = mkIt (d_limits D).1 (d_limits D).2 0 →
  fc_size o = d_size D → size_ok n (d_size D) (Z.of_nat (length L)) → file_end D < 2 ^ 63 →
  rec_at D (last_pos 391 L) = Some rl →
  (∀ s', regained s' L (d_stamp D) o → Q tt s') →
  wp (check_last n (file_end D) (ext_max 0 L) (Z.of_nat (length L)) (it_at (last_pos 391 L) rl)) Q any s.
Proof.
  intros H HL Hne Hlim Hsz Hn He Hrl HQ. destruct (list_extent D L HL Hne) as (Hb&Hm&Hlt).
  pose proof (list_of_length D L HL) as Hlen.
  unfold check_last. eapply wp_member; [done|]. rewrite Hsz.
  assert (Hfix : ∀ (Q' : unit → St → Prop),
    (∀ s', holds s' (with_size (Z.of_nat (length L)) D) (set_size (Z.of_nat (length L)) o) → Q' tt s') →
    wp (if negb (Z.of_nat (length L) =? d_size D)
      && (((0 <? n) && (0 <? i32 (Z.of_nat (length L) - d_size D))
            && (i32 (Z.of_nat (length L) - d_size D) <=? n))
          || ((n <? 0) && (i32 (Z.of_nat (length L) - d_size D) <? 0)
               && (n <=? i32 (Z.of_nat (length L) - d_size D))) || (n =? 0))
   then writeAndSetSize (Z.of_nat (length L)) else mret tt) Q' any s).
  { intros Q' HQ'. destruct (Z.eqb_spec (Z.of_nat (length L)) (d_size D)) as [E|Hd]; cbn [negb andb].
    - apply wp_ret. apply HQ'. rewrite E.
      assert (E1 : with_size (d_size D) D = D) by by destruct D.
      assert (E2 : set_size (d_size D) o = o) by (rewrite <- Hsz; by destruct o).
      by rewrite E1, E2.
    - assert (Hc : ((0 <? n) && (0 <? i32 (Z.of_nat (length L) - d_size D))
            && (i32 (Z.of_nat (length L) - d_size D) <=? n))
          || ((n <? 0) && (i32 (Z.of_nat (length L) - d_size D) <? 0)
               && (n <=? i32 (Z.of_nat (length L) - d_size D))) || (n =? 0) = true).
      { destruct Hn as [|[[-> ->]|[[-> ->]| ->]]]; [congruence| | |by rewrite !orb_true_r].
        - replace (Z.of_nat (length L) - (Z.of_nat (length L) - 1)) with 1 by lia. done.
        - replace (Z.of_nat (length L) - (Z.of_nat (length L) + 1)) with (-1) by lia. done. }
      rewrite Hc. eapply wp_writeAndSetSize; [done|lia|done|]. intros s' H' _. by apply HQ'. }
  apply wp_bind, Hfix. intros s1 H1.
  destruct (Z.ltb_spec (ext_max 0 L) (file_end D)) as [Hcut|Hnocut].
  - eapply wp_bind, wp_truncateFile; [done|lia|exact Hb|done|done|]. intros s2 H2.
    eapply wp_getEnd; [done|]. intros s3 H3 _.
    set (D1 := with_size (Z.of_nat (length L)) D) in *.
    assert (Hend : file_end (with_status ft_end (truncated (ext_max 0 L) D1)) = ext_max 0 L)
      by by apply (truncated_end D1).
    rewrite Hend in *.
    assert (Hlast : last_pos 391 L ∈ L.*1) by by apply last_pos_in.
    assert (Hnx : r_next rl = file_end D).
    { destruct (exists_last Hne) as (L0&[q dq]&E). rewrite E in HL.
      destruct (list_of_last _ _ _ _ HL) as (r&Hr&_&Hx&_). rewrite E, last_pos_snoc in Hrl. congruence. }
    change (fi_next (it_at _ rl)) with (r_next rl). rewrite Hnx.
    destruct (Z.eqb_spec (file_end D) (ext_max 0 L)); [lia|]. cbn [negb].
    assert (Hrl' : rec_at (truncated (ext_max 0 L) D1) (last_pos 391 L) = Some rl).
    { rewrite (truncated_at D1) by exact Hb. by rewrite (proj2 (Z.ltb_lt _ _) (Hlt _ Hlast)). }
    destruct (rec_at_ok D _ _ (h_ok _ _ _ H) Hrl) as ((Hlinks&_&_)&_&_).
    eapply wp_writeIterator; [done|exact Hrl'|split; simpl; [apply Hlinks|split; lia]|done|].
    intros s4 H4. apply HQ. constructor. eexists _, _. split_and!; [exact H4| |done..].
    pose proof (list_cut D L _ rl _ HL Hne eq_refl Hrl eq_refl) as HA.
    eapply list_of_ext; [..|exact HA]; done.
  - apply wp_ret. apply HQ. constructor. eexists _, _. split_and!; [exact H1| |done..].
    eapply list_of_ext; [..|exact HL]; try done; apply HL.
Qed.

Lemma wp_checkConsistency n s D o L Q :
  holds s D o → list_of D L → L ≠ [] → fc_limits o = mkIt (d_limits D).1 (d_limits D).2 0 →
  size_ok n (d_size D) (Z.of_nat (length L)) → file_end D < 2 ^ 63 →
  (∀ s', regained s' L (d_stamp D) o → Q tt s') →
  wp (checkConsistency n) Q any s.
Proof.
  intros H HL Hne Hlim Hn He HQ. unfold checkConsistency.
  pose proof (list_of_length D L HL) as Hlen.
  eapply wp_getEnd; [done|]. intros s1 H1 _. eapply wp_bind, wp_readSize; [done|]. intros s2 H2.
  eapply wp_member; [done|]. cbn [fc_limits set_size]. rewrite Hlim, (lo_limits _ _ HL). cbn [fi_prev fst].
  destruct L as [|[f df] L]; [done|]. cbn [hd_pos].
  destruct (list_of_first _ _ _ _ HL) as (r&Hr&_).
  eapply wp_bind, wp_readIterator; [done|done|]. intros s3 H3 P3.
  eapply wp_gets.
  eapply (wp_check_loop _ _ _ L _ _ D _ _ _ f df r 0); try exact H3; try done.
  - apply HL.
  - apply HL.
  - intros q Hq. by eapply list_of_pos.
  - cbn [fc_limits set_size]. rewrite Hlim, (lo_limits _ _ HL). done.
  - rewrite (h_file _ _ _ H3). pose proof (layout_length D (h_ok _ _ _ H)) as Hl.
    simpl in Hlen. lia.
  - simpl in Hlen. lia.
  - intros s4 rl H4 Hrl. eapply (wp_check_last n s4 D _ ((f, df) :: L) rl); try exact H4; try done.
    intros s5 [(D5&o5&Hrg)]. apply HQ. constructor. exists D5, o5. exact Hrg.
Qed.
(** ** Restoring what was changed *)

(** The records of [D] before [e] are in [D'], but for the links of those in [T] and the
    marks of those in [M]. *)
Definition agree (e : Z) (T M : list Z) (D' D : disk) : Prop :=
  ∀ p r, p < e → rec_at D p = Some r →
    ∃ y g, rec_at D' p = Some (remark g (relink y r))
      ∧ (p ∉ T → y = links r) ∧ (p ∉ M → g = r_good r).

Lemma agree_refl e D : agree e [] [] D D.
Proof.
  intros p r _ Hr. exists (links r), (r_good r). split_and!; [|done|done]. by destruct r.
Qed.

Lemma agree_ext e T M D1 D2 D : (∀ p, rec_at D2 p = rec_at D1 p) → agree e T M D1 D → agree e T M D2 D.
Proof. intros HD H p r Hp Hr. rewrite HD. by apply H. Qed.

Lemma agree_relink e T M D' D p x : agree e T M D' D → agree e (p :: T) M (alter_rec p (relink x) D') D.
Proof.
  intros H q r Hq Hr. destruct (H q r Hq Hr) as (y&g&E&Hy&Hg).
  rewrite rec_at_alter by auto with filecontainer. destruct (Z.eqb_spec q p) as [->|Hne].
  - rewrite E. exists x, g. split_and!; [done|set_solver|done].
  - exists y, g. split_and!; [done| |done]. intros Hn. apply Hy. set_solver.
Qed.

Lemma agree_remark e T M D' D p g : agree e T M D' D → agree e T (p :: M) (alter_rec p (remark g) D') D.
Proof.
  intros H q r Hq Hr. destruct (H q r Hq Hr) as (y&g'&E&Hy&Hg).
  rewrite rec_at_alter by auto with filecontainer. destruct (Z.eqb_spec q p) as [->|Hne].
  - rewrite E. exists y, g. split_and!; [done|done|set_solver].
  - exists y, g'. split_and!; [done|done|]. intros Hn. apply Hg. set_solver.
Qed.

Lemma agree_restore e T T' M D' D p r :
  rec_at D p = Some r → (∀ x, x ∈ T → x = p ∨ x ∈ T') →
  agree e T M D' D → agree e T' M (alter_rec p (relink (links r)) D') D.
Proof.
  intros Hp HT H q r' Hq Hr. destruct (H q r' Hq Hr) as (y&g&E&Hy&Hg).
  rewrite rec_at_alter by auto with filecontainer. destruct (Z.eqb_spec q p) as [->|Hne].
  - rewrite E. exists (links r), g. split_and!; [done| |done].
    intros _. rewrite Hp in Hr. by injection Hr as <-.
  - exists y, g. split_and!; [done| |done]. intros Hn. apply Hy. intros Hin.
    destruct (HT q Hin) as [->|Hin']; done.
Qed.

Lemma agree_unmark e T M M' D' D p r :
  rec_at D p = Some r → (∀ x, x ∈ M → x = p ∨ x ∈ M') →
  agree e T M D' D → agree e T M' (alter_rec p (remark (r_good r)) D') D.
Proof.
  intros Hp HM H q r' Hq Hr. destruct (H q r' Hq Hr) as (y&g&E&Hy&Hg).
  rewrite rec_at_alter by auto with filecontainer. destruct (Z.eqb_spec q p) as [->|Hne].
  - rewrite E. exists y, (r_good r). split_and!; [done|done|].
    intros _. rewrite Hp in Hr. by injection Hr as <-.
  - exists y, g. split_and!; [done|done|]. intros Hn. apply Hg. intros Hin.
    destruct (HM q Hin) as [->|Hin']; done.
Qed.

Lemma agree_truncated e T M D' D c :
  boundary D' c → e ≤ c → agree e T M D' D → agree e T M (truncated c D') D.
Proof.
  intros Hb Hc H p r Hp Hr. rewrite truncated_at by done.
  rewrite (proj2 (Z.ltb_lt p c)) by lia. by apply H.
Qed.

Lemma agree_appended e T M D' D nr :
  d_tail D' = [] → e ≤ file_end D' → agree e T M D' D → agree e T M (appended nr D') D.
Proof.
  intros Ht He H p r Hp Hr. rewrite appended_at by done.
  destruct (Z.eqb_spec p (file_end D')); [lia|]. by apply H.
Qed.

Lemma agree_list D D' L :
  list_of D L → L ≠ [] → agree (file_end D) [] [] D' D → file_end D' = file_end D →
  d_limits D' = d_limits D → d_tail D' = [] → list_of D' L.
Proof.
  intros HL Hne H He Hl Ht. eapply list_of_ext; [|exact He|exact Hl|done|exact Ht|exact HL].
  intros p Hp. destruct (list_of_at D L p HL Hp) as [r Hr].
  pose proof (list_of_pos D L p HL Hp) as Hpos.
  destruct (H p r) as (y&g&E&Hy&Hg); [lia|done|]. rewrite E, Hr, Hy, Hg by set_solver.
  by destruct r.
Qed.

(** ** The pieces of a recovery *)

(** The object as [initContainer] has it before a recovery. *)
Definition fresh (o : Container) (D : disk) : Prop :=
  fc_limits o = mkIt (d_limits D).1 (d_limits D).2 0 ∧ fc_size o = d_size D.

Lemma wp_restore_iterator k s D o it r Q :
  holds s D o → d_backups D !! k = Some it → rec_at D (fi_current it) = Some r →
  (∀ s', holds s' (alter_rec (fi_current it) (relink (pair_of it)) D) o → Q tt s') →
  wp (restore_iterator (Z.of_nat k)) Q any s.
Proof.
  intros H Hk Hr HQ. unfold restore_iterator.
  assert (Hit : it_ok it) by (eapply Forall_lookup_1; [apply H|done]).
  eapply wp_bind, wp_readIteratorBackup; [done|done|]. intros s1 H1.
  eapply wp_writeIterator; [done|done|split; apply Hit|done|done].
Qed.

Lemma wp_restore_limits s D o Q :
  holds s D o → fresh o D →
  (∀ s' o', holds s' (with_limits (d_lb D) D) o' → fresh o' (with_limits (d_lb D) D) →
     fc_stamp o' = fc_stamp o → fc_initialized o' = fc_initialized o → Q tt s') →
  wp restore_limits Q any s.
Proof.
  intros H [Ho Hsz] HQ. unfold restore_limits. eapply wp_member; [done|]. rewrite Ho.
  eapply wp_bind, wp_readLimitsBackup; [done|]. intros s1 H1. cbn [fi_current].
  eapply wp_update; [done|]. intros s2 H2 _. eapply wp_member; [done|].
  assert (Hp : pair_of (mkIt (d_lb D).1 (d_lb D).2 0) = d_lb D) by (unfold pair_of; cbn; by destruct (d_lb D)).
  eapply wp_writeInitialPosition; [done| |done|].
  - cbn [fc_limits set_limits]. rewrite Hp. apply H.
  - cbn [fc_limits set_limits]. rewrite Hp. intros s3 H3. by eapply HQ.
Qed.

(** What has to hold when a recovery reaches the consistency check. *)
Lemma wp_final_check n s D' D o o0 L Q :
  holds s D' o → fresh o D' → list_of D L → L ≠ [] → file_end D < 2 ^ 63 →
  agree (file_end D) [] [] D' D → file_end D' = file_end D → d_limits D' = d_limits D → d_tail D' = [] →
  size_ok n (d_size D') (Z.of_nat (length L)) → fc_stamp o = fc_stamp o0 →
  fc_initialized o = fc_initialized o0 →
  (∀ s', regained s' L (d_stamp D') o0 → Q tt s') →
  wp (checkConsistency n) Q any s.
Proof.
  intros H Ho HL Hne He Hag Hend Hlim Ht Hsz Hst Hin HQ.
  eapply (wp_checkConsistency n s D' o L); [done|by eapply agree_list|done|apply Ho|done|lia|].
  intros s' [(D2&o2&H2&H3&H4&H5&H6&H7&H8&H9)]. apply HQ. constructor. exists D2, o2.
  by rewrite <- Hst, <- Hin.
Qed.
(** ** The recovery of each status *)

(** From [D'], [m] gives back the list [L]. *)
Definition regains (m : E unit) (D' : disk) (L : elems) : Prop :=
  ∀ s o Q, holds s D' o → fresh o D' →
    (∀ s', regained s' L (d_stamp D') o → Q tt s') → wp m Q any s.

Lemma regains_mono (m : E unit) s D' o L o0 Q :
  regains m D' L → holds s D' o → fresh o D' → fc_stamp o = fc_stamp o0 →
  fc_initialized o = fc_initialized o0 →
  (∀ s', regained s' L (d_stamp D') o0 → Q tt s') → wp m Q any s.
Proof.
  intros Hr H Ho Hs Hi HQ. apply (Hr s o Q H Ho). intros s' [(D2&o2&H2)]. apply HQ. constructor.
  exists D2, o2. by rewrite <- Hs, <- Hi.
Qed.

Section recovery.
Context (D : disk) (L : elems) (HL : list_of D L) (Hne : L ≠ []) (He : file_end D < 2 ^ 63).

(** What every crashed disk keeps of [D]. *)
Record crashed (T M : list Z) (D' : disk) : Prop := {
  cr_agree : agree (file_end D) T M D' D;
  cr_end : file_end D' = file_end D;
  cr_tail : d_tail D' = []
}.

Lemma crashed_at T M D' p r : crashed T M D' → rec_at D p = Some r → ∃ r', rec_at D' p = Some r'.
Proof.
  intros [Hag _ _] Hr. pose proof (rec_at_end _ _ _ Hr). pose proof (rec_size_pos r).
  destruct (Hag p r) as (y&g&E&_); [lia|done|]. eauto.
Qed.

Lemma crashed_restore T T' M D' p r :
  crashed T M D' → rec_at D p = Some r → (∀ x, x ∈ T → x = p ∨ x ∈ T') →
  crashed T' M (alter_rec p (relink (links r)) D').
Proof.
  intros [Hag Hend Ht] Hr HT. constructor; [by eapply agree_restore| |done].
  by rewrite file_end_alter by auto with filecontainer.
Qed.

Lemma regains_check n D' :
  crashed [] [] D' → d_limits D' = d_limits D → size_ok n (d_size D') (Z.of_nat (length L)) →
  regains (checkConsistency n) D' L.
Proof.
  intros [Hag Hend Ht] Hlim Hsz s o Q H Ho HQ.
  by eapply (wp_final_check n s D' D o o L).
Qed.

Lemma regains_restore (m : E unit) k D' T M p r :
  crashed T M D' → d_backups D' !! k = Some (it_at p r) → rec_at D p = Some r →
  regains m (alter_rec p (relink (links r)) D') L →
  regains (restore_iterator (Z.of_nat k);; m) D' L.
Proof.
  intros Hcr Hk Hr Hm s o Q H Ho HQ. destruct (crashed_at _ _ _ _ _ Hcr Hr) as [r' Hr'].
  eapply wp_bind, wp_restore_iterator; [done|done|done|]. intros s1 H1.
  eapply (regains_mono m s1 _ o L o); [exact Hm|exact H1|done|done|done|done].
Qed.

Lemma regains_limits (m : E unit) D' :
  regains m (with_limits (d_lb D') D') L → regains (restore_limits;; m) D' L.
Proof.
  intros Hm s o Q H Ho HQ. eapply wp_bind, wp_restore_limits; [done|done|]. intros s1 o1 H1 Ho1 Hs Hi.
  by eapply (regains_mono m s1 _ o1 L o).
Qed.

(** One iterator to restore, then the check. *)
Lemma regains_iterator n D' p r :
  crashed [p] [] D' → d_backups D' !! 0%nat = Some (it_at p r) → rec_at D p = Some r →
  d_limits D' = d_limits D → size_ok n (d_size D') (Z.of_nat (length L)) →
  regains (restore_iterator 0;; checkConsistency n) D' L.
Proof.
  intros Hcr Hk Hr Hlim Hsz. eapply (regains_restore _ 0); [done|done|done|].
  apply regains_check; [|done|done]. eapply crashed_restore; [done|done|set_solver].
Qed.

Lemma regains_limits_iterator n D' p r :
  crashed [p] [] D' → d_backups D' !! 0%nat = Some (it_at p r) → rec_at D p = Some r →
  d_lb D' = d_limits D → size_ok n (d_size D') (Z.of_nat (length L)) →
  regains (restore_limits;; restore_iterator 0;; checkConsistency n) D' L.
Proof.
  intros [Hag Hend Ht] Hk Hr Hlb Hsz. apply regains_limits.
  eapply regains_iterator; [|exact Hk|exact Hr|exact Hlb|exact Hsz]. by constructor.
Qed.

(** The new record, whole or not, is cut off. *)
Lemma truncated_crashed T M D' :
  agree (file_end D) T M D' D → boundary D' (file_end D) → crashed T M (truncated (file_end D) D').
Proof.
  intros Hag Hb. constructor; [by apply agree_truncated|by apply truncated_end|done].
Qed.

Lemma regains_cut (m : E unit) (f : FileIterator → Z) D' :
  boundary D' (file_end D) →
  f (mkIt (d_limits D').1 (d_limits D').2 0) = file_end D →
  regains m (with_status ft_end (truncated (file_end D) D')) L →
  regains (limits ← readInitialPosition (mkIt 0 0 0) false; truncateFile (f limits);; m) D' L.
Proof.
  intros Hb Hf Hm s o Q H Ho HQ. pose proof (file_end_pos D) as He0.
  eapply wp_bind, wp_readInitialPosition; [done|]. intros s1 H1. cbn [fi_current]. rewrite Hf.
  eapply wp_bind, wp_truncateFile; [done|lia|done|done|done|]. intros s2 H2.
  by eapply (regains_mono m s2 _ o L o).
Qed.

Lemma regains_adding n (f : FileIterator → Z) D' p r :
  agree (file_end D) [p] [] D' D → boundary D' (file_end D) →
  f (mkIt (d_limits D').1 (d_limits D').2 0) = file_end D →
  d_backups D' !! 0%nat = Some (it_at p r) → rec_at D p = Some r → d_lb D' = d_limits D →
  size_ok n (d_size D') (Z.of_nat (length L)) →
  regains (limits ← readInitialPosition (mkIt 0 0 0) false; truncateFile (f limits);;
           restore_limits;; restore_iterator 0;; checkConsistency n) D' L.
Proof.
  intros Hag Hb Hf Hk Hr Hlb Hsz. apply regains_cut; [done|done|].
  eapply regains_limits_iterator; [|exact Hk|exact Hr|exact Hlb|exact Hsz].
  by destruct (truncated_crashed _ _ _ Hag Hb).
Qed.

(** Two iterators to restore, then the check. *)
Lemma regains_two n D' p r p' r' :
  crashed [p; p'] [] D' → d_backups D' !! 0%nat = Some (it_at p r) → rec_at D p = Some r →
  d_backups D' !! 1%nat = Some (it_at p' r') → rec_at D p' = Some r' →
  d_limits D' = d_limits D → size_ok n (d_size D') (Z.of_nat (length L)) →
  regains (restore_iterator 1;; restore_iterator 0;; checkConsistency n) D' L.
Proof.
  intros Hcr Hk Hr Hk' Hr' Hlim Hsz. eapply (regains_restore _ 1); [done|exact Hk'|done|].
  eapply regains_iterator; [|exact Hk|exact Hr|exact Hlim|exact Hsz].
  eapply crashed_restore; [done|done|set_solver].
Qed.

Lemma regains_am_writing D' p r p' r' y g :
  agree (file_end D) [p; p'] [] D' D → boundary D' (file_end D) →
  rec_at D' p = Some (remark g (relink (file_end D, y) r)) →
  d_backups D' !! 0%nat = Some (it_at p r) → rec_at D p = Some r →
  d_backups D' !! 1%nat = Some (it_at p' r') → rec_at D p' = Some r' →
  d_limits D' = d_limits D → size_ok 1 (d_size D') (Z.of_nat (length L)) →
  regains recover_am_writing D' L.
Proof.
  intros Hag Hb Hp Hk Hr Hk' Hr' Hlim Hsz s o Q H Ho HQ. pose proof (file_end_pos D) as He0.
  unfold recover_am_writing.
  eapply wp_bind, (wp_readIteratorBackup _ _ _ _ H 0); [done|]. intros s1 H1. cbn [it_at fi_current].
  eapply wp_bind, wp_readIterator; [done|exact Hp|]. intros s2 H2 _. cbn [fi_prev remark relink r_prev fst].
  eapply wp_bind, wp_truncateFile; [done|lia|done|done|done|]. intros s3 H3.
  eapply (regains_mono _ s3 _ o L o); [|exact H3|done|done|done|done].
  apply (regains_two 1 _ p r p' r'); try done. by destruct (truncated_crashed _ _ _ Hag Hb).
Qed.

(** An element marked as erased whose links are still there. *)
Lemma regains_unerase (m : E unit) D' T M w rw :
  crashed T M D' → d_backups D' !! 2%nat = Some (it_at w rw) → rec_at D w = Some rw →
  r_good rw = true → w ∉ T →
  regains m (alter_rec w (remark true) (alter_rec w (relink (links rw)) D')) L →
  regains (unerase;; m) D' L.
Proof.
  intros Hcr Hk Hrw Hg HwT Hm s o Q H Ho HQ.
  pose proof (rec_at_end _ _ _ Hrw) as Hw. pose proof (rec_size_pos rw) as Hsz.
  destruct (cr_agree _ _ _ Hcr w rw) as (y&g&E&Hy&_); [lia|done|].
  destruct (rec_at_ok D' w _ (h_ok _ _ _ H) E) as ((Hlinks&_&_)&_&_).
  rewrite (Hy HwT) in *. unfold unerase. apply wp_bind.
  eapply wp_bind, (wp_readIteratorBackup _ _ _ _ H 2); [done|]. intros s1 H1.
  unfold markDataAsUnerased. change (fi_current (it_at w rw)) with w.
  eapply wp_seek; [done|change (2 * fi_s_width + 2) with 34; lia|]. intros s2 H2 P2. eapply wp_good; [done|].
  eapply wp_bind, wp_readSizeAndState; [done|exact E|done|]. intros s3 H3 _.
  eapply wp_seek; [done|lia|]. intros s4 H4 P4. eapply wp_good; [done|].
  change "g"%char with (state_char true).
  eapply (wp_writeDataHeader _ _ _ _ _ H4 w _ (it_at w rw) true); [exact E|done|exact Hlinks|done|done|].
  intros s5 H5. by eapply (regains_mono m s5 _ o L o).
Qed.

Lemma crashed_unmark T T' M M' D' w rw :
  crashed T M D' → rec_at D w = Some rw → r_good rw = true →
  (∀ x, x ∈ T → x = w ∨ x ∈ T') → (∀ x, x ∈ M → x = w ∨ x ∈ M') →
  crashed T' M' (alter_rec w (remark true) (alter_rec w (relink (links rw)) D')).
Proof.
  intros [Hag Hend Ht] Hrw Hg HT HM. constructor; [| |done].
  - rewrite <- Hg. eapply agree_unmark; [done|exact HM|]. by eapply agree_restore.
  - by rewrite !file_end_alter by auto with filecontainer.
Qed.

Lemma regains_rd_limits D' :
  crashed [] [] D' → d_lb D' = d_limits D → size_ok (-1) (d_size D') (Z.of_nat (length L)) →
  regains recover_rd_limits D' L.
Proof. intros [] Hlb Hsz. apply regains_limits, regains_check; [by constructor|done|done]. Qed.

Lemma regains_rd_iterator D' p r :
  crashed [p] [] D' → d_backups D' !! 0%nat = Some (it_at p r) → rec_at D p = Some r →
  d_lb D' = d_limits D → size_ok (-1) (d_size D') (Z.of_nat (length L)) →
  regains recover_rd_iterator D' L.
Proof.
  intros Hcr Hk Hr Hlb Hsz. eapply (regains_restore _ 0); [done|done|done|].
  apply regains_rd_limits; [|done|done]. eapply crashed_restore; [done|done|set_solver].
Qed.

Lemma regains_rd_mark1 D' p r w rw :
  crashed [p] [w] D' → d_backups D' !! 0%nat = Some (it_at p r) → rec_at D p = Some r →
  d_backups D' !! 2%nat = Some (it_at w rw) → rec_at D w = Some rw → r_good rw = true → w ≠ p →
  d_lb D' = d_limits D → size_ok (-1) (d_size D') (Z.of_nat (length L)) →
  regains recover_rd_mark1 D' L.
Proof.
  intros Hcr Hk Hr Hk2 Hrw Hg Hwp Hlb Hsz. eapply regains_unerase; [done|done|done|done|set_solver|].
  eapply regains_rd_iterator; [|exact Hk|exact Hr|exact Hlb|exact Hsz].
  eapply crashed_unmark; [done|done|done|set_solver|set_solver].
Qed.

Lemma regains_rd_mark2 D' p r p' r' w rw :
  crashed [p; p'] [w] D' → d_backups D' !! 0%nat = Some (it_at p r) → rec_at D p = Some r →
  d_backups D' !! 1%nat = Some (it_at p' r') → rec_at D p' = Some r' →
  d_backups D' !! 2%nat = Some (it_at w rw) → rec_at D w = Some rw → r_good rw = true →
  w ≠ p → w ≠ p' → d_limits D' = d_limits D → size_ok (-1) (d_size D') (Z.of_nat (length L)) →
  regains recover_rd_mark2 D' L.
Proof.
  intros Hcr Hk Hr Hk' Hr' Hk2 Hrw Hg Hwp Hwp' Hlim Hsz.
  eapply regains_unerase; [done|done|done|done|set_solver|].
  eapply regains_two; [|exact Hk|exact Hr|exact Hk'|exact Hr'|exact Hlim|exact Hsz].
  eapply crashed_unmark; [done|done|done|set_solver|set_solver].
Qed.
End recovery.
