(* ===== verification/FileSafety.v ===== *)
(** * Crash safety of a file container

    Opening a container that an operation has left unfinished gives back the list as it
    was or as it should have become, unless the operation stopped between the clearing
    of the backups and the status that says so. *)

From S2P Require Import Prelude Machine FileText FileContainer FileLayout FileRules FileList.
From S2P Require Import FileOps FileRemove FileCrash.

(** ** Opening *)

(** A process that opens the file finds a good container with the list [L]. *)
Definition reopens (file : bytes) (L : elems) : Prop :=
  ∀ now, off_ok now → ∃ s D o,
    initContainer (open_file file now None) = Some (inr tt, s)
    ∧ holds s D o ∧ wf D L ∧ synced o D.

Lemma holds_open D now :
  disk_ok D → off_ok now → holds (open_file (layout D) now None) D (new_container now).
Proof. intros. by constructor. Qed.

Lemma wp_total {A} (m : E A) (Q : A → St → Prop) C s :
  wp m Q C s → s_budget s = None → ∃ a s', m s = Some (inr a, s') ∧ s_budget s' = None ∧ Q a s'.
Proof.
  intros (r&s'&E&Hb&H) Hn. specialize (Hb Hn). destruct r as [e|a]; [|eauto 6].
  destruct H as [H _]. congruence.
Qed.

Lemma wp_backupFile s D o keep Q :
  holds s D o → (∀ s', holds s' D o → Q tt s') → wp (backupFile keep) Q any s.
Proof.
  intros H HQ. pose proof (h_good _ _ _ H) as Hg. unfold is_good in Hg.
  eexists (inr tt), _. split_and!.
  - unfold backupFile. destruct (s_bad s); [by rewrite !orb_true_r in Hg|]. reflexivity.
  - done.
  - apply HQ. destruct H. by constructor.
Qed.

Lemma wp_recover_unchecked s D o L Q :
  holds s D o → fresh o D → d_status D ≠ closed → regains (recover_status (d_status D)) D L →
  (∀ s' D' o', holds s' D' o' → wf D' L → d_stamp D' = d_stamp D →
     fc_size o' = d_size D' → fc_limits o' = mkIt (d_limits D').1 (d_limits D').2 0 →
     fc_stamp o' = fc_stamp o → Q tt s') →
  wp (recover_unchecked (d_status D)) Q any s.
Proof.
  intros H Ho Hcl Hr HQ. unfold recover_unchecked.
  eapply wp_bind, wp_backupFile; [done|]. intros s1 H1.
  rewrite bool_decide_eq_false_2 by done. eapply wp_run; [reflexivity|done|].
  eapply wp_sync; [done|]. apply wp_bind. apply (Hr s1 o _ H1 Ho).
  intros s2 [(D2&o2&H2&HL2&Hn2&Hsz2&Hl2&Hs2&Hst2&_)]. rewrite bool_decide_eq_false_2 by done.
  eapply wp_writeFileStatus; [done|done|].
  intros s3 H3 _. eapply HQ; [exact H3| |done| |done|done].
  - constructor; [apply H3| |done|done]. eapply list_of_ext; [..|exact HL2]; try done; apply HL2.
  - simpl. congruence.
Qed.

Lemma reopens_closed D L : wf D L → reopens (layout D) L.
Proof.
  intros Hwf now Hnow. pose proof (holds_open D now (wf_ok _ _ Hwf) Hnow) as H.
  assert (Hw : wp initContainer
    (λ _ s', ∃ o', holds s' D o' ∧ current o' D ∧ fc_stamp o' = d_stamp D) any
    (open_file (layout D) now None)).
  { eapply wp_initContainer_closed; [exact H|apply Hwf|done|]. intros s' o' H' Hcu Hst. eauto. }
  destruct (wp_total _ _ _ _ Hw eq_refl) as ([]&s'&E&_&o'&H'&Hcu&Hst).
  exists s', D, o'. split_and!; [done..|]. destruct Hcu. by constructor.
Qed.

Lemma reopens_regains D L :
  disk_ok D → d_status D ≠ closed → regains (recover_status (d_status D)) D L → reopens (layout D) L.
Proof.
  intros Hok Hcl Hr now Hnow. pose proof (holds_open D now Hok Hnow) as H.
  assert (Hw : wp initContainer (λ _ s', ∃ D' o', holds s' D' o' ∧ wf D' L ∧ synced o' D') any
    (open_file (layout D) now None)).
  { unfold initContainer. eapply wp_check_bad; [done|].
    eapply wp_bind, wp_readStamp; [done|]. intros s1 H1.
    eapply wp_bind, wp_readLimits; [done|]. intros s2 H2.
    eapply wp_bind, wp_readRemoved; [done|]. intros s3 H3.
    eapply wp_bind, wp_readSize; [done|]. intros s4 H4.
    eapply wp_bind, wp_readFileStatus; [done|]. intros s5 H5 _.
    rewrite bool_decide_eq_false_2 by done.
    eapply wp_bind, wp_recover_unchecked; [done|done|done|done|].
    intros s6 D6 o6 H6 Hwf Hs6 Hsz Hlim Hst. eapply wp_update_end; [done|]. intros s7 H7 _.
    exists D6. eexists. split_and!; [exact H7|done|]. constructor; simpl; [done| |done|done].
    rewrite Hst. simpl. done. }
  destruct (wp_total _ _ _ _ Hw eq_refl) as ([]&s'&E&_&D'&o'&H').
  by exists s', D', o'.
Qed.

(** ** The disks on the way *)

(** The backups have been cleared, and the status is still one that needs them. *)
Definition torn (D : disk) : Prop :=
  d_backups D = replicate 4 vuoto ∧ d_lb D = (0, 0)
  ∧ d_status D ∈ [ae_written; ab_last; am_last; rd_mark1; rd_mark2].

(** What is left is the list before the operation or the one after it, or is torn. *)
Definition safe (L L' : elems) (D : disk) : Prop :=
  disk_ok D → reopens (layout D) L ∨ reopens (layout D) L' ∨ torn D.

Lemma safe_old D L L' :
  d_status D ≠ closed → regains (recover_status (d_status D)) D L → safe L L' D.
Proof. intros Hcl Hr Hok. left. by apply reopens_regains. Qed.
Lemma safe_new D L L' :
  d_status D ≠ closed → regains (recover_status (d_status D)) D L' → safe L L' D.
Proof. intros Hcl Hr Hok. right. left. by apply reopens_regains. Qed.
Lemma safe_closed D L L' : wf D L → safe L L' D.
Proof. intros Hwf Hok. left. by apply reopens_closed. Qed.

(** Only the status is to be put right. *)
Lemma regains_opened D L :
  list_of D L → d_size D = Z.of_nat (length L) → regains (writeFileStatus closed) D L.
Proof.
  intros HL Hn s o Q H [Ho Hsz] HQ. eapply wp_writeFileStatus; [done|done|]. intros s1 H1 _.
  apply HQ. constructor. eexists _, _. split_and!; [exact H1| |done|congruence|done..].
  eapply list_of_ext; [..|exact HL]; try done; apply HL.
Qed.
