(* ===== verification/FileWays.v ===== *)
(** * What an operation of a file container leaves when it is interrupted

    For each way of adding and of removing an element, every disk that a write on that
    way leaves: the next process that opens it has the list before the operation or the
    one after it, or it finds the backups cleared before the status. *)

From S2P Require Import Prelude Machine FileText FileContainer FileLayout FileRules FileList.
From S2P Require Import FileOps FileRemove FileCrash FileSafety.

(** ** What a changed disk keeps *)

Section kept.
Context (D : disk).

Lemma agree_recs e T M D1 D2 : d_recs D2 = d_recs D1 → agree e T M D1 D → agree e T M D2 D.
Proof. intros HD. apply agree_ext. intros p. unfold rec_at. by rewrite HD. Qed.

Lemma agree_weaken e T T' M M' D1 :
  (∀ x, x ∈ T → x ∈ T') → (∀ x, x ∈ M → x ∈ M') → agree e T M D1 D → agree e T' M' D1 D.
Proof.
  intros HT HM H p r Hp Hr. destruct (H p r Hp Hr) as (y&g&E&Hy&Hg). exists y, g.
  split_and!; [done|intros Hn; apply Hy; auto|intros Hn; apply Hg; auto].
Qed.

Lemma agree_self e T M : agree e T M D D.
Proof. eapply agree_weaken; [..|apply agree_refl]; set_solver. Qed.

Lemma agree_relink_in e T M D1 p x :
  p ∈ T → agree e T M D1 D → agree e T M (alter_rec p (relink x) D1) D.
Proof. intros Hp H. eapply agree_weaken; [..|by apply agree_relink]; set_solver. Qed.

Lemma agree_remark_in e T M D1 p g :
  p ∈ M → agree e T M D1 D → agree e T M (alter_rec p (remark g) D1) D.
Proof. intros Hp H. eapply agree_weaken; [..|by apply agree_remark]; set_solver. Qed.

(** Links that are written again. *)
Lemma agree_relink_same e T M D1 p r :
  rec_at D p = Some r → agree e T M D1 D → agree e T M (alter_rec p (relink (links r)) D1) D.
Proof. intros Hr. apply agree_restore; [done|]. intros x Hx. by right. Qed.

Lemma boundary_recs D1 D2 p : d_recs D2 = d_recs D1 → boundary D1 p → boundary D2 p.
Proof. intros HD. unfold boundary, rec_at. by rewrite HD. Qed.

Lemma boundary_alter D1 p q g : in_place g → boundary D1 p → boundary (alter_rec q g D1) p.
Proof.
  intros Hg [Hp|[r Hr]].
  - left. unfold alter_rec. cbn [d_recs with_recs]. by rewrite alter_in_size.
  - right. by eapply alter_exists.
Qed.

Lemma boundary_end D1 : d_tail D1 = [] → boundary D1 (file_end D1).
Proof. intros Ht. left. unfold file_end. rewrite Ht. simpl. lia. Qed.

Lemma boundary_appended D1 nr p : d_tail D1 = [] → p = file_end D1 → boundary (appended nr D1) p.
Proof. intros Ht ->. right. exists nr. by rewrite appended_at, Z.eqb_refl. Qed.
End kept.

(** A link that is put back after it was changed. *)
Lemma rec_at_restored D1 D2 q r y p :
  rec_at D1 q = Some r → d_recs D2 = d_recs (alter_rec q (relink y) D1) →
  rec_at (alter_rec q (relink (links r)) D2) p = rec_at D1 p.
Proof.
  intros Hr HD. rewrite rec_at_alter by auto with filecontainer.
  assert (HD' : ∀ x, rec_at D2 x = rec_at (alter_rec q (relink y) D1) x)
    by (intros x; unfold rec_at; by rewrite HD).
  rewrite !HD', !rec_at_alter by auto with filecontainer. rewrite Z.eqb_refl.
  destruct (Z.eqb_spec p q) as [->|]; [|done]. rewrite Hr. by destruct r.
Qed.

Lemma rec_at_rewritten D1 D2 q r p :
  rec_at D1 q = Some r → d_recs D2 = d_recs D1 →
  rec_at (alter_rec q (relink (links r)) D2) p = rec_at D1 p.
Proof.
  intros Hr HD. rewrite rec_at_alter by auto with filecontainer.
  assert (HD' : ∀ x, rec_at D2 x = rec_at D1 x) by (intros x; unfold rec_at; by rewrite HD).
  rewrite !HD'. destruct (Z.eqb_spec p q) as [->|]; [|done]. rewrite Hr. by destruct r.
Qed.

(** The definitions of the disks are unfolded down to the changes of the fields, and
    then the changes that matter are looked for. *)
Ltac ways := unfold ae5, ae4, ae3, ae2, ae1, ab5, ab4, ab3, ab2, ab1, am5, am4, am3, am2, am1,
  after_reset, marked, marking, rf4, rf3, rf2, rl4, rl3, rl2, rl1, rm4, rm3, rm2, rm1.
Ltac agreed :=
  lazymatch goal with
  | |- agree _ _ _ (appended _ _) _ => apply agree_appended; [tailed|ended; lia|agreed]
  | |- agree _ _ _ (alter_rec _ (remark _) _) _ => apply agree_remark_in; [set_solver|agreed]
  | |- agree _ _ _ (alter_rec _ (relink (links _)) _) _ =>
      eapply agree_relink_same; [eassumption|agreed]
  | |- agree _ _ _ (alter_rec _ (relink _) _) _ => apply agree_relink_in; [set_solver|agreed]
  | |- agree _ _ _ ?D _ =>
      first [apply agree_self | let E := same_recs D in apply (agree_recs _ _ _ _ _ _ E); agreed]
  end.
Ltac bounded :=
  lazymatch goal with
  | |- boundary (appended _ _) _ => apply boundary_appended; [tailed|ended; reflexivity]
  | |- boundary (alter_rec _ _ _) _ => apply boundary_alter; [by auto with filecontainer|bounded]
  | |- boundary ?D _ =>
      first [let E := same_recs D in apply (boundary_recs _ _ _ E); bounded | apply boundary_end; tailed]
  end.
Ltac keeps := constructor; [agreed|ended; reflexivity|tailed].

Lemma safe_by (x : filestatus_t) (m : E unit) D L L' :
  d_status D = x → x ≠ closed → recover_status x = m → regains m D L → safe L L' D.
Proof. intros <- Hx <- Hr. by apply safe_old. Qed.
Lemma safe_by_new (x : filestatus_t) (m : E unit) D L L' :
  d_status D = x → x ≠ closed → recover_status x = m → regains m D L' → safe L L' D.
Proof. intros <- Hx <- Hr. by apply safe_new. Qed.


(** A disk whose records and limits are those of [D]. *)
Lemma list_of_recs D D' L :
  d_recs D' = d_recs D → d_limits D' = d_limits D → d_tail D' = [] → list_of D L → list_of D' L.
Proof.
  intros Hr Hl Ht HL. pose proof (lo_tail _ _ HL) as Ht'.
  eapply list_of_ext; [..|exact HL]; try done.
  - intros p _. unfold rec_at. by rewrite Hr.
  - unfold file_end. by rewrite Hr, Ht, Ht'.
  - intros ->. rewrite Hr. by apply (lo_empty _ _ HL).
Qed.

Lemma safe_opened D L L' : 
  d_status D = opened → list_of D L → d_size D = Z.of_nat (length L) → safe L L' D.
Proof. intros Ho HL Hn. eapply safe_by; [exact Ho|done|reflexivity|]. by apply regains_opened. Qed.

(** The last disks of an operation, whose records are those of [D2]. *)
Lemma finish_safe x y n D2 L L' :
  list_of D2 L' → L' ≠ [] → file_end D2 < 2 ^ 63 → d_status D2 = y →
  y ∈ [ae_written; ab_last; am_last; rd_mark1; rd_mark2] →
  recover_status x = checkConsistency n → x ≠ closed → size_ok n (d_size D2) (Z.of_nat (length L')) →
  safe L L' D2 → Forall (safe L L') (finish_disks x (Z.of_nat (length L')) D2).
Proof.
  intros HL Hne He Hy Hin Hx Hcl Hsz H2. pose proof (lo_tail _ _ HL) as Ht.
  assert (Hreg : ∀ D', list_of D' L' → d_status D' = x → file_end D' = file_end D2 →
    size_ok n (d_size D') (Z.of_nat (length L')) → safe L L' D').
  { intros D' HL' Hs He' Hn. eapply safe_by_new; [exact Hs|done|exact Hx|].
    apply (regains_check D' L' HL'); [done|by rewrite He'| |done|done].
    constructor; [apply agree_self|done|apply HL']. }
  repeat (apply Forall_cons; split); [done|..|by apply Forall_nil].
  - intros _. right. right. unfold torn. split_and!; [done|done|]. cbn. by rewrite Hy.
  - apply Hreg; [|done|done|done]. by apply (list_of_recs D2).
  - apply Hreg; [|done|done|by left]. by apply (list_of_recs D2).
Qed.

Lemma lt_grown e data : e + data_size data < 2 ^ 63 → e < 2 ^ 63.
Proof. pose proof (data_size_rec data). lia. Qed.

(** What is left at each of the statuses, when the records, but for those being changed,
    the size and what the backups hold are those of [D]. *)
Section interrupted.
Context (D : disk) (L L' : elems) (HL : list_of D L) (Hne : L ≠ []) (He : file_end D < 2 ^ 63).
Context (Hn : d_size D = Z.of_nat (length L)).

Ltac known := eapply safe_by; [eassumption|assumption|eassumption|].
Ltac sized := left; congruence.

Lemma safe_iterator x n D' p r :
  rec_at D p = Some r → d_status D' = x → x ≠ closed →
  recover_status x = (restore_iterator 0;; checkConsistency n) → crashed D [p] [] D' →
  d_backups D' !! 0%nat = Some (it_at p r) → d_limits D' = d_limits D → d_size D' = d_size D →
  safe L L' D'.
Proof. intros. known. eapply (regains_iterator D L HL Hne He); try done. sized. Qed.

Lemma safe_limits_iterator x n D' p r :
  rec_at D p = Some r → d_status D' = x → x ≠ closed →
  recover_status x = (restore_limits;; restore_iterator 0;; checkConsistency n) → crashed D [p] [] D' →
  d_backups D' !! 0%nat = Some (it_at p r) → d_lb D' = d_limits D → d_size D' = d_size D →
  safe L L' D'.
Proof. intros. known. eapply (regains_limits_iterator D L HL Hne He); try done. sized. Qed.

Lemma safe_adding x n f D' p r :
  rec_at D p = Some r → d_status D' = x → x ≠ closed →
  recover_status x = (limits ← readInitialPosition (mkIt 0 0 0) false; truncateFile (f limits);;
           restore_limits;; restore_iterator 0;; checkConsistency n) →
  agree (file_end D) [p] [] D' D → boundary D' (file_end D) →
  f (mkIt (d_limits D').1 (d_limits D').2 0) = file_end D →
  d_backups D' !! 0%nat = Some (it_at p r) → d_lb D' = d_limits D → d_size D' = d_size D →
  safe L L' D'.
Proof. intros. known. eapply (regains_adding D L HL Hne He); try done. sized. Qed.

Lemma safe_two x n D' p r p' r' :
  rec_at D p = Some r → rec_at D p' = Some r' → d_status D' = x → x ≠ closed →
  recover_status x = (restore_iterator 1;; restore_iterator 0;; checkConsistency n) →
  crashed D [p; p'] [] D' →
  d_backups D' !! 0%nat = Some (it_at p r) → d_backups D' !! 1%nat = Some (it_at p' r') →
  d_limits D' = d_limits D → d_size D' = d_size D → safe L L' D'.
Proof.
  intros. known. eapply (regains_two D L HL Hne He _ _ p r p' r'); try done. sized.
Qed.

Lemma safe_am_writing x D' p r p' r' y g :
  rec_at D p = Some r → rec_at D p' = Some r' → d_status D' = x → x ≠ closed →
  recover_status x = recover_am_writing → agree (file_end D) [p; p'] [] D' D →
  boundary D' (file_end D) → rec_at D' p = Some (remark g (relink (file_end D, y) r)) →
  d_backups D' !! 0%nat = Some (it_at p r) → d_backups D' !! 1%nat = Some (it_at p' r') →
  d_limits D' = d_limits D → d_size D' = d_size D → safe L L' D'.
Proof.
  intros. known. eapply (regains_am_writing D L HL Hne He _ p r p' r'); try done. sized.
Qed.

Lemma safe_rd_limits D' :
  d_status D' = rd_limits → crashed D [] [] D' → d_lb D' = d_limits D → d_size D' = d_size D →
  safe L L' D'.
Proof.
  intros. eapply safe_by; [eassumption|done|reflexivity|].
  apply (regains_rd_limits D L HL Hne He); try done. sized.
Qed.

Lemma safe_rd_iterator D' p r :
  rec_at D p = Some r → d_status D' = rd_iterator → crashed D [p] [] D' →
  d_backups D' !! 0%nat = Some (it_at p r) → d_lb D' = d_limits D → d_size D' = d_size D →
  safe L L' D'.
Proof.
  intros. eapply safe_by; [eassumption|done|reflexivity|].
  eapply (regains_rd_iterator D L HL Hne He); try done. sized.
Qed.

Lemma safe_rd_mark1 D' p r w rw :
  rec_at D p = Some r → rec_at D w = Some rw → r_good rw = true → w ≠ p → d_status D' = rd_mark1 →
  crashed D [p] [w] D' → d_backups D' !! 0%nat = Some (it_at p r) →
  d_backups D' !! 2%nat = Some (it_at w rw) → d_lb D' = d_limits D → d_size D' = d_size D →
  safe L L' D'.
Proof.
  intros. eapply safe_by; [eassumption|done|reflexivity|].
  eapply (regains_rd_mark1 D L HL Hne He _ p r w rw); try done. sized.
Qed.

Lemma safe_rd_mark2 D' p r p' r' w rw :
  rec_at D p = Some r → rec_at D p' = Some r' → rec_at D w = Some rw → r_good rw = true →
  w ≠ p → w ≠ p' → d_status D' = rd_mark2 → crashed D [p; p'] [w] D' →
  d_backups D' !! 0%nat = Some (it_at p r) → d_backups D' !! 1%nat = Some (it_at p' r') →
  d_backups D' !! 2%nat = Some (it_at w rw) → d_limits D' = d_limits D → d_size D' = d_size D →
  safe L L' D'.
Proof.
  intros. eapply safe_by; [eassumption|done|reflexivity|].
  eapply (regains_rd_mark2 D L HL Hne He _ p r p' r' w rw); try done. sized.
Qed.
End interrupted.

(** The entries of the backups. *)
Ltac entries :=
  unfold backup; cbn [d_backups with_backups with_status with_lb with_limits with_tail alter_rec with_recs appended];
  repeat first [rewrite list_lookup_insert_eq by (rewrite ?length_insert; lia); reflexivity
               |rewrite list_lookup_insert_ne by done].
(** The fields of a disk that is left on the way. *)
Ltac kept :=
  lazymatch goal with
  | |- crashed _ _ _ _ => keeps
  | |- agree _ _ _ _ _ => agreed
  | |- boundary _ _ => bounded
  | |- d_backups _ !! _ = _ => entries
  | |- _ ≠ closed => done
  | |- _ ≠ _ => done
  | |- _ = _ => first [eassumption|reflexivity]
  end.
Ltac split_way := repeat (apply Forall_cons; split); [..|by apply Forall_nil].

(** ** Adding at the end *)

Section adding_at_end.
Context (D : disk) (L : elems) (q : Z) (dq : bytes) (r : rec) (data : bytes).
Context (HL : list_of D (L ++ [(q, dq)])) (Hr : rec_at D q = Some r).
Context (Ho : d_status D = opened) (Hn : d_size D = Z.of_nat (length (L ++ [(q, dq)])))
  (Hb : length (d_backups D) = 4%nat) (He : file_end D + data_size data < 2 ^ 63).

Notation old := (L ++ [(q, dq)]).
Notation new := (L ++ [(q, dq); (file_end D, data)]).
Notation nr := (end_rec q data D).

Lemma end_list : list_of (ae5 q r nr D) new.
Proof.
  pose proof (list_append D L q dq r data q HL Hr) as HA. rewrite <- data_size_rec in HA.
  eapply list_of_ext; [..|exact HA]; try done. by destruct L.
Qed.

Lemma end_safe : Forall (safe old new) (end_way q r data D).
Proof.
  pose proof (lt_grown _ _ He) as He'. pose proof (lo_tail _ _ HL) as Ht.
  assert (Hne : old ≠ []) by by destruct L.
  unfold end_way. apply Forall_app. split.
  - unfold add_end_disks, writing_disks. ways. cbn [app]. split_way.
    1-2: apply safe_opened; [done|by apply (list_of_recs D)|done].
    1-3: eapply (safe_iterator D old new HL Hne He' Hn); kept.
    1-2: eapply (safe_limits_iterator D old new HL Hne He' Hn); kept.
    all: eapply (safe_adding D old new HL Hne He' Hn _ _ fi_next); kept.
  - replace (d_size D + 1) with (Z.of_nat (length new)) by (rewrite Hn, !length_app; simpl; lia).
    eapply (finish_safe _ ae_written 1); [exact end_list|by destruct L| |done|set_solver|done|done| |].
    + ways. ended. rewrite appended_end by tailed. ended. unfold rec_size, end_rec. cbn [r_data].
      pose proof (data_size_rec data). lia.
    + right. left. split; [done|]. change (d_size _) with (d_size D). rewrite Hn, !length_app. simpl. lia.
    + ways. eapply (safe_adding D old new HL Hne He' Hn _ _ fi_next); kept.
Qed.
End adding_at_end.

(** ** Adding before the first *)

(** The link of the last element is put back first. *)
Lemma safe_reset x m D' q rq r' L L' :
  d_status D' = x → x ≠ closed → recover_status x = (restore_iterator 2;; m) →
  d_backups D' !! 2%nat = Some (it_at q rq) → rec_at D' q = Some r' →
  regains m (alter_rec q (relink (links rq)) D') L → safe L L' D'.
Proof.
  intros Hs Hx Hm Hk Hr Hreg. eapply safe_by; [exact Hs|done|exact Hm|].
  intros s o Q H Ho HQ.
  eapply wp_bind, (wp_restore_iterator 2); [done|exact Hk|exact Hr|]. intros s1 H1.
  eapply (regains_mono m s1 _ o L o); [exact Hreg|exact H1|done|done|done|done].
Qed.

Lemma same_links D q rq y x :
  d_recs (alter_rec q y (with_status x (backup 2 (it_at q rq) D))) = d_recs (alter_rec q y D).
Proof. done. Qed.

Section adding_before_first.
Context (D : disk) (L : elems) (f q : Z) (df : bytes) (r rq : rec) (data : bytes).
Context (HL : list_of D ((f, df) :: L)) (Hr : rec_at D f = Some r).
Context (Hq : last_pos 391 ((f, df) :: L) = q)
  (Hrq : rec_at (ab5 f r (begin_rec f data D) D) q = Some rq).
Context (Ho : d_status D = opened) (Hn : d_size D = Z.of_nat (length ((f, df) :: L)))
  (Hb : length (d_backups D) = 4%nat) (He : file_end D + data_size data < 2 ^ 63).

Notation old := ((f, df) :: L).
Notation new := ((file_end D, data) :: (f, df) :: L).
Notation nr := (begin_rec f data D).
Notation D5 := (ab5 f r nr D).

Lemma begin_list : list_of (after_reset ab_last q rq D5) new.
Proof.
  pose proof (lo_limits _ _ HL) as Hlim. rewrite Hq in Hlim. cbn [hd_pos] in Hlim.
  pose proof (data_size_rec data) as Hds.
  assert (Hnr : nr = mkRec 0 f data true q (file_end D + data_size data))
    by (unfold begin_rec; by rewrite Hlim).
  rewrite Hnr in *.
  pose proof (list_prepend D L f df r q rq data (file_end D + data_size data) HL Hr Hq Hrq) as HA.
  eapply list_of_ext; [..|exact HA]; try done. simpl. by rewrite Hlim.
Qed.

Lemma begin_last D' :
  d_status D' = ab_last → (∀ p, rec_at (alter_rec q (relink (links rq)) D') p = rec_at D5 p) →
  boundary D' (file_end D) → d_limits D' = (file_end D, (d_limits D).2) →
  d_backups D' !! 0%nat = Some (it_at f r) → d_backups D' !! 2%nat = Some (it_at q rq) →
  d_lb D' = d_limits D → d_size D' = d_size D → safe old new D'.
Proof.
  intros Hs Hat Hbd Hlim Hk Hk2 Hlb Hsz. pose proof (lt_grown _ _ He) as He'.
  pose proof (lo_tail _ _ HL) as Ht.
  assert (∃ r', rec_at D' q = Some r') as [r' Hr'].
  { specialize (Hat q). rewrite rec_at_alter, Z.eqb_refl, Hrq in Hat by auto with filecontainer.
    destruct (rec_at D' q); [eauto|done]. }
  eapply safe_reset; [exact Hs|done|reflexivity|exact Hk2|exact Hr'|].
  apply (regains_adding D old HL ltac:(done) He' 1 fi_prev _ f r); try done.
  - eapply agree_ext; [exact Hat|]. ways. agreed.
  - by apply boundary_alter; [auto with filecontainer|].
  - cbn. by rewrite Hlim.
  - left. change (d_size D' = Z.of_nat (length old)). congruence.
Qed.

Lemma begin_safe : Forall (safe old new) (begin_way f r data q rq D).
Proof.
  pose proof (lt_grown _ _ He) as He'. pose proof (lo_tail _ _ HL) as Ht.
  assert (Hne : old ≠ []) by done.
  unfold begin_way. apply Forall_app. split.
  - unfold add_begin_disks, writing_disks, reset_disks. cbn [app]. split_way.
    1-2: ways; apply safe_opened; [done|by apply (list_of_recs D)|done].
    1-3: ways; eapply (safe_iterator D old new HL Hne He' Hn); kept.
    1-2: ways; eapply (safe_limits_iterator D old new HL Hne He' Hn); kept.
    1-7: ways; eapply (safe_adding D old new HL Hne He' Hn _ _ fi_prev); kept.
    apply begin_last; [done| |ways; kept..].
    intros p. apply (rec_at_rewritten D5 _ q rq p Hrq). by rewrite recs_status, recs_backup.
  - replace (d_size D + 1) with (Z.of_nat (length new)) by (rewrite Hn; simpl; lia).
    eapply (finish_safe _ ab_last 1); [exact begin_list|done| |done|set_solver|done|done| |].
    + ways. ended. rewrite appended_end by tailed. ended. unfold rec_size, begin_rec. cbn [r_data].
      pose proof (data_size_rec data). lia.
    + right. left. split; [done|]. change (d_size _) with (d_size D). rewrite Hn. simpl. lia.
    + apply begin_last; [done| |ways; kept..].
      intros p. apply (rec_at_restored D5 _ q rq (r_prev rq, file_end D5) p Hrq). apply same_links.
Qed.
End adding_before_first.

(** ** Adding in the middle *)

Lemma rec_at_recs D1 D2 p : d_recs D1 = d_recs D2 → rec_at D1 p = rec_at D2 p.
Proof. unfold rec_at. by intros ->. Qed.

Section adding_in_middle.
Context (D : disk) (L1 L2 : elems) (p w q : Z) (dp dw : bytes) (r1 r2 rq : rec) (data : bytes).
Context (HL : list_of D (L1 ++ (p, dp) :: (w, dw) :: L2)).
Context (Hr1 : rec_at D w = Some r1) (Hr2 : rec_at D p = Some r2).
Context (Hq : last_pos 391 ((w, dw) :: L2) = q)
  (Hrq : rec_at (am5 w r1 p r2 (middle_rec p w data D) D) q = Some rq).
Context (Ho : d_status D = opened)
  (Hn : d_size D = Z.of_nat (length (L1 ++ (p, dp) :: (w, dw) :: L2)))
  (Hb : length (d_backups D) = 4%nat) (He : file_end D + data_size data < 2 ^ 63).

Notation old := (L1 ++ (p, dp) :: (w, dw) :: L2).
Notation new := (L1 ++ (p, dp) :: (file_end D, data) :: (w, dw) :: L2).
Notation nr := (middle_rec p w data D).
Notation D5 := (am5 w r1 p r2 nr D).

Lemma middle_list : list_of (after_reset am_last q rq D5) new.
Proof.
  assert (Hlast : (d_limits D).2 = q).
  { rewrite (lo_limits _ _ HL). simpl. rewrite last_pos_app. exact Hq. }
  assert (Hnr : nr = mkRec p w data true q (file_end D + data_size data))
    by (unfold middle_rec; by rewrite Hlast).
  rewrite Hnr in *.
  pose proof (list_insert_middle D L1 w dw L2 p dp r1 r2 q rq data _ HL Hr1 Hr2 Hq Hrq) as HA.
  eapply list_of_ext; [..|exact HA]; try done. by destruct L1.
Qed.

Lemma middle_apart : w ≠ p ∧ w < file_end D.
Proof.
  split.
  - pose proof (lo_nodup _ _ HL) as Hnd. rewrite fmap_app in Hnd. apply NoDup_app in Hnd as (_&_&Hnd).
    apply NoDup_cons in Hnd as [Hnd _]. intros ->. apply Hnd. by left.
  - eapply list_of_pos; [exact HL|]. rewrite fmap_app. set_solver.
Qed.

(** The predecessor of the element at [w] is the new end already. *)
Lemma middle_at D' :
  d_recs D' = d_recs (am4 w r1 p r2 D) ∨ d_recs D' = d_recs D5 →
  rec_at D' w = Some (remark (r_good r1) (relink (file_end D, r_next r1) r1)).
Proof.
  destruct middle_apart as [Hwp Hwe]. pose proof (lo_tail _ _ HL) as Ht.
  assert (H4 : rec_at (am4 w r1 p r2 D) w = Some (remark (r_good r1) (relink (file_end D, r_next r1) r1))).
  { unfold am4, am3. rewrite !rec_at_alter by auto with filecontainer.
    destruct (Z.eqb_spec w p); [done|]. rewrite Z.eqb_refl.
    rewrite (rec_at_recs _ D) by done. by rewrite Hr1. }
  intros [E|E]; rewrite (rec_at_recs _ _ _ E); [done|]. unfold am5.
  rewrite (rec_at_recs _ _ w (recs_status _ am_written)), appended_at by (ways; tailed).
  assert (Hend : file_end (with_status am_writing (am4 w r1 p r2 D)) = file_end D) by (ways; by ended).
  rewrite Hend. destruct (Z.eqb_spec w (file_end D)); [lia|].
  by rewrite (rec_at_recs _ _ w (recs_status _ am_writing)).
Qed.

Lemma middle_last D' :
  d_status D' = am_last → (∀ x, rec_at (alter_rec q (relink (links rq)) D') x = rec_at D5 x) →
  boundary D' (file_end D) → d_limits D' = d_limits D →
  d_backups D' !! 0%nat = Some (it_at w r1) → d_backups D' !! 1%nat = Some (it_at p r2) →
  d_backups D' !! 2%nat = Some (it_at q rq) → d_size D' = d_size D → safe old new D'.
Proof.
  intros Hs Hat Hbd Hlim Hk Hk1 Hk2 Hsz. pose proof (lt_grown _ _ He) as He'.
  pose proof (lo_tail _ _ HL) as Ht. assert (Hne : old ≠ []) by by destruct L1.
  assert (∃ r', rec_at D' q = Some r') as [r' Hr'].
  { specialize (Hat q). rewrite rec_at_alter, Z.eqb_refl, Hrq in Hat by auto with filecontainer.
    destruct (rec_at D' q); [eauto|done]. }
  eapply safe_reset; [exact Hs|done|reflexivity|exact Hk2|exact Hr'|].
  eapply (regains_am_writing D old HL Hne He' _ w r1 p r2); try done.
  - eapply agree_ext; [exact Hat|]. ways. agreed.
  - by apply boundary_alter; [auto with filecontainer|].
  - rewrite Hat. by apply middle_at; right.
  - left. change (d_size D' = Z.of_nat (length old)). congruence.
Qed.

Lemma middle_safe : Forall (safe old new) (middle_way w r1 p r2 data q rq D).
Proof.
  pose proof (lt_grown _ _ He) as He'. pose proof (lo_tail _ _ HL) as Ht.
  assert (Hne : old ≠ []) by by destruct L1.
  assert (Hw : ∀ D', d_status D' = am_writing ∨ d_status D' = am_written →
    d_recs D' = d_recs (am4 w r1 p r2 D) ∨ d_recs D' = d_recs D5 →
    agree (file_end D) [w; p] [] D' D → boundary D' (file_end D) →
    d_backups D' !! 0%nat = Some (it_at w r1) → d_backups D' !! 1%nat = Some (it_at p r2) →
    d_limits D' = d_limits D → d_size D' = d_size D → safe old new D').
  { intros D' [Hs|Hs] Hd **;
      (eapply (safe_am_writing D old new HL Hne He' Hn _ D' w r1 p r2);
       [done|done|exact Hs|done|reflexivity|done|done|by apply middle_at|done..]). }
  unfold middle_way. apply Forall_app. split.
  - unfold add_middle_disks, writing_disks, reset_disks. cbn [app]. split_way.
    1-2: ways; apply safe_opened; [done|by apply (list_of_recs D)|done].
    1-2: ways; eapply (safe_iterator D old new HL Hne He' Hn _ _ _ w r1); kept.
    1-3: ways; eapply (safe_two D old new HL Hne He' Hn _ _ _ w r1 p r2); kept.
    1-4: apply Hw; [left; reflexivity|left; by rewrite ?recs_tail, ?recs_status|ways; kept..].
    1-3: apply Hw; [first [left; reflexivity|right; reflexivity]
                   |right; by rewrite ?recs_backup, ?(recs_status _ am_written)|ways; kept..].
    apply middle_last; [done| |ways; kept..].
    intros x. apply (rec_at_rewritten D5 _ q rq x Hrq). by rewrite recs_status, recs_backup.
  - replace (d_size D + 1) with (Z.of_nat (length new)) by (rewrite Hn, !length_app; simpl; lia).
    eapply (finish_safe _ am_last 1); [exact middle_list|by destruct L1| |done|set_solver|done|done| |].
    + ways. ended. rewrite appended_end by tailed. ended. unfold rec_size, middle_rec. cbn [r_data].
      pose proof (data_size_rec data). lia.
    + right. left. split; [done|]. change (d_size _) with (d_size D). rewrite Hn, !length_app. simpl. lia.
    + apply middle_last; [done| |ways; kept..].
      intros x. apply (rec_at_restored D5 _ q rq (r_prev rq, file_end D5) x Hrq). apply same_links.
Qed.
End adding_in_middle.

(** ** Removing *)

Section removing_last.
Context (D : disk) (L : elems) (p w : Z) (dp dw : bytes) (rp rw : rec).
Context (HL : list_of D (L ++ [(p, dp); (w, dw)])).
Context (Hrp : rec_at D p = Some rp) (Hrw : rec_at D w = Some rw) (Hg : r_good rw = true) (Hwp : w ≠ p).
Context (Ho : d_status D = opened) (Hn : d_size D = Z.of_nat (length (L ++ [(p, dp); (w, dw)])))
  (Hb : length (d_backups D) = 4%nat) (He : file_end D < 2 ^ 63).

Notation old := (L ++ [(p, dp); (w, dw)]).
Notation new := (L ++ [(p, dp)]).

Lemma last_list : list_of (marked rd_mark1 w rw (rl4 p rp D)) new.
Proof.
  pose proof (list_delete_last D L p dp w dw rp rw rd_mark1 HL Hrp) as HA.
  eapply list_of_ext; [..|exact HA]; try done; [by destruct L|apply HL].
Qed.

Lemma last_safe : Forall (safe old new) (last_way w rw p rp D).
Proof.
  pose proof (lo_tail _ _ HL) as Ht. assert (Hne : old ≠ []) by by destruct L.
  unfold last_way. apply Forall_app. split.
  - unfold remove_last_disks, mark_disks. cbn [app]. ways. split_way.
    1-2: apply safe_opened; [done|by apply (list_of_recs D)|done].
    1-3: eapply (safe_rd_limits D old new HL Hne He Hn); kept.
    1-3: eapply (safe_rd_iterator D old new HL Hne He Hn _ p rp); kept.
    all: eapply (safe_rd_mark1 D old new HL Hne He Hn _ p rp w rw); kept.
  - replace (d_size D - 1) with (Z.of_nat (length new)) by (rewrite Hn, !length_app; simpl; lia).
    eapply (finish_safe _ rd_mark1 (-1)); [exact last_list|by destruct L| |done|set_solver|done|done| |].
    + ways. by ended.
    + right. right. left. split; [done|]. change (d_size _) with (d_size D).
      rewrite Hn, !length_app. simpl. lia.
    + ways. eapply (safe_rd_mark1 D old new HL Hne He Hn _ p rp w rw); kept.
Qed.
End removing_last.

Section removing_first.
Context (D : disk) (L : elems) (w n : Z) (dw dn : bytes) (rw rn : rec).
Context (HL : list_of D ((w, dw) :: (n, dn) :: L)).
Context (Hrn : rec_at D n = Some rn) (Hrw : rec_at D w = Some rw) (Hg : r_good rw = true) (Hwn : w ≠ n).
Context (Ho : d_status D = opened) (Hn : d_size D = Z.of_nat (length ((w, dw) :: (n, dn) :: L)))
  (Hb : length (d_backups D) = 4%nat) (He : file_end D < 2 ^ 63).

Notation old := ((w, dw) :: (n, dn) :: L).
Notation new := ((n, dn) :: L).

Lemma first_list : list_of (marked rd_mark1 w rw (rf4 n rn D)) new.
Proof.
  pose proof (list_delete_first D L w dw n dn rn rw rd_mark1 HL Hrn) as HA.
  eapply list_of_ext; [..|exact HA]; try done. apply HL.
Qed.

Lemma first_safe : Forall (safe old new) (first_way w rw n rn D).
Proof.
  pose proof (lo_tail _ _ HL) as Ht. assert (Hne : old ≠ []) by done.
  unfold first_way. apply Forall_app. split.
  - unfold remove_first_disks, mark_disks. cbn [app]. ways. split_way.
    1-2: apply safe_opened; [done|by apply (list_of_recs D)|done].
    1-3: eapply (safe_rd_limits D old new HL Hne He Hn); kept.
    1-3: eapply (safe_rd_iterator D old new HL Hne He Hn _ n rn); kept.
    all: eapply (safe_rd_mark1 D old new HL Hne He Hn _ n rn w rw); kept.
  - replace (d_size D - 1) with (Z.of_nat (length new)) by (rewrite Hn; simpl; lia).
    eapply (finish_safe _ rd_mark1 (-1)); [exact first_list|done| |done|set_solver|done|done| |].
    + ways. by ended.
    + right. right. left. split; [done|]. change (d_size _) with (d_size D). rewrite Hn. simpl. lia.
    + ways. eapply (safe_rd_mark1 D old new HL Hne He Hn _ n rn w rw); kept.
Qed.
End removing_first.

Section removing_between.
Context (D : disk) (L1 L2 : elems) (p w n : Z) (dp dw dn : bytes) (rp rw rn : rec).
Context (HL : list_of D (L1 ++ (p, dp) :: (w, dw) :: (n, dn) :: L2)).
Context (Hrp : rec_at D p = Some rp) (Hrw : rec_at D w = Some rw) (Hrn : rec_at D n = Some rn)
  (Hg : r_good rw = true) (Hwp : w ≠ p) (Hwn : w ≠ n).
Context (Ho : d_status D = opened)
  (Hn : d_size D = Z.of_nat (length (L1 ++ (p, dp) :: (w, dw) :: (n, dn) :: L2)))
  (Hb : length (d_backups D) = 4%nat) (He : file_end D < 2 ^ 63).

Notation old := (L1 ++ (p, dp) :: (w, dw) :: (n, dn) :: L2).
Notation new := (L1 ++ (p, dp) :: (n, dn) :: L2).

Lemma between_list : list_of (marked rd_mark2 w rw (rm4 p rp n rn D)) new.
Proof.
  pose proof (list_delete_middle D L1 p dp w dw n dn L2 rp rn rw rd_mark2 HL Hrp Hrn) as HA.
  eapply list_of_ext; [..|exact HA]; try done; [by destruct L1|apply HL].
Qed.

Lemma between_safe : Forall (safe old new) (between_way w rw p rp n rn D).
Proof.
  pose proof (lo_tail _ _ HL) as Ht. assert (Hne : old ≠ []) by by destruct L1.
  unfold between_way. apply Forall_app. split.
  - unfold remove_middle_disks, mark_disks. cbn [app]. ways. split_way.
    1-2: apply safe_opened; [done|by apply (list_of_recs D)|done].
    1-2: eapply (safe_iterator D old new HL Hne He Hn _ _ _ n rn); kept.
    1-4: eapply (safe_two D old new HL Hne He Hn _ _ _ n rn p rp); kept.
    all: eapply (safe_rd_mark2 D old new HL Hne He Hn _ n rn p rp w rw); kept.
  - replace (d_size D - 1) with (Z.of_nat (length new)) by (rewrite Hn, !length_app; simpl; lia).
    eapply (finish_safe _ rd_mark2 (-1)); [exact between_list|by destruct L1| |done|set_solver|done|done| |].
    + ways. by ended.
    + right. right. left. split; [done|]. change (d_size _) with (d_size D).
      rewrite Hn, !length_app. simpl. lia.
    + ways. eapply (safe_rd_mark2 D old new HL Hne He Hn _ n rn p rp w rw); kept.
Qed.
End removing_between.
