(* ===== verification/FileReading.v ===== *)
(** * Reading a file container

    What the operations that do not change the file give: the data of an element, the
    elements before and after it, and the data of all of them in their order. *)

From S2P Require Import Prelude Machine FileText FileContainer FileLayout FileRules FileList.
From S2P Require Import FileOps FileRemove FileCrash.

(** ** The data of a record *)

(** However many pieces it takes. *)
Lemma read_pieces_ok fuel : ∀ s l r acc,
  cursor s (l ++ r) → (length l < fuel)%nat →
  read_pieces fuel (Z.of_nat (length l)) acc s =
  Some (inr (acc ++ l), set_pos (s_pos s + Z.of_nat (length l)) s).
Proof.
  induction fuel as [|fuel IH]; intros s l r acc Hc Hf; [lia|]. cbn [read_pieces].
  destruct (Z.ltb_spec 0 (Z.of_nat (length l))) as [Hl|Hl].
  2:{ destruct l; [|simpl in Hl; lia]. rewrite app_nil_r. cbn [length]. rewrite Z.add_0_r, set_pos_same. done. }
  set (k := (if bufsiz <? Z.of_nat (length l) then bufsiz else Z.of_nat (length l))).
  assert (Hk : 0 < k ≤ Z.of_nat (length l))
    by (unfold k, bufsiz; destruct (Z.ltb_spec 8192 (Z.of_nat (length l))); lia).
  assert (Hlen : Z.of_nat (length (take (Z.to_nat k) l)) = k) by (rewrite length_take_le by lia; lia).
  assert (Hc1 : cursor s (take (Z.to_nat k) l ++ drop (Z.to_nat k) l ++ r))
    by (rewrite app_assoc, take_drop; exact Hc).
  pose proof (read_ok _ _ _ Hc1) as Hr. rewrite Hlen in Hr. rewrite (bind_ok _ _ _ _ _ Hr).
  rewrite Hlen, Z.eqb_refl.
  pose proof (cursor_advance s _ _ _ Hc1 eq_refl) as Hc2. rewrite Hlen in Hc2.
  pose proof (IH _ _ _ (acc ++ take (Z.to_nat k) l) Hc2) as Hrec.
  rewrite length_drop in Hrec. rewrite Nat2Z.inj_sub, Z2Nat.id in Hrec by lia.
  rewrite Hrec by lia. rewrite <- app_assoc, take_drop. do 2 f_equal.
  rewrite set_pos_set_pos. apply pos_eq. cbn [s_pos set_pos on_stream]. lia.
Qed.

Section reading.
Context (C : disk → Prop) (s : St) (D : disk) (o : Container).
Context (H : holds s D o).

Lemma wp_readDataHere p r (Q : FileIterator * FileIterator * bytes → St → Prop) :
  rec_at D p = Some r → r_good r = true → s_pos s = p →
  (∀ s', holds s' D o → Q (it_at p r, mkIt (r_lprev r) (r_lnext r) 0, r_data r) s') →
  wp (readDataHere false) Q C s.
Proof.
  intros Hr Hg Hp HQ. pose proof (h_ok _ _ _ H) as Hok.
  destruct (rec_at_ok D p r Hok Hr) as (Hrok&Hp1&Hp2). pose proof (rec_size_pos r).
  unfold readDataHere. eapply wp_run.
  { unfold attempt. by rewrite (readIteratorHere_ok _ _ _ H p r Hr Hp). }
  { done. }
  cbv beta iota. assert (H1 : holds (set_pos (p + 34) s) D o) by (apply holds_set_pos; [done|lia]).
  eapply wp_bind, wp_readSizeAndState; [done|exact Hr|done|]. intros s2 H2 P2.
  rewrite Hg, bool_decide_eq_true_2 by done. cbn [orb]. eapply wp_gets.
  pose proof (slot_data D p r Hok Hr Hrok) as Hs. rewrite <- P2 in Hs.
  destruct (holds_cursor _ _ _ _ _ _ H2 Hs) as [post Hc]. rewrite <- !app_assoc in Hc. cbn [app] in Hc.
  assert (Hfuel : (length (r_data r) < S (S (length (s_file s2))))%nat).
  { rewrite (h_file _ _ _ H2). pose proof (layout_length D Hok) as Hl.
    unfold rec_size in Hp2. lia. }
  eapply wp_run; [by apply (read_pieces_ok _ _ _ _ [] Hc)|done|].
  pose proof (cursor_advance _ _ _ _ Hc eq_refl) as Hc2.
  eapply wp_run; [by eapply get_ok|done|]. rewrite bool_decide_eq_true_2 by done.
  pose proof (cursor_advance _ [newline] _ 1 Hc2 eq_refl) as Hc3.
  eapply wp_run; [eapply (read_iterator_ok _ []); [exact Hc3|by left|apply Hrok]|done|].
  assert (H4 : ∀ q, 0 ≤ q → holds (set_pos q s2) D o) by (intros; by apply holds_set_pos).
  rewrite !set_pos_set_pos. cbn [s_pos set_pos on_stream].
  eapply wp_good; [apply H4; pose proof (h_pos _ _ _ H2); lia|]. apply wp_ret. cbn [app].
  apply HQ. apply H4. pose proof (h_pos _ _ _ H2). lia.
Qed.
End reading.

(** ** Moving along the list *)

(** The iterator on the element [i], or at the end. *)
Definition iter_nth (L : elems) (e : Z) (i : nat) : FileIterator :=
  match L !! i with
  | Some (p, _) => mkIt (last_pos 0 (take i L)) (hd_pos (drop (S i) L) e) p
  | None => mkIt 0 0 e
  end.

Lemma list_of_nth D L i p d :
  list_of D L → L !! i = Some (p, d) →
  ∃ r, rec_at D p = Some r ∧ it_at p r = iter_nth L (file_end D) i
    ∧ r_good r = true ∧ r_data r = d ∧ 391 ≤ p < file_end D.
Proof.
  intros HL Hi. pose proof (lo_seg _ _ HL) as Hs. rewrite <- (take_drop_middle L i (p, d) Hi) in Hs.
  apply seg_app in Hs as [_ [(r&Hr&Hp&Hn&Hg&Hd) _]]. exists r. unfold iter_nth. rewrite Hi.
  split_and!; [done|by unfold it_at; rewrite Hp, Hn|done|done|..];
    eapply list_of_pos; try exact HL; apply list_elem_of_fmap; exists (p, d);
    (split; [done|by eapply list_elem_of_lookup_2]).
Qed.

Lemma iter_nth_current L e i p d : L !! i = Some (p, d) → fi_current (iter_nth L e i) = p.
Proof. unfold iter_nth. by intros ->. Qed.
Lemma iter_nth_next L e i p d : L !! i = Some (p, d) → fi_next (iter_nth L e i) = fi_current (iter_nth L e (S i)).
Proof.
  intros Hi. unfold iter_nth. rewrite Hi. cbn [fi_next].
  destruct (L !! S i) as [[q d']|] eqn:Hq.
  - by rewrite (drop_S _ _ _ Hq).
  - apply lookup_ge_None in Hq. by rewrite drop_ge by done.
Qed.
Lemma iter_nth_prev L e i p d : L !! i = Some (p, d) → is_Some (L !! S i) → fi_prev (iter_nth L e (S i)) = p.
Proof.
  intros Hi [[q d'] Hq]. unfold iter_nth. rewrite Hq. cbn [fi_prev].
  rewrite (take_S_r _ _ _ Hi). apply last_pos_snoc.
Qed.

(** The file is as it was, and the object is in step with it. *)
Definition unchanged (D : disk) (s : St) : Prop := ∃ o, holds s D o ∧ synced o D.

Lemma current_synced o D : current o D → fc_stamp o = d_stamp D → synced o D.
Proof. intros [] Hs. by constructor. Qed.

Section moving.
Context (C : disk → Prop) (s : St) (D : disk) (o : Container) (L : elems).
Context (H : holds s D o) (Hwf : wf D L) (Hv : valid o D).

Notation e := (file_end D).
Let HL : list_of D L := wf_list D L Hwf.

Lemma wp_get_iterator i p d :
  L !! i = Some (p, d) →
  wp (get_iterator p false) (λ it s', it = iter_nth L e i ∧ unchanged D s') C s.
Proof.
  intros Hi. destruct (list_of_nth D L i p d HL Hi) as (r&Hr&Hit&_).
  unfold get_iterator. eapply wp_bind, wp_prologue; [done|apply Hwf|done|]. intros s1 o1 m H1 Hcu Hst.
  eapply wp_readIterator; [done|done|]. intros s2 H2 _. split; [done|].
  exists o1. split; [done|]. apply current_synced; auto.
Qed.

Lemma wp_read_data i p d :
  L !! i = Some (p, d) →
  wp (read_data p false) (λ x s', x = (d, iter_nth L e i) ∧ unchanged D s') C s.
Proof.
  intros Hi. destruct (list_of_nth D L i p d HL Hi) as (r&Hr&Hit&Hg&Hd&Hp).
  unfold read_data. eapply wp_bind, wp_prologue_end; [done|apply Hwf|done|]. intros s1 o1 H1 Hcu Hst.
  rewrite (proj2 (Z.leb_le p e)) by lia. eapply wp_seek; [done|lia|]. intros s2 H2 P2.
  eapply wp_bind, wp_readDataHere; [done|done|done|done|]. intros s3 H3. apply wp_ret.
  split; [by rewrite Hit, Hd|]. exists o1. split; [done|]. apply current_synced; auto.
Qed.

Lemma wp_increment i :
  (i < length L)%nat →
  wp (increment_iterator false (iter_nth L e i)) (λ it s', it = iter_nth L e (S i) ∧ unchanged D s') C s.
Proof.
  intros Hlt. destruct (lookup_lt_is_Some_2 _ _ Hlt) as [[p d] Hi].
  destruct (list_of_nth D L i p d HL Hi) as (r&Hr&Hit&_&_&Hp).
  unfold increment_iterator. eapply wp_bind, wp_prologue_end; [done|apply Hwf|done|].
  intros s1 o1 H1 Hcu Hst. pose proof (current_synced _ _ Hcu (Hst eq_refl)) as Hsy.
  rewrite (iter_nth_current _ _ _ _ _ Hi), (iter_nth_next _ _ _ _ _ Hi).
  destruct (Z.eqb_spec p 0); [lia|].
  destruct (L !! S i) as [[q d']|] eqn:Hq.
  - destruct (list_of_nth D L (S i) q d' HL Hq) as (rq&Hrq&Hitq&_&_&Hqe).
    rewrite (iter_nth_current _ _ _ _ _ Hq). destruct (Z.eqb_spec q e); [lia|].
    eapply wp_bind, wp_readIterator; [done|done|]. intros s2 H2 _.
    change (mkIt (r_prev r) (r_next r) p) with (it_at p r).
    rewrite Hit, (iter_nth_next _ _ _ _ _ Hi), (iter_nth_current _ _ _ _ _ Hq).
    eapply wp_readIterator; [done|done|]. intros s3 H3 _. split; [done|]. by exists o1.
  - assert (Hend : iter_nth L e (S i) = mkIt 0 0 e) by (unfold iter_nth; by rewrite Hq).
    rewrite Hend. cbn [fi_current]. rewrite Z.eqb_refl. apply wp_ret. split; [done|]. by exists o1.
Qed.

Lemma wp_decrement i :
  (i < length L)%nat →
  wp (decrement_iterator false (iter_nth L e (S i))) (λ it s', it = iter_nth L e i ∧ unchanged D s') C s.
Proof.
  intros Hlt. destruct (lookup_lt_is_Some_2 _ _ Hlt) as [[p d] Hi].
  destruct (list_of_nth D L i p d HL Hi) as (r&Hr&Hit&_&_&Hp).
  unfold decrement_iterator. eapply wp_bind, wp_prologue; [done|apply Hwf|done|].
  intros s1 o1 m H1 Hcu Hst. pose proof (current_synced _ _ Hcu (Hst eq_refl)) as Hsy.
  eapply wp_getEnd; [done|]. intros s2 H2 _.
  destruct (L !! S i) as [[q d']|] eqn:Hq.
  - destruct (list_of_nth D L (S i) q d' HL Hq) as (rq&Hrq&Hitq&_&_&Hqe).
    rewrite (iter_nth_current _ _ _ _ _ Hq). destruct (Z.eqb_spec q e); [lia|].
    rewrite (iter_nth_prev _ _ _ _ _ Hi) by eauto. destruct (Z.eqb_spec p 0); [lia|].
    eapply wp_bind, wp_readIterator; [done|done|]. intros s3 H3 _.
    change (mkIt (r_prev rq) (r_next rq) q) with (it_at q rq).
    rewrite Hitq, (iter_nth_prev _ _ _ _ _ Hi) by eauto.
    eapply wp_readIterator; [done|done|]. intros s4 H4 _. split; [done|]. by exists o1.
  - assert (Hend : iter_nth L e (S i) = mkIt 0 0 e) by (unfold iter_nth; by rewrite Hq).
    rewrite Hend. cbn [fi_current]. rewrite Z.eqb_refl.
    eapply wp_member; [done|]. rewrite (cu_limits _ _ Hcu), (lo_limits _ _ HL). cbn [fi_next fst snd].
    assert (Hlast : last_pos 391 L = p).
    { apply lookup_ge_None in Hq. rewrite <- (take_drop_middle L i (p, d) Hi), drop_ge by done.
      apply last_pos_snoc. }
    rewrite Hlast. eapply wp_readIterator; [done|done|]. intros s3 H3 _. split; [done|]. by exists o1.
Qed.
End moving.

(** ** All of the data *)

Lemma wp_fill_loop C D o L e : ∀ fuel s acc pp (Q : list bytes → St → Prop),
  e = file_end D → holds s D o → seg D pp L e → (∀ p, p ∈ L.*1 → 391 ≤ p < e) →
  (length L < fuel)%nat → (∀ s', holds s' D o → Q (acc ++ L.*2) s') →
  wp (fill_loop fuel (hd_pos L e) e acc) Q C s.
Proof.
  induction L as [|[p d] L IH]; intros fuel s acc pp Q He H Hs Hp Hf HQ;
    (destruct fuel as [|fuel]; [simpl in Hf; lia|]); cbn [fill_loop hd_pos].
  - rewrite Z.ltb_irrefl. apply wp_ret. rewrite <- (app_nil_r acc). by apply HQ.
  - assert (Hpe : 391 ≤ p < e) by (apply Hp; set_solver).
    rewrite (proj2 (Z.ltb_lt p e)) by lia. destruct Hs as [(r&Hr&_&Hn&Hg&Hd) Hs].
    eapply wp_seek; [done|lia|]. intros s1 H1 P1.
    eapply wp_bind, wp_readDataHere; [done|done|done|done|]. intros s2 H2.
    cbn [it_at fi_next]. rewrite Hn, Hd.
    eapply (IH fuel s2 _ p); try done; [intros; apply Hp; by right|simpl in Hf; lia|].
    intros s3 H3. rewrite <- app_assoc. by apply HQ.
Qed.

Lemma wp_fillVector C s D o L :
  holds s D o → wf D L → valid o D → fc_initialized o = true →
  wp fillVector (λ vec s', vec = L.*2 ∧ unchanged D s') C s.
Proof.
  intros H Hwf Hv Hi. pose proof (wf_list _ _ Hwf) as HL. pose proof (wf_ok _ _ Hwf) as Hok.
  pose proof (file_end_pos D) as He. pose proof (list_of_length _ _ HL) as Hlen.
  unfold fillVector. eapply wp_getEnd; [done|]. intros s1 H1 _.
  assert (Hpro : prologue (syncData true) s1 = on_modified checked (syncData true) s1)
    by (unfold prologue, member, gets, mbind, E_bind; by rewrite (h_fc _ _ _ H1), Hi).
  assert (Hw : wp (prologue (syncData true)) (λ _ s', ∃ o', holds s' D o' ∧ current o' D ∧ synced o' D) C s1).
  { eapply wp_prologue; [done|apply Hwf|done|]. intros s' o' m H' Hcu Hst. exists o'.
    split_and!; [done..|]. apply current_synced; auto. }
  apply wp_bind. unfold wp in Hw |- *. rewrite Hpro in Hw.
  eapply wp_mono; [|done|exact Hw]. intros _ s2 (o2&H2&Hcu&Hsy). cbv beta.
  eapply wp_member; [done|]. rewrite (cu_limits _ _ Hcu), (lo_limits _ _ HL). cbn [fi_prev fst].
  destruct L as [|[p d] L].
  - assert (Hend : file_end D = 391)
      by (unfold file_end; by rewrite (lo_empty _ _ HL eq_refl), (lo_tail _ _ HL)).
    cbn [hd_pos]. rewrite <- Hend. eapply wp_bind, wp_readIterator_end; [done|done|].
    intros s3 H3 _. eapply wp_gets. cbn [fill_loop fi_current]. rewrite Z.ltb_irrefl. apply wp_ret.
    split; [done|]. by exists o2.
  - cbn [hd_pos]. destruct (list_of_first _ _ _ _ HL) as (r&Hr&_).
    eapply wp_bind, wp_readIterator; [done|done|]. intros s3 H3 _. eapply wp_gets. cbn [fi_current].
    eapply (wp_fill_loop _ D o2 ((p, d) :: L) _ _ s3 [] 0); [done|done|apply HL| | |].
    + intros q Hq. by eapply list_of_pos.
    + rewrite (h_file _ _ _ H3). pose proof (layout_length D Hok). lia.
    + intros s4 H4. split; [done|]. by exists o2.
Qed.
