(* ===== verification/FileSpec.v ===== *)
(** * What a file container promises

    The container is a list of data at positions. An operation of any process turns the
    list into the one of the specification, however the processes take turns; what an
    operation that is interrupted leaves is opened with one of the two lists, or it is
    torn, and then the list may be lost. *)

From S2P Require Import Prelude Machine FileText FileContainer FileLayout FileRules FileList.
From S2P Require Import FileOps FileRemove FileCrash FileReading FileSafety FileWays.

(** ** The disks of an operation *)

Lemma leaves_safe D L L' way D' :
  wf D L →
  (∀ t, stamp_ok t → Forall (safe L L') (way (opened_disk t D))) → leaves D way D' → safe L L' D'.
Proof.
  intros Hwf Hway [->|(t&Ht&_&[->|Hin])].
  - by apply safe_closed.
  - apply safe_closed. destruct Hwf as [Hok HL Hcl Hn].
    constructor; [by apply ok_with_stamp| |done|done]. by apply (list_of_recs D); [..|apply HL|].
  - specialize (Hway t Ht). by eapply Forall_forall in Hway.
Qed.

Lemma opened_list D L t : list_of D L → list_of (opened_disk t D) L.
Proof. intros HL. apply (list_of_recs D); [done|done|apply HL|done]. Qed.

Lemma wp_both {A} (m : E A) (Q : A → St → Prop) (C : disk → Prop) s :
  wp m Q C s →
  ∃ r s', m s = Some (r, s') ∧ match r with
    | inr a => Q a s'
    | inl _ => s_budget s ≠ None ∧ ∃ D, s_file s' = layout D ∧ disk_ok D ∧ C D
    end.
Proof.
  intros (r&s'&E&Hb&H). exists r, s'. split; [done|]. destruct r as [e|a]; [|done].
  destruct H as (H0&H). split; [|done]. intros Hn. specialize (Hb Hn). congruence.
Qed.

(** ** Adding *)

Definition added (D : disk) (data : bytes) (L' : elems) (it : FileIterator) (s' : St) : Prop :=
  fi_current it = file_end D ∧ result L' (file_end D + data_size data) (d_stamp D) s'.

Lemma wp_add_at_end s D o L data :
  ready s D o L → data ≠ [] → file_end D + data_size data < 2 ^ 63 → L ≠ [] →
  wp (add_data data (file_end D)) (added D data (L ++ [(file_end D, data)]))
    (safe L (L ++ [(file_end D, data)])) s.
Proof.
  intros Hrd Hd He Hne. destruct (exists_last Hne) as (L0&[q dq]&->).
  pose proof (rd_wf _ _ _ _ Hrd) as Hwf. pose proof (wf_ok _ _ Hwf) as Hok.
  destruct (list_of_last D L0 q dq) as (r&Hr&_); [apply Hwf|].
  rewrite <- app_assoc. cbn [app].
  eapply (add_end s D o L0 q dq r data); [done..|].
  intros D' HD'. eapply leaves_safe; [apply Hrd| |exact HD'].
  intros t Ht. apply (end_safe (opened_disk t D)); try done.
  - apply opened_list, Hwf.
  - apply Hwf.
  - apply Hok.
Qed.

Lemma wp_add_before_first s D o f df L data :
  ready s D o ((f, df) :: L) → data ≠ [] → file_end D + data_size data < 2 ^ 63 →
  wp (add_data data f) (added D data ((file_end D, data) :: (f, df) :: L))
    (safe ((f, df) :: L) ((file_end D, data) :: (f, df) :: L)) s.
Proof.
  intros Hrd Hd He. pose proof (rd_wf _ _ _ _ Hrd) as Hwf. pose proof (wf_ok _ _ Hwf) as Hok.
  pose proof (wf_list _ _ Hwf) as HL. destruct (list_of_first _ _ _ _ HL) as (r&Hr&_).
  assert (∃ rq, rec_at (ab5 f r (begin_rec f data D) D) (last_pos 391 ((f, df) :: L)) = Some rq) as [rq Hrq].
  { destruct (list_of_at D _ (last_pos 391 ((f, df) :: L)) HL) as [r' Hr']; [by apply last_pos_in|].
    unfold ab5. rewrite (rec_at_recs _ _ _ (recs_status _ _)).
    destruct (alter_exists D f (relink (file_end D, r_next r)) _ r' ltac:(auto with filecontainer) Hr') as [r2 Hr2].
    eapply appended_exists; [apply (lo_tail _ _ HL)|]. rewrite (rec_at_recs _ _ _ (recs_status _ _)).
    exact Hr2. }
  eapply (add_begin s D o L f df r _ rq data); [done..|].
  intros D' HD'. eapply leaves_safe; [apply Hrd| |exact HD'].
  intros t Ht. apply (begin_safe (opened_disk t D)); try done.
  - by apply opened_list.
  - apply Hwf.
  - apply Hok.
Qed.

Lemma wp_add_between s D o L1 p dp w dw L2 data :
  ready s D o (L1 ++ (p, dp) :: (w, dw) :: L2) → data ≠ [] → file_end D + data_size data < 2 ^ 63 →
  wp (add_data data w) (added D data (L1 ++ (p, dp) :: (file_end D, data) :: (w, dw) :: L2))
    (safe (L1 ++ (p, dp) :: (w, dw) :: L2) (L1 ++ (p, dp) :: (file_end D, data) :: (w, dw) :: L2)) s.
Proof.
  intros Hrd Hd He. pose proof (rd_wf _ _ _ _ Hrd) as Hwf. pose proof (wf_ok _ _ Hwf) as Hok.
  pose proof (wf_list _ _ Hwf) as HL.
  destruct (list_of_at D _ p HL) as [r2 Hr2]; [rewrite fmap_app; set_solver|].
  destruct (list_of_at D _ w HL) as [r1 Hr1]; [rewrite fmap_app; set_solver|].
  assert (∃ rq, rec_at (am5 w r1 p r2 (middle_rec p w data D) D) (last_pos 391 ((w, dw) :: L2)) = Some rq)
    as [rq Hrq].
  { destruct (list_of_at D _ (last_pos 391 ((w, dw) :: L2)) HL) as [r' Hr'].
    { rewrite fmap_app. apply elem_of_app. right. right. by apply (last_pos_in 391 ((w, dw) :: L2)). }
    destruct (alter_exists D w (relink (file_end D, r_next r1)) _ r' ltac:(auto with filecontainer) Hr') as [r3 Hr3].
    destruct (alter_exists _ p (relink (r_prev r2, file_end D)) _ r3 ltac:(auto with filecontainer) Hr3) as [r4 Hr4].
    unfold am5. rewrite (rec_at_recs _ _ _ (recs_status _ _)).
    eapply appended_exists; [apply (lo_tail _ _ HL)|]. rewrite (rec_at_recs _ _ _ (recs_status _ _)).
    exact Hr4. }
  eapply (add_middle s D o L1 p dp w dw L2 r1 r2 _ rq data); [done..|].
  intros D' HD'. eapply leaves_safe; [apply Hrd| |exact HD'].
  intros t Ht. apply (middle_safe (opened_disk t D)); try done.
  - by apply opened_list.
  - apply Hwf.
  - apply Hok.
Qed.

Lemma insert_before_end w x L : w ∉ L.*1 → insert_before w x L = L ++ [x].
Proof. intros Hw. pose proof (insert_before_app w x L [] Hw) as E. by rewrite app_nil_r in E. Qed.

(** Adding in front of the element at [w], or after all of them. *)
Lemma wp_add s D o L w data :
  ready s D o L → data ≠ [] → file_end D + data_size data < 2 ^ 63 →
  L ≠ [] → w ∈ L.*1 ∨ w = file_end D →
  wp (add_data data w) (added D data (insert_before w (file_end D, data) L))
    (safe L (insert_before w (file_end D, data) L)) s.
Proof.
  intros Hrd Hd He Hne Hw. pose proof (wf_list _ _ (rd_wf _ _ _ _ Hrd)) as HL.
  destruct Hw as [([w' dw]&->&Hin)%list_elem_of_fmap| ->].
  - apply list_elem_of_split in Hin as (L1&L2&->). cbn [fst].
    assert (Hnin : w' ∉ L1.*1).
    { pose proof (lo_nodup _ _ HL) as Hnd. rewrite fmap_app in Hnd.
      apply NoDup_app in Hnd as (_&Hdis&_). intros Hin. apply (Hdis w' Hin). by left. }
    rewrite insert_before_app by done. cbn [insert_before]. rewrite Z.eqb_refl.
    destruct (decide (L1 = [])) as [->|Hne1].
    + by eapply wp_add_before_first.
    + destruct (exists_last Hne1) as (L0&[p dp]&->). rewrite <- !app_assoc in *. cbn [app] in *.
      by eapply wp_add_between.
  - rewrite insert_before_end by by apply end_not_in. by eapply wp_add_at_end.
Qed.

(** ** Removing *)

Definition delete_at (w : Z) (L : elems) : elems := filter (λ x, x.1 ≠ w) L.

Lemma delete_at_out w L : w ∉ L.*1 → delete_at w L = L.
Proof.
  induction L as [|[p d] L IH]; [done|]. intros [Hp HL]%not_elem_of_cons.
  unfold delete_at. rewrite filter_cons_True by (simpl; intros ->; by apply Hp). f_equal. by apply IH.
Qed.
Lemma delete_at_split w dw L1 L2 :
  NoDup (L1 ++ (w, dw) :: L2).*1 → delete_at w (L1 ++ (w, dw) :: L2) = L1 ++ L2.
Proof.
  rewrite fmap_app. intros (H1&Hdis&[H2 _]%NoDup_cons)%NoDup_app.
  unfold delete_at. rewrite filter_app, filter_cons_False by (simpl; intros Hne; by apply Hne).
  f_equal; apply delete_at_out; [|done]. intros Hin. apply (Hdis w Hin). by left.
Qed.

(** What is removed is one of several elements. *)
Lemma wp_remove s D o L w :
  ready s D o L → file_end D < 2 ^ 63 → (2 ≤ length L)%nat → w ∈ L.*1 →
  wp (remove_data w) (λ _, result (delete_at w L) (file_end D) (d_stamp D)) (safe L (delete_at w L)) s.
Proof.
  intros Hrd He Hlen ([w' dw]&->&Hin)%list_elem_of_fmap.
  pose proof (rd_wf _ _ _ _ Hrd) as Hwf. pose proof (wf_ok _ _ Hwf) as Hok.
  pose proof (wf_list _ _ Hwf) as HL. pose proof (lo_nodup _ _ HL) as Hnd.
  destruct (seg_in _ _ _ _ _ _ (lo_seg _ _ HL) Hin) as (rw&Hrw&Hg&_).
  apply list_elem_of_split in Hin as (L1&L2&->). cbn [fst].
  rewrite delete_at_split by done. rewrite fmap_app in Hnd.
  apply NoDup_app in Hnd as (_&Hdis&[Hnd _]%NoDup_cons).
  destruct (decide (L1 = [])) as [->|Hne1].
  - destruct L2 as [|[n dn] L2]; [simpl in Hlen; lia|]. cbn [app] in *.
    destruct (list_of_at D _ n HL) as [rn Hrn]; [set_solver|].
    eapply (remove_the_first s D o _ L2 w' dw n dn rn rw); [done..|].
    intros D' HD'. eapply leaves_safe; [apply Hrd| |exact HD'].
    intros t Ht. apply (first_safe (opened_disk t D)); try done.
    + by apply opened_list.
    + set_solver.
    + apply Hwf.
    + apply Hok.
  - destruct (exists_last Hne1) as (L0&[p dp]&->).
    assert (Hwp : w' ≠ p). { intros ->. apply (Hdis p); [rewrite fmap_app; set_solver|by left]. }
    rewrite <- !app_assoc in *. cbn [app] in *.
    destruct (list_of_at D _ p HL) as [rp Hrp]; [rewrite fmap_app; set_solver|].
    destruct L2 as [|[n dn] L2].
    + eapply (remove_the_last s D o _ L0 p dp w' dw rp rw); [done..|].
      intros D' HD'. eapply leaves_safe; [apply Hrd| |exact HD'].
      intros t Ht. apply (last_safe (opened_disk t D)); try done.
      * by apply opened_list.
      * apply Hwf.
      * apply Hok.
    + destruct (list_of_at D _ n HL) as [rn Hrn]; [rewrite fmap_app; set_solver|].
      eapply (remove_between s D o _ L0 p dp w' dw n dn L2 rp rw rn); [done..|].
      intros D' HD'. eapply leaves_safe; [apply Hrd| |exact HD'].
      intros t Ht. apply (between_safe (opened_disk t D)); try done.
      * by apply opened_list.
      * set_solver.
      * apply Hwf.
      * apply Hok.
Qed.

Lemma wp_any {A} (m : E A) (Q : A → St → Prop) C s : wp m Q C s → wp m Q any s.
Proof. apply wp_mono; done. Qed.

(** The end of the file after a removal: the file is cut when its only element goes. *)
Definition removed_end (L : elems) (e : Z) : Z := match L with [_] => 391 | _ => e end.

(** Any element is removed. *)
Lemma wp_remove_any s D o L w :
  ready s D o L → file_end D < 2 ^ 63 → w ∈ L.*1 →
  wp (remove_data w) (λ _, result (delete_at w L) (removed_end L (file_end D)) (d_stamp D)) any s.
Proof.
  intros Hrd He Hw. destruct L as [|[p d] [|x L]].
  - set_solver.
  - assert (w = p) as -> by set_solver. unfold delete_at. rewrite filter_cons_False by (simpl; tauto).
    pose proof (wf_list _ _ (rd_wf _ _ _ _ Hrd)) as HL. destruct (list_of_first _ _ _ _ HL) as (rw&Hrw&_).
    by eapply remove_the_only.
  - eapply wp_any, wp_remove; [done|done|simpl; lia|done].
Qed.

(** And any position is one to add at. *)
Lemma wp_add_any s D o L w data :
  ready s D o L → data ≠ [] → file_end D + data_size data < 2 ^ 63 → w ∈ L.*1 ∨ w = file_end D →
  wp (add_data data w) (added D data (insert_before w (file_end D, data) L)) any s.
Proof.
  intros Hrd Hd He Hw. destruct (decide (L = [])) as [->|Hne].
  - assert (Hend : file_end D = 391).
    { pose proof (wf_list _ _ (rd_wf _ _ _ _ Hrd)) as HL. unfold file_end.
      by rewrite (lo_empty _ _ HL eq_refl), (lo_tail _ _ HL). }
    destruct Hw as [Hw| ->]; [set_solver|]. unfold added. rewrite Hend in *. cbn [insert_before].
    by eapply add_create.
  - by eapply wp_any, wp_add.
Qed.

(** ** Several processes *)

(** The operations, what they do to the list when the file has [e] bytes, and what they
    answer. *)
Inductive op := Add (data : bytes) (w : Z) | Remove (w : Z) | Get (w : Z).

Definition run (x : op) : E bytes :=
  match x with
  | Add data w => _ ← add_data data w; mret []
  | Remove w => remove_data w;; mret []
  | Get w => '(data, _) ← read_data w false; mret data
  end.

Definition spec (e : Z) (x : op) (L : elems) : elems :=
  match x with
  | Add data w => insert_before w (e, data) L
  | Remove w => delete_at w L
  | Get _ => L
  end.

Definition answer (x : op) (L : elems) (data : bytes) : Prop :=
  match x with Get w => (w, data) ∈ L | _ => data = [] end.

(** A file and the objects of the processes that have opened it. *)
Record Sys := mkSys { sys_file : bytes; sys_procs : list Container }.

(** The stream of a process, which has been left at [pos]. *)
Definition stream (file : bytes) (pos now : Z) (o : Container) : St :=
  mkSt file pos false false false None None now o.

(** Process [i] performs an operation: nothing, when it reports an error. *)
Definition perform (i : nat) (x : op) (pos now : Z) (y : Sys) : option (bytes * Sys) :=
  o ← sys_procs y !! i;
  match run x (stream (sys_file y) pos now o) with
  | Some (inr a, s) => Some (a, mkSys (s_file s) (<[i:=fc s]> (sys_procs y)))
  | _ => None
  end.

(** The time stamp in a file. *)
Definition stamp_of (file : bytes) : option TimeStamp :=
  match read_stamp (mkStamp 0 0) (open_file file 0 None) with
  | Some (inr t, _) => t
  | _ => None
  end.

(** The positions and the sizes an operation may have: that of an element, or for an
    addition the end; and less than [2 ^ 16 - 1] operations within a second. *)
Definition allowed (file : bytes) (L : elems) (x : op) : Prop :=
  (match stamp_of file with Some t => ts_counter t < 2 ^ 16 - 1 | None => False end) ∧
  match x with
  | Add data w =>
      data ≠ [] ∧ Z.of_nat (length file) + data_size data < 2 ^ 63
      ∧ (w ∈ L.*1 ∨ w = Z.of_nat (length file))
  | Remove w => w ∈ L.*1 ∧ Z.of_nat (length file) < 2 ^ 63
  | Get w => w ∈ L.*1
  end.

Lemma stamp_of_layout D : disk_ok D → stamp_of (layout D) = Some (d_stamp D).
Proof.
  intros Hok. unfold stamp_of.
  assert (Hc : cursor (open_file (layout D) 0 None)
    (stamp_line (d_stamp D) ++ drop 27 (layout D))).
  { pose proof (stamp_line_length (d_stamp D) (ok_stamp _ Hok)) as Hl.
    constructor; [done|done|]. unfold rest, open_file. cbn [s_pos s_file]. rewrite drop_0.
    unfold layout. rewrite drop_app_length' by lia. done. }
  by rewrite (read_stamp_ok _ (mkStamp 0 0) _ _ Hc (ok_stamp _ Hok)).
Qed.

Lemma stamp_gt_trans a b c : stamp_gt a b = true → stamp_gt b c = true → stamp_gt a c = true.
Proof. unfold stamp_gt. rewrite !orb_true_iff, !andb_true_iff, !Z.ltb_lt, !Z.eqb_eq. lia. Qed.

(** A later stamp makes every object notice. *)
Lemma valid_later o D D' : valid o D → stamp_gt (d_stamp D') (d_stamp D) = true → valid o D'.
Proof.
  intros (H1&H2&H3) Hgt. split_and!; [done|done|]. intros Hi. right. destruct (H3 Hi) as [[]|Hg].
  - congruence.
  - by eapply stamp_gt_trans.
Qed.

Lemma valid_synced o D : synced o D → disk_ok D → valid o D.
Proof.
  intros Hs Hok. destruct Hs as [Hi Hst Hsz Hl] eqn:E. split_and!.
  - by rewrite Hl.
  - rewrite Hst. apply Hok.
  - intros _. left. done.
Qed.

Lemma valid_new D now : off_ok now → valid (new_container now) D.
Proof. intros Hn. split_and!; [done|by split|done]. Qed.

(** The invariant: the file is the list, and no object is out of step unnoticed. *)
Record shared (y : Sys) (L : elems) (D : disk) : Prop := {
  sh_file : sys_file y = layout D;
  sh_wf : wf D L;
  sh_procs : Forall (λ o, valid o D) (sys_procs y)
}.

(** What an operation leaves: the new list, and no object of another process [o2] that
    would not notice. *)
Definition performed (D : disk) (L : elems) (s : St) : Prop :=
  ∃ D' o', holds s D' o' ∧ wf D' L ∧ synced o' D' ∧ ∀ o2, valid o2 D → valid o2 D'.

Lemma result_performed D L e s : result L e (d_stamp D) s → performed D L s.
Proof.
  intros (D'&o'&H&Hwf&Hsy&_&[Hgt _]). exists D', o'. split_and!; [done..|].
  intros o2 Ho2. exact (valid_later o2 D D' Ho2 Hgt).
Qed.

Lemma run_performed x s D o L :
  ready s D o L → allowed (layout D) L x →
  wp (run x) (λ a s', answer x L a ∧ performed D (spec (file_end D) x L) s') any s.
Proof.
  intros Hrd [_ Ha]. pose proof (wf_ok _ _ (rd_wf _ _ _ _ Hrd)) as Hok.
  rewrite (layout_length D Hok) in Ha. destruct x as [data w|w|w]; cbn [run spec] in *.
  - destruct Ha as (Hd&He&Hw). eapply wp_bind, wp_mono; [|done|by eapply wp_add_any].
    intros it s' [_ Hres]. apply wp_ret. split; [done|]. by eapply result_performed.
  - destruct Ha as (Hw&He). eapply wp_bind, wp_mono; [|done|by eapply wp_remove_any].
    intros [] s' Hres. apply wp_ret. split; [done|]. by eapply result_performed.
  - destruct Hrd as [H Hwf Hv _]. apply list_elem_of_fmap in Ha as ([p d]&->&Hin). cbn [fst].
    pose proof Hin as [i Hi]%list_elem_of_lookup.
    eapply wp_bind, wp_mono; [|done|by eapply (wp_read_data any)].
    intros [d' it] s' [[= -> _] (o'&H'&Hsy)]. apply wp_ret. split; [exact Hin|]. by exists D, o'.
Qed.

Lemma perform_shared i x pos now y L D :
  shared y L D → (i < length (sys_procs y))%nat → 0 ≤ pos → off_ok now → allowed (sys_file y) L x →
  ∃ a y' D', perform i x pos now y = Some (a, y') ∧ answer x L a
    ∧ shared y' (spec (Z.of_nat (length (sys_file y))) x L) D'.
Proof.
  intros [Hf Hwf Hv] [o Hi]%lookup_lt_is_Some_2 Hp Hn Ha. pose proof (wf_ok _ _ Hwf) as Hok.
  pose proof (Forall_lookup_1 _ _ _ _ Hv Hi) as Hvo. cbv beta in Hvo. rewrite Hf in *.
  assert (Hrd : ready (stream (layout D) pos now o) D o L).
  { constructor; [by constructor|done|done|]. destruct Ha as [Ha _]. by rewrite stamp_of_layout in Ha. }
  destruct (wp_total _ _ _ _ (run_performed x _ D o L Hrd Ha) eq_refl)
    as (a&s'&E&_&Hans&D'&o'&H'&Hwf'&Hsy&Hoth).
  rewrite (layout_length D Hok).
  exists a, (mkSys (s_file s') (<[i:=fc s']> (sys_procs y))), D'. split_and!; [|done|].
  - unfold perform. rewrite Hi. cbn [mbind option_bind]. rewrite Hf, E. done.
  - constructor; [apply H'|done|]. rewrite (h_fc _ _ _ H').
    apply Forall_insert; [|apply (valid_synced o'); [done|apply Hwf']].
    eapply Forall_impl; [exact Hv|]. intros o2 Ho2. by apply Hoth.
Qed.

(** ** What processes read *)

(** All the data, read by a process that opens the file. *)
Definition read_at (now : Z) (file : bytes) := (initContainer;; fillVector) (open_file file now None).

(** A process that opens a closed container and reads all of it has the data of the
    list, in their order. *)
Lemma opened_data_in_order D L now :
  wf D L → off_ok now → ∃ s, read_at now (layout D) = Some (inr L.*2, s) ∧ s_file s = layout D.
Proof.
  intros Hwf Hn.
  assert (Hw : wp (initContainer;; fillVector) (λ vec s', vec = L.*2 ∧ unchanged D s') any
    (open_file (layout D) now None)).
  { eapply wp_bind, (wp_initContainer_closed _ _ _ D); [by apply holds_open, Hn; apply Hwf|apply Hwf|done|].
    intros s1 o1 H1 Hcu Hst. eapply (wp_fillVector any); [done|done| |apply Hcu].
    apply valid_synced; [by apply current_synced|apply Hwf]. }
  destruct (wp_total _ _ _ _ Hw eq_refl) as (vec&s'&E'&_&->&(o'&H'&_)). exists s'. split; [done|apply H'].
Qed.

(** The file holds the list, as every process sees it: a new one, one that has all the
    data read, and one that reads the element at a position. *)
Record serves (y : Sys) (L : elems) : Prop := {
  sv_new now : off_ok now →
    ∃ s, read_at now (sys_file y) = Some (inr L.*2, s) ∧ s_file s = sys_file y;
  sv_data o pos now : o ∈ sys_procs y → fc_initialized o = true → 0 ≤ pos → off_ok now →
    ∃ s, fillVector (stream (sys_file y) pos now o) = Some (inr L.*2, s) ∧ s_file s = sys_file y;
  sv_each o pos now p d : o ∈ sys_procs y → (p, d) ∈ L → 0 ≤ pos → off_ok now →
    ∃ it s, read_data p false (stream (sys_file y) pos now o) = Some (inr (d, it), s)
      ∧ s_file s = sys_file y
}.

Lemma shared_serves y L D : shared y L D → serves y L.
Proof.
  intros [Hf Hwf Hv]. pose proof (wf_ok _ _ Hwf) as Hok. rewrite Forall_forall in Hv.
  constructor; rewrite Hf.
  - intros now Hn. by apply opened_data_in_order.
  - intros o pos now Ho Hi Hp Hn.
    assert (H : holds (stream (layout D) pos now o) D o) by by constructor.
    destruct (wp_total _ _ _ _ (wp_fillVector any _ D o L H Hwf (Hv o Ho) Hi) eq_refl)
      as (vec&s'&E&_&->&o'&H'&_).
    exists s'. split; [done|apply H'].
  - intros o pos now p d Ho [i Hi]%list_elem_of_lookup Hp Hn.
    assert (H : holds (stream (layout D) pos now o) D o) by by constructor.
    destruct (wp_total _ _ _ _ (wp_read_data any _ D o L H Hwf (Hv o Ho) i p d Hi) eq_refl)
      as (x&s'&E&_&->&o'&H'&_).
    eexists _, s'. split; [exact E|apply H'].
Qed.

(** ** A new file *)

Definition new_disk (t : TimeStamp) : disk :=
  mkDisk t 0 closed (replicate 4 vuoto) (0, 0) (0, 0) (391, 391) (un_dead, un_beef) [] [].

Lemma new_wf t : stamp_ok t → wf (new_disk t) [].
Proof.
  intros Ht. constructor; [|constructor|done|done]; try done.
  - constructor; try done. simpl. repeat constructor; done.
  - apply NoDup_nil_2.
Qed.

(** What [createEmptyFile] writes after the time stamp does not depend on it. *)
Definition after_stamp : E unit :=
  writeAndSetSize 0;;
  writeFileStatus opened;;
  update (set_limits empty_limits);;
  update (set_removed no_removed);;
  createEmptyBackup empty;;
  (l ← member fc_limits; writeInitialPosition l false);;
  (l ← member fc_removed; writeInitialPosition l true);;
  writeFileStatus closed.

Definition created_object (initialized : bool) (t : TimeStamp) : Container :=
  mkFC initialized 0 t empty_limits no_removed.

(** A stream at [p] whose writes all reach the file. *)
Definition at_start (l : bytes) (p : Z) (bk : option bytes) (now : Z) (o : Container) : St :=
  mkSt l p false false false None bk now o.

Lemma after_stamp_ok l bk now t o :
  length l = 27%nat →
  after_stamp (at_start l 27 bk now (set_stamp t o)) =
  Some (inr tt, at_start (l ++ drop 27 (layout (new_disk (mkStamp 0 0)))) 391 bk now
    (created_object (fc_initialized o) t)).
Proof.
  intros Hl. destruct o. do 27 (destruct l as [|? l]; [discriminate|]). destruct l; [|discriminate].
  vm_compute. reflexivity.
Qed.

Lemma created_layout t :
  stamp_ok t → layout (new_disk t) = stamp_line t ++ drop 27 (layout (new_disk (mkStamp 0 0))).
Proof.
  intros Ht. unfold layout at 2. cbn [d_stamp new_disk].
  rewrite drop_app_length' by by rewrite stamp_line_length. done.
Qed.

Lemma put_new l bk now o :
  put l (at_start [] 0 bk now o) = Some (inr tt, at_start l (Z.of_nat (length l)) bk now o).
Proof.
  change (put l ?s) with (flush l s). unfold flush, at_start. cbn [s_budget s_file s_pos].
  assert (E : overwrite [] (Z.to_nat 0) l = l) . { unfold overwrite. rewrite drop_nil, (app_nil_r l). done. }
  by rewrite E.
Qed.

Lemma writeStamp_new bk now o :
  stamp_ok (fc_stamp o) →
  writeStamp (at_start [] 0 bk now o) = Some (inr tt, at_start (stamp_line (fc_stamp o)) 27 bk now o).
Proof.
  intros Ht. unfold writeStamp.
  rewrite (bind_ok (seek 0) _ _ tt (at_start [] 0 bk now o)) by done.
  rewrite (bind_ok (member fc_stamp) _ _ (fc_stamp o) (at_start [] 0 bk now o)) by done.
  rewrite (bind_ok (put _) _ _ tt _ (put_new _ bk now o)).
  change (length _) with (length (stamp_line (fc_stamp o))). by rewrite stamp_line_length.
Qed.

Lemma createEmptyFile_start bk now o :
  off_ok now → createEmptyFile (at_start [] 0 bk now o) =
    after_stamp (at_start (stamp_line (mkStamp now 0)) 27 bk now (set_stamp (mkStamp now 0) o)).
Proof.
  intros Hn. unfold createEmptyFile.
  rewrite (bind_ok (gets s_now) _ _ now (at_start [] 0 bk now o)) by done.
  rewrite (bind_ok (update _) _ _ tt (at_start [] 0 bk now (set_stamp (mkStamp now 0) o))) by done.
  rewrite (bind_ok _ _ _ _ _ (writeStamp_new bk now (set_stamp (mkStamp now 0) o) ltac:(by split))).
  change (fc_stamp (set_stamp (mkStamp now 0) o)) with (mkStamp now 0).
  unfold after_stamp. reflexivity.
Qed.

Lemma createEmptyFile_ok bk now o :
  off_ok now →
  ∃ s, createEmptyFile (at_start [] 0 bk now o) = Some (inr tt, s) ∧ s_budget s = None
    ∧ holds s (new_disk (mkStamp now 0)) (created_object (fc_initialized o) (mkStamp now 0)).
Proof.
  intros Hn. assert (Ht : stamp_ok (mkStamp now 0)) by by split.
  exists (at_start (layout (new_disk (mkStamp now 0))) 391 bk now
    (created_object (fc_initialized o) (mkStamp now 0))).
  split; [|split; [done|]].
  - rewrite createEmptyFile_start by done. rewrite created_layout by done.
    apply after_stamp_ok. by apply stamp_line_length.
  - pose proof (wf_ok _ _ (new_wf _ Ht)) as Hok. by constructor.
Qed.

Lemma create_ok now :
  off_ok now →
  ∃ s D o, create (open_file [] now None) = Some (inr tt, s) ∧ holds s D o ∧ wf D [] ∧ synced o D
    ∧ s_budget s = None.
Proof.
  intros Hn. destruct (createEmptyFile_ok None now (new_container now) Hn) as (s&E&Hb&H).
  assert (Hw : wp (updateTimeStamp;; update set_initialized)
    (λ _ s', ∃ t o', holds s' (new_disk t) o' ∧ stamp_ok t ∧ synced o' (new_disk t)) any s).
  { eapply wp_bind, wp_updateTimeStamp; [done|by split|by apply stamp_gt_irrefl|done|done|]. intros s1 t _ Ht H1.
    eapply wp_update_end; [done|]. intros s2 H2 _. exists t. eexists. split_and!; [exact H2|done|].
    by constructor. }
  destruct (wp_total _ _ _ _ Hw Hb) as ([]&s'&E'&Hb'&t&o'&H'&Ht&Hsy).
  exists s', (new_disk t), o'. split_and!; [|done|by apply new_wf|done|done].
  unfold create. by erewrite bind_ok; [|exact E].
Qed.

(** ** Reachable states *)

(** A process creates the file; others open it; and each operation is performed by one
    of them, which may have left its stream anywhere. *)
Inductive reachable : Sys → elems → Prop :=
| reach_create now s :
    off_ok now → create (open_file [] now None) = Some (inr tt, s) →
    reachable (mkSys (s_file s) [fc s]) []
| reach_open y L now :
    reachable y L → off_ok now →
    reachable (mkSys (sys_file y) (sys_procs y ++ [new_container now])) L
| reach_perform y L i x pos now a y' :
    reachable y L → off_ok now → 0 ≤ pos → allowed (sys_file y) L x →
    perform i x pos now y = Some (a, y') →
    reachable y' (spec (Z.of_nat (length (sys_file y))) x L).

Lemma reachable_shared y L : reachable y L → ∃ D, shared y L D.
Proof.
  induction 1 as [now s Hn E|y L now _ [D [Hf Hwf Hv]] Hn|y L i x pos now a y' _ [D Hsh] Hn Hp Ha E].
  - destruct (create_ok now Hn) as (s'&D&o&E'&H&Hwf&Hsy&_). rewrite E in E'. injection E' as <-.
    exists D. constructor; [apply H|done|]. apply Forall_singleton. rewrite (h_fc _ _ _ H).
    apply valid_synced; [done|apply Hwf].
  - exists D. constructor; [done|done|]. apply Forall_app. split; [done|].
    apply Forall_singleton. by apply valid_new.
  - assert (Hi : (i < length (sys_procs y))%nat).
    { unfold perform in E. destruct (sys_procs y !! i) eqn:Hi; [|done]. by eapply lookup_lt_Some. }
    destruct (perform_shared i x pos now y L D Hsh Hi Hp Hn Ha) as (a'&y2&D'&E'&_&Hsh').
    rewrite E in E'. injection E' as <- <-. by exists D'.
Qed.

(** ** Sample files *)

Definition left_file {A} (r : option ((iostatus_t + A) * St)) : bytes :=
  match r with Some (_, s) => s_file s | None => [] end.
Definition outcome {A} (r : option ((iostatus_t + A) * St)) : option (iostatus_t + A) :=
  match r with Some (a, _) => Some a | None => None end.

Definition sample_time : Z := 1700000000.
Definition opened_at (file : bytes) (budget : option nat) : St := open_file file sample_time budget.

(** A file with the data of [l]. *)
Definition append_data (data file : bytes) (budget : option nat) :=
  (w ← read_end; add_data data w) (opened_at file budget).
Definition sample_file (l : list bytes) : bytes :=
  foldl (λ f data, left_file (append_data data f None)) (left_file (create (opened_at [] None))) l.
Definition reading (file : bytes) := read_at sample_time file.

(** A process that holds a synchronised object and whose writes all reach the file. *)
Definition reader (D : disk) (s : St) : Prop := ∃ o, holds s D o ∧ valid o D ∧ s_budget s = None.

Definition a1 : bytes := ["a"%char].
Definition b1 : bytes := ["b"%char].
Definition c1 : bytes := ["c"%char].
Definition adding_c (k : nat) := left_file (append_data c1 (sample_file [a1; b1]) (Some k)).
Definition adding_a (k : nat) := left_file (append_data a1 (sample_file []) (Some k)).
Definition removing_a (k : nat) := left_file (remove_data 391 (opened_at (sample_file [a1]) (Some k))).


(** The file is as it was, but no process can read it any more. *)
Definition stuck (file : bytes) (e : iostatus_t) : Prop :=
  outcome (reading file) = Some (inl e) ∧ left_file (reading file) = file.

(** The disk of the two elements, and a process that has just started. *)
Definition sample_disk : disk :=
  mkDisk (mkStamp sample_time 3) 2 closed (replicate 4 vuoto) (0, 0) (0, 0) (391, 487) (un_dead, un_beef)
    [mkRec 0 487 a1 true 391 487; mkRec 391 583 b1 true 391 583] [].
Definition sample_list : elems := [(391, a1); (487, b1)].
Definition sample_state (budget : option nat) : St := open_file (layout sample_disk) sample_time budget.

Lemma sample_layout : layout sample_disk = sample_file [a1; b1].
Proof. vm_compute. reflexivity. Qed.

Lemma sample_ok : disk_ok sample_disk.
Proof.
  constructor; try (by repeat split); try (by repeat constructor).
Qed.

Lemma sample_wf : wf sample_disk sample_list.
Proof.
  constructor; [apply sample_ok|constructor|done|done].
  - simpl. split_and!; [eexists; split; [vm_compute; reflexivity|done]..|done].
  - vm_compute. repeat constructor; set_solver.
  - done.
  - done.
  - done.
Qed.

Lemma sample_ready budget : ready (sample_state budget) sample_disk (new_container sample_time) sample_list.
Proof.
  constructor; [|exact sample_wf|by apply valid_new|done].
  constructor; try done. apply sample_ok.
Qed.

(** ** Openings that fail *)

(** [m] ends with the error [e], and the file is as it was. *)
Definition fails {A} (m : E A) (e : iostatus_t) (s : St) : Prop :=
  ∃ s', m s = Some (inl e, s') ∧ s_file s' = s_file s.

(** What leaves the file as it is, before it fails. *)
Lemma fails_bind {A B} (Q : A → St → Prop) (m : E A) (k : A → E B) e s D o :
  holds s D o → s_budget s = None →
  wp m (λ a s', (∃ o', holds s' D o') ∧ Q a s') any s →
  (∀ a s' o', s_budget s' = None → holds s' D o' → Q a s' → fails (k a) e s') → fails (m ≫= k) e s.
Proof.
  intros H Hb Hw Hk. destruct (wp_total _ _ _ _ Hw Hb) as (a&s1&E&Hb1&[o' H1]&HQ).
  destruct (Hk a s1 o' Hb1 H1 HQ) as (s2&E2&Hf2). exists s2. split; [by rewrite (bind_ok _ _ _ _ _ E)|].
  rewrite Hf2, (h_file _ _ _ H1), (h_file _ _ _ H). done.
Qed.

(** A step whose result is known. *)
Lemma wp_now {A} (m : E A) (Q : A → St → Prop) C s a s' :
  m s = Some (inr a, s') → s_budget s' = s_budget s → Q a s' → wp m Q C s.
Proof. intros E Hb HQ. exists (inr a), s'. split_and!; [done|congruence|done]. Qed.

(** After the last record there is no header. *)
Lemma no_header_at_end s D o :
  holds s D o → s_pos s = file_end D →
  ∃ s', readSizeAndState s = Some (inl syntax_error, s') ∧ s_file s' = s_file s ∧ fc s' = fc s.
Proof.
  intros H Hp. pose proof (layout_length D (h_ok _ _ _ H)) as Hl.
  assert (Hr : rest s = []) by (unfold rest; rewrite (h_file _ _ _ H); apply drop_ge; lia).
  unfold readSizeAndState. rewrite (bind_ok _ _ _ _ _ (tell_ok s (h_good _ _ _ H))).
  assert (E : getline s = (advance 0 true true;; mret []) s).
  { unfold getline. rewrite (bind_ok sentry _ s true s) by (unfold sentry; by rewrite (h_good _ _ _ H)).
    rewrite (bind_ok (gets rest) _ s (rest s) s) by done. rewrite Hr. done. }
  erewrite (bind_ok getline); [|rewrite E; reflexivity]. cbn. eexists. split_and!; [reflexivity|done|done].
Qed.

(** The check of an empty list looks for the record after the header of the file. *)
Lemma empty_not_consistent s D o n :
  holds s D o → s_budget s = None → fi_prev (fc_limits o) = 391 → file_end D = 391 →
  fails (checkConsistency n) unavailable_position s.
Proof.
  intros H Hb Hp He. unfold checkConsistency.
  eapply (fails_bind (λ e s', e = 391 ∧ fc s' = o)); [done|done| |].
  { destruct (getEnd_ok s D o H) as [E1 H1]. eapply wp_now; [exact E1|done|].
    split_and!; [eauto|done|by apply H1]. }
  intros a s2 o2 Hb2 H2 [-> Hf2]. rewrite (h_fc _ _ _ H2) in Hf2. subst o2.
  eapply (fails_bind (λ _ s', fi_prev (fc_limits (fc s')) = 391)); [done|done| |].
  { eapply wp_readSize; [done|]. intros s' H'. split; [eauto|]. rewrite (h_fc _ _ _ H'). exact Hp. }
  intros _ s3 o3 Hb3 H3 HQ3. eapply (fails_bind (λ b s', b = 391 ∧ s' = s3)); [done|done| |].
  { eapply wp_now; [reflexivity|done|]. eauto. }
  intros b s3' o3' _ _ [-> ->].
  eapply (fails_bind (λ it s', it = mkIt 0 0 391 ∧ s_pos s' = 391)); [done|done| |].
  { rewrite <- He. apply (wp_readIterator_end any s3 D o3 H3); [lia|]. intros s' H' P'. eauto. }
  intros it s4 o4 Hb4 H4 [-> P4].
  eapply (fails_bind (λ n s', n = S (length (s_file s4)) ∧ s' = s4)); [done|done| |].
  { eapply wp_now; [reflexivity|done|]. eauto. }
  intros fuel s4' o4' _ _ [-> ->]. cbn [check_loop].
  destruct (no_header_at_end s4 D o4 H4) as (s5&E5&Hf5&_); [by rewrite P4, He|].
  exists s5. split; [|exact Hf5].
  rewrite (bind_ok good _ s4 true s4) by (apply good_ok; by apply H4).
  rewrite (bind_ok (attempt readSizeAndState) _ s4 (inl syntax_error) s5) by (unfold attempt; by rewrite E5).
  reflexivity.
Qed.

Lemma fails_first {A B} (m : E A) (k : A → E B) e s : fails m e s → fails (m ≫= k) e s.
Proof. intros (s'&E&Hf). exists s'. split; [|done]. unfold mbind, E_bind. by rewrite E. Qed.

(** Every recovery that comes to the check fails with it. *)
Lemma empty_not_recovered s D o :
  holds s D o → s_budget s = None → fi_prev (fc_limits o) = 391 → file_end D = 391 →
  fails (recover_unchecked rd_empty) unavailable_position s.
Proof.
  intros H Hb Hp He. unfold recover_unchecked. rewrite bool_decide_eq_false_2 by done.
  eapply (fails_bind (λ _ s', fc s' = o)); [done|done| |].
  { eapply wp_backupFile; [done|]. intros s' H'. split; [eauto|by apply H']. }
  intros _ s1 o1 Hb1 H1 Hf1. rewrite (h_fc _ _ _ H1) in Hf1. subst o1.
  eapply (fails_bind (λ st s', st = rd_empty ∧ s' = s1)); [done|done| |].
  { apply wp_ret. eauto. }
  intros st ? ? _ _ [-> ->]. eapply (fails_bind (λ _ s', s' = s1)); [done|done| |].
  { eapply wp_now; [apply sync_ok, H1|done|]. eauto. }
  intros _ s1' o2' _ _ ->. apply fails_first. by eapply empty_not_consistent.
Qed.

(** A file that no process can open: each fails with [e] and leaves it as it is. *)
Definition unreadable (file : bytes) (e : iostatus_t) : Prop :=
  ∀ now, off_ok now → fails initContainer e (open_file file now None).

(** ** The properties *)

(** C1. However processes create, open, and change a container, one after the other and
    each with its own cached copies, every allowed operation succeeds, answers what is
    in the list, and leaves a file that holds the list of the specification: a new
    process reads exactly its data in their order, and so does every process that has
    the file open, whatever copies it has; and at the position of each element every
    process reads its data. *)
Theorem container_refines_list y L i x pos now :
  reachable y L → (i < length (sys_procs y))%nat → 0 ≤ pos → off_ok now → allowed (sys_file y) L x →
  ∃ a y', perform i x pos now y = Some (a, y') ∧ answer x L a
    ∧ serves y' (spec (Z.of_nat (length (sys_file y))) x L)
    ∧ reachable y' (spec (Z.of_nat (length (sys_file y))) x L).
Proof.
  intros Hr Hi Hp Hn Ha. destruct (reachable_shared y L Hr) as [D Hsh].
  destruct (perform_shared i x pos now y L D Hsh Hi Hp Hn Ha) as (a&y'&D'&E&Hans&Hsh').
  exists a, y'. split_and!; [done|done|by eapply shared_serves|by eapply reach_perform].
Qed.

(** C15. Every file that processes reach is well laid out: it is the text of a closed disk
    whose good records are linked in both directions in the order of the list, whose size
    and limits are those of the list, and of which no process has a copy that is out of
    date without a time stamp that shows it. *)
Theorem container_wellformed y L :
  reachable y L → ∃ D, sys_file y = layout D ∧ disk_ok D ∧ d_status D = closed
    ∧ list_of D L ∧ d_size D = Z.of_nat (length L) ∧ Forall (λ o, valid o D) (sys_procs y).
Proof.
  intros Hr. destruct (reachable_shared y L Hr) as [D [Hf [Hok HL Hcl Hn] Hv]]. by exists D.
Qed.

(** C2. When a write of [add_data] on a list that is not empty does not reach the disk,
    the next process that opens the file has the list before the addition or the one
    after it, or the backups had been cleared before the status was written. *)
Theorem add_data_crash_safe s D o L w data :
  ready s D o L → data ≠ [] → file_end D + data_size data < 2 ^ 63 → L ≠ [] →
  w ∈ L.*1 ∨ w = file_end D →
  ∃ r s', add_data data w s = Some (r, s') ∧
    match r with
    | inr it => added D data (insert_before w (file_end D, data) L) it s'
    | inl _ => ∃ D', s_file s' = layout D' ∧
        (reopens (layout D') L ∨ reopens (layout D') (insert_before w (file_end D, data) L) ∨ torn D')
    end.
Proof.
  intros Hrd Hd He Hne Hw. destruct (wp_both _ _ _ _ (wp_add s D o L w data Hrd Hd He Hne Hw)) as (r&s'&E&H).
  exists r, s'. split; [exact E|]. destruct r as [x|it]; [|exact H].
  destruct H as (_&D'&Hf&Hok&Hs). exists D'. split; [exact Hf|by apply Hs].
Qed.

(** C14. The same for [remove_data] on a list of several elements. *)
Theorem remove_data_crash_safe s D o L w :
  ready s D o L → file_end D < 2 ^ 63 → (2 ≤ length L)%nat → w ∈ L.*1 →
  ∃ r s', remove_data w s = Some (r, s') ∧
    match r with
    | inr _ => result (delete_at w L) (file_end D) (d_stamp D) s'
    | inl _ => ∃ D', s_file s' = layout D' ∧
        (reopens (layout D') L ∨ reopens (layout D') (delete_at w L) ∨ torn D')
    end.
Proof.
  intros Hrd He Hl Hw. destruct (wp_both _ _ _ _ (wp_remove s D o L w Hrd He Hl Hw)) as (r&s'&E&H).
  exists r, s'. split; [exact E|]. destruct r as [x|[]]; [|exact H].
  destruct H as (_&D'&Hf&Hok&Hs). exists D'. split; [exact Hf|by apply Hs].
Qed.

(** The exception is real, on a sample. An addition at the end that stops between the clearing of
    the backups and the status that says so loses the list: the next process reports an
    error, and from then on the file is closed and not readable. An interrupted addition
    to an empty container and an interrupted removal of the only element leave files on
    which every later opening fails in the same way. *)
Example interrupted_container_is_lost :
  outcome (reading (sample_file [a1; b1])) = Some (inr [a1; b1])
  ∧ (let f := adding_c 14 in
     outcome (reading f) = Some (inl unavailable_position)
     ∧ (let f := left_file (reading f) in outcome (reading f) = Some (inl syntax_error)
        ∧ stuck (left_file (reading f)) syntax_error))
  ∧ stuck (left_file (reading (adding_a 4))) unavailable_position
  ∧ stuck (removing_a 10) unavailable_position.
Proof. vm_compute. done. Qed.

(** C34. The removal of the only element of a list is finished in two steps, and a process
    that dies between them leaves an empty list with the status [rd_empty]. No process can
    open such a file ever again: the recovery checks the list, and the check has no case
    for a list without elements. *)
Theorem empty_list_not_recovered D :
  disk_ok D → list_of D [] → d_status D = rd_empty → unreadable (layout D) unavailable_position.
Proof.
  intros Hok HL Hst now Hnow. pose proof (holds_open D now Hok Hnow) as H. unfold initContainer.
  assert (Hend : file_end D = 391) by (unfold file_end; by rewrite (lo_empty _ _ HL eq_refl), (lo_tail _ _ HL)).
  set (Q := λ s', fi_prev (fc_limits (fc s')) = 391).
  eapply (fails_bind (λ _ _, True)); [exact H|done| |].
  { eapply wp_now; [by eapply check_bad_ok, H|done|]. eauto. }
  intros _ s1 o1 Hb1 H1 _. eapply (fails_bind (λ _ _, True)); [done|done|eapply wp_readStamp; eauto|].
  intros _ s2 o2 Hb2 H2 _. eapply (fails_bind (λ _, Q)); [done|done| |].
  { eapply wp_readLimits; [done|]. intros s' H'. split; [eauto|]. unfold Q. rewrite (h_fc _ _ _ H'), (lo_limits _ _ HL). done. }
  intros _ s3 o3 Hb3 H3 HQ. unfold Q in HQ. rewrite (h_fc _ _ _ H3) in HQ. eapply (fails_bind (λ _, Q)); [done|done| |].
  { eapply wp_readRemoved; [done|]. intros s' H'. split; [eauto|]. unfold Q. by rewrite (h_fc _ _ _ H'). }
  clear HQ. intros _ s4 o4 Hb4 H4 HQ. unfold Q in HQ. rewrite (h_fc _ _ _ H4) in HQ. eapply (fails_bind (λ _, Q)); [done|done| |].
  { eapply wp_readSize; [done|]. intros s' H'. split; [eauto|]. unfold Q. by rewrite (h_fc _ _ _ H'). }
  clear HQ. intros _ s5 o5 Hb5 H5 HQ. unfold Q in HQ. rewrite (h_fc _ _ _ H5) in HQ.
  eapply (fails_bind (λ st s', st = d_status D ∧ fc s' = o5)); [done|done| |].
  { eapply wp_readFileStatus; [done|]. intros s' H' _. split_and!; [eauto|done|]. by apply H'. }
  intros st s6 o6 Hb6 H6 [-> Hf6]. rewrite (h_fc _ _ _ H6) in Hf6. subst o6.
  rewrite Hst, bool_decide_eq_false_2 by done. apply fails_first. by eapply empty_not_recovered.
Qed.

(** [increment_iterator] and [decrement_iterator] are inverses along the list, from
    its first element to the end, and [read_data] gives the data of each of them. *)
Theorem iterators_walk_list s s2 s3 D L i p d :
  reader D s → reader D s2 → reader D s3 → wf D L → L !! i = Some (p, d) →
  ∃ t t2 t3, increment_iterator false (iter_nth L (file_end D) i) s = Some (inr (iter_nth L (file_end D) (S i)), t)
    ∧ decrement_iterator false (iter_nth L (file_end D) (S i)) s2 = Some (inr (iter_nth L (file_end D) i), t2)
    ∧ read_data p false s3 = Some (inr (d, iter_nth L (file_end D) i), t3)
    ∧ unchanged D t ∧ unchanged D t2 ∧ unchanged D t3.
Proof.
  intros (o&H&Hv&Hb) (o2&H2&Hv2&Hb2) (o3&H3&Hv3&Hb3) Hwf Hi.
  pose proof (lookup_lt_Some _ _ _ Hi) as Hlt.
  destruct (wp_total _ _ _ _ (wp_increment any s D o L H Hwf Hv i Hlt) Hb) as (?&t&E&_&->&Ht).
  destruct (wp_total _ _ _ _ (wp_decrement any s2 D o2 L H2 Hwf Hv2 i Hlt) Hb2) as (?&t2&E2&_&->&Ht2).
  destruct (wp_total _ _ _ _ (wp_read_data any s3 D o3 L H3 Hwf Hv3 i p d Hi) Hb3) as (?&t3&E3&_&->&Ht3).
  by exists t, t2, t3.
Qed.

(** ** Their witnesses *)

(** Two processes on a file with one element. *)
Definition sys0 : Sys :=
  match create (opened_at [] None) with Some (_, s) => mkSys (s_file s) [fc s] | None => mkSys [] [] end.
Definition sys01 : Sys :=
  match perform 0 (Add a1 391) 0 sample_time sys0 with Some (_, y) => y | None => sys0 end.
Definition sys1 : Sys := mkSys (sys_file sys01) (sys_procs sys01 ++ [new_container sample_time]).

Lemma sys0_reachable : reachable sys0 [].
Proof.
  assert (Hn : off_ok sample_time) by done.
  destruct (create_ok sample_time Hn) as (s&D&o&E&_). unfold sys0, opened_at. rewrite E.
  exact (reach_create sample_time s Hn E).
Qed.
Lemma sys01_performed : perform 0 (Add a1 391) 0 sample_time sys0 = Some ([], sys01).
Proof. vm_compute. reflexivity. Qed.

Lemma sys1_reachable : reachable sys1 [(391, a1)].
Proof.
  apply reach_open; [|done].
  refine (reach_perform sys0 [] 0 (Add a1 391) 0 sample_time [] sys01 _ _ _ _ sys01_performed).
  - exact sys0_reachable.
  - done.
  - done.
  - split; [vm_compute; done|]. split; [done|split; [vm_compute; reflexivity|right; vm_compute; reflexivity]].
Qed.

Lemma container_refines_list_witness :
  ∃ a y', perform 1 (Add b1 391) 0 sample_time sys1 = Some (a, y') ∧ answer (Add b1 391) [(391, a1)] a
    ∧ serves y' (spec (Z.of_nat (length (sys_file sys1))) (Add b1 391) [(391, a1)])
    ∧ reachable y' (spec (Z.of_nat (length (sys_file sys1))) (Add b1 391) [(391, a1)]).
Proof.
  apply (container_refines_list sys1 [(391, a1)] 1 (Add b1 391) 0 sample_time).
  - apply sys1_reachable.
  - vm_compute. lia.
  - lia.
  - done.
  - split; [vm_compute; done|]. split; [done|split; [vm_compute; reflexivity|left; set_solver]].
Defined.

Lemma add_data_crash_safe_witness :
  ∃ r s', add_data c1 487 (sample_state (Some 9%nat)) = Some (r, s') ∧
    match r with
    | inr it => added sample_disk c1 (insert_before 487 (file_end sample_disk, c1) sample_list) it s'
    | inl _ => ∃ D', s_file s' = layout D' ∧
        (reopens (layout D') sample_list
         ∨ reopens (layout D') (insert_before 487 (file_end sample_disk, c1) sample_list) ∨ torn D')
    end.
Proof.
  apply (add_data_crash_safe _ _ _ _ _ _ (sample_ready (Some 9%nat))).
  - done.
  - vm_compute. done.
  - done.
  - left. set_solver.
Defined.

Lemma remove_data_crash_safe_witness :
  ∃ r s', remove_data 391 (sample_state (Some 9%nat)) = Some (r, s') ∧
    match r with
    | inr _ => result (delete_at 391 sample_list) (file_end sample_disk) (d_stamp sample_disk) s'
    | inl _ => ∃ D', s_file s' = layout D' ∧
        (reopens (layout D') sample_list ∨ reopens (layout D') (delete_at 391 sample_list) ∨ torn D')
    end.
Proof.
  apply (remove_data_crash_safe _ _ _ _ _ (sample_ready (Some 9%nat))).
  - vm_compute. done.
  - simpl. lia.
  - set_solver.
Defined.

(** What the removal of the only element leaves after ten writes. *)
Definition half_removed : disk :=
  mkDisk (mkStamp sample_time 3) 1 rd_empty (replicate 4 vuoto) (0, 0) (0, 0) (391, 391) (un_dead, un_beef)
    [] [].

Lemma half_removed_file : layout half_removed = removing_a 10.
Proof. vm_compute. reflexivity. Qed.

Lemma empty_list_not_recovered_witness : unreadable (removing_a 10) unavailable_position.
Proof.
  rewrite <- half_removed_file. apply (empty_list_not_recovered half_removed).
  - constructor; try (by repeat split); try (by repeat constructor).
  - constructor; try done. apply NoDup_nil_2.
  - reflexivity.
Defined.

Lemma iterators_walk_list_witness :
  ∃ t t2 t3, let s := sample_state None in let e := file_end sample_disk in
    increment_iterator false (iter_nth sample_list e 1) s = Some (inr (iter_nth sample_list e 2), t)
    ∧ decrement_iterator false (iter_nth sample_list e 2) s = Some (inr (iter_nth sample_list e 1), t2)
    ∧ read_data 487 false s = Some (inr (b1, iter_nth sample_list e 1), t3)
    ∧ unchanged sample_disk t ∧ unchanged sample_disk t2 ∧ unchanged sample_disk t3.
Proof.
  pose proof (sample_ready None) as [H Hwf Hv _].
  assert (Hr : reader sample_disk (sample_state None)) by (eexists; split_and!; [exact H|exact Hv|reflexivity]).
  exact (iterators_walk_list _ _ _ _ sample_list 1 487 b1 Hr Hr Hr Hwf eq_refl).
Defined.

Lemma container_wellformed_witness :
  ∃ D, sys_file sys1 = layout D ∧ disk_ok D ∧ d_status D = closed
    ∧ list_of D [(391, a1)] ∧ d_size D = Z.of_nat (length [(391, a1)])
    ∧ Forall (λ o, valid o D) (sys_procs sys1).
Proof. apply (container_wellformed sys1 [(391, a1)]). exact sys1_reachable. Defined.
