(* ===== verification/FileSequence.v ===== *)
(** * Lists kept in a file container (filelist.h, filelist.cpp, filelist_iterator.cpp)

    [_file_sequence_t] gives a file container the operations of a list, and its iterators
    carry the data of the element they stand on; [FileList] converts the data to and from
    values of a type. A status other than [all_good] is thrown as an exception, which is
    the error of the operation. What the operations return is a reference to the member
    [fs_last], whose data and state every user sets anew: only its position is modelled. *)

From S2P Require Import Prelude Machine FileText FileContainer FileLayout FileRules FileList.
From S2P Require Import FileOps FileRemove FileCrash FileReading FileSafety FileWays FileSpec.

(** ** Iterators *)

(** [_base_iterator_t]; [bi_container] tells whether it belongs to the list. That the
    value has been converted already ([bi_new]) makes no difference to it. *)
Record iter := mkIter {
  bi_good : bool;
  bi_container : bool;
  bi_iterator : FileIterator;
  bi_data : bytes
}.

Definition no_iter : iter := mkIter false false vuoto [].

(** [position] of [FileIterator] *)
Definition pos_of (it : iter) : Z := fi_current (bi_iterator it).

Definition read_string (check : bool) (it : iter) : E iter :=
  if bi_container it then
    end_ ← read_end;
    if negb check && (pos_of it =? end_) then mret (mkIter false true (bi_iterator it) [])
    else
      '(data, i) ← read_data (pos_of it) false;
      mret (mkIter true true i data)
  else mret (mkIter false false (bi_iterator it) (bi_data it)).

Definition with_position (it : iter) (i : FileIterator) : iter :=
  mkIter (bi_good it) (bi_container it) i (bi_data it).

(** The member functions of the container are called through a pointer. *)
Definition increment (it : iter) : E iter :=
  if bi_container it then i ← increment_iterator false (bi_iterator it); mret (with_position it i)
  else undefined.
Definition decrement (it : iter) : E iter :=
  if bi_container it then i ← decrement_iterator false (bi_iterator it); mret (with_position it i)
  else undefined.

Definition is_different (a b : iter) : bool :=
  negb (Bool.eqb (bi_container a) (bi_container b)) || negb (pos_of a =? pos_of b).

(** [FLIterator]: made of a position, [operator++], [operator--] and [reset]. *)
Definition iterator_at (i : FileIterator) : E iter := read_string false (mkIter false true i []).
Definition iter_next (it : iter) : E iter := it ← increment it; read_string false it.
Definition iter_prior (it : iter) : E iter := it ← decrement it; read_string false it.
Definition iter_reset (it : iter) : iter := mkIter false (bi_container it) (bi_iterator it) (bi_data it).

(** [StdConverter]: the conversions throw when they fail. *)
Class Converter (T : Type) := {
  to_string : T → option bytes;
  of_string : bytes → option T
}.

(** The list of strings needs no conversion. *)
#[export] Instance string_converter : Converter bytes := {| to_string := Some; of_string := Some |}.

(** [operator*]: [check_status] and the conversion. *)
Definition deref {T} `{Converter T} (it : iter) : E T :=
  if bi_good it then
    match of_string (bi_data it) with
    | Some x => mret x
    | None => throw cannot_convert_from_string
    end
  else if bi_container it then throw unavailable_position else undefined.

(** ** The operations of [_file_sequence_t] *)

Definition insertData (position : Z) (val : bytes) : E FileIterator := add_data val position.

Definition erasePointer (position : Z) : E FileIterator :=
  _ ← read_end;
  iter ← get_iterator position false;
  iter ← increment_iterator false iter;
  remove_data position;;
  size ← read_size;
  if negb (size =? 0) then get_iterator (fi_current iter) false
  else end_ ← read_end; get_iterator end_ false.

(** The loop stops with the list: an element is removed on each round. *)
Fixpoint erase_loop (fuel : nat) (iter : FileIterator) (last : Z) : E FileIterator :=
  match fuel with
  | O => undefined
  | S fuel =>
      iter ← get_iterator (fi_current iter) false;
      remove_data (fi_current iter);;
      iter ← increment_iterator false iter;
      end_ ← read_end;
      if negb (fi_current iter =? last) && negb (fi_current iter =? end_)
      then erase_loop fuel iter last else mret iter
  end.

Definition eraseInterval (first : FileIterator) (last : Z) : E FileIterator :=
  fuel ← gets (λ s, S (length (s_file s)));
  erase_loop fuel first last.

Fixpoint remove_loop (fuel : nat) (value : bytes) (iter : FileIterator) : E unit :=
  match fuel with
  | O => undefined
  | S fuel =>
      '(data, iter) ← read_data (fi_current iter) false;
      (if bool_decide (data = value) then remove_data (fi_current iter) else mret tt);;
      iter ← increment_iterator false iter;
      end_ ← read_end;
      if negb (fi_current iter =? end_) then remove_loop fuel value iter else mret tt
  end.

Definition removeData (value : bytes) : E unit :=
  begin ← read_begin;
  iter ← get_iterator begin false;
  fuel ← gets (λ s, S (length (s_file s)));
  remove_loop fuel value iter.

Definition fs_getBegin : E FileIterator :=
  begin ← read_begin; _ ← read_end; get_iterator begin false.
Definition fs_getEnd : E FileIterator := end_ ← read_end; get_iterator end_ false.
Definition fs_getStart : E FileIterator := _ ← read_end; get_iterator fc_s_headerSize false.
Definition fs_getLast : E FileIterator := _ ← read_end; last ← read_last; get_iterator last false.
Definition fs_clear : E unit := truncate.
Definition fs_sync : E unit := sync.
Definition fs_modified : E bool := modified.
Definition fs_empty : E bool := begin ← read_begin; end_ ← read_end; mret (begin =? end_).
Definition fs_size : E Z := read_size.
Definition fs_compact : E unit := compact_data.

(** ** [FileList] *)

Definition fl_begin : E iter := i ← fs_getBegin; iterator_at i.
Definition fl_end : E iter := i ← fs_getEnd; iterator_at i.
Definition fl_erase (position : iter) : E iter :=
  i ← erasePointer (pos_of position); iterator_at i.
Definition fl_erase_interval (first last : iter) : E iter :=
  i ← eraseInterval (bi_iterator first) (pos_of last); iterator_at i.
Definition fl_pop_front : E unit := i ← fs_getBegin; _ ← erasePointer (fi_current i); mret tt.
Definition fl_pop_back : E unit :=
  i ← fs_getEnd; i ← decrement_iterator false i; _ ← erasePointer (fi_current i); mret tt.

Section FileList.
Context {T : Type} `{Converter T}.

Definition converted (x : T) : E bytes :=
  match to_string x with Some data => mret data | None => throw cannot_convert_to_string end.

Definition fl_front : E T := it ← fl_begin; deref it.
Definition fl_back : E T := it ← fl_end; it ← iter_prior it; deref it.
Definition fl_push_front (x : T) : E unit :=
  i ← fs_getBegin; data ← converted x; _ ← insertData (fi_current i) data; mret tt.
Definition fl_push_back (x : T) : E unit :=
  i ← fs_getEnd; data ← converted x; _ ← insertData (fi_current i) data; mret tt.
Definition fl_insert (position : iter) (x : T) : E iter :=
  data ← converted x; i ← insertData (pos_of position) data; iterator_at i.
Definition fl_remove (x : T) : E unit := data ← converted x; removeData data.
End FileList.
(** ** The rules *)

(** [m] ends with a result for which [Q] holds. *)
Definition runs {A} (m : E A) (Q : A → St → Prop) (s : St) : Prop :=
  ∃ a s', m s = Some (inr a, s') ∧ Q a s'.

Lemma runs_ret {A} (a : A) Q s : Q a s → runs (mret a) Q s.
Proof. intros H. by exists a, s. Qed.
Lemma runs_bind {A B} (m : E A) (k : A → E B) Q s : runs m (λ a, runs (k a) Q) s → runs (m ≫= k) Q s.
Proof.
  intros (a&s1&E1&b&s2&E2&H). exists b, s2. split; [|done].
  unfold mbind, E_bind. by rewrite E1.
Qed.
Lemma runs_mono {A} (m : E A) (Q Q' : A → St → Prop) s :
  runs m Q s → (∀ a s', Q a s' → Q' a s') → runs m Q' s.
Proof. intros (a&s'&E&H) HQ. exists a, s'. eauto. Qed.
Lemma runs_gets {A} (f : St → A) (Q : A → St → Prop) s : Q (f s) s → runs (gets f) Q s.
Proof. intros H. by exists (f s), s. Qed.

(** A process that can work on the file of [D], in which every write reaches the disk. *)
Definition sees (D : disk) (L : elems) (s : St) : Prop :=
  ∃ o, holds s D o ∧ wf D L ∧ valid o D ∧ s_budget s = None.

Lemma runs_wp {A} (m : E A) (Q : A → St → Prop) s :
  wp m Q any s → s_budget s = None → runs m (λ a s', Q a s' ∧ s_budget s' = None) s.
Proof. intros H Hb. destruct (wp_total _ _ _ _ H Hb) as (a&s'&E&Hb'&HQ). by exists a, s'. Qed.

(** The position of the element [i], and the data that an iterator on it has. *)
Definition at_nth (D : disk) (L : elems) (i : nat) : iter :=
  mkIter (bool_decide (i < length L)%nat) true (iter_nth L (file_end D) i)
    (default [] (snd <$> L !! i)).

Section rules.
Context (D : disk) (L : elems).
Notation e := (file_end D).
Notation seen := (sees D L).

Lemma unchanged_sees s : wf D L → unchanged D s → s_budget s = None → seen s.
Proof.
  intros Hwf (o&H&Hsy) Hb. exists o. split_and!; [done|done| |done].
  apply valid_synced; [done|apply Hwf].
Qed.

(** A rule for a process that knows the container is one for a process that sees it. *)
Lemma runs_sees {A} (m : E A) (P : A → Prop) s :
  (∀ o, holds s D o → wf D L → valid o D → wp m (λ a s', P a ∧ unchanged D s') any s) →
  seen s → runs m (λ a s', P a ∧ seen s') s.
Proof.
  intros Hm (o&H&Hwf&Hv&Hb). eapply runs_mono; [by apply runs_wp; [eapply Hm|]|].
  intros a s' [[HP Hu] Hb']. split; [done|]. by apply unchanged_sees.
Qed.

Lemma current_unchanged s o : holds s D o → current o D → fc_stamp o = d_stamp D → unchanged D s.
Proof. intros H Hcu Hst. exists o. split; [done|]. by apply current_synced. Qed.

Lemma runs_read_end s : seen s → runs read_end (λ x s', x = e ∧ seen s') s.
Proof.
  apply runs_sees. intros o H Hwf Hv. unfold read_end.
  eapply wp_bind, wp_prologue; [done|apply Hwf|done|]. intros s1 o1 m H1 Hcu Hst.
  eapply wp_getEnd_end; [done|]. intros s2 H2 _. split; [done|]. by eapply current_unchanged; auto.
Qed.

Lemma list_of_ends : list_of D L → (d_limits D).1 = hd_pos L 391 ∧ (L = [] → e = 391).
Proof.
  intros HL. rewrite (lo_limits _ _ HL). split; [done|]. intros HE. unfold file_end.
  by rewrite (lo_empty _ _ HL HE), (lo_tail _ _ HL).
Qed.

Lemma runs_read_begin s : seen s → runs read_begin (λ x s', x = hd_pos L e ∧ seen s') s.
Proof.
  apply runs_sees. intros o H Hwf Hv. unfold read_begin.
  eapply wp_bind, wp_prologue; [done|apply Hwf|done|]. intros s1 o1 m H1 Hcu Hst.
  destruct (list_of_ends (wf_list _ _ Hwf)) as [Hf He].
  exists (inr (fi_prev (fc_limits (fc s1)))), s1. split; [done|split; [done|]].
  rewrite (h_fc _ _ _ H1), (cu_limits _ _ Hcu). cbn [fi_prev]. split.
  - rewrite Hf. destruct L; [symmetry; by apply He|done].
  - by eapply current_unchanged; auto.
Qed.

Lemma runs_get_iterator s i :
  (i ≤ length L)%nat → seen s →
  runs (get_iterator (fi_current (iter_nth L e i)) false) (λ x s', x = iter_nth L e i ∧ seen s') s.
Proof.
  intros Hi. destruct (L !! i) as [[p d]|] eqn:Hl.
  - rewrite (iter_nth_current _ _ _ _ _ Hl). apply runs_sees. intros o H Hwf Hv.
    by eapply wp_get_iterator.
  - assert (Hn : iter_nth L e i = mkIt 0 0 e) by (unfold iter_nth; by rewrite Hl). rewrite Hn.
    apply runs_sees. intros o H Hwf Hv. unfold get_iterator.
    eapply wp_bind, wp_prologue; [done|apply Hwf|done|]. intros s1 o1 m H1 Hcu Hst.
    cbn [fi_current]. eapply wp_readIterator_end; [done|apply file_end_pos|]. intros s2 H2 _.
    split; [done|]. by eapply current_unchanged; auto.
Qed.

Lemma runs_next s i :
  (i < length L)%nat → seen s →
  runs (increment_iterator false (iter_nth L e i)) (λ x s', x = iter_nth L e (S i) ∧ seen s') s.
Proof. intros Hi. apply runs_sees. intros o H Hwf Hv. by eapply wp_increment. Qed.
Lemma runs_prior s i :
  (i < length L)%nat → seen s →
  runs (decrement_iterator false (iter_nth L e (S i))) (λ x s', x = iter_nth L e i ∧ seen s') s.
Proof. intros Hi. apply runs_sees. intros o H Hwf Hv. by eapply wp_decrement. Qed.
Lemma runs_read_data s i p d :
  L !! i = Some (p, d) → seen s →
  runs (read_data p false) (λ x s', x = (d, iter_nth L e i) ∧ seen s') s.
Proof. intros Hi. apply runs_sees. intros o H Hwf Hv. by eapply wp_read_data. Qed.
End rules.
Section rules.
Context (D : disk) (L : elems).
Notation e := (file_end D).
Notation seen := (sees D L).

Lemma runs_read_size s : seen s → runs read_size (λ x s', x = Z.of_nat (length L) ∧ seen s') s.
Proof.
  apply runs_sees. intros o H Hwf (Hc&Hst&Hv). pose proof (wf_status _ _ Hwf) as Hcl.
  pose proof (wf_size _ _ Hwf) as Hsz. pose proof (wf_list _ _ Hwf) as HL.
  unfold read_size. eapply wp_getEnd; [done|]. intros s1 H1 _. eapply wp_member; [done|].
  assert (Hfin : ∀ s2 o2 x, holds s2 D o2 → current o2 D → fc_stamp o2 = d_stamp D → x = e →
    wp (begin ← getBegin; size ← member fc_size;
        (if bool_decide ((inr tt : iostatus_t + unit) = inl container_modified)
            || (negb (begin =? x) && (size =? 0)) then syncData true else mret tt);; member fc_size)
       (λ a s', a = Z.of_nat (length L) ∧ unchanged D s') any s2).
  { intros s2 o2 x H2 Hcu Hs2 ->. unfold getBegin. eapply wp_member; [done|]. eapply wp_member; [done|].
    rewrite (cu_limits _ _ Hcu), (cu_size _ _ Hcu), Hsz, (lo_limits _ _ HL). cbn [fi_prev fst].
    rewrite bool_decide_eq_false_2 by done. cbn [orb].
    assert (Hz : negb (hd_pos L 391 =? e) && (Z.of_nat (length L) =? 0) = false).
    { destruct L as [|y L']; [|apply andb_false_iff; right; by apply Z.eqb_neq].
      unfold file_end. rewrite (lo_empty _ _ HL eq_refl), (lo_tail _ _ HL). done. }
    rewrite Hz. apply wp_bind, wp_ret. eexists (inr _), s2. split; [done|]. split; [done|].
    rewrite (h_fc _ _ _ H2), (cu_size _ _ Hcu). split; [done|]. by eapply current_unchanged. }
  destruct (fc_initialized o) eqn:Hi; cbn [negb].
  - destruct (checked_ok s1 D o H1 Hcl) as (s2&E2&H2&Hb2).
    apply wp_bind. eapply wp_frame; [unfold attempt; rewrite E2; reflexivity|done|].
    destruct (stamp_gt (d_stamp D) (fc_stamp o)) eqn:Hm; cbv beta iota.
    + apply wp_bind, wp_ret. unfold getBegin. eapply wp_member; [done|]. eapply wp_member; [done|].
      rewrite bool_decide_eq_true_2 by done. cbn [orb].
      eapply wp_bind, wp_syncData; [done|done|done|done|by apply stamp_gt_asym|].
      intros s3 o3 H3 Hcu Hs3. exists (inr (fc_size (fc s3))), s3. split; [done|]. split; [done|].
      rewrite (h_fc _ _ _ H3), (cu_size _ _ Hcu). split; [done|].
      exact (current_unchanged D _ _ H3 Hcu (Hs3 eq_refl)).
    + destruct (Hv eq_refl) as [Hsy|Hg]; [|done].
      eapply wp_bind, wp_getEnd_end; [done|]. intros s3 H3 _.
      eapply Hfin; [done| |by destruct Hsy|done].
      destruct Hsy. constructor; [done..|]. by rewrite sy_stamp, stamp_gt_irrefl.
  - apply wp_bind. unfold attempt.
    assert (Hw : wp initContainer (λ _ s', ∃ o', holds s' D o' ∧ current o' D ∧ fc_stamp o' = d_stamp D)
      (λ _, False) s1).
    { eapply wp_initContainer_closed; [done..|]. intros s' o' H' Hcu' Hs'. by exists o'. }
    apply wp_pure in Hw as ([]&s2&E2&Hb2&o2&H2&Hcu&Hs2).
    eapply wp_frame; [rewrite E2; reflexivity|done|]. apply wp_bind, wp_ret.
    by eapply Hfin.
Qed.

Lemma at_nth_some i p d :
  L !! i = Some (p, d) → at_nth D L i = mkIter true true (iter_nth L e i) d.
Proof.
  intros Hi. unfold at_nth. rewrite Hi, bool_decide_eq_true_2; [done|by eapply lookup_lt_Some].
Qed.
Lemma at_nth_end i : (length L ≤ i)%nat → at_nth D L i = mkIter false true (mkIt 0 0 e) [].
Proof.
  intros Hi. unfold at_nth, iter_nth. rewrite (lookup_ge_None_2 _ _ Hi), bool_decide_eq_false_2; [done|lia].
Qed.

Lemma runs_iterator_at i s :
  (i ≤ length L)%nat → seen s →
  runs (iterator_at (iter_nth L e i)) (λ x s', x = at_nth D L i ∧ seen s') s.
Proof.
  intros Hi Hs. unfold iterator_at, read_string. cbn [bi_container negb andb bi_iterator].
  apply runs_bind. eapply runs_mono; [by apply (runs_read_end D L)|]. intros x s1 [-> Hs1].
  unfold pos_of. cbn [bi_iterator].
  destruct (L !! i) as [[p d]|] eqn:Hl.
  - pose proof Hs1 as (o&H&Hwf&_). rewrite (iter_nth_current _ _ _ _ _ Hl).
    destruct (list_of_nth D L i p d (wf_list _ _ Hwf) Hl) as (_&_&_&_&_&Hp).
    destruct (Z.eqb_spec p e); [lia|]. cbn [andb negb].
    apply runs_bind. eapply runs_mono; [by eapply runs_read_data|].
    intros x2 s2 [-> Hs2]. apply runs_ret. by rewrite (at_nth_some i p d).
  - assert (Hn : iter_nth L e i = mkIt 0 0 e) by (unfold iter_nth; by rewrite Hl). rewrite Hn.
    rewrite Z.eqb_refl. apply runs_ret. rewrite at_nth_end; [done|by apply lookup_ge_None_1].
Qed.

Lemma runs_iter_next i s :
  (i < length L)%nat → seen s → runs (iter_next (at_nth D L i)) (λ x s', x = at_nth D L (S i) ∧ seen s') s.
Proof.
  intros Hi Hs. unfold iter_next, increment. cbn [at_nth bi_container bi_iterator].
  apply runs_bind, runs_bind. eapply runs_mono; [by eapply runs_next|]. intros x s1 [-> Hs1].
  apply runs_ret. apply (runs_iterator_at (S i)); [lia|done].
Qed.
Lemma runs_iter_prior i s :
  (i < length L)%nat → seen s → runs (iter_prior (at_nth D L (S i))) (λ x s', x = at_nth D L i ∧ seen s') s.
Proof.
  intros Hi Hs. unfold iter_prior, decrement. cbn [at_nth bi_container bi_iterator].
  apply runs_bind, runs_bind. eapply runs_mono; [by eapply runs_prior|]. intros x s1 [-> Hs1].
  apply runs_ret. apply (runs_iterator_at i); [lia|done].
Qed.

Lemma runs_getEnd s : seen s → runs fs_getEnd (λ x s', x = iter_nth L e (length L) ∧ seen s') s.
Proof.
  intros Hs. unfold fs_getEnd. apply runs_bind. eapply runs_mono; [by apply (runs_read_end D L)|].
  intros x s1 [-> Hs1].
  assert (Hc : fi_current (iter_nth L e (length L)) = e)
    by (unfold iter_nth; by rewrite lookup_ge_None_2).
  rewrite <- Hc at 1. by apply runs_get_iterator.
Qed.
Lemma hd_pos_nth : hd_pos L e = fi_current (iter_nth L e 0).
Proof. by destruct L as [|[p d] l]. Qed.
Lemma runs_getBegin s : seen s → runs fs_getBegin (λ x s', x = iter_nth L e 0 ∧ seen s') s.
Proof.
  intros Hs. unfold fs_getBegin. apply runs_bind. eapply runs_mono; [by apply (runs_read_begin D L)|].
  intros x s1 [-> Hs1]. apply runs_bind. eapply runs_mono; [by apply (runs_read_end D L)|].
  intros x s2 [-> Hs2]. rewrite hd_pos_nth. apply runs_get_iterator; [lia|done].
Qed.
Lemma runs_fl_end s : seen s → runs fl_end (λ x s', x = at_nth D L (length L) ∧ seen s') s.
Proof.
  intros Hs. unfold fl_end. apply runs_bind. eapply runs_mono; [by apply runs_getEnd|].
  intros x s1 [-> Hs1]. by apply runs_iterator_at.
Qed.
Lemma runs_fl_begin s : seen s → runs fl_begin (λ x s', x = at_nth D L 0 ∧ seen s') s.
Proof.
  intros Hs. unfold fl_begin. apply runs_bind. eapply runs_mono; [by apply runs_getBegin|].
  intros x s1 [-> Hs1]. apply runs_iterator_at; [lia|done].
Qed.
Lemma runs_fs_empty s : seen s → runs fs_empty (λ x s', x = bool_decide (L = []) ∧ seen s') s.
Proof.
  intros Hs. unfold fs_empty. apply runs_bind. eapply runs_mono; [by apply (runs_read_begin D L)|].
  intros x s1 [-> Hs1]. apply runs_bind. eapply runs_mono; [by apply (runs_read_end D L)|].
  intros x s2 [-> Hs2]. apply runs_ret. split; [|done].
  pose proof Hs2 as (o&H&Hwf&_). pose proof (wf_list _ _ Hwf) as HL. destruct L as [|[p d] l].
  - rewrite bool_decide_eq_true_2 by done. apply Z.eqb_eq. done.
  - rewrite bool_decide_eq_false_2 by done. apply Z.eqb_neq. cbn [hd_pos].
    assert (391 ≤ p < e) by (eapply list_of_pos; [exact HL|by left]). lia.
Qed.
End rules.
(** What a modification leaves: the list [L'] in a file of [e'] bytes, with a time stamp
    that every process notices. *)
Definition leaves_list (D : disk) (L' : elems) (e' : Z) (D' : disk) (s' : St) : Prop :=
  sees D' L' s' ∧ file_end D' = e' ∧ later (d_stamp D') (d_stamp D).

Lemma result_sees D L' e' s' :
  result L' e' (d_stamp D) s' → s_budget s' = None → ∃ D', leaves_list D L' e' D' s'.
Proof.
  intros (D'&o'&H&Hwf&Hsy&He&Hla) Hb. exists D'. split; [|done].
  exists o'. split_and!; [done|done| |done]. apply valid_synced; [done|apply Hwf].
Qed.

Lemma sees_ready D L s o : holds s D o → wf D L → valid o D → ts_counter (d_stamp D) + 1 < 2 ^ 16 → ready s D o L.
Proof. intros H Hwf Hv Hc. constructor; [done..|]. lia. Qed.

Section modifying.
Context (D : disk) (L : elems).
Notation e := (file_end D).
Notation seen := (sees D L).

Lemma runs_insertData w data s :
  seen s → ts_counter (d_stamp D) + 1 < 2 ^ 16 → data ≠ [] → e + data_size data < 2 ^ 63 →
  w ∈ L.*1 ∨ w = e →
  runs (insertData w data) (λ _ s', ∃ D',
    leaves_list D (insert_before w (e, data) L) (e + data_size data) D' s') s.
Proof.
  intros (o&H&Hwf&Hv&Hb) Hc Hd He Hw.
  eapply runs_mono; [by apply runs_wp; [eapply wp_add_any; [by eapply sees_ready|..]|]|].
  intros it s' [[_ Hres] Hb']. by apply result_sees.
Qed.

Lemma runs_push_back {T} `{Converter T} (x : T) data s :
  seen s → ts_counter (d_stamp D) + 1 < 2 ^ 16 → to_string x = Some data → data ≠ [] →
  e + data_size data < 2 ^ 63 →
  runs (fl_push_back x) (λ _ s', ∃ D', leaves_list D (L ++ [(e, data)]) (e + data_size data) D' s') s.
Proof.
  intros Hs Hc Hx Hd He. unfold fl_push_back. apply runs_bind.
  eapply runs_mono; [by apply (runs_getEnd D L)|]. intros i s1 [-> Hs1].
  unfold converted. rewrite Hx. apply runs_bind, runs_ret, runs_bind.
  assert (Hcur : fi_current (iter_nth L e (length L)) = e)
    by (unfold iter_nth; by rewrite lookup_ge_None_2).
  rewrite Hcur. eapply runs_mono; [apply (runs_insertData e data); auto|].
  intros it s2 (D'&HD'). apply runs_ret. exists D'.
  pose proof Hs1 as (o&H1&Hwf&_). rewrite insert_before_end in HD' by by apply end_not_in, Hwf. done.
Qed.

Lemma runs_remove_data w s :
  seen s → ts_counter (d_stamp D) + 1 < 2 ^ 16 → e < 2 ^ 63 → w ∈ L.*1 →
  runs (remove_data w) (λ _ s', ∃ D', leaves_list D (delete_at w L) (removed_end L e) D' s') s.
Proof.
  intros (o&H&Hwf&Hv&Hb) Hc He Hw.
  eapply runs_mono; [by apply runs_wp; [eapply wp_remove_any; [by eapply sees_ready|..]|]|].
  intros [] s' [Hres Hb']. by apply result_sees.
Qed.
End modifying.

Lemma iter_nth_delete L1 p d L2 e :
  fi_current (iter_nth (L1 ++ (p, d) :: L2) e (S (length L1))) = fi_current (iter_nth (L1 ++ L2) e (length L1)).
Proof.
  unfold iter_nth. rewrite lookup_app_r, lookup_app_r by lia.
  replace (S (length L1) - length L1)%nat with 1%nat by lia. rewrite Nat.sub_diag. cbn [lookup].
  by destruct L2 as [|[q dq] L2].
Qed.

(** The element that comes after the one that is erased. *)
Lemma runs_erasePointer D L1 p d L2 s :
  let L := L1 ++ (p, d) :: L2 in let e' := removed_end L (file_end D) in
  sees D L s → ts_counter (d_stamp D) + 1 < 2 ^ 16 → file_end D < 2 ^ 63 →
  runs (erasePointer p) (λ i s', i = iter_nth (L1 ++ L2) e' (length L1) ∧
    ∃ D', leaves_list D (L1 ++ L2) e' D' s') s.
Proof.
  intros L e' Hs Hc He. assert (Hl : L !! length L1 = Some (p, d)) by by apply list_lookup_middle.
  assert (Hlen : (length L1 < length L)%nat) by (unfold L; rewrite length_app; simpl; lia).
  unfold erasePointer. apply runs_bind. eapply runs_mono; [by apply (runs_read_end D L)|].
  intros x s1 [_ Hs1]. apply runs_bind.
  rewrite <- (iter_nth_current L (file_end D) _ _ _ Hl).
  eapply runs_mono; [apply runs_get_iterator; [lia|done]|]. intros i s2 [-> Hs2]. apply runs_bind.
  eapply runs_mono; [by apply runs_next|]. intros i s3 [-> Hs3]. apply runs_bind.
  rewrite (iter_nth_current _ _ _ _ _ Hl).
  pose proof Hs3 as (o3&_&Hwf3&_).
  eapply runs_mono; [apply (runs_remove_data D L p); [done|done|done|]|].
  { apply list_elem_of_fmap. exists (p, d). split; [done|]. by eapply list_elem_of_lookup_2. }
  intros [] s4 (D'&Hs4&He4&Hla). unfold L in Hs4. rewrite delete_at_split in Hs4 by apply Hwf3.
  fold e' in He4. apply runs_bind. eapply runs_mono; [by eapply runs_read_size|].
  intros n s5 [-> Hs5].
  assert (Hret : ∀ i s', i = iter_nth (L1 ++ L2) (file_end D') (length L1) ∧ sees D' (L1 ++ L2) s' →
    i = iter_nth (L1 ++ L2) e' (length L1) ∧ ∃ D', leaves_list D (L1 ++ L2) e' D' s').
  { intros i s' [-> Hs']. rewrite He4. split; [done|]. by exists D'. }
  destruct (Z.eqb_spec (Z.of_nat (length (L1 ++ L2))) 0) as [Hz|Hz]; cbn [negb].
  - destruct (L1 ++ L2) eqn:HL; [|simpl in Hz; lia]. apply app_eq_nil in HL as [HL1 HL2]. subst L1 L2.
    eapply runs_mono; [|exact Hret]. exact (runs_getEnd D' [] s5 Hs5).
  - assert (He' : e' = file_end D).
    { unfold e', removed_end, L. destruct L1 as [|? [|??]], L2; try done. }
    eapply runs_mono; [|exact Hret]. unfold L. rewrite iter_nth_delete, <- He', <- He4.
    apply runs_get_iterator; [rewrite length_app; lia|done].
Qed.

Lemma runs_fl_erase D L1 p d L2 it s :
  let L := L1 ++ (p, d) :: L2 in let e' := removed_end L (file_end D) in
  pos_of it = p → sees D L s → ts_counter (d_stamp D) + 1 < 2 ^ 16 → file_end D < 2 ^ 63 →
  runs (fl_erase it) (λ x s', ∃ D', x = at_nth D' (L1 ++ L2) (length L1)
    ∧ leaves_list D (L1 ++ L2) e' D' s') s.
Proof.
  intros L e' <- Hs Hc He. unfold fl_erase. apply runs_bind.
  eapply runs_mono; [by apply (runs_erasePointer D L1 (pos_of it) d L2)|].
  intros i s1 (->&D'&Hs1&He1&Hla). rewrite <- He1.
  eapply runs_mono; [apply runs_iterator_at; [rewrite length_app; lia|done]|].
  intros x s2 [-> Hs2]. by exists D'.
Qed.

(** ** The properties *)

(** C24. [erase] removes the element of an iterator, keeps the others in their order, and
    ends with the iterator on the element that followed, or on the end. *)
Theorem fl_erase_gives_next D L1 p d L2 it s :
  pos_of it = p → sees D (L1 ++ (p, d) :: L2) s → ts_counter (d_stamp D) + 1 < 2 ^ 16 → file_end D < 2 ^ 63 →
  ∃ D' s', fl_erase it s = Some (inr (at_nth D' (L1 ++ L2) (length L1)), s') ∧ sees D' (L1 ++ L2) s'.
Proof.
  intros Hp Hs Hc He. destruct (runs_fl_erase D L1 p d L2 it s Hp Hs Hc He) as (x&s'&E&D'&->&Hs'&_).
  by exists D', s'.
Qed.

(** A process on a file with the data of [l], and an iterator on its element [i]. *)
Definition on_list (l : list bytes) : St := opened_at (sample_file l) None.
Fixpoint iter_on (i : nat) : E iter :=
  match i with O => fl_begin | S i => it ← iter_on i; iter_next it end.
Definition erase_between (i j : nat) : E iter := first ← iter_on i; last ← iter_on j; fl_erase_interval first last.

(** How an operation ends, and the data it leaves in the file. *)
Definition effect {A} (m : E A) (l : list bytes) : option iostatus_t * option (iostatus_t + list bytes) :=
  let r := m (on_list l) in
  (match outcome r with Some (inl e) => Some e | _ => None end, outcome (reading (left_file r))).

(** The loops of [erase(first, last)] and [remove] test their end after the body. An
    empty interval erases everything from its place to the end of the list, and one that
    leaves nothing in the list throws when it has erased it; [remove] of the only data of
    a list removes it and throws, and [remove] from an empty list throws. *)
Theorem erase_and_remove_can_throw :
  let l := [a1; b1; c1] in
  effect (erase_between 0 2) l = (None, Some (inr [c1]))
  ∧ effect (erase_between 1 3) l = (None, Some (inr [a1]))
  ∧ effect (erase_between 1 1) l = (None, Some (inr [a1]))
  ∧ effect (erase_between 0 3) l = (Some unavailable_position, Some (inr []))
  ∧ effect (erase_between 0 0) l = (Some unavailable_position, Some (inr []))
  ∧ effect (fl_remove a1) [a1; b1; a1] = (None, Some (inr [b1]))
  ∧ effect (fl_remove a1) [a1] = (Some syntax_error, Some (inr []))
  ∧ effect (fl_remove a1) [] = (Some syntax_error, Some (inr [])).
Proof. vm_compute. done. Qed.

(** *** Its witness *)

Lemma sample_sees : sees sample_disk sample_list (sample_state None).
Proof. destruct (sample_ready None) as [H Hwf Hv _]. eexists. split_and!; [exact H|exact Hwf|exact Hv|reflexivity]. Qed.

Lemma fl_erase_gives_next_witness :
  ∃ D' s', fl_erase (mkIter true true (mkIt 0 487 391) a1) (sample_state None)
      = Some (inr (at_nth D' [(487, b1)] 0), s') ∧ sees D' [(487, b1)] s'.
Proof.
  apply (fl_erase_gives_next sample_disk [] 391 a1 [(487, b1)]).
  - reflexivity.
  - exact sample_sees.
  - vm_compute. reflexivity.
  - vm_compute. reflexivity.
Defined.
