(* ===== verification/FileOwner.v ===== *)
(** * Objects that keep a list in a file

    The containers of the job controller and the log monitor are objects with a member
    that is a list in a file. Their operations read and change the object, perform
    operations of the list, and end with its exceptions unless they catch them. *)

From S2P Require Import Prelude Machine FileText FileContainer FileLayout FileRules FileList.
From S2P Require Import FileOps FileRemove FileCrash FileReading FileSafety FileWays FileSpec.
From S2P Require Import FileSequence.

(** The member of an object [W] with which the process works on the file. *)
Class Owner (W : Type) := {
  file_of : W → St;
  with_file : St → W → W;
  file_of_with s w : file_of (with_file s w) = s;
  with_file_of w : with_file (file_of w) w = w
}.

(** An operation ends with an exception or a result, and is not defined where it uses
    an iterator on what is not there. *)
Definition Own (W A : Type) : Type := W → option ((iostatus_t + A) * W).

Section operations.
Context {W : Type}.

#[export] Instance Own_ret : MRet (Own W) := λ A a w, Some (inr a, w).
#[export] Instance Own_bind : MBind (Own W) := λ A B k m w,
  match m w with
  | Some (inr a, w) => k a w
  | Some (inl e, w) => Some (inl e, w)
  | None => None
  end.

(** An operation of the list in the file. *)
Definition on_file `{Owner W} {A} (m : E A) : Own W A := λ w,
  match m (file_of w) with
  | Some (r, s) => Some (r, with_file s w)
  | None => None
  end.

Definition state {A} (f : W → A) : Own W A := λ w, Some (inr (f w), w).
Definition update_state (f : W → W) : Own W unit := λ w, Some (inr tt, f w).
Definition crash {A} : Own W A := λ _, None.
Definition lift_option {A} (x : option A) : Own W A := match x with Some a => mret a | None => crash end.

(** A block whose exceptions are caught: whether there was one. *)
Definition catch (m : Own W unit) : Own W bool := λ w,
  match m w with
  | Some (inr _, w) => Some (inr false, w)
  | Some (inl _, w) => Some (inr true, w)
  | None => None
  end.

(** [for( it = begin(); it != end; ++it )], with the iterators of the list. *)
Fixpoint for_each `{Owner W} (body : iter → Own W unit) (fuel : nat) (it end_ : iter) : Own W unit :=
  match fuel with
  | O => crash
  | S fuel =>
      if is_different it end_ then
        body it;;
        it ← on_file (iter_next it);
        for_each body fuel it end_
      else mret tt
  end.

(** More rounds than the list of any file has elements. *)
Definition rounds `{Owner W} : Own W nat := state (λ w, S (length (s_file (file_of w)))).

(** The loop over the whole list, the end of which is read first. *)
Definition each `{Owner W} (body : iter → Own W unit) : Own W unit :=
  end_ ← on_file fl_end;
  it ← on_file fl_begin;
  fuel ← rounds;
  for_each body fuel it end_.

(** ** Rules *)

Definition mruns {A} (m : Own W A) (Q : A → W → Prop) (w : W) : Prop :=
  ∃ a w', m w = Some (inr a, w') ∧ Q a w'.

Lemma mruns_ret {A} (a : A) Q w : Q a w → mruns (mret a) Q w.
Proof. intros H. by exists a, w. Qed.
Lemma mruns_bind {A B} (m : Own W A) (k : A → Own W B) Q w :
  mruns m (λ a, mruns (k a) Q) w → mruns (m ≫= k) Q w.
Proof.
  intros (a&w1&E1&b&w2&E2&H). exists b, w2. split; [|done]. unfold mbind, Own_bind. by rewrite E1.
Qed.
Lemma mruns_mono {A} (m : Own W A) (Q Q' : A → W → Prop) w :
  mruns m Q w → (∀ a w', Q a w' → Q' a w') → mruns m Q' w.
Proof. intros (a&w'&E&H) HQ. exists a, w'. eauto. Qed.
Lemma mruns_file `{Owner W} {A} (m : E A) Q w :
  runs m (λ a s, Q a (with_file s w)) (file_of w) → mruns (on_file m) Q w.
Proof. intros (a&s&E&HQ). exists a, (with_file s w). split; [|done]. unfold on_file. by rewrite E. Qed.
Lemma mruns_state {A} (f : W → A) Q w : Q (f w) w → mruns (state f) Q w.
Proof. intros H. by exists (f w), w. Qed.
Lemma mruns_update (f : W → W) Q w : Q tt (f w) → mruns (update_state f) Q w.
Proof. intros H. by exists tt, (f w). Qed.
Lemma mruns_catch (m : Own W unit) Q w : mruns m (λ _ w', Q false w') w → mruns (catch m) Q w.
Proof. intros (a&w'&E&H). exists false, w'. split; [|done]. unfold catch. by rewrite E. Qed.
End operations.

(** ** The loop over the list *)

Lemma at_nth_pos D L i p d : L !! i = Some (p, d) → pos_of (at_nth D L i) = p.
Proof. intros Hi. unfold pos_of. cbn. by eapply iter_nth_current. Qed.

Lemma is_different_at D L i :
  list_of D L → (i ≤ length L)%nat →
  is_different (at_nth D L i) (at_nth D L (length L)) = bool_decide (i ≠ length L).
Proof.
  intros HL Hi. unfold is_different. cbn [bi_container at_nth]. rewrite eqb_reflx. cbn [negb orb].
  case_bool_decide as Hne.
  - destruct (lookup_lt_is_Some_2 L i ltac:(lia)) as [[q d] Hq].
    destruct (list_of_nth D L i q d HL Hq) as (_&_&_&_&_&Hqe).
    apply negb_true_iff, Z.eqb_neq. rewrite (at_nth_pos _ _ _ _ _ Hq), at_nth_end by done. unfold pos_of. cbn. lia.
  - assert (i = length L) as -> by lia. by rewrite Z.eqb_refl.
Qed.

Lemma runs_deref {T} `{Converter T} (a : T) it (Q : T → St → Prop) s :
  bi_good it = true → of_string (bi_data it) = Some a → Q a s → runs (deref it) Q s.
Proof. intros Hg Ha HQ. unfold deref. rewrite Hg, Ha. by apply runs_ret. Qed.

Section each.
Context {W : Type} `{Owner W} (D : disk) (L : elems).
Context (body : iter → Own W unit) (I : nat → W → Prop).
Context (HI : ∀ i s w, I i w → I i (with_file s w)).
Context (Hbody : ∀ i q d w, L !! i = Some (q, d) → I i w → sees D L (file_of w) →
  mruns (body (at_nth D L i)) (λ _ w', I (S i) w' ∧ sees D L (file_of w')) w).

Lemma for_each_ok n : ∀ fuel i w,
  (i + n = length L)%nat → (n < fuel)%nat → sees D L (file_of w) → I i w →
  mruns (for_each body fuel (at_nth D L i) (at_nth D L (length L)))
    (λ _ w', I (length L) w' ∧ sees D L (file_of w')) w.
Proof.
  induction n as [|n IH]; intros fuel i w Hi Hf Hs Hw; (destruct fuel as [|fuel]; [lia|]); cbn [for_each];
    pose proof Hs as (o&_&Hwf&_); rewrite (is_different_at D L i (wf_list _ _ Hwf)) by lia.
  - rewrite bool_decide_eq_false_2 by lia. apply mruns_ret. by replace (length L) with i by lia.
  - rewrite bool_decide_eq_true_2 by lia. destruct (lookup_lt_is_Some_2 L i ltac:(lia)) as [[q d] Hq].
    apply mruns_bind. eapply mruns_mono; [by eapply Hbody|]. intros [] w1 [Hw1 Hs1].
    apply mruns_bind, mruns_file. eapply runs_mono; [apply runs_iter_next; [lia|exact Hs1]|].
    intros it s2 [-> Hs2]. apply IH; [lia|lia|by rewrite file_of_with|by apply HI].
Qed.

Lemma each_ok w :
  sees D L (file_of w) → I O w → mruns (each body) (λ _ w', I (length L) w' ∧ sees D L (file_of w')) w.
Proof.
  intros Hs Hw. unfold each. apply mruns_bind, mruns_file.
  eapply runs_mono; [by apply (runs_fl_end D L)|]. intros it s1 [-> Hs1].
  apply mruns_bind, mruns_file. rewrite file_of_with.
  eapply runs_mono; [by apply (runs_fl_begin D L)|]. intros it s2 [-> Hs2].
  apply mruns_bind, mruns_state. rewrite file_of_with. pose proof Hs2 as (o2&H2&Hwf2&_).
  pose proof (list_of_length _ _ (wf_list _ _ Hwf2)) as Hlen.
  pose proof (layout_length D (wf_ok _ _ Hwf2)) as Hlay. rewrite (h_file _ _ _ H2).
  apply (for_each_ok (length L)); [lia|lia|by rewrite file_of_with|by apply HI, HI].
Qed.
End each.
(** ** Adding at the end, and what the operations need *)

(** [push_back] and the iterator on what it has added. *)
Definition append {T} `{Converter T} (value : T) : E iter :=
  fl_push_back value;; last ← fl_end; iter_prior last.

(** Room for [k] changes within the second of the stamp and for a file of [n] characters. *)
Definition room (D : disk) (k n : Z) : Prop := ts_counter (d_stamp D) + k < 2 ^ 16 ∧ n < 2 ^ 63.

Lemma room_less D k k' n n' : room D k n → k' ≤ k → n' ≤ n → room D k' n'.
Proof. unfold room. lia. Qed.

Lemma runs_append {T} `{Converter T} D L (x : T) data s :
  let e := file_end D in let n := e + data_size data in
  sees D L s → room D 1 n → to_string x = Some data → data ≠ [] →
  runs (append x) (λ it s', ∃ D', let L' := L ++ [(e, data)] in
    leaves_list D L' n D' s' ∧ it = mkIter true true (iter_nth L' n (length L)) data) s.
Proof.
  intros e n Hs [Hc He] Hx Hd. unfold append. apply runs_bind.
  eapply runs_mono; [by apply (runs_push_back D L x data)|].
  intros [] s1 (D'&Hs1&He1&Hla). fold e in Hs1, He1. fold n in He1.
  set (L' := L ++ [(e, data)]) in *.
  assert (Hlen : length L' = S (length L)) by (unfold L'; rewrite length_app; simpl; lia).
  apply runs_bind. eapply runs_mono; [by eapply runs_fl_end|]. intros it s2 [-> Hs2]. rewrite Hlen.
  eapply runs_mono; [apply (runs_iter_prior D' L'); [lia|done]|]. intros it s3 [-> Hs3].
  exists D'. split; [done|]. rewrite <- He1.
  assert (Hl : L' !! length L = Some (e, data)) by (unfold L'; by apply list_lookup_middle).
  by apply at_nth_some with (p := e).
Qed.

Section owner.
Context {W : Type} `{Owner W}.

(** The same as the process finds it in the file. *)
Definition fits (k n : Z) (w : W) : Prop :=
  match stamp_of (s_file (file_of w)) with Some t => ts_counter t + k < 2 ^ 16 | None => False end
  ∧ Z.of_nat (length (s_file (file_of w))) + n < 2 ^ 63.

Lemma fits_room k n w D L : sees D L (file_of w) → fits k n w → room D k (file_end D + n).
Proof.
  intros (o&Hh&Hwf&_) [Hc He].
  rewrite (h_file _ _ _ Hh), (layout_length D (wf_ok _ _ Hwf)) in He.
  rewrite (h_file _ _ _ Hh), stamp_of_layout in Hc by apply Hwf. by split.
Qed.

(** The file is opened by a process that has just started. *)
Definition reopened (now : Z) (w : W) : W := with_file (open_file (s_file (file_of w)) now None) w.

(** Such a process sees what the others see. *)
Lemma sees_opened D L s now : sees D L s → off_ok now → sees D L (open_file (s_file s) now None).
Proof.
  intros (o&Hh&Hwf&_) Hn. exists (new_container now). rewrite (h_file _ _ _ Hh).
  split_and!; [|exact Hwf|by apply valid_new|reflexivity]. apply holds_open; [apply Hwf|done].
Qed.
Lemma sees_reopened D L w now : sees D L (file_of w) → off_ok now → sees D L (file_of (reopened now w)).
Proof. intros Hs Hn. unfold reopened. rewrite file_of_with. by apply sees_opened. Qed.
End owner.
(** ** Sequences of requests *)

Fixpoint run_all {W X R} (serve : X → Own W R) (xs : list X) : Own W (list R) :=
  match xs with
  | [] => mret []
  | x :: xs => r ← serve x; rs ← run_all serve xs; mret (r :: rs)
  end.

Fixpoint spec_all {X R S} (spec : X → S → R * S) (xs : list X) (m : S) : list R * S :=
  match xs with
  | [] => ([], m)
  | x :: xs => let (r, m) := spec x m in let (rs, m) := spec_all spec xs m in (r :: rs, m)
  end.

(** Every request has what it needs when its turn comes. *)
Fixpoint all_can {W X R} (serve : X → Own W R) (can : X → W → Prop) (xs : list X) (w : W) : Prop :=
  match xs with
  | [] => True
  | x :: xs => can x w ∧ match serve x w with Some (_, w) => all_can serve can xs w | None => True end
  end.

(** An implementation of each request is one of their sequences. *)
Lemma run_all_ok {W X R S} (serve : X → Own W R) (spec : X → S → R * S) (can : X → W → Prop)
    (has : S → W → Prop) :
  (∀ x w m, has m w → can x w → mruns (serve x) (λ r w', r = (spec x m).1 ∧ has (spec x m).2 w') w) →
  ∀ xs w m, has m w → all_can serve can xs w →
  mruns (run_all serve xs) (λ rs w', rs = (spec_all spec xs m).1 ∧ has (spec_all spec xs m).2 w') w.
Proof.
  intros Hserve. induction xs as [|x xs IH]; intros w m Hm Hs; [by apply mruns_ret|].
  destruct Hs as [Hx Hxs]. destruct (Hserve x w m Hm Hx) as (r&w1&E1&Hr&Hm1). rewrite E1 in Hxs.
  cbn [run_all spec_all]. apply mruns_bind. exists r, w1. split; [exact E1|].
  destruct (spec x m) as [r' m1]. cbn [fst snd] in Hr, Hm1. subst r'.
  apply mruns_bind. eapply mruns_mono; [by apply IH|]. intros rs w2 [Hrs Hm2]. apply mruns_ret.
  destruct (spec_all spec xs m1) as [rs' m2]. cbn [fst snd] in *. by subst.
Qed.
