(* ===== verification/FileCompact.v ===== *)
(** * Compacting a file container

    [compact_data] writes the file again with the elements one after the other, and keeps
    them in their order. *)

From S2P Require Import Prelude Machine FileText FileContainer FileLayout FileRules FileList.
From S2P Require Import FileOps FileRemove FileCrash FileReading FileSafety FileWays FileSpec FileSequence.

(** The data one after the other from the position [e] on. *)
Fixpoint placed (e : Z) (l : list bytes) : elems :=
  match l with
  | [] => []
  | data :: l => (e, data) :: placed (e + data_size data) l
  end.
Fixpoint total_size (l : list bytes) : Z :=
  match l with [] => 0 | data :: l => data_size data + total_size l end.

Lemma placed_snd e l : (placed e l).*2 = l.
Proof. revert e. induction l as [|data l IH]; intros e; simpl; [done|]. by rewrite IH. Qed.
Lemma total_size_nonneg l : 0 ≤ total_size l.
Proof. induction l as [|data l IH]; simpl; [done|]. rewrite data_size_rec. lia. Qed.

(** ** Erasing the file *)

Lemma truncateFile_all s D o :
  holds s D o → s_budget s = None →
  truncateFile 0 s = (createEmptyFile;; writeFileStatus ft_end) (at_start [] 0 (s_bak s) (s_now s) o).
Proof.
  intros H Hb. unfold truncateFile.
  rewrite (bind_ok (seek 0) _ s tt (set_pos 0 s)) by (apply seek_ok; [apply H|done]).
  pose proof (h_good _ _ _ H) as Hg. pose proof Hg as Hg'. unfold is_good in Hg'.
  rewrite (bind_ok good _ _ true (set_pos 0 s)) by (unfold good, gets; by rewrite <- Hg).
  destruct s as [f p eof fail bad b bak now o']. pose proof (h_fc _ _ _ H) as Ho. cbn in Hb, Ho, Hg'.
  apply negb_true_iff, orb_false_iff in Hg' as [[-> ->]%orb_false_iff ->]. subst b o'.
  reflexivity.
Qed.

Lemma runs_eraseFile s D o :
  holds s D o → s_budget s = None → fc_initialized o = true →
  runs (eraseFile 0) (λ _ s', ∃ t o', stamp_ok t ∧ holds s' (with_status ft_end (new_disk t)) o'
    ∧ current o' (new_disk t) ∧ fc_stamp o' = t ∧ s_budget s' = None) s.
Proof.
  intros H Hb Hi. unfold eraseFile. apply runs_bind.
  eapply runs_mono; [apply runs_wp; [|exact Hb]|].
  { eapply (wp_writeIteratorBackup any (λ _ s', ∃ D', holds s' D' o) _ _ _ H 0); try done; [lia|].
    intros s1 H1 _. by eexists. }
  intros [] s1 [[D1 H1] Hb1]. unfold runs. rewrite (truncateFile_all _ _ _ H1 Hb1).
  destruct (createEmptyFile_ok (s_bak s1) (s_now s1) o (h_now _ _ _ H1)) as (s2&E2&Hb2&H2).
  rewrite (bind_ok _ _ _ _ _ E2).
  destruct (runs_wp (writeFileStatus ft_end) (λ _ s', holds s' (with_status ft_end (new_disk (mkStamp (s_now s1) 0)))
    (created_object (fc_initialized o) (mkStamp (s_now s1) 0))) s2) as ([]&s3&E3&H3&Hb3); [|done|].
  { eapply wp_writeFileStatus; [exact H2|done|]. by intros. }
  exists tt, s3. split; [exact E3|]. exists (mkStamp (s_now s1) 0). eexists. pose proof (h_now _ _ _ H1).
  split_and!; [by split|exact H3| |done|done]. rewrite Hi. constructor; [done|done|done|by split|].
  apply stamp_gt_irrefl.
Qed.

(** ** Writing the elements *)

(** The list [L] while it is being written: the status and the size are not those of a
    closed container. *)
Record building (t : TimeStamp) (D : disk) (L : elems) (s : St) : Prop := {
  bu_holds : ∃ o, holds s D o ∧ current o D ∧ fc_stamp o = t;
  bu_list : list_of D L;
  bu_stamp : d_stamp D = t;
  bu_budget : s_budget s = None
}.

Lemma Forall_any (l : list disk) : Forall any l.
Proof. by apply Forall_true. Qed.

Lemma building_add t D L s data :
  building t D L s → data ≠ [] → file_end D + data_size data < 2 ^ 63 →
  runs (addDataAtEnd data (file_end D)) (λ it s', fi_next it = file_end D + data_size data ∧
    ∃ D', building t D' (L ++ [(file_end D, data)]) s' ∧ file_end D' = file_end D + data_size data) s.
Proof.
  intros [(o&H&Hcu&Hst) HL Ht Hb] Hd He. pose proof (data_size_rec data) as Hds.
  destruct (decide (L = [])) as [->|Hne].
  - assert (Hend : file_end D = 391) by by apply (list_of_ends D []).
    eapply runs_mono; [apply runs_wp; [|exact Hb]|].
    { rewrite Hend in *. eapply (wp_addDataAtEnd_empty any _ _ _ _ data H); [apply HL|done|apply HL|done|done|done|apply Forall_any|].
      intros s1 H1.
      instantiate (1 := λ it s', fi_next it = 391 + data_size data ∧ holds s' _ _). split; [done|exact H1]. }
    cbv beta. rewrite Hend. intros it s1 [[Hn H1] Hb1]. split; [exact Hn|]. eexists. split; [|].
    + constructor; [|..|exact Hb1].
      * eexists. split; [exact H1|]. split; [|exact Hst]. constructor; [apply Hcu|apply Hcu|done|apply Hcu|apply Hcu].
      * pose proof (list_create D data 391 HL) as HA. rewrite <- Hds in HA.
        eapply list_of_ext; [..|exact HA]; done.
      * exact Ht.
    + rewrite <- Hend at 1. grown HL.
  - destruct (exists_last Hne) as (L0&[q dq]&->).
    destruct (list_of_last D L0 q dq HL) as (r&Hr&_).
    assert (Hq : (d_limits D).2 = q) by (rewrite (lo_limits _ _ HL); simpl; by rewrite last_pos_snoc).
    eapply runs_mono; [apply runs_wp; [|exact Hb]|].
    { eapply (wp_addDataAtEnd any _ _ _ _ q r data H); [apply HL|done|done|done|done|done|apply Forall_any|].
      intros s1 H1.
      instantiate (1 := λ it s', fi_next it = file_end D + data_size data ∧ holds s' _ _). split; [done|exact H1]. }
    intros it s1 [[Hn H1] Hb1]. split; [exact Hn|]. eexists. split; [|].
    + constructor; [|..|exact Hb1].
      * eexists. split; [exact H1|]. split; [|exact Hst]. constructor; [apply Hcu|apply Hcu|done|apply Hcu|apply Hcu].
      * pose proof (list_append D L0 q dq r data q HL Hr) as HA. rewrite <- Hds in HA.
        rewrite <- app_assoc. eapply list_of_ext; [..|exact HA]; try done. by destruct L0.
      * exact Ht.
    + grown HL.
Qed.

Lemma building_all t l : ∀ D L s,
  building t D L s → Forall (λ data, data ≠ []) l → file_end D + total_size l < 2 ^ 63 →
  runs (add_all l (file_end D)) (λ _ s', ∃ D', building t D' (L ++ placed (file_end D) l) s'
    ∧ file_end D' = file_end D + total_size l) s.
Proof.
  induction l as [|data l IH]; intros D L s HB Hd He; cbn [add_all placed total_size] in *.
  - apply runs_ret. exists D. rewrite app_nil_r. split; [done|lia].
  - apply Forall_cons in Hd as [Hd Hl]. pose proof (total_size_nonneg l). apply runs_bind.
    eapply runs_mono; [apply (building_add t D L s data); [done|done|lia]|].
    intros it s1 (->&D1&HB1&He1). rewrite <- He1.
    eapply runs_mono; [apply (IH D1 _ s1 HB1 Hl); lia|].
    intros _ s2 (D2&HB2&He2). exists D2. rewrite <- app_assoc in HB2. cbn [app] in HB2.
    split; [exact HB2|rewrite He2, He1; lia].
Qed.

Lemma building_status t D L s x :
  building t D L s → runs (writeFileStatus x) (λ _ s', building t (with_status x D) L s') s.
Proof.
  intros [(o&H&Hcu&Hst) HL Ht Hb].
  eapply runs_mono; [apply runs_wp; [|exact Hb]|].
  { eapply (wp_writeFileStatus any (λ _ s', holds s' (with_status x D) o)); [exact H|done|]. by intros. }
  intros [] s1 [H1 Hb1]. constructor; [|apply (list_of_recs D); [done|done|apply HL|exact HL]|exact Ht|exact Hb1].
  exists o. split; [exact H1|]. split; [|exact Hst]. destruct Hcu. by constructor.
Qed.

(** ** The whole *)

(** The object of a process that has opened the file. *)
Lemma runs_open D L s :
  sees D L s →
  runs (if negb (fc_initialized (fc s)) then initContainer else mret tt)
    (λ _ s', sees D L s' ∧ fc_initialized (fc s') = true) s.
Proof.
  intros (o&H&Hwf&Hv&Hb). rewrite (h_fc _ _ _ H). destruct (fc_initialized o) eqn:Hi; cbn [negb].
  - apply runs_ret. split; [by exists o|by rewrite (h_fc _ _ _ H)].
  - eapply runs_mono; [apply runs_wp; [|exact Hb]|].
    { eapply (wp_initContainer_closed any (λ _ s', ∃ o', holds s' D o' ∧ synced o' D)); [done|apply Hwf|apply Hv|].
      intros s1 o1 H1 Hcu Hs. exists o1. split; [done|]. by apply current_synced. }
    intros [] s1 [(o1&H1&Hsy) Hb1]. split; [|rewrite (h_fc _ _ _ H1); apply Hsy].
    exists o1. split_and!; [done|done| |done]. apply valid_synced; [done|apply Hwf].
Qed.

Lemma runs_fillVector D L s :
  sees D L s → fc_initialized (fc s) = true →
  runs fillVector (λ vec s', vec = L.*2 ∧ ∃ o, holds s' D o ∧ synced o D ∧ s_budget s' = None) s.
Proof.
  intros (o&H&Hwf&Hv&Hb) Hi. rewrite (h_fc _ _ _ H) in Hi.
  eapply runs_mono; [apply runs_wp; [by eapply wp_fillVector|exact Hb]|].
  intros vec s1 [[-> (o1&H1&Hsy)] Hb1]. split; [done|]. by exists o1.
Qed.

(** The last steps. *)
Lemma building_finish t D L s :
  building t D L s → Z.of_nat (length L) < 2 ^ 64 →
  runs (createEmptyBackup empty;; writeAndSetSize (Z.of_nat (length L));; writeFileStatus closed)
    (λ _ s', ∃ D', sees D' L s' ∧ file_end D' = file_end D) s.
Proof.
  intros [(o&H&Hcu&Hst) HL Ht Hb] Hlen.
  set (D' := with_status closed (with_size (Z.of_nat (length L)) (with_status empty (cleared D)))).
  set (o' := set_size (Z.of_nat (length L)) o).
  eapply runs_mono; [apply runs_wp; [|exact Hb]|].
  { eapply wp_bind, (wp_createEmptyBackup any); [exact H|done|done|]. intros s1 H1 _.
    eapply wp_bind, wp_writeAndSetSize; [exact H1|lia|done|]. intros s2 H2 _.
    eapply (wp_writeFileStatus any (λ _ s', holds s' D' o')); [exact H2|done|]. by intros. }
  intros [] s1 [H1 Hb1]. exists D'. split; [|done].
  assert (Hwf : wf D' L).
  { constructor; [apply H1|apply (list_of_recs D); [done|done|apply HL|exact HL]|done|done]. }
  exists o'. split_and!; [exact H1|exact Hwf| |exact Hb1].
  apply valid_synced; [|apply Hwf]. constructor; [apply Hcu|exact (eq_trans Hst (eq_sym Ht))|done|apply Hcu].
Qed.

Lemma runs_compact_data D L s :
  sees D L s → Forall (λ data, data ≠ []) L.*2 → 391 + total_size L.*2 < 2 ^ 63 → Z.of_nat (length L) < 2 ^ 64 →
  runs compact_data (λ _ s', ∃ D', sees D' (placed 391 L.*2) s' ∧ file_end D' = 391 + total_size L.*2) s.
Proof.
  intros Hs Hd He Hlen. unfold compact_data. apply runs_bind, runs_gets, runs_bind.
  eapply runs_mono; [by eapply runs_open|]. intros [] s1 [Hs1 Hi1]. apply runs_bind.
  eapply runs_mono; [by eapply runs_fillVector|]. intros vec s2 (->&o2&H2&Hsy2&Hb2). apply runs_bind.
  eapply runs_mono; [apply runs_wp; [eapply (wp_backupFile _ _ _ _ (λ _ s', holds s' D o2)); [exact H2|by intros]|done]|].
  intros [] s3 [H3 Hb3]. apply runs_bind.
  eapply runs_mono; [eapply runs_eraseFile; [done|done|apply Hsy2]|].
  intros [] s4 (t&o4&Ht&H4&Hcu4&Hst4&Hb4). apply runs_bind.
  assert (HB4 : building t (with_status ft_end (new_disk t)) [] s4).
  { constructor; [|apply (list_of_recs (new_disk t)); [done|done|done|apply (new_wf t Ht)]|done|done].
    exists o4. split; [done|]. split; [|done]. destruct Hcu4. by constructor. }
  eapply runs_mono; [by apply (building_status _ _ _ _ opened HB4)|]. intros [] s5 HB5.
  assert (Hend : file_end (with_status opened (with_status ft_end (new_disk t))) = 391) by done.
  apply runs_bind. destruct (bu_holds _ _ _ _ HB5) as (o5&H5&Hcu5&Hst5).
  eapply runs_mono; [apply runs_wp; [|apply HB5]|].
  { eapply (wp_getEnd_end any (λ x s', x = 391 ∧ holds s' (with_status opened (with_status ft_end (new_disk t))) o5));
      [exact H5|]. by intros. }
  intros x s6 [[-> H6] Hb6]. apply runs_bind.
  assert (HB6 : building t (with_status opened (with_status ft_end (new_disk t))) [] s6).
  { constructor; [by exists o5|apply HB5|apply HB5|done]. }
  rewrite <- Hend. eapply runs_mono; [by apply (building_all t _ _ _ _ HB6)|].
  rewrite Hend. intros [] s7 (D7&HB7&He7). cbn [app] in HB7.
  assert (Hl : length L.*2 = length (placed 391 L.*2)) by (rewrite <- (placed_snd 391 L.*2) at 1; by rewrite length_fmap).
  rewrite Hl. eapply runs_mono; [eapply building_finish; [exact HB7|]|].
  { rewrite <- Hl, length_fmap. done. }
  intros [] s8 (D8&Hs8&He8). exists D8. split; [done|]. by rewrite He8.
Qed.
(** ** The size of the data *)

Lemma total_size_app l1 l2 : total_size (l1 ++ l2) = total_size l1 + total_size l2.
Proof. induction l1 as [|x l1 IH]; simpl; [done|]. rewrite IH. lia. Qed.

Lemma total_size_delete b d (L : elems) :
  NoDup L.*1 → (b, d) ∈ L → total_size L.*2 = data_size d + total_size (delete_at b L).*2.
Proof.
  intros Hnd (L1&L2&->)%list_elem_of_split. rewrite delete_at_split by done.
  rewrite !fmap_app, !total_size_app, fmap_cons. cbn [total_size snd]. lia.
Qed.

(** The elements of a list are different records of the file. *)
Lemma total_size_recs recs : ∀ base (L : elems),
  NoDup L.*1 → (∀ p d, (p, d) ∈ L → ∃ r, rec_in base recs p = Some r ∧ r_data r = d) →
  total_size L.*2 ≤ recs_size recs.
Proof.
  induction recs as [|r recs IH]; intros base L Hnd HL.
  - destruct L as [|[p d] L]; [done|]. destruct (HL p d) as (r&Hr&_); [by left|done].
  - cbn [recs_size]. set (L' := delete_at base L).
    assert (HL' : total_size L'.*2 ≤ recs_size recs).
    { apply (IH (base + rec_size r)).
      - unfold L', delete_at. clear -Hnd. induction L as [|[p d] L IHL]; [done|]. simpl in Hnd.
        apply NoDup_cons in Hnd as [Hn Hnd]. rewrite filter_cons. case_decide; [|by apply IHL].
        simpl. apply NoDup_cons. split; [|by apply IHL]. intros ([q e]&->&Hin)%list_elem_of_fmap.
        apply list_elem_of_filter in Hin as [_ Hin]. apply Hn. apply list_elem_of_fmap. by exists (q, e).
      - intros p d [Hne Hin]%list_elem_of_filter. simpl in Hne. destruct (HL p d Hin) as (r'&Hr'&Hd).
        simpl in Hr'. destruct (Z.eqb_spec p base); [done|]. by exists r'. }
    destruct (decide (base ∈ L.*1)) as [Hb|Hb].
    + apply list_elem_of_fmap in Hb as ([b d]&Heq&Hin). cbn [fst] in Heq. subst b.
      rewrite (total_size_delete _ _ _ Hnd Hin). fold L'.
      destruct (HL _ _ Hin) as (r'&Hr'&<-). cbn [rec_in] in Hr'. rewrite Z.eqb_refl in Hr'. injection Hr' as <-.
      rewrite data_size_rec. unfold rec_size. lia.
    + pose proof (rec_size_pos r). unfold L' in HL'. rewrite delete_at_out in HL' by done. lia.
Qed.

Lemma total_size_end D L : list_of D L → 391 + total_size L.*2 ≤ file_end D.
Proof.
  intros HL. unfold file_end. pose proof (total_size_recs (d_recs D) 391 L (lo_nodup _ _ HL)) as H.
  rewrite (lo_tail _ _ HL). cbn [length]. rewrite Z.add_0_r. apply Z.add_le_mono_l, H.
  intros p d Hin. destruct (seg_in _ _ _ _ _ _ (lo_seg _ _ HL) Hin) as (r&Hr&_&Hd). by exists r.
Qed.

(** ** The properties *)

(** C17. Compaction by a process that sees the container keeps the data in their order, and
    leaves them one after the other from the end of the header on. *)
Theorem compaction_keeps_data D L s :
  sees D L s → Forall (λ data, data ≠ []) L.*2 → file_end D < 2 ^ 63 →
  ∃ D' s', fs_compact s = Some (inr tt, s') ∧ sees D' (placed 391 L.*2) s'
    ∧ (placed 391 L.*2).*2 = L.*2
    ∧ Z.of_nat (length (s_file s')) = 391 + total_size L.*2
    ∧ 391 + total_size L.*2 ≤ Z.of_nat (length (s_file s)).
Proof.
  intros Hs Hd He. pose proof Hs as (o&H&Hwf&_). pose proof (total_size_end _ _ (wf_list _ _ Hwf)) as Hsz.
  pose proof (list_of_length _ _ (wf_list _ _ Hwf)) as Hlen.
  destruct (runs_compact_data D L s Hs Hd) as ([]&s'&E&D'&Hs'&He'); [lia|lia|].
  exists D', s'. pose proof Hs' as (o'&H'&Hwf'&_).
  rewrite (h_file _ _ _ H), (h_file _ _ _ H'), !layout_length by (apply Hwf || apply Hwf').
  split_and!; [exact E|exact Hs'|apply placed_snd|exact He'|exact Hsz].
Qed.

(** What a process leaves. *)
Definition after {A} (m : E A) (s : St) : St := match m s with Some (_, s') => s' | None => s end.

(** The process [s], after others have written the file [f]. *)
Definition on_written (f : bytes) (s : St) : St :=
  mkSt f 0 false false false (s_budget s) (s_bak s) (s_now s) (fc s).

(** A process that has changed the list several times within a second. *)
Definition busy : St :=
  after (fl_push_back a1;; fl_push_back b1;; fl_pop_front;; fl_push_back c1;; fl_pop_back) (on_list []).

(** On a sample: compaction sets the counter of the time stamp back. A process that has looked at
    the file within the same second, after several changes, does not notice that another
    one has compacted it: it takes the old limits for valid, and what it adds then hides
    the elements of the list. Nothing is lost when the other process opens the file a
    second later. *)
Example compaction_can_go_unnoticed :
  let f := s_file (after fs_compact (open_file (s_file busy) sample_time None)) in
  let late := s_file (after fs_compact (open_file (s_file busy) (sample_time + 1) None)) in
  let adding file := fl_push_back c1 (on_written file busy) in
  outcome (reading f) = Some (inr [b1])
  ∧ outcome (read_begin (on_written f busy)) ≠ outcome (read_begin (open_file f sample_time None))
  ∧ outcome (adding f) = Some (inr tt) ∧ outcome (reading (left_file (adding f))) = Some (inr [c1])
  ∧ outcome (adding late) = Some (inr tt) ∧ outcome (reading (left_file (adding late))) = Some (inr [b1; c1]).
Proof. vm_compute. done. Qed.

(** *** The witness *)

Lemma compaction_keeps_data_witness :
  ∃ D' s', fs_compact (sample_state None) = Some (inr tt, s') ∧ sees D' [(391, a1); (487, b1)] s'
    ∧ [a1; b1] = sample_list.*2
    ∧ Z.of_nat (length (s_file s')) = 391 + total_size sample_list.*2
    ∧ 391 + total_size sample_list.*2 ≤ Z.of_nat (length (s_file (sample_state None))).
Proof.
  apply (compaction_keeps_data sample_disk sample_list (sample_state None)).
  - exact sample_sees.
  - repeat constructor; done.
  - vm_compute. reflexivity.
Defined.
