(* ===== verification/SmallAds.v ===== *)
(** * A small ClassAd library

    Association lists that can be written as a text and parsed again: the ads of the
    witnesses on the containers that keep ads in a file. *)

From S2P Require Import Prelude.
From S2P Require Import WmWorld.

(** The attributes of an ad, the latest first. An ad within an ad is kept as its code. *)
Definition small_value : Type := string + Z + bool + Z + nat + positive.
Definition small_ad : Type := list (string * small_value).

Definition small_keep (v : attr_value small_ad) : small_value :=
  match v with
  | AString x => inl (inl (inl (inl (inl x))))
  | AInt x => inl (inl (inl (inl (inr x))))
  | ABool x => inl (inl (inl (inr x)))
  | AReal x => inl (inl (inr x))
  | AList n => inl (inr n)
  | AAd b => inr (encode b)
  end.
Definition small_value_of (v : small_value) : option (attr_value small_ad) :=
  match v with
  | inl (inl (inl (inl (inl x)))) => Some (AString x)
  | inl (inl (inl (inl (inr x)))) => Some (AInt x)
  | inl (inl (inl (inr x))) => Some (ABool x)
  | inl (inl (inr x)) => Some (AReal x)
  | inl (inr n) => Some (AList n)
  | inr p => AAd <$> decode p
  end.

Definition small_insert (a : small_ad) (n : string) (v : attr_value small_ad) : small_ad := (n, small_keep v) :: a.

Fixpoint small_lookup (a : small_ad) (n : string) : option (attr_value small_ad) :=
  match a with
  | [] => None
  | (m, v) :: a => if bool_decide (m = n) then small_value_of v else small_lookup a n
  end.

Lemma small_insert_same a n v : small_lookup (small_insert a n v) n = Some v.
Proof. simpl. rewrite bool_decide_eq_true_2 by done. destruct v; try done. simpl. by rewrite decode_encode. Qed.
Lemma small_insert_other a n v e : n ≠ e → small_lookup (small_insert a n v) e = small_lookup a e.
Proof. intros Hne. simpl. by rewrite bool_decide_eq_false_2. Qed.

(** Ads are written as the digits of their code. *)
Fixpoint digits (p : positive) : string :=
  match p with
  | xH => "#"
  | xO p => String "0" (digits p)
  | xI p => String "1" (digits p)
  end.
Fixpoint of_digits (s : string) : option positive :=
  match s with
  | EmptyString => None
  | String c s =>
      if bool_decide (c = "#"%char) then Some xH
      else if bool_decide (c = "0"%char) then xO <$> of_digits s else xI <$> of_digits s
  end.

Lemma of_digits_digits p : of_digits (digits p) = Some p.
Proof. induction p as [p IH|p IH|]; simpl; [by rewrite IH..|done]. Qed.
Lemma digits_nonempty p : digits p ≠ "".
Proof. by destruct p. Qed.

Definition small_ads : ClassAds := {|
  ad := small_ad;
  WmWorld.ad_empty := [];
  Insert := small_insert;
  evaluate := small_lookup;
  parse_classad s := of_digits s ≫= decode;
  unparse_classad a := digits (encode a);
  get_edg_jobid _ := None;
  get_lb_sequence_code_ad _ := None;
  get_x509_user_proxy _ := None;
  get_expiry_time _ := None;
  get_shallow_retry_count _ := None;
  get_retry_count _ := None;
  get_replans_count _ := None;
  get_ce_id _ := None;
  get_ceinfo_host_name _ := "";
  get_input_sandbox_path _ := None;
  set_lb_sequence_code a _ := a;
  set_replans_count a _ := a;
  set_edg_previous_matches a _ := a;
  set_edg_previous_matches_ex a _ := a;
  CE_INFO_HOST := "";
  dag_nodes _ := [];
  dag_edges _ := [];
|}.

