(* ===== verification/IdTables.v ===== *)
(** * Tables of job identifiers (pointer_id.h, pointer_id.cpp, id_compare.h, ram_container.cpp)

    The job controller and the log monitor of src/org.glite.wms.jobsubmission/src/common
    keep the jobs in a [std::list] with two vectors of iterators into it, sorted by the
    grid identifier and by the identifier of Condor. The nodes of the list are a heap
    here: an iterator is the name of a node, and to use one whose node has been erased is
    not defined. *)

From S2P Require Import Prelude.
From S2P Require Import WmWorld.
From S2P Require Import Machine FileText FileContainer FileLayout FileRules FileList.
From S2P Require Import FileOps FileRemove FileCrash FileReading FileSafety FileWays FileSpec FileSequence.

(** ** Entries *)

(** [job_statuses_t] *)
Definition undefined_status : Z := -2.

(** [PointerId]; the description of the job, which is read from a file of its own, is
    left out. *)
Record PointerId := mkPointer {
  pi_condorStatus : Z;
  pi_lastStatus : Z;
  pi_retryCount : Z;
  pi_position : iter;
  pi_condorId : string;
  pi_edgId : string;
  pi_sequenceCode : string
}.

Definition pi_s_CondorId : string := "CondorId".
Definition pi_s_EdgId : string := "EdgId".
Definition pi_s_SequenceCode : string := "SequenceCode".
Definition pi_s_CondorStatus : string := "CondorStatus".
Definition pi_s_LastStatus : string := "LastStatus".
Definition pi_s_RetryCount : string := "RetryCount".

(** [EdgId] and [CondorId]: an iterator into the list and a copy of the identifier. *)
Record IdEntry := mkId { id_node : nat; id_key : string }.

(** The list and the vectors; [fresh] is the next node. *)
Record Tables := mkTables {
  nodes : gmap nat PointerId;
  order : list nat;
  fresh : nat;
  edgs : list IdEntry;
  condors : list IdEntry
}.

Definition no_tables : Tables := mkTables ∅ [] 0 [] [].

Definition set_nodes (m : gmap nat PointerId) (t : Tables) : Tables :=
  mkTables m (order t) (fresh t) (edgs t) (condors t).
Definition set_edgs (l : list IdEntry) (t : Tables) : Tables :=
  mkTables (nodes t) (order t) (fresh t) l (condors t).
Definition set_condors (l : list IdEntry) (t : Tables) : Tables :=
  mkTables (nodes t) (order t) (fresh t) (edgs t) l.

(** [push_back] of the list; the new node is the last one. *)
Definition push_node (p : PointerId) (t : Tables) : Tables :=
  mkTables (<[fresh t:=p]> (nodes t)) (order t ++ [fresh t]) (S (fresh t)) (edgs t) (condors t).

(** [erase] of the list. *)
Definition erase_node (n : nat) (t : Tables) : option Tables :=
  _ ← nodes t !! n;
  Some (mkTables (delete n (nodes t)) (filter (λ x, x ≠ n) (order t)) (fresh t) (edgs t) (condors t)).

(** ** Vectors that are sorted by the identifier *)

(** [operator<] of [std::string]: by the codes of the characters. *)
Definition string_lt (a b : string) : bool := String.ltb a b.

(** [lower_bound] with [Compare]: the first entry that is not smaller. *)
Fixpoint lower_bound (l : list IdEntry) (key : string) : nat :=
  match l with
  | [] => O
  | x :: l => if string_lt (id_key x) key then S (lower_bound l key) else O
  end.

(** The test that follows every [lower_bound]: the entry it has found. *)
Definition found (l : list IdEntry) (key : string) : option (nat * IdEntry) :=
  let i := lower_bound l key in
  x ← l !! i;
  if bool_decide (id_key x = key) then Some (i, x) else None.

Definition insert_at (i : nat) (x : IdEntry) (l : list IdEntry) : list IdEntry := take i l ++ x :: drop i l.

(** [sort] with [Compare]. Entries with the same identifier may be left in any order;
    here they keep theirs. *)
Definition not_after (x y : IdEntry) : Prop := string_lt (id_key y) (id_key x) = false.
#[export] Instance not_after_dec x y : Decision (not_after x y).
Proof. unfold not_after. apply _. Defined.
Definition sort (l : list IdEntry) : list IdEntry := merge_sort not_after l.

Definition sort_tables (t : Tables) : Tables := set_edgs (sort (edgs t)) (set_condors (sort (condors t)) t).

(** A new last node, with its entries at the end of the vectors. *)
Definition push_entries (p : PointerId) (t : Tables) : Tables :=
  let n := fresh t in let t := push_node p t in
  set_edgs (edgs t ++ [mkId n (pi_edgId p)]) (set_condors (condors t ++ [mkId n (pi_condorId p)]) t).

(** ** Looking up *)

(** The functions [condor_id] and [edg_id] of both containers. *)
Definition condor_of (t : Tables) (edgId : string) : option string :=
  match found (edgs t) edgId with
  | Some (_, x) => p ← nodes t !! id_node x; Some (pi_condorId p)
  | None => Some ""
  end.
Definition edg_of (t : Tables) (condorId : string) : option string :=
  match found (condors t) condorId with
  | Some (_, x) => p ← nodes t !! id_node x; Some (pi_edgId p)
  | None => Some ""
  end.

(** ** The container in memory *)

Record RamContainer := mkRam { rc_inserted : Z; rc_tables : Tables }.

(** [PointerId(condorId, edgId)] *)
Definition new_pointer (condorId edgId : string) : PointerId :=
  mkPointer 0 undefined_status 0 no_iter condorId edgId "".

(** The loop of [insert]: whether each of the identifiers is there at the end. One entry
    is erased on each round but the last. *)
Fixpoint evict (fuel : nat) (edgId condorId : string) (t : Tables) : option (bool * bool * Tables) :=
  match fuel with
  | O => None
  | S fuel =>
      match found (edgs t) edgId, found (condors t) condorId with
      | Some _, Some _ => Some (true, true, t)
      | Some (i, x), None =>
          t ← erase_node (id_node x) t;
          evict fuel edgId condorId (set_edgs (delete i (edgs t)) t)
      | None, Some (i, x) =>
          t ← erase_node (id_node x) t;
          evict fuel edgId condorId (set_condors (delete i (condors t)) t)
      | None, None => Some (false, false, t)
      end
  end.

(** The entries of a new node, at the places that [lower_bound] has found. *)
Definition index_node (n : nat) (edgId condorId : string) (t : Tables) : Tables :=
  set_edgs (insert_at (lower_bound (edgs t) edgId) (mkId n edgId) (edgs t))
    (set_condors (insert_at (lower_bound (condors t) condorId) (mkId n condorId) (condors t)) t).

Definition ram_insert (edgId condorId : string) (r : RamContainer) : option RamContainer :=
  let t := rc_tables r in
  '(haveEdg, haveCondor, t) ← evict (S (length (edgs t) + length (condors t))) edgId condorId t;
  if negb haveEdg || negb haveCondor then
    Some (mkRam (i32 (rc_inserted r + 1))
      (index_node (fresh t) edgId condorId (push_node (new_pointer condorId edgId) t)))
  else Some (mkRam (rc_inserted r) t).

Definition ram_remove_by_condor_id (condorId : string) (r : RamContainer) : option (bool * RamContainer) :=
  let t := rc_tables r in
  match found (condors t) condorId with
  | None => Some (true, r)
  | Some (j, c) =>
      p ← nodes t !! id_node c;
      match found (edgs t) (pi_edgId p) with
      | None => Some (true, r)
      | Some (i, x) =>
          t ← erase_node (id_node x) t;
          Some (false, mkRam (i32 (rc_inserted r - 1))
                         (set_condors (delete j (condors t)) (set_edgs (delete i (edgs t)) t)))
      end
  end.

Definition ram_condor_id (edgId : string) (r : RamContainer) : option string := condor_of (rc_tables r) edgId.
Definition ram_edg_id (condorId : string) (r : RamContainer) : option string := edg_of (rc_tables r) condorId.

Definition new_ram : RamContainer := mkRam 0 no_tables.
(** ** The order of the identifiers *)

Lemma string_lt_irrefl a : string_lt a a = false.
Proof.
  unfold string_lt, String.ltb. induction a as [|x a IH]; [done|]. simpl.
  unfold Ascii.compare. by rewrite N.compare_refl.
Qed.
Lemma string_lt_total a b : string_lt a b = false → string_lt b a = false → a = b.
Proof.
  unfold string_lt, String.ltb. rewrite (String.compare_antisym b a).
  destruct (String.compare a b) eqn:E; try done. intros _ _. by apply String.compare_eq_iff.
Qed.
Lemma string_lt_trans a b c : string_lt a b = true → string_lt b c = true → string_lt a c = true.
Proof.
  unfold string_lt, String.ltb. revert b c. induction a as [|x a IH]; intros [|y b] [|z c]; simpl; try done.
  unfold Ascii.compare.
  destruct (N.compare_spec (N_of_ascii x) (N_of_ascii y)) as [E1|E1|E1];
    destruct (N.compare_spec (N_of_ascii y) (N_of_ascii z)) as [E2|E2|E2];
    destruct (N.compare_spec (N_of_ascii x) (N_of_ascii z)) as [E3|E3|E3]; try done; try lia.
  apply IH.
Qed.
Lemma string_lt_asym a b : string_lt a b = true → string_lt b a = false.
Proof.
  intros H. destruct (string_lt b a) eqn:E; [|done].
  pose proof (string_lt_trans _ _ _ H E) as Ht. by rewrite string_lt_irrefl in Ht.
Qed.

(** ** Sorted vectors *)

Definition before (x y : IdEntry) : Prop := string_lt (id_key x) (id_key y) = true.
#[export] Instance before_transitive : Transitive before.
Proof. intros x y z. apply string_lt_trans. Qed.

(** The vector [l] has the identifier of every node of [f], each of them once. *)
Record indexes (l : list IdEntry) (f : gmap nat string) : Prop := {
  ix_sorted : StronglySorted before l;
  ix_elem n k : mkId n k ∈ l ↔ f !! n = Some k
}.

Lemma lower_bound_split l key :
  StronglySorted before l →
  Forall (λ x, string_lt (id_key x) key = true) (take (lower_bound l key) l)
  ∧ Forall (λ x, string_lt (id_key x) key = false) (drop (lower_bound l key) l).
Proof.
  induction 1 as [|x l Hs IH Hx]; simpl; [by rewrite !Forall_nil|].
  destruct (string_lt (id_key x) key) eqn:E; simpl.
  - destruct IH as [IH1 IH2]. split; [by constructor|done].
  - split; [constructor|]. constructor; [done|]. eapply Forall_impl; [exact Hx|]. intros y Hy.
    destruct (string_lt (id_key y) key) eqn:E2; [|done].
    pose proof (string_lt_trans _ _ _ Hy E2). congruence.
Qed.

Lemma before_app l1 l2 :
  StronglySorted before (l1 ++ l2) ↔ StronglySorted before l1 ∧ StronglySorted before l2
    ∧ ∀ x y, x ∈ l1 → y ∈ l2 → before x y.
Proof. rewrite StronglySorted_app. tauto. Qed.
Lemma StronglySorted_take_drop l i :
  StronglySorted before l ↔ StronglySorted before (take i l) ∧ StronglySorted before (drop i l)
    ∧ ∀ x y, x ∈ take i l → y ∈ drop i l → before x y.
Proof. rewrite <- (take_drop i l) at 1. apply before_app. Qed.

Section index.
Context (l : list IdEntry) (f : gmap nat string) (Hl : indexes l f).

Lemma found_some k i x : found l k = Some (i, x) → l !! i = Some x ∧ id_key x = k ∧ f !! id_node x = Some k.
Proof.
  unfold found. destruct (l !! lower_bound l k) as [y|] eqn:Hy; [|done]. simpl.
  case_bool_decide as Hk; [|done]. intros [= <- <-]. split_and!; [done|done|].
  apply (ix_elem _ _ Hl). rewrite <- Hk. destruct y. by eapply list_elem_of_lookup_2.
Qed.

Lemma indexes_inj n n' k : f !! n = Some k → f !! n' = Some k → n = n'.
Proof.
  intros H1%(ix_elem _ _ Hl) H2%(ix_elem _ _ Hl).
  apply list_elem_of_lookup in H1 as [i Hi], H2 as [j Hj].
  assert (Hij : ∀ i j x y, l !! i = Some x → l !! j = Some y → (i < j)%nat → before x y).
  { clear i j Hi Hj. pose proof (ix_sorted _ _ Hl) as Hs. intros i j x y Hi Hj Hlt.
    apply (StronglySorted_take_drop l j) in Hs as (_&_&H). apply H.
    - apply list_elem_of_lookup. exists i. by rewrite lookup_take_lt.
    - rewrite (drop_S _ _ _ Hj). by left. }
  destruct (lt_eq_lt_dec i j) as [[Hlt| ->]|Hlt]; [|congruence|].
  - pose proof (Hij _ _ _ _ Hi Hj Hlt) as H. unfold before in H. simpl in H. by rewrite string_lt_irrefl in H.
  - pose proof (Hij _ _ _ _ Hj Hi Hlt) as H. unfold before in H. simpl in H. by rewrite string_lt_irrefl in H.
Qed.

Lemma found_complete n k : f !! n = Some k → ∃ i, found l k = Some (i, mkId n k).
Proof.
  intros Hn. pose proof (ix_sorted _ _ Hl) as Hs. destruct (lower_bound_split l k Hs) as [H1 H2].
  pose proof (proj2 (ix_elem _ _ Hl n k) Hn) as Hin.
  rewrite <- (take_drop (lower_bound l k) l) in Hin. apply elem_of_app in Hin as [Hin|Hin].
  { rewrite Forall_forall in H1. specialize (H1 _ Hin). simpl in H1. by rewrite string_lt_irrefl in H1. }
  unfold found. destruct (l !! lower_bound l k) as [y|] eqn:Hy.
  - rewrite (drop_S _ _ _ Hy) in Hin, H2. apply Forall_cons in H2 as [H2 _].
    assert (y = mkId n k) as ->.
    { apply elem_of_cons in Hin as [->|Hin]; [done|]. exfalso.
      apply (StronglySorted_take_drop l (lower_bound l k)) in Hs as (_&Hs&_).
      rewrite (drop_S _ _ _ Hy) in Hs. apply StronglySorted_inv in Hs as [_ Hs].
      rewrite Forall_forall in Hs. specialize (Hs _ Hin). unfold before in Hs. simpl in Hs. congruence. }
    simpl. rewrite bool_decide_eq_true_2 by done. by eexists.
  - apply lookup_ge_None in Hy. rewrite drop_ge in Hin by done. by apply elem_of_nil in Hin.
Qed.

Lemma found_none k : found l k = None ↔ ∀ n, f !! n ≠ Some k.
Proof.
  split.
  - intros H n Hn. destruct (found_complete n k Hn) as [i Hi]. congruence.
  - intros H. destruct (found l k) as [[i x]|] eqn:Hf; [|done].
    apply found_some in Hf as (_&_&Hf). by apply H in Hf.
Qed.

Lemma indexes_insert n k :
  f !! n = None → (∀ n', f !! n' ≠ Some k) →
  indexes (insert_at (lower_bound l k) (mkId n k) l) (<[n:=k]> f).
Proof.
  intros Hn Hk. pose proof (ix_sorted _ _ Hl) as Hs. destruct (lower_bound_split l k Hs) as [H1 H2].
  rewrite Forall_forall in H1, H2. unfold insert_at. split.
  - apply (StronglySorted_take_drop l (lower_bound l k)) in Hs as (Ht&Hd&Htd).
    apply before_app. split_and!; [done| |].
    + constructor; [done|]. apply Forall_forall. intros y Hy. pose proof (H2 y Hy) as Hlt.
      unfold before. simpl. destruct (string_lt k (id_key y)) eqn:E; [done|].
      pose proof (string_lt_total _ _ E Hlt) as ->. destruct y as [ny ky].
      exfalso. apply (Hk ny). apply (ix_elem _ _ Hl). rewrite <- (take_drop (lower_bound l ky) l).
      apply elem_of_app. by right.
    + intros x y Hx [->|Hy]%elem_of_cons; [by apply H1|by apply Htd].
  - intros n' k'. rewrite elem_of_app, elem_of_cons.
    assert (Hall : mkId n' k' ∈ take (lower_bound l k) l ∨ mkId n' k' ∈ drop (lower_bound l k) l
      ↔ f !! n' = Some k').
    { rewrite <- elem_of_app, take_drop. apply (ix_elem _ _ Hl). }
    rewrite lookup_insert_Some. split.
    + intros [H|[[= -> ->]|H]]; [right|by left|right]; (split; [intros ->|]); rewrite <- ?Hall; try tauto;
        assert (f !! n' = Some k') by (apply Hall; tauto); congruence.
    + intros [[-> ->]|[_ H]]; [tauto|]. apply Hall in H. tauto.
Qed.

Lemma indexes_delete i x : l !! i = Some x → indexes (delete i l) (delete (id_node x) f).
Proof.
  intros Hi. pose proof (ix_sorted _ _ Hl) as Hs. rewrite <- (take_drop_middle l i x Hi) in Hs.
  assert (Hx : f !! id_node x = Some (id_key x)).
  { apply (ix_elem _ _ Hl). destruct x. by eapply list_elem_of_lookup_2. }
  split.
  - rewrite delete_take_drop. apply before_app in Hs as (H1&H2&H3). apply before_app.
    split_and!; [done|exact (proj1 (StronglySorted_inv H2))|]. intros a b Ha Hb. apply H3; [done|by right].
  - intros n k. rewrite delete_take_drop, lookup_delete_Some, elem_of_app.
    assert (Hall : mkId n k ∈ take i l ∨ mkId n k ∈ x :: drop (S i) l ↔ f !! n = Some k).
    { rewrite <- elem_of_app, take_drop_middle by done. apply (ix_elem _ _ Hl). }
    rewrite elem_of_cons in Hall.
    apply before_app in Hs as (_&H2&H3). apply StronglySorted_inv in H2 as [_ H2].
    rewrite Forall_forall in H2. split.
    + intros Hin. split; [|apply Hall; tauto]. intros <-.
      assert (Hf : f !! id_node x = Some k) by (apply Hall; tauto).
      assert (k = id_key x) as -> by congruence.
      assert (Hb : before x x); [|unfold before in Hb; by rewrite string_lt_irrefl in Hb].
      destruct x as [n kx]. simpl in *. destruct Hin as [Hin|Hin]; [apply (H3 _ _ Hin); by left|exact (H2 _ Hin)].
    + intros [Hne Hf]. apply Hall in Hf as [?|[Heq|?]]; [by left|by rewrite <- Heq in Hne|by right].
Qed.
End index.
(** ** What the tables stand for *)

(** The tables have the jobs of [m], from grid identifiers to those of Condor. *)
Record tables_ok (t : Tables) (m : gmap string string) : Prop := {
  to_nodup : NoDup (order t);
  to_order n : n ∈ order t ↔ is_Some (nodes t !! n);
  to_fresh n : is_Some (nodes t !! n) → (n < fresh t)%nat;
  to_edgs : indexes (edgs t) (pi_edgId <$> nodes t);
  to_condors : indexes (condors t) (pi_condorId <$> nodes t);
  to_map e c : m !! e = Some c ↔ ∃ n p, nodes t !! n = Some p ∧ pi_edgId p = e ∧ pi_condorId p = c
}.

Lemma no_tables_ok : tables_ok no_tables ∅.
Proof.
  assert (Hi : ∀ A (g : A → string), indexes [] (g <$> (∅ : gmap nat A))).
  { intros A g. split; [constructor|]. intros n k. rewrite lookup_fmap, lookup_empty. split; [by intros ?%elem_of_nil|done]. }
  split; simpl.
  - constructor.
  - intros n. rewrite lookup_empty. split; [by intros ?%elem_of_nil|by intros [??]].
  - intros n [??]. by rewrite lookup_empty in *.
  - apply Hi.
  - apply Hi.
  - intros e c. rewrite lookup_empty. split; [done|]. intros (n&p&Hn&_). by rewrite lookup_empty in Hn.
Qed.

Section tables.
Context (t : Tables) (m : gmap string string) (Ht : tables_ok t m).

Lemma edg_node n p : nodes t !! n = Some p → (pi_edgId <$> nodes t) !! n = Some (pi_edgId p).
Proof. intros Hn. by rewrite lookup_fmap, Hn. Qed.
Lemma condor_node n p : nodes t !! n = Some p → (pi_condorId <$> nodes t) !! n = Some (pi_condorId p).
Proof. intros Hn. by rewrite lookup_fmap, Hn. Qed.

Lemma edg_unique n n' p p' :
  nodes t !! n = Some p → nodes t !! n' = Some p' → pi_edgId p = pi_edgId p' → n = n'.
Proof.
  intros Hn%edg_node Hn'%edg_node E. rewrite E in Hn. by eapply indexes_inj; [apply Ht|..].
Qed.
Lemma condor_unique n n' p p' :
  nodes t !! n = Some p → nodes t !! n' = Some p' → pi_condorId p = pi_condorId p' → n = n'.
Proof.
  intros Hn%condor_node Hn'%condor_node E. rewrite E in Hn. by eapply indexes_inj; [apply (to_condors _ _ Ht)|..].
Qed.

(** No two jobs have the same identifier of Condor. *)
Lemma jobs_inj e e' c : m !! e = Some c → m !! e' = Some c → e = e'.
Proof.
  rewrite !(to_map _ _ Ht). intros (n&p&Hn&<-&<-) (n'&p'&Hn'&<-&E).
  assert (n = n') as <- by (by eapply condor_unique). congruence.
Qed.

Lemma found_edg_some e i x :
  found (edgs t) e = Some (i, x) →
  edgs t !! i = Some x ∧ ∃ p, nodes t !! id_node x = Some p ∧ pi_edgId p = e ∧ m !! e = Some (pi_condorId p).
Proof.
  intros (Hi&_&Hf)%(found_some _ _ (to_edgs _ _ Ht)). split; [done|].
  rewrite lookup_fmap, fmap_Some in Hf. destruct Hf as (p&Hp&->). exists p. split_and!; [done|done|].
  apply (to_map _ _ Ht). by exists (id_node x), p.
Qed.
Lemma found_condor_some c i x :
  found (condors t) c = Some (i, x) →
  condors t !! i = Some x ∧ ∃ p, nodes t !! id_node x = Some p ∧ pi_condorId p = c ∧ m !! pi_edgId p = Some c.
Proof.
  intros (Hi&_&Hf)%(found_some _ _ (to_condors _ _ Ht)). split; [done|].
  rewrite lookup_fmap, fmap_Some in Hf. destruct Hf as (p&Hp&->). exists p. split_and!; [done|done|].
  apply (to_map _ _ Ht). by exists (id_node x), p.
Qed.
Lemma found_edg_none e : found (edgs t) e = None ↔ m !! e = None.
Proof.
  rewrite (found_none _ _ (to_edgs _ _ Ht)). split.
  - intros H. destruct (m !! e) as [c|] eqn:E; [|done]. apply (to_map _ _ Ht) in E as (n&p&Hn&<-&_).
    destruct (H n). by apply edg_node.
  - intros H n Hn. rewrite lookup_fmap, fmap_Some in Hn. destruct Hn as (p&Hn&->).
    assert (m !! pi_edgId p = Some (pi_condorId p)) by (apply (to_map _ _ Ht); eauto). congruence.
Qed.
Lemma found_condor_none c : found (condors t) c = None ↔ ∀ e, m !! e ≠ Some c.
Proof.
  rewrite (found_none _ _ (to_condors _ _ Ht)). split.
  - intros H e (n&p&Hn&_&<-)%(to_map _ _ Ht). destruct (H n). by apply condor_node.
  - intros H n Hn. rewrite lookup_fmap, fmap_Some in Hn. destruct Hn as (p&Hn&->).
    apply (H (pi_edgId p)). apply (to_map _ _ Ht). eauto.
Qed.

Lemma condor_of_ok e : condor_of t e = Some (default "" (m !! e)).
Proof.
  unfold condor_of. destruct (found (edgs t) e) as [[i x]|] eqn:E.
  - apply found_edg_some in E as (_&p&Hp&_&->). by rewrite Hp.
  - apply found_edg_none in E. by rewrite E.
Qed.
Lemma edg_of_ok e c : m !! e = Some c → edg_of t c = Some e.
Proof.
  intros Hm. unfold edg_of. destruct (found (condors t) c) as [[i x]|] eqn:E.
  - apply found_condor_some in E as (_&p&Hp&_&Hm'). rewrite Hp. simpl. f_equal. by eapply jobs_inj.
  - by apply found_condor_none with (e := e) in E.
Qed.
Lemma edg_of_none c : (∀ e, m !! e ≠ Some c) → edg_of t c = Some "".
Proof. intros Hm. unfold edg_of. by rewrite (proj2 (found_condor_none c)). Qed.

Lemma fresh_none : nodes t !! fresh t = None.
Proof.
  destruct (nodes t !! fresh t) eqn:E; [|done]. pose proof (to_fresh _ _ Ht (fresh t)) as H.
  rewrite E in H. specialize (H ltac:(done)). lia.
Qed.

(** A new job. *)
Lemma add_ok p e c :
  pi_edgId p = e → pi_condorId p = c → m !! e = None → (∀ e', m !! e' ≠ Some c) →
  tables_ok (index_node (fresh t) e c (push_node p t)) (<[e:=c]> m).
Proof.
  intros <- <- He Hc. pose proof fresh_none as Hf.
  split; simpl.
  - apply NoDup_app. split_and!; [apply Ht| |apply NoDup_singleton].
    intros n Hn ->%list_elem_of_singleton. apply (to_order _ _ Ht) in Hn as [??]. congruence.
  - intros n. rewrite elem_of_app, list_elem_of_singleton, (to_order _ _ Ht), lookup_insert_is_Some.
    destruct (decide (fresh t = n)); naive_solver.
  - intros n. rewrite lookup_insert_is_Some. intros [<-|[_ Hn]]; [lia|]. apply (to_fresh _ _ Ht) in Hn. lia.
  - rewrite fmap_insert. apply indexes_insert; [apply Ht|by rewrite lookup_fmap, Hf|].
    apply (found_none _ _ (to_edgs _ _ Ht)). by apply found_edg_none.
  - rewrite fmap_insert. apply indexes_insert; [apply Ht|by rewrite lookup_fmap, Hf|].
    apply (found_none _ _ (to_condors _ _ Ht)). by apply found_condor_none.
  - intros e c. rewrite lookup_insert_Some, (to_map _ _ Ht). split.
    + intros [[<- <-]|[Hne (n&p'&Hn&<-&<-)]].
      * exists (fresh t), p. by rewrite lookup_insert_eq.
      * exists n, p'. rewrite lookup_insert_ne by congruence. done.
    + intros (n&p'&Hn&<-&<-). apply lookup_insert_Some in Hn as [[_ ->]|[Hne Hn]]; [by left|].
      right. split; [|eauto]. intros E. assert (m !! pi_edgId p' = Some (pi_condorId p')) by (apply (to_map _ _ Ht); eauto).
      congruence.
Qed.

(** A job that is removed, given the places of its entries. *)
Definition drop_job (n : nat) (i j : nat) : option Tables :=
  t' ← erase_node n t; Some (set_condors (delete j (condors t)) (set_edgs (delete i (edgs t)) t')).

Lemma drop_ok n p i j x y :
  nodes t !! n = Some p → edgs t !! i = Some x → condors t !! j = Some y → id_node x = n → id_node y = n →
  ∃ t', drop_job n i j = Some t' ∧ tables_ok t' (delete (pi_edgId p) m).
Proof.
  intros Hn Hx Hy <- Hyn. unfold drop_job, erase_node. rewrite Hn. simpl.
  eexists. split; [done|]. split; simpl.
  - apply NoDup_filter, Ht.
  - intros n. rewrite list_elem_of_filter, (to_order _ _ Ht), lookup_delete_is_Some. naive_solver.
  - intros n. rewrite lookup_delete_is_Some. intros [_ Hn']. by apply (to_fresh _ _ Ht).
  - rewrite fmap_delete. by apply indexes_delete; [apply Ht|].
  - rewrite fmap_delete, <- Hyn. by apply indexes_delete; [apply Ht|].
  - intros e c. rewrite lookup_delete_Some, (to_map _ _ Ht). split.
    + intros [Hne (n&p'&Hn'&<-&<-)]. exists n, p'. rewrite lookup_delete_ne by congruence. done.
    + intros (n&p'&Hn'&<-&<-). apply lookup_delete_Some in Hn' as [Hne Hn']. split; [|eauto].
      intros E. apply Hne. by eapply edg_unique.
Qed.
End tables.
(** ** The container in memory as a map *)

(** What [insert] does to the map, when both of the identifiers are there or none. *)
Definition ram_spec_insert (e c : string) (m : gmap string string) : gmap string string :=
  if decide (is_Some (m !! e)) then m else <[e:=c]> m.

(** What [remove_by_condor_id] does: the job with the identifier [c] goes. *)
Definition ram_spec_remove (c : string) (m : gmap string string) : gmap string string :=
  filter (λ x, x.2 ≠ c) m.

Definition taken (c : string) (m : gmap string string) : Prop := ∃ e, m !! e = Some c.

Section ram.
Context (r : RamContainer) (m : gmap string string) (Hr : tables_ok (rc_tables r) m).

Lemma evict_none e c fuel :
  m !! e = None → ¬ taken c m → evict (S fuel) e c (rc_tables r) = Some (false, false, rc_tables r).
Proof.
  intros He Hc. simpl. rewrite (proj2 (found_edg_none _ _ Hr e) He).
  by rewrite (proj2 (found_condor_none _ _ Hr c) (λ e' H, Hc (ex_intro _ e' H))).
Qed.

(** An edg identifier that is there, with an identifier of Condor that is not. *)
Lemma evict_edg e c c' fuel :
  m !! e = Some c' → ¬ taken c m →
  ∃ i n p, nodes (rc_tables r) !! n = Some p ∧ pi_edgId p = e ∧ pi_condorId p = c' ∧
    let t := rc_tables r in
    let t' := mkTables (delete n (nodes t)) (filter (λ x, x ≠ n) (order t)) (fresh t)
                (delete i (edgs t)) (condors t) in
    evict (S (S fuel)) e c t = Some (false, false, t') ∧ indexes (edgs t') (pi_edgId <$> nodes t').
Proof.
  intros He Hc. destruct (found (edgs (rc_tables r)) e) as [[i x]|] eqn:Hf.
  2:{ apply (found_edg_none _ _ Hr) in Hf. congruence. }
  destruct (found_edg_some _ _ Hr _ _ _ Hf) as (Hi&p&Hp&Hpe&Hm).
  exists i, (id_node x), p. split_and!; [done|done|congruence|].
  intros t t0. fold t in Hf, Hi, Hp.
  assert (Hix : indexes (delete i (edgs t)) (pi_edgId <$> nodes t0)).
  { change (nodes t0) with (delete (id_node x) (nodes t)). rewrite (fmap_delete pi_edgId).
    by apply indexes_delete; [apply Hr|]. }
  split; [|exact Hix].
  assert (Hcn : found (condors t) c = None).
  { apply (found_condor_none _ _ Hr). intros e' He'. apply Hc. by exists e'. }
  assert (Hen : found (delete i (edgs t)) e = None).
  { apply (found_none _ _ Hix). intros n' Hn'. unfold t0 in Hn'. cbn [nodes] in Hn'.
    rewrite lookup_fmap, fmap_Some in Hn'. destruct Hn' as (p'&Hp'&->).
    apply lookup_delete_Some in Hp' as [Hne Hp']. apply Hne. by eapply (edg_unique _ _ Hr). }
  unfold evict at 1. rewrite Hf, Hcn. unfold erase_node. rewrite Hp. cbn [mbind option_bind].
  cbn [set_edgs edgs condors nodes order fresh]. by rewrite Hen, Hcn.
Qed.

Lemma ram_insert_same e c : is_Some (m !! e) → taken c m → ram_insert e c r = Some r.
Proof.
  intros He Hc. unfold ram_insert. cbn [evict].
  destruct (found (edgs (rc_tables r)) e) as [[i x]|] eqn:Hf.
  2:{ apply (found_edg_none _ _ Hr) in Hf. rewrite Hf in He. by destruct He. }
  destruct (found (condors (rc_tables r)) c) as [[j y]|] eqn:Hg.
  2:{ destruct Hc as [e' He']. by apply (found_condor_none _ _ Hr) with (e := e') in Hg. }
  simpl. by destruct r.
Qed.

Lemma ram_insert_new e c :
  m !! e = None → ¬ taken c m →
  ∃ r', ram_insert e c r = Some r' ∧ rc_inserted r' = i32 (rc_inserted r + 1)
    ∧ tables_ok (rc_tables r') (<[e:=c]> m).
Proof.
  intros He Hc. unfold ram_insert. rewrite evict_none by done. cbn [mbind option_bind negb orb].
  eexists. split_and!; [done|done|]. cbn [rc_tables]. apply add_ok; try done.
  intros e' He'. apply Hc. by exists e'.
Qed.

Lemma ram_insert_ok e c :
  (is_Some (m !! e) ↔ taken c m) →
  ∃ r', ram_insert e c r = Some r' ∧ tables_ok (rc_tables r') (ram_spec_insert e c m).
Proof.
  intros Hb. unfold ram_spec_insert. case_decide as He.
  - exists r. split; [|done]. apply ram_insert_same; [done|by apply Hb].
  - destruct (ram_insert_new e c) as (r'&E&_&Hr').
    + by apply eq_None_not_Some.
    + by rewrite <- Hb.
    + eauto.
Qed.

Lemma ram_remove_ok c :
  ∃ r', ram_remove_by_condor_id c r = Some (bool_decide (m = ram_spec_remove c m), r')
    ∧ tables_ok (rc_tables r') (ram_spec_remove c m).
Proof.
  unfold ram_remove_by_condor_id. destruct (found (condors (rc_tables r)) c) as [[j y]|] eqn:Hg.
  - destruct (found_condor_some _ _ Hr _ _ _ Hg) as (Hj&p&Hp&Hpc&Hm). rewrite Hp. cbn [mbind option_bind].
    destruct (found (edgs (rc_tables r)) (pi_edgId p)) as [[i x]|] eqn:Hf.
    2:{ apply (found_edg_none _ _ Hr) in Hf. congruence. }
    destruct (found_edg_some _ _ Hr _ _ _ Hf) as (Hi&p'&Hp'&He&Hm').
    assert (Hxy : id_node x = id_node y) by (by eapply (edg_unique _ _ Hr)).
    assert (Hs : ram_spec_remove c m = delete (pi_edgId p) m).
    { apply map_eq. intros e. unfold ram_spec_remove. apply option_eq. intros c'.
      rewrite map_lookup_filter_Some, lookup_delete_Some. simpl. split.
      - intros [He' Hc']. split; [|done]. intros <-. congruence.
      - intros [Hne He']. split; [done|]. intros ->. apply Hne. exact (jobs_inj _ _ Hr _ _ _ Hm He'). }
    destruct (drop_ok _ _ Hr _ _ i j x y Hp Hi Hj Hxy eq_refl) as (t'&E&Ht').
    unfold drop_job, erase_node in E. unfold erase_node. rewrite Hxy, Hp. rewrite Hp in E.
    cbn [mbind option_bind] in *. injection E as <-. rewrite bool_decide_eq_false_2.
    2:{ rewrite Hs. intros E. rewrite E, lookup_delete_eq in Hm. done. }
    eexists. split; [reflexivity|]. rewrite Hs. exact Ht'.
  - assert (Hs : ram_spec_remove c m = m).
    { apply map_filter_id. intros e c' He. simpl. intros ->.
      by apply (found_condor_none _ _ Hr) with (e := e) in Hg. }
    rewrite Hs, bool_decide_eq_true_2 by done. by exists r.
Qed.

Notation t := (rc_tables r).

(** The entry that the loop of [insert] forgets. *)
Lemma ram_insert_edg e c c' :
  m !! e = Some c' → ¬ taken c m →
  ∃ r', ram_insert e c r = Some r' ∧ ram_condor_id e r' = Some c ∧ ram_edg_id c' r' = None
    ∧ ram_remove_by_condor_id c' r' = None.
Proof.
  intros He Hc.
  assert (Hlen : ∃ k, (length (edgs t) + length (condors t) = S k)%nat).
  { destruct (edgs t) as [|x l] eqn:E; [|by eexists].
    assert (Hn : found (edgs t) e = None) by (unfold found; by rewrite E).
    apply (found_edg_none _ _ Hr) in Hn. congruence. }
  destruct Hlen as [k Hk]. destruct (evict_edg e c c' k He Hc) as (i&n&p&Hn&Hpe&Hpc&Hev&Hix).
  cbv zeta in Hev, Hix. cbn [edgs nodes] in Hix. unfold ram_insert. rewrite Hk, Hev. cbn [mbind option_bind negb orb].
  eexists. split; [reflexivity|].
  assert (Hff : nodes t !! fresh t = None) by apply (fresh_none _ _ Hr).
  assert (Hnf : n ≠ fresh t) by congruence.
  pose proof (indexes_insert _ _ Hix (fresh t) e) as HE. cbn [edgs nodes] in HE.
  destruct (found_complete _ _ (HE ltac:(by rewrite lookup_fmap, lookup_delete_ne, Hff)
    ltac:(intros n' Hn'; rewrite lookup_fmap, fmap_Some in Hn'; destruct Hn' as (p'&Hp'&E);
          apply lookup_delete_Some in Hp' as [Hne Hp']; apply Hne; eapply (edg_unique _ _ Hr); [done|done|congruence]))
    (fresh t) e ltac:(by rewrite lookup_insert_eq)) as [a Ha].
  pose proof (indexes_insert _ _ (to_condors _ _ Hr) (fresh t) c) as HC.
  destruct (found_complete _ _ (HC ltac:(by rewrite lookup_fmap, Hff)
    (proj1 (found_none _ _ (to_condors _ _ Hr) c)
      (proj2 (found_condor_none _ _ Hr c) (λ e' H, Hc (ex_intro _ e' H)))))
    n c' ltac:(by rewrite lookup_insert_ne, lookup_fmap, Hn, <- Hpc by congruence)) as [b Hb].
  unfold ram_condor_id, ram_edg_id, condor_of, edg_of, ram_remove_by_condor_id.
  cbn [rc_tables index_node push_node set_edgs set_condors edgs condors nodes fresh].
  rewrite Ha, Hb. cbn [id_node]. rewrite lookup_insert_eq, lookup_insert_ne, lookup_delete_eq by done.
  done.
Qed.
End ram.
(** ** Building the tables *)

#[export] Instance not_after_transitive : Transitive not_after.
Proof.
  intros x y z. unfold not_after. intros H1 H2.
  destruct (string_lt (id_key z) (id_key x)) eqn:E; [|done].
  destruct (string_lt (id_key x) (id_key y)) eqn:E2.
  - rewrite (string_lt_trans _ _ _ E E2) in H2. done.
  - pose proof (string_lt_total _ _ E2 H1) as Hk. rewrite Hk in E. congruence.
Qed.
#[export] Instance not_after_total : Total not_after.
Proof.
  intros x y. unfold not_after. destruct (string_lt (id_key y) (id_key x)) eqn:E; [|by left].
  right. by apply string_lt_asym.
Qed.

(** Sorting entries with different identifiers. *)
Lemma sorted_before l : StronglySorted not_after l → NoDup (id_key <$> l) → StronglySorted before l.
Proof.
  induction 1 as [|x l Hs IH Hx]; [constructor|]. rewrite fmap_cons, NoDup_cons. intros [Hn Hnd].
  constructor; [by apply IH|]. rewrite Forall_forall in Hx |- *. intros y Hy. specialize (Hx y Hy).
  unfold before, not_after in *. destruct (string_lt (id_key x) (id_key y)) eqn:E; [done|].
  exfalso. apply Hn. rewrite (string_lt_total _ _ E Hx). apply list_elem_of_fmap. by exists y.
Qed.
Lemma indexes_sort l f :
  (∀ n k, mkId n k ∈ l ↔ f !! n = Some k) → NoDup (id_key <$> l) → indexes (sort l) f.
Proof.
  intros Hf Hnd. assert (Hp : sort l ≡ₚ l) by apply merge_sort_Permutation. split.
  - apply sorted_before; [apply (StronglySorted_merge_sort _)|by rewrite Hp].
  - intros n k. by rewrite Hp.
Qed.

(** The tables in which the pointers [ps] have been pushed, on an empty list whose next
    node is [f]. *)
Definition pushed (f : nat) (ps : list PointerId) : Tables :=
  mkTables (map_seq f ps) (seq f (length ps)) (f + length ps)
    (zip_with mkId (seq f (length ps)) (pi_edgId <$> ps))
    (zip_with mkId (seq f (length ps)) (pi_condorId <$> ps)).

Lemma zip_entries (g : PointerId → string) f ps n k :
  mkId n k ∈ zip_with mkId (seq f (length ps)) (g <$> ps) ↔ (g <$> (map_seq f ps : gmap nat _)) !! n = Some k.
Proof.
  rewrite list_elem_of_lookup, lookup_fmap, fmap_Some. split.
  - intros [i Hi]. rewrite lookup_zip_with_Some in Hi. destruct Hi as (a&b&[= -> ->]&Hs&Hg).
    apply lookup_seq in Hs as [-> Hlt]. rewrite list_lookup_fmap, fmap_Some in Hg. destruct Hg as (p&Hp&->).
    exists p. split; [|done]. apply lookup_map_seq_Some. split; [lia|].
    by replace (f + i - f)%nat with i by lia.
  - intros (p&Hp&->). apply lookup_map_seq_Some in Hp as [Hle Hp]. exists (n - f)%nat.
    apply lookup_zip_with_Some. exists n, (g p). split_and!; [done| |by rewrite list_lookup_fmap, Hp].
    apply lookup_seq. apply lookup_lt_Some in Hp. lia.
Qed.
Lemma zip_keys (g : PointerId → string) f ps :
  id_key <$> zip_with mkId (seq f (length ps)) (g <$> ps) = g <$> ps.
Proof. revert f. induction ps as [|p ps IH]; intros f; simpl; [done|]. by rewrite IH. Qed.

Lemma pushed_ok f ps :
  NoDup (pi_edgId <$> ps) → NoDup (pi_condorId <$> ps) →
  tables_ok (sort_tables (pushed f ps)) (list_to_map (zip (pi_edgId <$> ps) (pi_condorId <$> ps))).
Proof.
  intros He Hc. split; simpl.
  - apply NoDup_seq.
  - intros n. rewrite <- not_eq_None_Some, lookup_map_seq_None, elem_of_seq. lia.
  - intros n. rewrite <- not_eq_None_Some, lookup_map_seq_None. lia.
  - apply indexes_sort; [apply zip_entries|by rewrite zip_keys].
  - apply indexes_sort; [apply zip_entries|by rewrite zip_keys].
  - intros e c. rewrite <- elem_of_list_to_map.
    2:{ rewrite fst_zip; [done|]. by rewrite !length_fmap. }
    rewrite list_elem_of_lookup. split.
    + intros [i Hi]. rewrite lookup_zip_Some, !list_lookup_fmap, !fmap_Some in Hi.
      destruct Hi as [(p&Hp&->) (p'&Hp'&->)]. assert (p' = p) as -> by congruence.
      exists (f + i)%nat, p. split; [|done]. apply lookup_map_seq_Some. split; [lia|].
      by replace (f + i - f)%nat with i by lia.
    + intros (n&p&Hn&<-&<-). apply lookup_map_seq_Some in Hn as [_ Hp]. exists (n - f)%nat.
      by rewrite lookup_zip_Some, !list_lookup_fmap, Hp.
Qed.

(** One more pointer. *)
Lemma pushed_snoc f ps p : push_entries p (pushed f ps) = pushed f (ps ++ [p]).
Proof.
  unfold push_entries, push_node, pushed, set_edgs, set_condors. cbn [nodes order fresh edgs condors].
  rewrite !length_app, seq_app, map_seq_snoc, !fmap_app, !zip_with_app by by rewrite length_fmap, length_seq.
  cbn [length seq fmap list_fmap zip_with]. f_equal; lia.
Qed.

(** ** Sequences of operations *)

Inductive ram_op := RamInsert (edgId condorId : string) | RamRemove (condorId : string).

Definition ram_step (x : ram_op) (r : RamContainer) : option RamContainer :=
  match x with
  | RamInsert e c => ram_insert e c r
  | RamRemove c => snd <$> ram_remove_by_condor_id c r
  end.
Definition ram_run (xs : list ram_op) : option RamContainer := foldl (λ r x, r ≫= ram_step x) (Some new_ram) xs.

Definition ram_spec_step (m : gmap string string) (x : ram_op) : gmap string string :=
  match x with
  | RamInsert e c => ram_spec_insert e c m
  | RamRemove c => ram_spec_remove c m
  end.

(** Every insertion has two identifiers that are new or two that are known. *)
Fixpoint ram_allowed (xs : list ram_op) (m : gmap string string) : Prop :=
  match xs with
  | [] => True
  | x :: xs =>
      match x with RamInsert e c => is_Some (m !! e) ↔ taken c m | RamRemove _ => True end
      ∧ ram_allowed xs (ram_spec_step m x)
  end.

Lemma ram_run_ok xs : ∀ r m,
  tables_ok (rc_tables r) m → ram_allowed xs m →
  ∃ r', foldl (λ r x, r ≫= ram_step x) (Some r) xs = Some r'
    ∧ tables_ok (rc_tables r') (foldl ram_spec_step m xs).
Proof.
  induction xs as [|x xs IH]; intros r m Hr Ha; [by exists r|]. destruct Ha as [Hx Hxs]. cbn [foldl].
  assert (H : ∃ r', ram_step x r = Some r' ∧ tables_ok (rc_tables r') (ram_spec_step m x)).
  { destruct x as [e c|c]; [by apply ram_insert_ok|].
    destruct (ram_remove_ok r m Hr c) as (r'&E&Hr'). exists r'. cbn [ram_step]. by rewrite E. }
  destruct H as (r'&E&Hr'). cbn [mbind option_bind]. rewrite E. by apply IH.
Qed.

(** C23. While the identifiers that are inserted are both new or both known, every
    operation is defined, and the container answers as the map from grid identifiers to
    those of Condor to which each insertion adds its pair and each removal takes away
    that of its identifier. *)
Theorem ram_container_refines_map xs :
  ram_allowed xs ∅ → let m := foldl ram_spec_step ∅ xs in
  ∃ r, ram_run xs = Some r
    ∧ (∀ e, ram_condor_id e r = Some (default "" (m !! e)))
    ∧ (∀ e c, m !! e = Some c → ram_edg_id c r = Some e)
    ∧ (∀ c, ¬ taken c m → ram_edg_id c r = Some "").
Proof.
  intros Ha m. destruct (ram_run_ok xs new_ram ∅ no_tables_ok Ha) as (r&E&Hr). exists r.
  split_and!; [exact E|..].
  - intros e. by apply condor_of_ok.
  - intros e c He. by eapply edg_of_ok.
  - intros c Hc. eapply edg_of_none; [exact Hr|]. intros e He. apply Hc. by exists e.
Qed.

(** C35. An insertion of a known grid identifier with a new identifier of Condor replaces
    the pair in the list and among the grid identifiers, but the old identifier of Condor
    keeps an entry of the node that has been erased: looking it up, or removing it, is
    not defined from then on. *)
Theorem ram_insert_leaves_entry xs e c c' :
  ram_allowed xs ∅ → let m := foldl ram_spec_step ∅ xs in m !! e = Some c' → ¬ taken c m →
  ∃ r, ram_run (xs ++ [RamInsert e c]) = Some r ∧ ram_condor_id e r = Some c
    ∧ ram_edg_id c' r = None ∧ ram_remove_by_condor_id c' r = None.
Proof.
  intros Ha m He Hc. destruct (ram_run_ok xs new_ram ∅ no_tables_ok Ha) as (r&E&Hr).
  destruct (ram_insert_edg r m Hr e c c' He Hc) as (r'&E'&H). exists r'. split; [|exact H].
  unfold ram_run. rewrite foldl_app, E. exact E'.
Qed.

(** *** Their witnesses *)

Definition two_jobs : list ram_op := [RamInsert "job1" "17"; RamInsert "job0" "4"; RamInsert "job1" "17"].

Lemma not_taken_new m c : bool_decide (map_Forall (λ _ x, x ≠ c) m) = true → ¬ taken c m.
Proof. intros H%bool_decide_eq_true_1 [e He]. exact (H e c He eq_refl). Qed.
Lemma both_new (m : gmap string string) e c :
  m !! e = None → bool_decide (map_Forall (λ _ x, x ≠ c) m) = true → is_Some (m !! e) ↔ taken c m.
Proof. intros He Hc%not_taken_new. rewrite He. split; [by intros [??]|done]. Qed.
Lemma both_known (m : gmap string string) e c : m !! e = Some c → is_Some (m !! e) ↔ taken c m.
Proof. intros He. split; intros _; [by exists e|by exists c]. Qed.

Lemma two_jobs_allowed : ram_allowed two_jobs ∅.
Proof.
  split; [by apply both_new; vm_compute|]. split; [by apply both_new; vm_compute|].
  split; [by apply both_known; vm_compute|done].
Qed.

Lemma ram_container_refines_map_witness :
  let xs := two_jobs ++ [RamRemove "4"] in let m := foldl ram_spec_step ∅ xs in
  ∃ r, ram_run xs = Some r
    ∧ (∀ e, ram_condor_id e r = Some (default "" (m !! e)))
    ∧ (∀ e c, m !! e = Some c → ram_edg_id c r = Some e)
    ∧ (∀ c, ¬ taken c m → ram_edg_id c r = Some "").
Proof.
  apply (ram_container_refines_map (two_jobs ++ [RamRemove "4"])).
  destruct two_jobs_allowed as (H1&H2&H3&_). split; [exact H1|split; [exact H2|split; [exact H3|done]]].
Defined.

Lemma ram_insert_leaves_entry_witness :
  ∃ r, ram_run (two_jobs ++ [RamInsert "job1" "18"]) = Some r ∧ ram_condor_id "job1" r = Some "18"
    ∧ ram_edg_id "17" r = None ∧ ram_remove_by_condor_id "17" r = None.
Proof.
  apply (ram_insert_leaves_entry two_jobs "job1" "18" "17" two_jobs_allowed).
  - vm_compute. reflexivity.
  - apply not_taken_new. vm_compute. reflexivity.
Defined.
