(* ===== verification/IdContainer.v ===== *)
(** * The repository of job identifiers (id_container.h, id_container.cpp, pointer_id.cpp)

    The log monitor keeps every job it follows in a list of ClassAds in a file, and in
    memory the tables of IdTables.v with, for each job, an iterator on its element of the
    file. The state of an operation is the container with its tables and the process with
    its stream on the file. The lock that every operation takes is left out: an operation
    is one step of the process that performs it. *)

From S2P Require Import Prelude.
From S2P Require Import WmWorld.
From S2P Require Import Machine FileText FileContainer FileLayout FileRules FileList.
From S2P Require Import FileOps FileRemove FileCrash FileReading FileSafety FileWays FileSpec.
From S2P Require Import FileSequence FileOwner FileCompact IdTables.

(** ** Operations *)

Record IdContainer := mkIds {
  ic_inserted : Z;
  ic_tables : Tables;
  ic_last : option nat;   (* [None]: the iterator of no node *)
  ic_stream : St          (* of [ic_container] *)
}.

Definition set_tables (t : Tables) (w : IdContainer) : IdContainer :=
  mkIds (ic_inserted w) t (ic_last w) (ic_stream w).

#[export] Instance ids_owner : Owner IdContainer := {|
  file_of := ic_stream;
  with_file s w := mkIds (ic_inserted w) (ic_tables w) (ic_last w) s;
  file_of_with _ _ := eq_refl;
  with_file_of w := match w with mkIds _ _ _ _ => eq_refl end
|}.

Notation M := (Own IdContainer).

Definition update_tables (f : Tables → Tables) : M unit := update_state (λ w, set_tables (f (ic_tables w)) w).

(** The node an iterator stands for. *)
Definition node (n : nat) : M PointerId :=
  t ← state ic_tables;
  match nodes t !! n with Some p => mret p | None => crash end.

Section IdContainer.
Context `{CA : ClassAds}.

#[export] Instance ad_converter : Converter ad := {|
  to_string a := Some (String.list_ascii_of_string (unparse_classad a));
  of_string data := parse_classad (String.string_of_list_ascii data)
|}.

(** *** [PointerId] *)

(** [EvaluateAttrString] and [EvaluateAttrNumber] leave what they do not find. *)
Definition read_ad (a : ad) (position : iter) (p : PointerId) : PointerId :=
  mkPointer (default (pi_condorStatus p) (evaluate_int a pi_s_CondorStatus))
    (default (pi_lastStatus p) (evaluate_int a pi_s_LastStatus))
    (default (pi_retryCount p) (evaluate_int a pi_s_RetryCount))
    position
    (default (pi_condorId p) (evaluate_string a pi_s_CondorId))
    (default (pi_edgId p) (evaluate_string a pi_s_EdgId))
    (default (pi_sequenceCode p) (evaluate_string a pi_s_SequenceCode)).

(** [PointerId(position)] and [reset(position)] *)
Definition blank_pointer : PointerId := mkPointer 0 undefined_status 0 no_iter "" "" "".
Definition pointer_of (position : iter) : E PointerId :=
  a ← deref position; mret (read_ad a position blank_pointer).
Definition pointer_reset (position : iter) (p : PointerId) : E PointerId :=
  a ← deref position; mret (read_ad a position p).

(** *** [IdContainer] *)

Definition onConstruct : M unit :=
  each (λ position, p ← on_file (pointer_of position); update_tables (push_entries p));;
  update_tables sort_tables.

(** The constructor, on a container that the process has opened. *)
Definition construct : M unit :=
  update_state (λ w, mkIds 0 no_tables None (ic_stream w));;
  e ← on_file fs_empty;
  if e : bool then mret tt else onConstruct.

Definition removePointers (edgPos condorPos : nat * IdEntry) : M bool :=
  catch (
    p ← node (id_node edgPos.2);
    _ ← on_file (fl_erase (pi_position p));
    t ← state ic_tables;
    match erase_node (id_node edgPos.2) t with
    | Some t =>
        update_tables (λ _, set_condors (delete condorPos.1 (condors t)) (set_edgs (delete edgPos.1 (edgs t)) t))
    | None => crash
    end).

Definition condor_id (edgId : string) : M string := t ← state ic_tables; lift_option (condor_of t edgId).
Definition edg_id (condorId : string) : M string := t ← state ic_tables; lift_option (edg_of t condorId).
Definition position_by_condor_id (condorId : string) : M (option nat) :=
  t ← state ic_tables; mret (id_node ∘ snd <$> found (condors t) condorId).
Definition position_by_edg_id (edgId : string) : M (option nat) :=
  t ← state ic_tables; mret (id_node ∘ snd <$> found (edgs t) edgId).

(** The ad of a new job. *)
Definition new_ad (edgId condorId sequenceCode : string) (status : Z) : ad :=
  let value := Insert WmWorld.ad_empty pi_s_CondorId (AString condorId) in
  let value := Insert value pi_s_EdgId (AString edgId) in
  let value := Insert value pi_s_SequenceCode (AString sequenceCode) in
  Insert value pi_s_CondorStatus (AInt status).

(** [push_back] and the iterator on what it has added. *)
Definition append_ad (value : ad) : E iter :=
  append value.

Definition insert (edgId condorId sequenceCode : string) (status : Z) : M bool :=
  t ← state ic_tables;
  match found (edgs t) edgId, found (condors t) condorId with
  | None, None =>
      last ← on_file (append_ad (new_ad edgId condorId sequenceCode status));
      let p := mkPointer 0 undefined_status 0 last condorId edgId sequenceCode in
      update_state (λ w,
        let t := ic_tables w in
        mkIds (u64 (ic_inserted w + 1)) (index_node (fresh t) edgId condorId (push_node p t))
          (Some (fresh t)) (ic_stream w));;
      mret false
  | _, _ => mret true
  end.

(** The element of the node [n] is replaced by one with the ad [f] makes of its own. *)
Definition replace_ad (n : nat) (f : ad → ad) : M bool :=
  p ← node n;
  a ← on_file (deref (pi_position p));
  _ ← on_file (fl_erase (pi_position p));
  last ← on_file (append_ad (f a));
  p ← on_file (pointer_reset last p);
  update_tables (λ t, set_nodes (<[n:=p]> (nodes t)) t);;
  mret false.

Definition updated_ad (seqcode : string) (status laststatus : Z) (a : ad) : ad :=
  let a := Insert a pi_s_SequenceCode (AString seqcode) in
  let a := Insert a pi_s_CondorStatus (AInt status) in
  if negb (laststatus =? undefined_status) then Insert a pi_s_LastStatus (AInt laststatus) else a.

Definition update_pointer (position : nat) (seqcode : string) (status laststatus : Z) : M bool :=
  replace_ad position (updated_ad seqcode status laststatus).

Definition increment_pointer_retry_count (position : nat) : M bool :=
  p ← node position;
  replace_ad position (λ a, Insert a pi_s_RetryCount (AInt (i32 (pi_retryCount p + 1)))).

Definition remove_by_edg_id (edgId : string) : M bool :=
  t ← state ic_tables;
  match found (edgs t) edgId with
  | None => mret true
  | Some edgPos =>
      p ← node (id_node edgPos.2);
      match found (condors t) (pi_condorId p) with
      | None => mret true
      | Some condorPos => removePointers edgPos condorPos
      end
  end.

Definition remove_by_condor_id (condorId : string) : M bool :=
  t ← state ic_tables;
  match found (condors t) condorId with
  | None => mret true
  | Some condorPos =>
      p ← node (id_node condorPos.2);
      match found (edgs t) (pi_edgId p) with
      | None => mret true
      | Some edgPos => removePointers edgPos condorPos
      end
  end.

Definition clear_tables : M unit := update_tables (λ t, mkTables ∅ [] (fresh t) [] []).

Definition refresh : M unit :=
  m ← on_file fs_modified;
  if m : bool then
    on_file fs_sync;;
    clear_tables;;
    onConstruct
  else mret tt.

Definition compact : M unit :=
  on_file fs_compact;;
  clear_tables;;
  onConstruct;;
  update_state (λ w, mkIds 0 (ic_tables w) (ic_last w) (ic_stream w)).

Definition clear : M unit := on_file fs_clear;; clear_tables.

(** [RamContainer::internalCopy]: one [PointerId] is used for every element, so what an
    ad does not have is left from the element before it. *)
Fixpoint copy_loop (fuel : nat) (position end_ : iter) (current : PointerId) (t : Tables) : M Tables :=
  match fuel with
  | O => crash
  | S fuel =>
      if is_different position end_ then
        current ← on_file (pointer_reset position current);
        let current := mkPointer (pi_condorStatus current) (pi_lastStatus current) (pi_retryCount current)
          (iter_reset (pi_position current)) (pi_condorId current) (pi_edgId current)
          (pi_sequenceCode current) in
        position ← on_file (iter_next position);
        copy_loop fuel position end_ current (push_entries current t)
      else mret t
  end.

(** [RamContainer(ic)] and [copy], given the values the numbers of [current] happen to
    have. *)
Definition ram_copy (current : PointerId) : M RamContainer :=
  end_ ← on_file fl_end;
  position ← on_file fl_begin;
  fuel ← state (λ w, S (length (s_file (ic_stream w))));
  t ← copy_loop fuel position end_ current no_tables;
  mret (mkRam 0 (sort_tables t)).
End IdContainer.
(** ** Rules *)

Definition set_stream (s : St) (w : IdContainer) : IdContainer :=
  mkIds (ic_inserted w) (ic_tables w) (ic_last w) s.

Lemma mruns_list {A} (m : E A) (Q : A → IdContainer → Prop) w :
  runs m (λ a s, Q a (set_stream s w)) (ic_stream w) → mruns (on_file m) Q w.
Proof. exact (mruns_file m Q w). Qed.
Lemma mruns_node n p Q w : nodes (ic_tables w) !! n = Some p → Q p w → mruns (node n) Q w.
Proof. intros Hn H. unfold node. apply mruns_bind, mruns_state. rewrite Hn. by apply mruns_ret. Qed.
(** ** The jobs *)

(** What the ads of the jobs have to do, as the ClassAd library documents it: an
    attribute that is inserted has its value and the others keep theirs, and an ad that
    is written and parsed again has the strings, the integers and the truth values it had. *)
Definition attributes : list string :=
  [pi_s_CondorId; pi_s_EdgId; pi_s_SequenceCode; pi_s_CondorStatus; pi_s_LastStatus; pi_s_RetryCount].

Definition plain `{CA : ClassAds} (v : attr_value ad) : Prop :=
  match v with AString _ | AInt _ => True | _ => False end.

Definition same_ad `{CA : ClassAds} (b a : ad) : Prop := ∀ e,
  evaluate_string b e = evaluate_string a e ∧ evaluate_int b e = evaluate_int a e
  ∧ evaluate_bool b e = evaluate_bool a e.

Class JobAds `{CA : ClassAds} : Prop := {
  job_empty e : evaluate WmWorld.ad_empty e = None;
  job_insert a n v : n ∈ attributes → plain v → evaluate (Insert a n v) n = Some v;
  job_insert_ne a n v e :
    n ∈ attributes → plain v → e ∈ attributes → n ≠ e → evaluate (Insert a n v) e = evaluate a e;
  job_parse a : ∃ b, parse_classad (unparse_classad a) = Some b ∧ same_ad b a;
  job_text a : unparse_classad a ≠ "";
  job_nothing : parse_classad "" = None
}.

(** A job as its ad describes it, without its grid identifier. *)
Record job := mkJob {
  job_condor : string;
  job_sequence : string;
  job_status : Z;
  job_last : Z;
  job_retries : Z
}.

Section jobs.
Context `{CA : ClassAds}.

Definition job_of (a : ad) : job :=
  mkJob (default "" (evaluate_string a pi_s_CondorId)) (default "" (evaluate_string a pi_s_SequenceCode))
    (default 0 (evaluate_int a pi_s_CondorStatus)) (default undefined_status (evaluate_int a pi_s_LastStatus))
    (default 0 (evaluate_int a pi_s_RetryCount)).

(** The job of an element of the file. *)
Definition parse_job (data : bytes) : option (string * job) :=
  a ← of_string (T := ad) data;
  e ← evaluate_string a pi_s_EdgId;
  _ ← evaluate_string a pi_s_CondorId;
  Some (e, job_of a).

Definition file_jobs (L : elems) : option (list (string * job)) := mapM (parse_job ∘ snd) L.

(** The text of an ad. *)
Definition ad_text (a : ad) : bytes := String.list_ascii_of_string (unparse_classad a).

(** ** What the operations do to the jobs *)

Definition no_job (c : string) (m : gmap string job) : Prop := ∀ e j, m !! e = Some j → job_condor j ≠ c.
#[export] Instance no_job_dec c m : Decision (no_job c m).
Proof.
  refine (cast_if (decide (map_Forall (λ _ j, job_condor j ≠ c) m))); abstract (unfold no_job; done).
Defined.

Definition with_update (seqcode : string) (status laststatus : Z) (j : job) : job :=
  mkJob (job_condor j) seqcode status (if laststatus =? undefined_status then job_last j else laststatus)
    (job_retries j).
Definition with_retry (j : job) : job :=
  mkJob (job_condor j) (job_sequence j) (job_status j) (job_last j) (i32 (job_retries j + 1)).

(** A pointer in memory and the job of its element. The status of a new job is the one
    of its ad only when the ad is read again. *)
Definition mirrors (p : PointerId) (j : job) : Prop :=
  pi_condorId p = job_condor j ∧ pi_sequenceCode p = job_sequence j ∧ pi_lastStatus p = job_last j
  ∧ pi_retryCount p = job_retries j ∧ (pi_condorStatus p = job_status j ∨ pi_condorStatus p = 0).

(** A node stands for an element of the file. *)
Definition stands_for (L : elems) (p : PointerId) : Prop :=
  bi_good (pi_position p) = true
  ∧ (pos_of (pi_position p), bi_data (pi_position p)) ∈ L
  ∧ ∃ j, parse_job (bi_data (pi_position p)) = Some (pi_edgId p, j) ∧ mirrors p j.

(** The list in the file has the jobs [m], and so have the tables. *)
Record ids_ok (w : IdContainer) (D : disk) (L : elems) (m : gmap string job) : Prop := {
  io_sees : sees D L (ic_stream w);
  io_tables : tables_ok (ic_tables w) (job_condor <$> m);
  io_jobs : ∃ js, file_jobs L = Some js ∧ NoDup js.*1 ∧ list_to_map js = m;
  io_nodes n p : nodes (ic_tables w) !! n = Some p → stands_for L p
}.
End jobs.
(** ** Ads *)

Section ads.
Context `{CA : ClassAds} {HA : JobAds}.

Lemma attribute_in n : bool_decide (n ∈ attributes) = true → n ∈ attributes.
Proof. apply bool_decide_eq_true_1. Qed.

(** Evaluate through the insertions. *)
Ltac evaluates :=
  repeat first
    [ rewrite job_insert by (by first [apply attribute_in|idtac])
    | rewrite job_insert_ne by (by first [apply attribute_in|idtac])
    | rewrite job_empty ]; cbn [default].

Lemma job_of_new e c sq st : job_of (new_ad e c sq st) = mkJob c sq st undefined_status 0.
Proof. unfold job_of, new_ad, evaluate_string, evaluate_int. by evaluates. Qed.
Lemma edg_of_new e c sq st : evaluate_string (new_ad e c sq st) pi_s_EdgId = Some e.
Proof. unfold new_ad, evaluate_string. by evaluates. Qed.
Lemma condor_of_new e c sq st : evaluate_string (new_ad e c sq st) pi_s_CondorId = Some c.
Proof. unfold new_ad, evaluate_string. by evaluates. Qed.

Lemma job_of_updated sq st last a :
  job_of (updated_ad sq st last a) = with_update sq st last (job_of a).
Proof.
  unfold job_of, updated_ad, with_update, evaluate_string, evaluate_int. cbn [job_condor job_last job_retries].
  destruct (last =? undefined_status); cbn [negb]; by evaluates.
Qed.
Lemma job_of_retried a : let j := job_of a in
  job_of (Insert a pi_s_RetryCount (AInt (i32 (job_retries j + 1)))) = with_retry j.
Proof. unfold job_of, with_retry, evaluate_string, evaluate_int. cbn [job_retries]. by evaluates. Qed.

(** The ad [b] has what [a] has, and the same identifiers. *)
Record extends (a b : ad) : Prop := {
  ex_condor : evaluate_string b pi_s_CondorId = evaluate_string a pi_s_CondorId;
  ex_edg : evaluate_string b pi_s_EdgId = evaluate_string a pi_s_EdgId;
  ex_sequence : evaluate_string b pi_s_SequenceCode = None → evaluate_string a pi_s_SequenceCode = None;
  ex_status : evaluate_int b pi_s_CondorStatus = None → evaluate_int a pi_s_CondorStatus = None;
  ex_last : evaluate_int b pi_s_LastStatus = None → evaluate_int a pi_s_LastStatus = None;
  ex_retries : evaluate_int b pi_s_RetryCount = None → evaluate_int a pi_s_RetryCount = None
}.

Lemma updated_extends sq st last a : extends a (updated_ad sq st last a).
Proof.
  unfold updated_ad. destruct (last =? undefined_status); cbn [negb];
    split; unfold evaluate_string, evaluate_int; by evaluates.
Qed.
Lemma retried_extends n a : extends a (Insert a pi_s_RetryCount (AInt n)).
Proof. split; unfold evaluate_string, evaluate_int; by evaluates. Qed.

(** *** Their texts *)

Lemma parse_text a : ∃ b, of_string (T := ad) (ad_text a) = Some b ∧ same_ad b a.
Proof.
  destruct (job_parse a) as (b&Hb&He). exists b. split; [|done].
  unfold of_string, ad_converter, ad_text. by rewrite String.string_of_list_ascii_of_string.
Qed.
Lemma ad_text_nonempty a : ad_text a ≠ [].
Proof. pose proof (job_text a) as H. unfold ad_text. by destruct (unparse_classad a). Qed.

Lemma same_job a b : same_ad b a → job_of b = job_of a.
Proof.
  intros He. unfold job_of. rewrite !(proj1 (He _)). by rewrite !(proj1 (proj2 (He _))).
Qed.

Lemma parse_job_text a e :
  evaluate_string a pi_s_EdgId = Some e → is_Some (evaluate_string a pi_s_CondorId) →
  parse_job (ad_text a) = Some (e, job_of a).
Proof.
  intros He [c Hc]. destruct (parse_text a) as (b&Hb&Hab). unfold parse_job. rewrite Hb. cbn [mbind option_bind].
  rewrite !(proj1 (Hab _)), He, Hc. cbn [mbind option_bind]. by rewrite (same_job a b Hab).
Qed.

(** What an element that is a job consists of. *)
Lemma parse_job_some data e j :
  parse_job data = Some (e, j) →
  ∃ a, of_string (T := ad) data = Some a ∧ evaluate_string a pi_s_EdgId = Some e
    ∧ evaluate_string a pi_s_CondorId = Some (job_condor j) ∧ job_of a = j.
Proof.
  unfold parse_job. intros (a&Ha&(e'&He&(c&Hc&[= -> <-])%bind_Some)%bind_Some)%bind_Some.
  exists a. split_and!; [done|done| |done]. by rewrite Hc; unfold job_of; cbn [job_condor]; rewrite Hc.
Qed.

(** *** Pointers *)

Lemma read_ad_mirrors a it e :
  evaluate_string a pi_s_EdgId = Some e →
  let p := read_ad a it blank_pointer in pi_edgId p = e ∧ mirrors p (job_of a).
Proof.
  intros He p. unfold p, read_ad, blank_pointer. cbn. rewrite He. split; [done|].
  unfold mirrors. cbn. split_and!; try done. by left.
Qed.

(** A pointer that is read again from an ad that extends the one it mirrors. *)
Lemma reread_mirrors a b it p e :
  extends a b → evaluate_string a pi_s_EdgId = Some e → is_Some (evaluate_string a pi_s_CondorId) →
  pi_edgId p = e → mirrors p (job_of a) →
  let q := read_ad b it p in pi_edgId q = e ∧ pi_condorId q = pi_condorId p ∧ mirrors q (job_of b).
Proof.
  intros [Xc Xe Xs Xst Xl Xr] He [c Hc] Hpe (Mc&Ms&Ml&Mr&Mst) q. unfold q, read_ad, mirrors. cbn.
  unfold job_of in Mc, Ms, Ml, Mr, Mst. cbn in Mc, Ms, Ml, Mr, Mst.
  rewrite Xe, He, Xc, Hc in *. cbn in *. split_and!; try done.
  - destruct (evaluate_string b pi_s_SequenceCode); [done|]. by rewrite Xs in Ms.
  - destruct (evaluate_int b pi_s_LastStatus); [done|]. by rewrite Xl in Ml.
  - destruct (evaluate_int b pi_s_RetryCount); [done|]. by rewrite Xr in Mr.
  - destruct (evaluate_int b pi_s_CondorStatus); [by left|]. rewrite Xst in Mst by done. cbn in *. tauto.
Qed.
End ads.
(** ** The elements *)

Section elements.
Context `{CA : ClassAds} {HA : JobAds}.

Lemma file_jobs_snoc L js x e j :
  file_jobs L = Some js → parse_job x.2 = Some (e, j) → file_jobs (L ++ [x]) = Some (js ++ [(e, j)]).
Proof.
  unfold file_jobs. rewrite !mapM_Some. intros HL Hx. apply Forall2_app; [done|]. by repeat constructor.
Qed.
Lemma file_jobs_split L1 x L2 js :
  file_jobs (L1 ++ x :: L2) = Some js →
  ∃ js1 y js2, js = js1 ++ y :: js2 ∧ parse_job x.2 = Some y ∧ file_jobs (L1 ++ L2) = Some (js1 ++ js2).
Proof.
  unfold file_jobs. rewrite mapM_Some. intros (js1&js'&H1&H2&->)%Forall2_app_inv_l.
  apply Forall2_cons_inv_l in H2 as (y&js2&Hy&H2&->). exists js1, y, js2. split_and!; [done|done|].
  apply mapM_Some. by apply Forall2_app.
Qed.
Lemma file_jobs_in L js x y :
  file_jobs L = Some js → x ∈ L → parse_job x.2 = Some y → y ∈ js.
Proof.
  unfold file_jobs. rewrite mapM_Some. intros HL Hx Hy. apply list_elem_of_lookup in Hx as [i Hi].
  destruct (Forall2_lookup_l _ _ _ _ _ HL Hi) as (y'&Hy'&E). unfold compose in E.
  rewrite Hy in E. injection E as <-. by eapply list_elem_of_lookup_2.
Qed.

(** The jobs without the one of an element. *)
Lemma jobs_delete (js1 js2 : list (string * job)) e j :
  NoDup (js1 ++ (e, j) :: js2).*1 →
  NoDup (js1 ++ js2).*1 ∧ list_to_map (js1 ++ js2) = delete e (list_to_map (js1 ++ (e, j) :: js2) : gmap string job).
Proof.
  intros Hnd. assert (Hp : js1 ++ (e, j) :: js2 ≡ₚ (e, j) :: js1 ++ js2) by by rewrite Permutation_middle.
  assert (Hnd' : NoDup ((e, j) :: js1 ++ js2).*1) by by rewrite <- Hp.
  rewrite (list_to_map_proper _ _ Hnd Hp). simpl in *. apply NoDup_cons in Hnd' as [Hn Hnd']. split; [done|].
  rewrite delete_insert_id; [done|]. by apply not_elem_of_list_to_map_1.
Qed.

(** Two elements of the same job are one. *)
Lemma element_unique D L js x y e j j' :
  list_of D L → file_jobs L = Some js → NoDup js.*1 → x ∈ L → y ∈ L →
  parse_job x.2 = Some (e, j) → parse_job y.2 = Some (e, j') → x = y.
Proof.
  intros HL Hjs Hnd Hx Hy Ex Ey. apply list_elem_of_lookup in Hx as [i Hi], Hy as [k Hk].
  unfold file_jobs in Hjs. rewrite mapM_Some in Hjs.
  destruct (Forall2_lookup_l _ _ _ _ _ Hjs Hi) as (a&Ha&Ea), (Forall2_lookup_l _ _ _ _ _ Hjs Hk) as (b&Hb&Eb).
  unfold compose in Ea, Eb. rewrite Ex in Ea. rewrite Ey in Eb. injection Ea as <-. injection Eb as <-.
  assert (i = k) as <-; [|congruence].
  eapply (NoDup_lookup js.*1); [done|rewrite list_lookup_fmap, Ha; done|rewrite list_lookup_fmap, Hb; done].
Qed.

Lemma element_at D L (x y : Z * bytes) : list_of D L → x ∈ L → y ∈ L → x.1 = y.1 → x = y.
Proof.
  intros HL [i Hi]%list_elem_of_lookup [k Hk]%list_elem_of_lookup E.
  assert (i = k) as <-; [|congruence]. eapply (NoDup_lookup L.*1); [apply HL|rewrite list_lookup_fmap, Hi; done|].
  by rewrite list_lookup_fmap, Hk, E.
Qed.

(** *** Appending an ad *)

(** Room for [k] modifications, after which the file has at most [n] bytes. *)
Lemma runs_append_ad D L a s :
  let e := file_end D in let n := e + data_size (ad_text a) in
  sees D L s → room D 1 n →
  runs (append_ad a) (λ it s', ∃ D', let L' := L ++ [(e, ad_text a)] in
    leaves_list D L' n D' s' ∧ it = mkIter true true (iter_nth L' n (length L)) (ad_text a)) s.
Proof.
  intros e n Hs Hr. apply runs_append; [exact Hs|exact Hr|reflexivity|apply ad_text_nonempty].
Qed.

Lemma iter_nth_at L e i p d : L !! i = Some (p, d) → pos_of (mkIter true true (iter_nth L e i) d) = p.
Proof. intros Hi. unfold pos_of. cbn. by eapply iter_nth_current. Qed.

(** Nodes keep standing for their elements when others come or go. *)
Lemma stands_for_mono L L' p :
  stands_for L p → ((pos_of (pi_position p), bi_data (pi_position p)) ∈ L → (pos_of (pi_position p), bi_data (pi_position p)) ∈ L') →
  stands_for L' p.
Proof. intros (Hg&Hin&Hj) H. split_and!; [done|by apply H|done]. Qed.

Lemma no_job_condor c (m : gmap string job) : no_job c m ↔ ∀ e, (job_condor <$> m) !! e ≠ Some c.
Proof.
  split.
  - intros H e. rewrite lookup_fmap, fmap_Some. intros (j&Hj&->). by apply (H e j).
  - intros H e j Hj <-. apply (H e). by rewrite lookup_fmap, Hj.
Qed.
End elements.
(** ** What each operation does to the jobs *)

Section operations.
Context `{CA : ClassAds} {HA : JobAds}.
Context (w : IdContainer) (D : disk) (L : elems) (m : gmap string job).
Context (Hw : ids_ok w D L m).

Let HL : list_of D L.
Proof. destruct (io_sees _ _ _ _ Hw) as (o&_&Hwf&_). apply Hwf. Qed.

(** After the operation the file and the tables have the jobs [m']. *)
Definition has_jobs (m' : gmap string job) (w' : IdContainer) : Prop := ∃ D' L', ids_ok w' D' L' m'.

Lemma no_edg e : m !! e = None → found (edgs (ic_tables w)) e = None.
Proof. intros He. apply (found_edg_none _ _ (io_tables _ _ _ _ Hw)). by rewrite lookup_fmap, He. Qed.
Lemma no_condor c : no_job c m → found (condors (ic_tables w)) c = None.
Proof. intros Hc. apply (found_condor_none _ _ (io_tables _ _ _ _ Hw)). by apply no_job_condor. Qed.

Lemma insert_ok e c sq st :
  m !! e = None → no_job c m → room D 1 (file_end D + data_size (ad_text (new_ad e c sq st))) →
  mruns (insert e c sq st)
    (λ b w', b = false ∧ has_jobs (<[e:=mkJob c sq st undefined_status 0]> m) w') w.
Proof.
  intros He Hc Hroom. pose proof (io_tables _ _ _ _ Hw) as HT.
  unfold insert. apply mruns_bind, mruns_state. rewrite (no_edg e He), (no_condor c Hc).
  apply mruns_bind, mruns_list. eapply runs_mono; [apply runs_append_ad; [apply (io_sees _ _ _ _ Hw)|exact Hroom]|].
  intros it s (D'&[Hs HD']&->). apply mruns_bind, mruns_update, mruns_ret. split; [done|].
  set (a := new_ad e c sq st) in *. set (x := (file_end D, ad_text a)) in *.
  assert (Hl : (L ++ [x]) !! length L = Some x) by by apply list_lookup_middle.
  assert (Hj : parse_job x.2 = Some (e, mkJob c sq st undefined_status 0)).
  { pose proof (parse_job_text (new_ad e c sq st) e (edg_of_new e c sq st)
      ltac:(by rewrite condor_of_new)) as Hp. rewrite job_of_new in Hp. exact Hp. }
  destruct (io_jobs _ _ _ _ Hw) as (js&Hjs&Hnd&Hm).
  exists D', (L ++ [x]). split.
  - exact Hs.
  - rewrite fmap_insert. apply add_ok; [exact HT|done|done|by rewrite lookup_fmap, He|].
    intros e'. by apply no_job_condor.
  - exists (js ++ [(e, mkJob c sq st undefined_status 0)]). split_and!.
    + by apply file_jobs_snoc.
    + rewrite fmap_app. apply NoDup_app. split_and!; [done| |apply NoDup_singleton].
      intros e' He' ->%list_elem_of_singleton. rewrite <- Hm in He.
      by apply not_elem_of_list_to_map_2 in He.
    + rewrite list_to_map_snoc, Hm; [done|]. rewrite <- Hm in He. by apply not_elem_of_list_to_map_2 in He.
  - intros n p. cbn [ic_tables index_node set_edgs set_condors nodes push_node].
    intros [[<- <-]|[_ Hn]]%lookup_insert_Some.
    + split; [done|]. cbn [pi_position bi_data pi_edgId]. rewrite (iter_nth_at _ _ _ _ _ Hl). split.
      * by eapply list_elem_of_lookup_2.
      * eexists. split; [exact Hj|]. split_and!; try done. by right.
    + eapply stands_for_mono; [by eapply (io_nodes _ _ _ _ Hw)|]. intros Hin. apply elem_of_app. by left.
Qed.

(** One of the identifiers is there already. *)
Lemma insert_known e c sq st :
  is_Some (m !! e) ∨ ¬ no_job c m → mruns (insert e c sq st) (λ b w', b = true ∧ w' = w) w.
Proof.
  intros H. unfold insert. apply mruns_bind, mruns_state.
  destruct (found (edgs (ic_tables w)) e) eqn:E1; [by apply mruns_ret|].
  destruct (found (condors (ic_tables w)) c) eqn:E2; [by apply mruns_ret|]. exfalso.
  apply (found_edg_none _ _ (io_tables _ _ _ _ Hw)) in E1.
  rewrite lookup_fmap, fmap_None in E1. destruct H as [[j Hj]|H]; [congruence|]. apply H, no_job_condor.
  by apply (found_condor_none _ _ (io_tables _ _ _ _ Hw)).
Qed.

(** Looking up. *)
Lemma condor_id_ok e :
  mruns (condor_id e) (λ c w', c = default "" (job_condor <$> m !! e) ∧ w' = w) w.
Proof.
  unfold condor_id. apply mruns_bind, mruns_state.
  rewrite (condor_of_ok _ _ (io_tables _ _ _ _ Hw)). apply mruns_ret. by rewrite lookup_fmap.
Qed.
Lemma edg_id_ok e j : m !! e = Some j → mruns (edg_id (job_condor j)) (λ x w', x = e ∧ w' = w) w.
Proof.
  intros He. unfold edg_id. apply mruns_bind, mruns_state.
  rewrite (edg_of_ok _ _ (io_tables _ _ _ _ Hw) e); [by apply mruns_ret|]. by rewrite lookup_fmap, He.
Qed.
Lemma edg_id_none c : no_job c m → mruns (edg_id c) (λ x w', x = "" ∧ w' = w) w.
Proof.
  intros Hc. unfold edg_id. apply mruns_bind, mruns_state.
  rewrite (edg_of_none _ _ (io_tables _ _ _ _ Hw)); [by apply mruns_ret|]. by apply no_job_condor.
Qed.

(** The place of a job in the tables and in the file. *)
Lemma job_place e j :
  m !! e = Some j →
  ∃ n p i k L1 d L2, nodes (ic_tables w) !! n = Some p ∧ pi_edgId p = e ∧ pi_condorId p = job_condor j
    ∧ found (edgs (ic_tables w)) e = Some (i, mkId n e)
    ∧ found (condors (ic_tables w)) (job_condor j) = Some (k, mkId n (job_condor j))
    ∧ L = L1 ++ (pos_of (pi_position p), d) :: L2 ∧ d = bi_data (pi_position p)
    ∧ bi_good (pi_position p) = true ∧ parse_job d = Some (e, j) ∧ mirrors p j.
Proof.
  intros He. pose proof (io_tables _ _ _ _ Hw) as HT.
  assert (Hm : (job_condor <$> m) !! e = Some (job_condor j)) by by rewrite lookup_fmap, He.
  destruct (proj1 (to_map _ _ HT _ _) Hm) as (n&p&Hn&Hpe&Hpc).
  destruct (found_complete _ _ (to_edgs _ _ HT) n e) as [i Hi].
  { rewrite <- Hpe. by apply edg_node. }
  destruct (found_complete _ _ (to_condors _ _ HT) n (job_condor j)) as [k Hk].
  { rewrite <- Hpc. by apply condor_node. }
  destruct (io_nodes _ _ _ _ Hw n p Hn) as (Hg&Hin&j'&Hj'&Hmi).
  destruct (io_jobs _ _ _ _ Hw) as (js&Hjs&Hnd&Hmap).
  assert (j' = j) as ->.
  { pose proof (file_jobs_in _ _ _ _ Hjs Hin Hj') as Hy. rewrite Hpe in Hy. rewrite <- Hmap in He.
    apply elem_of_list_to_map in Hy; [|done]. congruence. }
  apply list_elem_of_split in Hin as (L1&L2&HLs).
  exists n, p, i, k, L1, (bi_data (pi_position p)), L2. rewrite Hpe in Hj'. done.
Qed.

Lemma position_ok e j :
  m !! e = Some j →
  mruns (position_by_condor_id (job_condor j)) (λ x w', w' = w ∧ ∃ n p, x = Some n
    ∧ nodes (ic_tables w) !! n = Some p ∧ pi_edgId p = e) w.
Proof.
  intros He. destruct (job_place e j He) as (n&p&i&k&L1&d&L2&Hn&Hpe&_&_&Hk&_).
  unfold position_by_condor_id. apply mruns_bind, mruns_state, mruns_ret. split; [done|].
  exists n, p. rewrite Hk. done.
Qed.
Lemma position_none c :
  no_job c m → mruns (position_by_condor_id c) (λ x w', w' = w ∧ x = None) w.
Proof.
  intros Hc. unfold position_by_condor_id. apply mruns_bind, mruns_state, mruns_ret. by rewrite no_condor.
Qed.
End operations.
(** ** Removing and replacing *)

Section changes.
Context `{CA : ClassAds} {HA : JobAds}.

(** A pointer is read again with the same identifiers. *)
Lemma tables_replace t (m : gmap string string) n p q :
  tables_ok t m → nodes t !! n = Some p → pi_edgId q = pi_edgId p → pi_condorId q = pi_condorId p →
  tables_ok (set_nodes (<[n:=q]> (nodes t)) t) m.
Proof.
  intros HT Hn He Hc.
  assert (Hf : ∀ (g : PointerId → string), g q = g p → g <$> <[n:=q]> (nodes t) = g <$> nodes t).
  { intros g Hg. rewrite fmap_insert, Hg, insert_id; [done|]. by rewrite lookup_fmap, Hn. }
  assert (Hs : ∀ n', is_Some (<[n:=q]> (nodes t) !! n') ↔ is_Some (nodes t !! n')).
  { intros n'. rewrite lookup_insert_is_Some. destruct (decide (n = n')) as [<-|]; [|naive_solver].
    rewrite Hn. naive_solver. }
  split; cbn [nodes order fresh edgs condors set_nodes].
  - apply HT.
  - intros n'. by rewrite Hs, (to_order _ _ HT).
  - intros n'. rewrite Hs. apply HT.
  - rewrite Hf by done. apply HT.
  - rewrite Hf by done. apply HT.
  - intros e c. rewrite (to_map _ _ HT). split.
    + intros (n'&p'&Hn'&He'&Hc'). destruct (decide (n = n')) as [<-|Hne].
      * exists n, q. rewrite lookup_insert_eq. split_and!; [done|congruence|congruence].
      * exists n', p'. by rewrite lookup_insert_ne.
    + intros (n'&p'&[[<- <-]|[Hne Hn']]%lookup_insert_Some&He'&Hc'); [|eauto].
      exists n, p. split_and!; [done|congruence|congruence].
Qed.

Lemma extends_same a b c : extends a b → same_ad c b → extends a c.
Proof.
  intros [] H. split; rewrite ?(proj1 (H _)), ?(proj1 (proj2 (H _))); done.
Qed.

Lemma mruns_read_file {A} (m : E A) Q w a s' :
  m (ic_stream w) = Some (inr a, s') → Q a (set_stream s' w) → mruns (on_file m) Q w.
Proof. intros E H. apply mruns_list. by exists a, s'. Qed.

Lemma set_stream_same w : set_stream (ic_stream w) w = w.
Proof. by destruct w. Qed.

Context (w : IdContainer) (D : disk) (L : elems) (m : gmap string job).
Context (Hw : ids_ok w D L m).

Let HL : list_of D L.
Proof. destruct (io_sees _ _ _ _ Hw) as (o&_&Hwf&_). apply Hwf. Qed.
Let HT : tables_ok (ic_tables w) (job_condor <$> m) := io_tables _ _ _ _ Hw.

(** A node that is not the one of an element stands for another element. *)
Lemma other_element n n' p p' L1 L2 :
  L = L1 ++ (pos_of (pi_position p), bi_data (pi_position p)) :: L2 →
  nodes (ic_tables w) !! n = Some p → nodes (ic_tables w) !! n' = Some p' → n ≠ n' → stands_for (L1 ++ L2) p'.
Proof.
  intros HLs Hn Hn' Hne. pose proof (io_nodes _ _ _ _ Hw n' p' Hn') as Hst.
  eapply stands_for_mono; [exact Hst|]. rewrite HLs, !elem_of_app, elem_of_cons.
  intros [Hin|[Heq|Hin]]; [by left| |by right]. exfalso. apply Hne.
  destruct Hst as (_&_&j'&Hj'&_). destruct (io_nodes _ _ _ _ Hw n p Hn) as (_&_&j&Hj&_).
  injection Heq as _ Hd. rewrite Hd, Hj in Hj'. injection Hj' as He _. by eapply (edg_unique _ _ HT).
Qed.

Lemma removePointers_ok e j n i k :
  m !! e = Some j → room D 1 (file_end D) →
  found (edgs (ic_tables w)) e = Some (i, mkId n e) →
  found (condors (ic_tables w)) (job_condor j) = Some (k, mkId n (job_condor j)) →
  mruns (removePointers (i, mkId n e) (k, mkId n (job_condor j)))
    (λ b w', b = false ∧ has_jobs (delete e m) w') w.
Proof.
  intros He [Hc Hend] Hi Hk. destruct (job_place w D L m Hw e j He) as
    (n'&p&i'&k'&L1&d&L2&Hn&Hpe&Hpc&Hi'&Hk'&HLs&->&Hg&Hj&Hmi).
  assert (n' = n) as -> by congruence. clear Hi' Hk'.
  unfold removePointers. apply mruns_catch. cbn [id_node fst snd].
  apply mruns_bind, (mruns_node n p); [done|].
  pose proof (io_sees _ _ _ _ Hw) as Hs. rewrite HLs in Hs. apply mruns_bind, mruns_list.
  eapply runs_mono; [by eapply (runs_fl_erase D L1 _ _ L2)|]. intros x s (D'&_&Hs'&He'&Hla).
  destruct (found_some _ _ (to_edgs _ _ HT) _ _ _ Hi) as (Hx&_&_).
  destruct (found_some _ _ (to_condors _ _ HT) _ _ _ Hk) as (Hy&_&_).
  destruct (drop_ok _ _ HT n p i k _ _ Hn Hx Hy eq_refl eq_refl) as (t'&E&Ht').
  apply mruns_bind, mruns_state. cbn [ic_tables set_stream].
  unfold drop_job, erase_node in E. unfold erase_node. rewrite Hn in *. cbn [mbind option_bind] in *.
  injection E as <-. apply mruns_update. split; [done|].
  destruct (io_jobs _ _ _ _ Hw) as (js&Hjs&Hnd&Hm). rewrite HLs in Hjs.
  destruct (file_jobs_split _ _ _ _ Hjs) as (js1&y&js2&->&Hpy&Hjs'). cbn [snd] in Hpy.
  assert (y = (e, j)) as -> by congruence. destruct (jobs_delete js1 js2 e j Hnd) as [Hnd' Hm'].
  exists D', (L1 ++ L2). split.
  - exact Hs'.
  - rewrite fmap_delete, <- Hpe. exact Ht'.
  - exists (js1 ++ js2). by rewrite Hm', Hm.
  - intros n' p'. cbn [ic_tables set_tables set_condors set_edgs nodes].
    intros [Hne Hn']%lookup_delete_Some. by eapply other_element.
Qed.

Lemma remove_by_edg_id_ok e j :
  m !! e = Some j → room D 1 (file_end D) →
  mruns (remove_by_edg_id e) (λ b w', b = false ∧ has_jobs (delete e m) w') w.
Proof.
  intros He Hr. destruct (job_place w D L m Hw e j He) as (n&p&i&k&L1&d&L2&Hn&Hpe&Hpc&Hi&Hk&_).
  unfold remove_by_edg_id. apply mruns_bind, mruns_state. rewrite Hi. cbn [snd id_node].
  apply mruns_bind, (mruns_node n p); [done|]. rewrite Hpc, Hk. by eapply removePointers_ok.
Qed.
Lemma remove_by_condor_id_ok e j :
  m !! e = Some j → room D 1 (file_end D) →
  mruns (remove_by_condor_id (job_condor j)) (λ b w', b = false ∧ has_jobs (delete e m) w') w.
Proof.
  intros He Hr. destruct (job_place w D L m Hw e j He) as (n&p&i&k&L1&d&L2&Hn&Hpe&Hpc&Hi&Hk&_).
  unfold remove_by_condor_id. apply mruns_bind, mruns_state. rewrite Hk. cbn [snd id_node].
  apply mruns_bind, (mruns_node n p); [done|]. rewrite Hpe, Hi. by eapply removePointers_ok.
Qed.
Lemma remove_unknown e : m !! e = None → mruns (remove_by_edg_id e) (λ b w', b = true ∧ w' = w) w.
Proof.
  intros He. unfold remove_by_edg_id. apply mruns_bind, mruns_state. rewrite (no_edg w D L m Hw e He).
  by apply mruns_ret.
Qed.
Lemma remove_unknown_condor c : no_job c m → mruns (remove_by_condor_id c) (λ b w', b = true ∧ w' = w) w.
Proof.
  intros Hc. unfold remove_by_condor_id. apply mruns_bind, mruns_state. rewrite (no_condor w D L m Hw c Hc).
  by apply mruns_ret.
Qed.
End changes.
Section replacing.
Context `{CA : ClassAds} {HA : JobAds}.
Context (w : IdContainer) (D : disk) (L : elems) (m : gmap string job).
Context (Hw : ids_ok w D L m).

Let HT : tables_ok (ic_tables w) (job_condor <$> m) := io_tables _ _ _ _ Hw.

Lemma removed_end_le (M : elems) e : 391 ≤ e → removed_end M e ≤ e.
Proof. unfold removed_end. destruct M as [|? [|??]]; lia. Qed.

(** The ad that the node [n] stands for. *)
Definition ad_of_node (n : nat) : option ad :=
  p ← nodes (ic_tables w) !! n; of_string (T := ad) (bi_data (pi_position p)).

Lemma replace_ad_ok e j n p a (f : ad → ad) :
  m !! e = Some j → nodes (ic_tables w) !! n = Some p → pi_edgId p = e →
  of_string (T := ad) (bi_data (pi_position p)) = Some a → job_of a = j →
  extends a (f a) → room D 2 (file_end D + data_size (ad_text (f a))) →
  mruns (replace_ad n f) (λ b w', b = false ∧ has_jobs (<[e:=job_of (f a)]> m) w') w.
Proof.
  intros He Hn Hpe Ha <- Hex [Hc Hend].
  destruct (job_place w D L m Hw e _ He) as (n'&p'&i&k&L1&d&L2&Hn'&Hpe'&Hpc&_&_&HLs&->&Hg&Hj&Hmi).
  assert (n' = n) as -> by (eapply (edg_unique _ _ HT); [done|done|congruence]).
  assert (p' = p) as -> by congruence. clear Hn'.
  destruct (parse_job_some _ _ _ Hj) as (a'&Ha'&Hae&Hac&_). assert (a' = a) as -> by congruence.
  unfold replace_ad. apply mruns_bind, (mruns_node n p); [done|].
  apply mruns_bind, mruns_list. eapply runs_deref; [done|done|]. rewrite set_stream_same.
  pose proof (io_sees _ _ _ _ Hw) as Hs. rewrite HLs in Hs. apply mruns_bind, mruns_list.
  pose proof (data_size_rec (ad_text (f a))) as Hds.
  eapply runs_mono; [eapply (runs_fl_erase D L1 _ _ L2); [done|exact Hs|lia|lia]|].
  intros x s1 (D1&_&Hs1&He1&Hla1). apply mruns_bind, mruns_list. cbn [ic_stream set_stream].
  pose proof (removed_end_le (L1 ++ (pos_of (pi_position p), bi_data (pi_position p)) :: L2) _ (file_end_pos D)) as Hle.
  destruct Hla1 as [_ Hcnt1].
  eapply runs_mono; [apply (runs_append_ad D1 (L1 ++ L2) (f a)); [exact Hs1|split; lia]|].
  intros it s2 (D2&[Hs2 _]&->). set (x2 := (file_end D1, ad_text (f a))) in *.
  assert (Hl : (L1 ++ L2 ++ [x2]) !! length (L1 ++ L2) = Some x2)
    by (rewrite app_assoc; by apply list_lookup_middle). rewrite app_assoc in Hl.
  apply mruns_bind, mruns_list. unfold pointer_reset. apply runs_bind.
  destruct (parse_text (f a)) as (b&Hb&Hfb).
  eapply runs_deref; [done|exact Hb|]. apply runs_ret.
  pose proof (extends_same _ _ _ Hex Hfb) as Hexb.
  set (last := mkIter true true _ _). set (q := read_ad b last p).
  destruct (reread_mirrors a b last p e Hexb Hae ltac:(by rewrite Hac) Hpe Hmi) as (Hqe&Hqc&Hqm).
  fold q in Hqe, Hqc, Hqm. rewrite (same_job _ _ Hfb) in Hqm.
  apply mruns_bind, mruns_update, mruns_ret. split; [done|].
  assert (Hcond : job_condor (job_of (f a)) = job_condor (job_of a)).
  { unfold job_of. cbn [job_condor]. by rewrite (ex_condor _ _ Hex). }
  assert (Hjx : parse_job (ad_text (f a)) = Some (e, job_of (f a))).
  { apply parse_job_text; [by rewrite (ex_edg _ _ Hex)|by rewrite (ex_condor _ _ Hex), Hac]. }
  destruct (io_jobs _ _ _ _ Hw) as (js&Hjs&Hnd&Hm). rewrite HLs in Hjs.
  destruct (file_jobs_split _ _ _ _ Hjs) as (js1&y&js2&->&Hpy&Hjs'). cbn [snd] in Hpy.
  assert (y = (e, job_of a)) as -> by congruence. destruct (jobs_delete js1 js2 e _ Hnd) as [Hnd' Hm'].
  assert (Hen : e ∉ (js1 ++ js2).*1).
  { apply not_elem_of_list_to_map_2. rewrite Hm'. by apply lookup_delete_eq. }
  exists D2, ((L1 ++ L2) ++ [x2]). split.
  - exact Hs2.
  - assert (Hm2 : job_condor <$> <[e:=job_of (f a)]> m = job_condor <$> m).
    { rewrite fmap_insert, Hcond. apply insert_id. by rewrite lookup_fmap, He. }
    rewrite Hm2. eapply tables_replace; [exact HT|exact Hn|congruence|done].
  - exists ((js1 ++ js2) ++ [(e, job_of (f a))]). split_and!.
    + by apply file_jobs_snoc.
    + rewrite fmap_app. apply NoDup_app. split_and!; [done| |apply NoDup_singleton].
      intros e' He' ->%list_elem_of_singleton. done.
    + rewrite list_to_map_snoc by done. by rewrite Hm', Hm, insert_delete_eq.
  - intros n' p'. cbn [ic_tables set_tables set_nodes nodes set_stream].
    intros [[<- <-]|[Hne Hn']]%lookup_insert_Some.
    + split; [done|]. unfold q at 1 2, read_ad, last. cbn [pi_position bi_data].
      rewrite (iter_nth_at _ _ _ _ _ Hl). split; [by eapply list_elem_of_lookup_2|].
      exists (job_of (f a)). rewrite Hqe. done.
    + eapply stands_for_mono; [by eapply (other_element w D L m Hw n n' p p' L1 L2)|].
      intros Hin. apply elem_of_app. by left.
Qed.

(** The ads of the two operations. *)
Lemma node_ad e j :
  m !! e = Some j →
  ∃ n p a, nodes (ic_tables w) !! n = Some p ∧ pi_edgId p = e ∧ of_string (T := ad) (bi_data (pi_position p)) = Some a
    ∧ job_of a = j ∧ ad_of_node n = Some a ∧ mirrors p j.
Proof.
  intros He. destruct (job_place w D L m Hw e _ He) as (n&p&i&k&L1&d&L2&Hn&Hpe&Hpc&_&_&HLs&->&Hg&Hj&Hmi).
  destruct (parse_job_some _ _ _ Hj) as (a&Ha&Hae&Hac&Haj). exists n, p, a. split_and!; try done.
  unfold ad_of_node. rewrite Hn. exact Ha.
Qed.

Lemma update_pointer_ok e j n p sq st last :
  m !! e = Some j → nodes (ic_tables w) !! n = Some p → pi_edgId p = e →
  (∀ a, ad_of_node n = Some a → room D 2 (file_end D + data_size (ad_text (updated_ad sq st last a)))) →
  mruns (update_pointer n sq st last)
    (λ b w', b = false ∧ has_jobs (<[e:=with_update sq st last j]> m) w') w.
Proof.
  intros He Hn Hpe Hr. destruct (node_ad e j He) as (n'&p'&a&Hn'&Hpe'&Ha&Hj&Had&_).
  assert (n' = n) as -> by (eapply (edg_unique _ _ HT); [done|done|congruence]).
  assert (p' = p) as -> by congruence.
  unfold update_pointer. rewrite <- Hj, <- job_of_updated.
  eapply (replace_ad_ok e j n p a); [done|done|done|done|done|apply updated_extends|by apply Hr].
Qed.
Lemma increment_ok e j n p :
  m !! e = Some j → nodes (ic_tables w) !! n = Some p → pi_edgId p = e →
  (∀ a, ad_of_node n = Some a →
     room D 2 (file_end D + data_size (ad_text (Insert a pi_s_RetryCount (AInt (i32 (job_retries j + 1))))))) →
  mruns (increment_pointer_retry_count n) (λ b w', b = false ∧ has_jobs (<[e:=with_retry j]> m) w') w.
Proof.
  intros He Hn Hpe Hr. destruct (node_ad e j He) as (n'&p'&a&Hn'&Hpe'&Ha&Hj&Had&Hmi).
  assert (n' = n) as -> by (eapply (edg_unique _ _ HT); [done|done|congruence]).
  assert (p' = p) as -> by congruence.
  unfold increment_pointer_retry_count. apply mruns_bind, (mruns_node n p); [done|].
  destruct Hmi as (_&_&_&->&_). assert (Hre : with_retry j = job_of (Insert a pi_s_RetryCount (AInt (i32 (job_retries j + 1)))))
    by (rewrite <- Hj; symmetry; apply job_of_retried). rewrite Hre.
  eapply (replace_ad_ok e j n p a (λ a, Insert a pi_s_RetryCount (AInt (i32 (job_retries j + 1)))));
    [done|done|done|done|done|apply retried_extends|by apply Hr].
Qed.
End replacing.
(** ** Reading the file again *)

Section constructing.
Context `{CA : ClassAds} {HA : JobAds}.
Context (D : disk) (L : elems) (js : list (string * job)).
Context (Hjs : file_jobs L = Some js).

(** The pointer [p] has been made from the element [k]. *)
Definition made_from (k : nat) (p : PointerId) : Prop :=
  ∃ e j, js !! k = Some (e, j) ∧ pi_edgId p = e ∧ mirrors p j ∧ pi_position p = at_nth D L k.

Lemma element_job k p d : L !! k = Some (p, d) → ∃ e j, js !! k = Some (e, j) ∧ parse_job d = Some (e, j).
Proof.
  intros Hk. unfold file_jobs in Hjs. rewrite mapM_Some in Hjs.
  destruct (Forall2_lookup_l _ _ _ _ _ Hjs Hk) as ([e j]&Hy&E). by exists e, j.
Qed.

(** The container when the first [i] elements have been read. *)
Definition half_read (f : nat) (w0 : IdContainer) (i : nat) (w : IdContainer) : Prop :=
  ∃ ps, length ps = i ∧ (∀ k p, ps !! k = Some p → made_from k p)
    ∧ w = mkIds (ic_inserted w0) (pushed f ps) (ic_last w0) (ic_stream w).

Lemma read_element f w0 i q d w :
  L !! i = Some (q, d) → half_read f w0 i w → sees D L (ic_stream w) →
  mruns (p ← on_file (pointer_of (at_nth D L i)); update_tables (push_entries p))
    (λ _ w', half_read f w0 (S i) w' ∧ sees D L (ic_stream w')) w.
Proof.
  intros Hq (ps&Hl&Hps&Hw) Hs. destruct (element_job i q d Hq) as (e&j&Hjk&Hpj).
  destruct (parse_job_some _ _ _ Hpj) as (a&Ha&Hae&Hac&Haj).
  destruct (read_ad_mirrors a (at_nth D L i) e Hae) as [Hpe Hpm].
  set (p := read_ad a (at_nth D L i) blank_pointer) in *.
  apply mruns_bind, mruns_list. unfold pointer_of. apply runs_bind.
  rewrite (at_nth_some D L _ _ _ Hq). eapply (runs_deref a); [done|exact Ha|].
  rewrite <- (at_nth_some D L _ _ _ Hq). apply runs_ret. rewrite set_stream_same. fold p.
  apply mruns_update. split; [|exact Hs]. exists (ps ++ [p]). split_and!.
  - rewrite length_app, Hl. simpl. lia.
  - intros k p' [Hk|(Hk&Hp')]%lookup_app_Some; [by apply Hps|].
    apply list_lookup_singleton_Some in Hp' as [Hk0 <-]. assert (k = i) as -> by lia.
    exists e, j. rewrite <- Haj. rewrite Haj at 1. done.
  - rewrite Hw. unfold set_tables. cbn [ic_tables ic_inserted ic_last ic_stream]. by rewrite pushed_snoc.
Qed.

Lemma zip_jobs : zip js.*1 (job_condor <$> js.*2) = prod_map id job_condor <$> js.
Proof. clear Hjs. induction js as [|[e j] l IH]; [done|]. cbn. f_equal. exact IH. Qed.

Lemma onConstruct_ok f w :
  NoDup js.*1 → NoDup (job_condor <$> js.*2) → sees D L (ic_stream w) → ic_tables w = pushed f [] →
  mruns onConstruct (λ _ w', ids_ok w' D L (list_to_map js) ∧ ic_inserted w' = ic_inserted w) w.
Proof.
  intros Hnd Hndc Hs Ht. unfold onConstruct. apply mruns_bind. eapply mruns_mono.
  { apply (each_ok D L _ (half_read f w)).
    - intros i s' w' (ps&Hl&Hps&Hw'). exists ps. rewrite Hw'. done.
    - intros i q d w'. apply read_element.
    - exact Hs.
    - exists []. split_and!; [done|intros k p; by rewrite lookup_nil|]. rewrite <- Ht. by destruct w. }
  intros [] w3 [(ps&Hl&Hps&Hw3) Hs3]. cbn [file_of ids_owner] in Hs3.
  apply mruns_update. rewrite Hw3. split; [|done].
  assert (Hljs : length js = length L).
  { unfold file_jobs in Hjs. rewrite mapM_Some in Hjs. symmetry. by eapply Forall2_length. }
  assert (Hedg : pi_edgId <$> ps = js.*1).
  { apply list_eq_same_length with (length ps); [by rewrite !length_fmap, Hl, Hljs|by rewrite length_fmap|].
    intros k x y _ Hx Hy. rewrite list_lookup_fmap, fmap_Some in Hx. rewrite list_lookup_fmap, fmap_Some in Hy.
    destruct Hx as (p&Hp&->), Hy as ([e j]&Hy&->). destruct (Hps k p Hp) as (e'&j'&Hj'&He'&_). simpl. congruence. }
  assert (Hcon : pi_condorId <$> ps = job_condor <$> js.*2).
  { apply list_eq_same_length with (length ps); [by rewrite !length_fmap, Hl, Hljs|by rewrite length_fmap|].
    intros k x y _ Hx Hy. rewrite !list_lookup_fmap in Hy. rewrite list_lookup_fmap, fmap_Some in Hx.
    destruct Hx as (p&Hp&->). destruct (Hps k p Hp) as (e'&j'&Hj'&He'&Hm'&_). rewrite Hj' in Hy. simpl in Hy.
    injection Hy as <-. apply Hm'. }
  split.
  - exact Hs3.
  - pose proof (pushed_ok f ps ltac:(by rewrite Hedg) ltac:(by rewrite Hcon)) as Hok.
    rewrite Hedg, Hcon, zip_jobs, list_to_map_fmap in Hok. exact Hok.
  - by exists js.
  - intros n p Hn. cbn [ic_tables set_tables sort_tables set_edgs set_condors nodes pushed] in Hn.
    apply lookup_map_seq_Some in Hn as [_ Hn]. destruct (Hps _ _ Hn) as (e&j&Hj&<-&Hm&Hpos).
    pose proof (lookup_lt_Some _ _ _ Hn) as Hlt. rewrite Hl in Hlt.
    destruct (lookup_lt_is_Some_2 _ _ Hlt) as [[q d] Hq]. destruct (element_job _ _ _ Hq) as (e'&j'&Hj'&Hpj).
    rewrite Hj in Hj'. injection Hj' as <- <-. unfold stands_for. rewrite Hpos.
    rewrite (at_nth_pos _ _ _ _ _ Hq), (at_nth_some D L _ _ _ Hq). split_and!; [done| |by exists j].
    by eapply list_elem_of_lookup_2.
Qed.
End constructing.

(** ** The constructor, [compact] and [refresh] *)

Section whole.
Context `{CA : ClassAds} {HA : JobAds}.

(** The constructor on a file with the jobs [js]. *)
Lemma construct_ok w D L js :
  sees D L (ic_stream w) → file_jobs L = Some js → NoDup js.*1 → NoDup (job_condor <$> js.*2) →
  mruns construct (λ _ w', ids_ok w' D L (list_to_map js)) w.
Proof.
  intros Hs Hjs Hnd Hndc. unfold construct. apply mruns_bind, mruns_update.
  apply mruns_bind, mruns_list. cbn [ic_stream].
  eapply runs_mono; [by apply (runs_fs_empty D L)|]. intros b s1 [-> Hs1]. case_bool_decide as HL.
  - subst L. unfold file_jobs in Hjs. simpl in Hjs. injection Hjs as <-. apply mruns_ret. split.
    + exact Hs1.
    + exact no_tables_ok.
    + by exists [].
    + intros n p Hn. cbn in Hn. by rewrite lookup_empty in Hn.
  - eapply mruns_mono; [eapply (onConstruct_ok D L js Hjs 0); [done|done|exact Hs1|reflexivity]|].
    by intros [] w' [Hok _].
Qed.

Lemma file_jobs_data L : file_jobs L = mapM parse_job L.*2.
Proof.
  unfold file_jobs. induction L as [|x L IH]; [reflexivity|]. rewrite fmap_cons. simpl.
  unfold file_jobs in IH. rewrite IH. reflexivity.
Qed.

Lemma jobs_not_empty L js : file_jobs L = Some js → Forall (λ data, data ≠ []) L.*2.
Proof.
  rewrite file_jobs_data, mapM_Some. intros H. apply Forall_forall. intros d Hd ->.
  apply list_elem_of_lookup in Hd as [i Hi]. destruct (Forall2_lookup_l _ _ _ _ _ H Hi) as ([e j]&_&E).
  destruct (parse_job_some _ _ _ E) as (a&Ha&_). unfold of_string, ad_converter in Ha.
  change (String.string_of_list_ascii []) with "" in Ha. by rewrite job_nothing in Ha.
Qed.

Lemma jobs_condors (w : IdContainer) D L m js :
  ids_ok w D L m → NoDup js.*1 → list_to_map js = m → NoDup (job_condor <$> js.*2).
Proof.
  intros Hw Hnd Hm. apply NoDup_alt. intros i k c Hi Hk.
  rewrite !list_lookup_fmap in Hi, Hk. 
  destruct (js !! i) as [[e j]|] eqn:Hei; [|done]. destruct (js !! k) as [[e' j']|] eqn:Hek; [|done].
  simpl in Hi, Hk. injection Hi as <-. injection Hk as Hc.
  assert (He : (job_condor <$> m) !! e = Some (job_condor j)).
  { rewrite lookup_fmap, <- Hm. rewrite (elem_of_list_to_map_1 _ e j Hnd); [done|]. by eapply list_elem_of_lookup_2. }
  assert (He' : (job_condor <$> m) !! e' = Some (job_condor j)).
  { rewrite lookup_fmap, <- Hm, <- Hc. rewrite (elem_of_list_to_map_1 _ e' j' Hnd); [done|]. by eapply list_elem_of_lookup_2. }
  pose proof (jobs_inj _ _ (io_tables _ _ _ _ Hw) _ _ _ He He') as <-.
  eapply (NoDup_lookup js.*1); [done|rewrite list_lookup_fmap, Hei; done|rewrite list_lookup_fmap, Hek; done].
Qed.

Lemma pushed_nil t : mkTables ∅ [] (fresh t) [] [] = pushed (fresh t) [].
Proof. unfold pushed. cbn. by rewrite Nat.add_0_r. Qed.

Lemma compact_ok w D L m :
  ids_ok w D L m → file_end D < 2 ^ 63 →
  mruns compact (λ _ w', has_jobs m w' ∧ ic_inserted w' = 0) w.
Proof.
  intros Hw He. destruct (io_jobs _ _ _ _ Hw) as (js&Hjs&Hnd&Hm). pose proof (io_sees _ _ _ _ Hw) as Hs.
  pose proof Hs as (o&_&Hwf&_). pose proof (wf_list _ _ Hwf) as HL. pose proof (total_size_end _ _ HL) as Hsz.
  pose proof (list_of_length _ _ HL) as Hlen.
  unfold compact. apply mruns_bind, mruns_list.
  eapply runs_mono; [apply (runs_compact_data D L); [done|by eapply jobs_not_empty|lia|lia]|].
  intros [] s1 (D'&Hs1&He1). apply mruns_bind, mruns_update. apply mruns_bind.
  assert (Hjs' : file_jobs (placed 391 L.*2) = Some js) by by rewrite file_jobs_data, placed_snd, <- file_jobs_data.
  eapply mruns_mono.
  { eapply (onConstruct_ok D' (placed 391 L.*2) js Hjs'); [done|by eapply jobs_condors|exact Hs1|].
    apply pushed_nil. }
  intros [] w' [[Hs' HT' Hj' Hn'] _]. apply mruns_update. split; [|done]. exists D', (placed 391 L.*2).
  rewrite Hm in *. split; done.
Qed.

(** *** [refresh] *)

Lemma runs_modified D L s :
  sees D L s →
  runs fs_modified (λ b s', sees D L s' ∧ fc_initialized (fc s') = true
    ∧ b = fc_initialized (fc s) && stamp_gt (d_stamp D) (fc_stamp (fc s))
    ∧ b = stamp_gt (d_stamp D) (fc_stamp (fc s'))) s.
Proof.
  intros (o&H&Hwf&Hv&Hb). unfold fs_modified, modified. apply runs_bind, runs_gets, runs_bind.
  rewrite (h_fc _ _ _ H). destruct (fc_initialized o) eqn:Hi; cbn [negb andb].
  - apply runs_ret. eapply runs_mono; [apply runs_wp; [|exact Hb]|].
    { eapply (wp_checkStamp any _ _ _ H (λ b s', b = stamp_gt (d_stamp D) (fc_stamp o) ∧ holds s' D o)). by intros. }
    intros b s1 [[-> H1] Hb1]. rewrite (h_fc _ _ _ H1). split_and!; try done. by exists o.
  - eapply runs_mono; [apply runs_wp; [|exact Hb]|].
    { eapply (wp_initContainer_closed any (λ _ s', ∃ o', holds s' D o' ∧ synced o' D)); [done|apply Hwf|apply Hv|].
      intros s1 o1 H1 Hcu Hs. exists o1. split; [done|]. by apply current_synced. }
    intros [] s1 [(o1&H1&Hsy) Hb1]. eapply runs_mono; [apply runs_wp; [|exact Hb1]|].
    { eapply (wp_checkStamp any _ _ _ H1 (λ b s', b = stamp_gt (d_stamp D) (fc_stamp o1) ∧ holds s' D o1)). by intros. }
    intros b s2 [[-> H2] Hb2]. rewrite (h_fc _ _ _ H2), (sy_stamp _ _ Hsy), stamp_gt_irrefl.
    split_and!; try done; [|apply Hsy]. exists o1. split_and!; [done|done| |done].
    apply valid_synced; [done|apply Hwf].
Qed.

(** [sync] of a container that was modified brings it up to date and fails. *)
Lemma sync_fails D L s :
  sees D L s → fc_initialized (fc s) = true → stamp_gt (d_stamp D) (fc_stamp (fc s)) = true →
  ∃ s', fs_sync s = Some (inl container_modified, s') ∧ sees D L s' ∧ fc_initialized (fc s') = true
    ∧ fc_stamp (fc s') = d_stamp D.
Proof.
  intros (o&H&Hwf&Hv&Hb) Hi Hg. rewrite (h_fc _ _ _ H) in Hi, Hg.
  destruct (checked_ok s D o H (wf_status _ _ Hwf)) as (s1&E1&H1&Hb1). rewrite Hg in E1.
  destruct (runs_wp (syncData true) (λ _ s', unchanged D s') s1) as ([]&s2&E2&(o2&H2&Hsy)&Hb2).
  { destruct Hv as (Hc&Hst&_). eapply wp_syncData; [done|done|done|done|by apply stamp_gt_asym|].
    intros s' o' H' Hcu Hs'. exact (current_unchanged D _ _ H' Hcu (Hs' eq_refl)). }
  { by apply Hb1. }
  exists s2. split_and!.
  - unfold fs_sync, sync. rewrite (bind_ok (member fc_initialized) _ s true s)
      by (unfold member, gets; by rewrite (h_fc _ _ _ H), Hi).
    cbn [negb]. rewrite (bind_ok (attempt checked) _ s (inl container_modified) s1)
      by (unfold attempt; by rewrite E1).
    rewrite bool_decide_eq_true_2 by done.
    rewrite (bind_ok _ _ s1 tt s2); [done|].
    rewrite (bind_ok (attempt (syncData true)) _ s1 (inr tt) s2) by (unfold attempt; by rewrite E2). done.
  - exists o2. split_and!; [done|done| |done]. apply valid_synced; [done|apply Hwf].
  - rewrite (h_fc _ _ _ H2). apply Hsy.
  - rewrite (h_fc _ _ _ H2). apply Hsy.
Qed.

(** Whether the container of a process was modified since it looked at it. *)
Definition behind (D : disk) (w : IdContainer) : bool :=
  let o := fc (ic_stream w) in fc_initialized o && stamp_gt (d_stamp D) (fc_stamp o).

Lemma refresh_cases w D L :
  sees D L (ic_stream w) →
  ∃ w', refresh w = Some (if behind D w then inl container_modified else inr tt, w')
    ∧ ic_tables w' = ic_tables w ∧ sees D L (ic_stream w') ∧ behind D w' = false.
Proof.
  intros Hs. destruct (runs_modified D L _ Hs) as (b&s1&E1&Hs1&Hi1&Hb&Hb1). fold (behind D w) in Hb.
  unfold refresh. unfold mbind at 1, Own_bind at 1. unfold on_file at 1. cbn [file_of ids_owner]. rewrite E1. cbv beta iota.
  rewrite <- Hb. destruct b.
  - destruct (sync_fails D L s1 Hs1 Hi1 (eq_sym Hb1)) as (s2&E2&Hs2&Hi2&Hst2).
    exists (set_stream s2 w). unfold mbind, Own_bind, on_file. cbn [file_of with_file ids_owner ic_stream]. rewrite E2.
    split_and!; [done|done|done|]. unfold behind. cbn [ic_stream set_stream].
    by rewrite Hi2, Hst2, stamp_gt_irrefl.
  - exists (set_stream s1 w). split_and!; [done|done|done|]. unfold behind. cbn [ic_stream set_stream].
    by rewrite Hi1, <- Hb1.
Qed.
End whole.
