(* ===== verification/IdSpec.v ===== *)
(** * The repository of job identifiers as a map of jobs

    The requests that are made of the repository of IdContainer.v, the map of jobs they
    are requests to, and the theorem that the repository serves them as the map does. The
    ads of the witnesses are those of SmallAds.v, which keep the laws of [JobAds]. *)

From S2P Require Import Prelude.
From S2P Require Import WmWorld SmallAds.
From S2P Require Import Machine FileText FileContainer FileLayout FileRules FileList.
From S2P Require Import FileOps FileRemove FileCrash FileReading FileSafety FileWays FileSpec.
From S2P Require Import FileSequence FileOwner FileCompact IdTables IdContainer.

(** ** Requests *)

(** What the job controller and the log monitor ask of the repository. An update is made
    at the position of a job's identifier of Condor, when there is one. *)
Inductive request :=
  | Register (edgId condorId sequenceCode : string) (status : Z)
  | Update (condorId seqcode : string) (status laststatus : Z)
  | Retry (condorId : string)
  | Unregister (edgId : string)
  | Forget (condorId : string)
  | CondorOf (edgId : string)
  | EdgOf (condorId : string)
  | Compact
  | Reopen (now : Z).

Inductive reply := Refused (b : bool) | Name (x : string) | Done.

Section requests.
Context `{CA : ClassAds}.

Definition at_job (condorId : string) (f : nat → M bool) : M reply :=
  position ← position_by_condor_id condorId;
  match position with
  | Some n => b ← f n; mret (Refused b)
  | None => mret (Refused true)
  end.

Definition serve (x : request) : M reply :=
  match x with
  | Register e c sq st => b ← insert e c sq st; mret (Refused b)
  | Update c sq st last => at_job c (λ n, update_pointer n sq st last)
  | Retry c => at_job c increment_pointer_retry_count
  | Unregister e => b ← remove_by_edg_id e; mret (Refused b)
  | Forget c => b ← remove_by_condor_id c; mret (Refused b)
  | CondorOf e => c ← condor_id e; mret (Name c)
  | EdgOf c => e ← edg_id c; mret (Name e)
  | Compact => compact;; mret Done
  | Reopen now => update_state (reopened now);; construct;; mret Done
  end.

Definition serve_all : list request → M (list reply) := run_all serve.

(** The container of a process that has created the file. *)
Definition new_repository (now : Z) : option IdContainer :=
  match create (open_file [] now None) with
  | Some (inr _, s) => snd <$> construct (mkIds 0 no_tables None s)
  | _ => None
  end.

(** *** The specification *)

Definition find_condor (c : string) (m : gmap string job) : option (string * job) :=
  head (filter (λ x : string * job, job_condor x.2 = c) (map_to_list m)).

Definition change_job (c : string) (f : job → job) (m : gmap string job) : reply * gmap string job :=
  match find_condor c m with
  | Some (e, j) => (Refused false, <[e:=f j]> m)
  | None => (Refused true, m)
  end.

Definition spec_serve (x : request) (m : gmap string job) : reply * gmap string job :=
  match x with
  | Register e c sq st =>
      if decide (m !! e = None ∧ no_job c m)
      then (Refused false, <[e:=mkJob c sq st undefined_status 0]> m) else (Refused true, m)
  | Update c sq st last => change_job c (with_update sq st last) m
  | Retry c => change_job c with_retry m
  | Unregister e => if decide (is_Some (m !! e)) then (Refused false, delete e m) else (Refused true, m)
  | Forget c =>
      match find_condor c m with Some (e, _) => (Refused false, delete e m) | None => (Refused true, m) end
  | CondorOf e => (Name (default "" (job_condor <$> m !! e)), m)
  | EdgOf c => (Name (default "" (fst <$> find_condor c m)), m)
  | Compact | Reopen _ => (Done, m)
  end.

Definition spec_serve_all : list request → gmap string job → list reply * gmap string job := spec_all spec_serve.

(** *** What a request needs *)

(** The ad of the element of a job. *)
Definition job_ad (c : string) (w : IdContainer) : option ad :=
  x ← found (condors (ic_tables w)) c; ad_of_node w (id_node x.2).

(** The ad that a request writes. *)
Definition written_ad (x : request) (w : IdContainer) : option ad :=
  match x with
  | Register e c sq st => Some (new_ad e c sq st)
  | Update c sq st last => updated_ad sq st last <$> job_ad c w
  | Retry c => (λ a, Insert a pi_s_RetryCount (AInt (i32 (job_retries (job_of a) + 1)))) <$> job_ad c w
  | _ => None
  end.

(** Less than [2 ^ 16 - 2] changes within a second and a file of less than [2 ^ 63]
    characters; a process starts at a time that can be written. *)
Definition serveable (x : request) (w : IdContainer) : Prop :=
  fits 2 (from_option (data_size ∘ ad_text) 0 (written_ad x w)) w
  ∧ match x with Reopen now => off_ok now | _ => True end.

Definition all_serveable : list request → IdContainer → Prop := all_can serve serveable.
End requests.
(** ** The requests implement their specification *)

Lemma ids_reopened D L (w : IdContainer) now :
  sees D L (ic_stream w) → off_ok now → sees D L (ic_stream (reopened now w)).
Proof. exact (sees_reopened (W := IdContainer) D L w now). Qed.

Section refinement.
Context `{CA : ClassAds} {HA : JobAds}.

Lemma find_condor_some c m e j : find_condor c m = Some (e, j) → m !! e = Some j ∧ job_condor j = c.
Proof.
  unfold find_condor. intros H%head_Some_elem_of. apply list_elem_of_filter in H as [Hc He].
  by apply elem_of_map_to_list in He.
Qed.
Lemma find_condor_none c m : find_condor c m = None → no_job c m.
Proof.
  unfold find_condor. intros H%head_None e j He Hc.
  assert (Hin : (e, j) ∈ filter (λ x : string * job, job_condor x.2 = c) (map_to_list m)).
  { apply list_elem_of_filter. split; [done|]. by apply elem_of_map_to_list. }
  rewrite H in Hin. by apply not_elem_of_nil in Hin.
Qed.

Context (w : IdContainer) (m : gmap string job).

Lemma keeps_jobs {A} (f : M A) (P : A → Prop) :
  has_jobs m w → mruns f (λ a w', P a ∧ w' = w) w → mruns f (λ a w', P a ∧ has_jobs m w') w.
Proof. intros Hw H. eapply mruns_mono; [exact H|]. intros a w' [? ->]. done. Qed.

Lemma replies {A} (f : M A) (k : A → reply) r m' :
  mruns f (λ a w', k a = r ∧ has_jobs m' w') w →
  mruns (a ← f; mret (k a)) (λ a w', a = r ∧ has_jobs m' w') w.
Proof. intros H. apply mruns_bind. eapply mruns_mono; [exact H|]. intros a w' [<- Hm]. by apply mruns_ret. Qed.

Lemma serveable_room x D L :
  ids_ok w D L m → serveable x w →
  room D 2 (file_end D + from_option (data_size ∘ ad_text) 0 (written_ad x w)).
Proof. intros Hw [Hf _]. eapply (fits_room (W := IdContainer)); [apply (io_sees _ _ _ _ Hw)|exact Hf]. Qed.

Context (D : disk) (L : elems) (Hw : ids_ok w D L m).

Lemma has_these : has_jobs m w.
Proof. by exists D, L. Qed.

Lemma ad_of_job e j n p :
  m !! e = Some j → nodes (ic_tables w) !! n = Some p → pi_edgId p = e →
  ∃ a, ad_of_node w n = Some a ∧ job_of a = j ∧ job_ad (job_condor j) w = Some a.
Proof.
  intros He Hn Hpe. destruct (job_place w D L m Hw e j He) as (n'&p'&i&k&L1&d&L2&Hn'&Hpe'&_&_&Hk&_&->&_&Hj&_).
  assert (n' = n) as -> by (eapply (edg_unique _ _ (io_tables _ _ _ _ Hw)); [done|done|congruence]).
  assert (p' = p) as -> by congruence. destruct (parse_job_some _ _ _ Hj) as (a&Ha&_&_&Haj).
  exists a. unfold job_ad. rewrite Hk. cbn [mbind option_bind snd id_node]. unfold ad_of_node. rewrite Hn. done.
Qed.

(** A request at the position of a job. *)
Lemma at_job_ok c (f : nat → M bool) (g : job → job) :
  (∀ e j n p, m !! e = Some j → job_condor j = c → nodes (ic_tables w) !! n = Some p → pi_edgId p = e →
     mruns (f n) (λ b w', b = false ∧ has_jobs (<[e:=g j]> m) w') w) →
  mruns (at_job c f) (λ r w', r = (change_job c g m).1 ∧ has_jobs (change_job c g m).2 w') w.
Proof.
  intros Hf. unfold at_job, change_job. apply mruns_bind. destruct (find_condor c m) as [[e j]|] eqn:Hc.
  - apply find_condor_some in Hc as [He <-].
    eapply mruns_mono; [by apply (position_ok w D L m Hw)|]. intros x w' (->&n&p&->&Hn&Hpe).
    apply mruns_bind. eapply mruns_mono; [by eapply Hf|]. intros b w' [-> Hm]. by apply mruns_ret.
  - apply find_condor_none in Hc. eapply mruns_mono; [by apply (position_none w D L m Hw)|].
    intros x w' [-> ->]. apply mruns_ret. split; [done|apply has_these].
Qed.

Lemma serve_register e c sq st :
  serveable (Register e c sq st) w → let r := spec_serve (Register e c sq st) m in
  mruns (serve (Register e c sq st)) (λ a w', a = r.1 ∧ has_jobs r.2 w') w.
Proof.
  intros Hs r. apply serveable_room with (D := D) (L := L) in Hs; [|done]. apply replies.
  unfold r, spec_serve. case_decide as Hd.
  - destruct Hd. eapply mruns_mono; [apply (insert_ok w D L m Hw); [done|done|by eapply room_less]|].
    intros b w' [-> ?]. done.
  - eapply mruns_mono; [apply (insert_known w D L m Hw)|].
    + destruct (m !! e) eqn:E; [left; by eexists|right; intros H; by apply Hd].
    + intros b w' [-> ->]. split; [done|apply has_these].
Qed.

Lemma serve_update c sq st last :
  serveable (Update c sq st last) w → let r := spec_serve (Update c sq st last) m in
  mruns (serve (Update c sq st last)) (λ a w', a = r.1 ∧ has_jobs r.2 w') w.
Proof.
  intros Hs r. apply serveable_room with (D := D) (L := L) in Hs; [|done]. apply at_job_ok.
  intros e j n p He <- Hn Hpe. destruct (ad_of_job e j n p He Hn Hpe) as (a&Ha&_&Hja).
  apply (update_pointer_ok w D L m Hw e j n p); [done|done|done|]. intros a' Ha'.
  assert (a' = a) as -> by congruence. cbn [written_ad] in Hs. by rewrite Hja in Hs.
Qed.

Lemma serve_retry c :
  serveable (Retry c) w → let r := spec_serve (Retry c) m in
  mruns (serve (Retry c)) (λ a w', a = r.1 ∧ has_jobs r.2 w') w.
Proof.
  intros Hs r. apply serveable_room with (D := D) (L := L) in Hs; [|done]. apply at_job_ok.
  intros e j n p He <- Hn Hpe. destruct (ad_of_job e j n p He Hn Hpe) as (a&Ha&Hj&Hja).
  apply (increment_ok w D L m Hw e j n p); [done|done|done|]. intros a' Ha'.
  assert (a' = a) as -> by congruence. cbn [written_ad] in Hs. by rewrite Hja, <- Hj in *.
Qed.

Lemma serve_unregister e :
  serveable (Unregister e) w → let r := spec_serve (Unregister e) m in
  mruns (serve (Unregister e)) (λ a w', a = r.1 ∧ has_jobs r.2 w') w.
Proof.
  intros Hs r. apply serveable_room with (D := D) (L := L) in Hs; [|done]. apply replies.
  unfold r, spec_serve. case_decide as Hd.
  - destruct Hd as [j Hj]. eapply mruns_mono; [apply (remove_by_edg_id_ok w D L m Hw e j Hj)|].
    + eapply room_less; [exact Hs|lia|cbn; lia].
    + intros b w' [-> ?]. done.
  - eapply mruns_mono; [apply (remove_unknown w D L m Hw e)|].
    + by apply eq_None_not_Some.
    + intros b w' [-> ->]. split; [done|apply has_these].
Qed.

Lemma serve_forget c :
  serveable (Forget c) w → let r := spec_serve (Forget c) m in
  mruns (serve (Forget c)) (λ a w', a = r.1 ∧ has_jobs r.2 w') w.
Proof.
  intros Hs r. apply serveable_room with (D := D) (L := L) in Hs; [|done]. apply replies.
  unfold r, spec_serve. destruct (find_condor c m) as [[e j]|] eqn:Hc.
  - apply find_condor_some in Hc as [He <-].
    eapply mruns_mono; [apply (remove_by_condor_id_ok w D L m Hw e j He)|].
    + eapply room_less; [exact Hs|lia|cbn; lia].
    + intros b w' [-> ?]. done.
  - apply find_condor_none in Hc. eapply mruns_mono; [by apply (remove_unknown_condor w D L m Hw c)|].
    intros b w' [-> ->]. split; [done|apply has_these].
Qed.

Lemma serve_edg_of c :
  mruns (serve (EdgOf c)) (λ a w', a = (spec_serve (EdgOf c) m).1 ∧ has_jobs m w') w.
Proof.
  apply replies. cbn [spec_serve fst]. destruct (find_condor c m) as [[e j]|] eqn:Hc.
  - apply find_condor_some in Hc as [He <-]. eapply mruns_mono; [by apply (edg_id_ok w D L m Hw)|].
    intros x w' [-> ->]. split; [done|apply has_these].
  - apply find_condor_none in Hc. eapply mruns_mono; [by apply (edg_id_none w D L m Hw)|].
    intros x w' [-> ->]. split; [done|apply has_these].
Qed.

Lemma serve_reopen now :
  off_ok now → mruns (serve (Reopen now)) (λ a w', a = Done ∧ has_jobs m w') w.
Proof.
  intros Hn. apply mruns_bind, mruns_update, mruns_bind.
  destruct (io_jobs _ _ _ _ Hw) as (js&Hjs&Hnd&Hm). eapply mruns_mono.
  { apply (construct_ok (reopened now w) D L js); [|done|done|by eapply jobs_condors].
    exact (ids_reopened D L w now (io_sees _ _ _ _ Hw) Hn). }
  intros [] w' Hw'. apply mruns_ret. split; [done|]. exists D, L. by rewrite <- Hm.
Qed.

Lemma serve_ok x :
  serveable x w → mruns (serve x) (λ a w', a = (spec_serve x m).1 ∧ has_jobs (spec_serve x m).2 w') w.
Proof.
  intros Hs. destruct x.
  - by apply serve_register.
  - by apply serve_update.
  - by apply serve_retry.
  - by apply serve_unregister.
  - by apply serve_forget.
  - apply replies. eapply mruns_mono; [by apply (condor_id_ok w D L m Hw)|]. intros c w' [-> ->].
    split; [done|apply has_these].
  - by apply serve_edg_of.
  - apply mruns_bind. apply serveable_room with (D := D) (L := L) in Hs; [|done]. destruct Hs as [_ He].
    cbn [written_ad from_option] in He. eapply mruns_mono; [apply (compact_ok w D L m Hw); lia|].
    intros [] w' [Hm _]. by apply mruns_ret.
  - by apply serve_reopen, Hs.
Qed.
End refinement.
Section sequences.
Context `{CA : ClassAds} {HA : JobAds}.

Lemma serve_all_ok xs w m :
  has_jobs m w → all_serveable xs w →
  mruns (serve_all xs) (λ rs w', rs = (spec_serve_all xs m).1 ∧ has_jobs (spec_serve_all xs m).2 w') w.
Proof. apply (run_all_ok serve spec_serve serveable has_jobs). intros x w0 m0 (D&L&Hw). by apply (serve_ok w0 m0 D L). Qed.

Lemma new_repository_ok now : off_ok now → ∃ w, new_repository now = Some w ∧ has_jobs ∅ w.
Proof.
  intros Hn. destruct (create_ok now Hn) as (s&D&o&E&H&Hwf&Hsy&Hb). unfold new_repository. rewrite E.
  destruct (construct_ok (mkIds 0 no_tables None s) D [] []) as ([]&w&Ew&Hw).
  - exists o. split_and!; [done|done| |done]. apply valid_synced; [done|apply Hwf].
  - done.
  - apply NoDup_nil_2.
  - apply NoDup_nil_2.
  - exists w. rewrite Ew. split; [done|]. by exists D, [].
Qed.
End sequences.
(** ** The properties *)

Section properties.
Context `{CA : ClassAds} {HA : JobAds}.

(** C3. The repository that a process creates serves every sequence of requests that has
    room as the map of jobs does: it answers each as the specification, through updates
    of the ads in the file, removals, compactions and processes that open the file again,
    and at the end the ads in the file and the tables in memory are those of the map. *)
Theorem repository_serves_specification now xs :
  off_ok now → ∃ w, new_repository now = Some w ∧
    (all_serveable xs w → ∃ w', serve_all xs w = Some (inr (spec_serve_all xs ∅).1, w')
      ∧ has_jobs (spec_serve_all xs ∅).2 w').
Proof.
  intros Hn. destruct (new_repository_ok now Hn) as (w&E&Hw). exists w. split; [exact E|]. intros Hs.
  destruct (serve_all_ok xs w ∅ Hw Hs) as (rs&w'&Er&->&Hm). by exists w'.
Qed.

(** C16. The constructor of a process that opens a file with ads of different jobs indexes
    all of them: each is found by both of its identifiers, and its status, sequence code
    and counts are those of its ad. *)
Theorem constructor_indexes_file w D L js :
  sees D L (ic_stream w) → file_jobs L = Some js → NoDup js.*1 → NoDup (job_condor <$> js.*2) →
  ∃ w', construct w = Some (inr tt, w') ∧ ids_ok w' D L (list_to_map js)
    ∧ ∀ e j, (e, j) ∈ js →
        condor_of (ic_tables w') e = Some (job_condor j) ∧ edg_of (ic_tables w') (job_condor j) = Some e.
Proof.
  intros Hs Hjs Hnd Hndc. destruct (construct_ok w D L js Hs Hjs Hnd Hndc) as ([]&w'&E&Hw).
  exists w'. split_and!; [exact E|exact Hw|]. intros e j Hin.
  assert (Hm : (job_condor <$> list_to_map js : gmap string string) !! e = Some (job_condor j))
    by (rewrite lookup_fmap, (elem_of_list_to_map_1 _ _ _ Hnd Hin); done).
  rewrite (condor_of_ok _ _ (io_tables _ _ _ _ Hw)), Hm. split; [done|].
  by apply (edg_of_ok _ _ (io_tables _ _ _ _ Hw)).
Qed.

(** C36. When another process has changed the file, [refresh] throws [container_modified]
    before it has built the tables again; the copies of the container are then in step,
    so that the next [refresh] finds nothing to do and the tables stay as they were. *)
Theorem refresh_never_rebuilds w D L :
  sees D L (ic_stream w) → behind D w = true →
  ∃ w1 w2, refresh w = Some (inl container_modified, w1) ∧ refresh w1 = Some (inr tt, w2)
    ∧ ic_tables w1 = ic_tables w ∧ ic_tables w2 = ic_tables w ∧ behind D w2 = false.
Proof.
  intros Hs Hb. destruct (refresh_cases w D L Hs) as (w1&E1&Ht1&Hs1&Hb1). rewrite Hb in E1.
  destruct (refresh_cases w1 D L Hs1) as (w2&E2&Ht2&_&Hb2). rewrite Hb1 in E2.
  exists w1, w2. split_and!; [exact E1|exact E2|exact Ht1|congruence|exact Hb2].
Qed.
End properties.
(** ** The laws of the small ClassAd library *)

Lemma small_jobs : JobAds (CA := small_ads).
Proof.
  split; cbn [WmWorld.ad_empty Insert evaluate parse_classad unparse_classad small_ads].
  - done.
  - intros a n v _ _. apply small_insert_same.
  - intros a n v e _ _ _ Hne. by apply small_insert_other.
  - intros a. exists a. split; [|done]. rewrite of_digits_digits. simpl. apply decode_encode.
  - intros a. apply digits_nonempty.
  - done.
Qed.

(** *** A run *)

Definition small_requests : list request :=
  [Register "e1" "11" "A" 1; Register "e2" "22" "B" 1; Register "e3" "11" "C" 1;
   Update "22" "D" 2 undefined_status; Retry "11"; CondorOf "e2"; Compact; Reopen (sample_time + 5);
   EdgOf "11"; Unregister "e1"; Forget "22"; EdgOf "22"].

Definition small_start : IdContainer :=
  default (mkIds 0 no_tables None (open_file [] 0 None)) (new_repository (CA := small_ads) sample_time).


(** *** Their witnesses *)

Lemma small_start_new : new_repository (CA := small_ads) sample_time = Some small_start.
Proof. vm_compute. reflexivity. Qed.

Lemma repository_serves_specification_witness :
  off_ok sample_time ∧ ∃ w', serve_all (CA := small_ads) small_requests small_start
      = Some (inr (spec_serve_all small_requests ∅).1, w')
    ∧ has_jobs (CA := small_ads) (spec_serve_all small_requests ∅).2 w'.
Proof.
  split; [done|].
  destruct (repository_serves_specification (HA := small_jobs) sample_time small_requests) as (w&E&H); [done|].
  assert (Hw : w = small_start) by (rewrite small_start_new in E; congruence). subst w.
  apply H. vm_compute. repeat split; done.
Defined.

(** The process [s] sees what another one has written since. *)
Lemma sees_written D L s s' t :
  sees D L s' → stamp_of (s_file s') = Some t → stamp_gt t (fc_stamp (fc s)) = true →
  fi_current (fc_limits (fc s)) = 0 → stamp_ok (fc_stamp (fc s)) → off_ok (s_now s) → s_budget s = None →
  sees D L (on_written (s_file s') s) ∧ d_stamp D = t.
Proof.
  intros (o&H&Hwf&_) Ht Hg Hc Hst Hn Hb. rewrite (h_file _ _ _ H), stamp_of_layout in Ht by apply Hwf.
  injection Ht as Ht. split; [|done]. exists (fc s). rewrite (h_file _ _ _ H).
  split_and!; [|exact Hwf| |exact Hb].
  - constructor; [done|apply Hwf|done|done|done|done].
  - split_and!; [done|done|]. intros _. right. by rewrite Ht.
Qed.

Lemma sample_time_ok : off_ok sample_time.
Proof. done. Qed.

(** The repository with a job, and the file to which another process adds one. *)
Definition small_one : IdContainer :=
  match serve (CA := small_ads) (Register "e1" "11" "A" 1) small_start with Some (_, w) => w | None => small_start end.
Definition two_registered : list request :=
  [Register "e1" "11" "A" 1; Reopen sample_time; Register "e2" "22" "B" 2].
Definition small_other : IdContainer :=
  match serve_all (CA := small_ads) two_registered small_start with Some (_, w) => w | None => small_start end.

Lemma small_served : has_jobs (CA := small_ads) (spec_serve_all two_registered ∅).2 small_other.
Proof.
  destruct (new_repository_ok (CA := small_ads) sample_time) as (w&E&Hw); [done|].
  assert (w = small_start) as -> by (rewrite small_start_new in E; congruence).
  destruct (serve_all_ok (CA := small_ads) (HA := small_jobs) two_registered small_start ∅ Hw) as (rs&w'&E'&_&Hm).
  - vm_compute. repeat split; done.
  - unfold small_other. rewrite E'. exact Hm.
Qed.

Lemma constructor_indexes_file_witness :
  let w := reopened sample_time small_other in
  ∃ D L js w', construct (CA := small_ads) w = Some (inr tt, w')
    ∧ ids_ok (CA := small_ads) w' D L (list_to_map js) ∧ length js = 2%nat
    ∧ ∀ e j, (e, j) ∈ js →
        condor_of (ic_tables w') e = Some (job_condor j) ∧ edg_of (ic_tables w') (job_condor j) = Some e.
Proof.
  intros w. destruct small_served as (D&L&Hw). destruct (io_jobs _ _ _ _ Hw) as (js&Hjs&Hnd&Hm).
  destruct (constructor_indexes_file (CA := small_ads) w D L js) as (w'&E&Hw'&H).
  - unfold w. exact (ids_reopened D L small_other sample_time (io_sees _ _ _ _ Hw) sample_time_ok).
  - exact Hjs.
  - exact Hnd.
  - exact (jobs_condors _ _ _ _ _ Hw Hnd Hm).
  - exists D, L, js, w'. split_and!; [exact E|exact Hw'| |exact H].
    assert (Hs : size (list_to_map js : gmap string job) = 2%nat) by (rewrite Hm; vm_compute; reflexivity).
    rewrite <- Hs, <- (length_map_to_list (list_to_map js : gmap string job)).
    by rewrite (Permutation_length (map_to_list_to_map _ Hnd)).
Defined.

Lemma refresh_never_rebuilds_witness :
  let w := set_stream (on_written (s_file (ic_stream small_other)) (ic_stream small_one)) small_one in
  ∃ D w1 w2, refresh (CA := small_ads) w = Some (inl container_modified, w1)
    ∧ refresh (CA := small_ads) w1 = Some (inr tt, w2)
    ∧ ic_tables w1 = ic_tables w ∧ ic_tables w2 = ic_tables w ∧ behind D w2 = false.
Proof.
  intros w. destruct small_served as (D&L&Hw).
  destruct (sees_written D L (ic_stream small_one) (ic_stream small_other) (mkStamp sample_time 3)) as [Hs Ht].
  - exact (io_sees _ _ _ _ Hw).
  - vm_compute. reflexivity.
  - vm_compute. reflexivity.
  - vm_compute. reflexivity.
  - vm_compute. repeat split; congruence.
  - vm_compute. repeat split; congruence.
  - vm_compute. reflexivity.
  - destruct (refresh_never_rebuilds (CA := small_ads) w D L Hs) as (w1&w2&H).
    + unfold behind. rewrite Ht. vm_compute. reflexivity.
    + exists D, w1, w2. exact H.
Defined.
