(* ===== verification/Aborted.v ===== *)
(** * The list of aborted jobs (AbortedContainer.cpp)

    The log monitor of src/org.glite.wms.jobsubmission/src/logmonitor keeps the
    identifiers of the jobs that Condor has aborted in a list in a file, with a map in
    memory from each of them to its element. The container is a set of identifiers. *)

From S2P Require Import Prelude Machine FileText FileContainer FileLayout FileRules FileList.
From S2P Require Import FileOps FileRemove FileCrash FileReading FileSafety FileWays FileSpec.
From S2P Require Import FileSequence FileOwner FileCompact.

(** ** Operations *)

Record AbortedContainer := mkAborted {
  ac_inserted : Z;
  ac_filelist : St;
  ac_pointers : gmap bytes iter
}.

#[export] Instance aborted_owner : Owner AbortedContainer := {|
  file_of := ac_filelist;
  with_file s w := mkAborted (ac_inserted w) s (ac_pointers w);
  file_of_with _ _ := eq_refl;
  with_file_of w := match w with mkAborted _ _ _ => eq_refl end
|}.

Definition set_inserted (n : Z) (w : AbortedContainer) : AbortedContainer :=
  mkAborted n (ac_filelist w) (ac_pointers w).
Definition set_pointers (p : gmap bytes iter) (w : AbortedContainer) : AbortedContainer :=
  mkAborted (ac_inserted w) (ac_filelist w) p.

(** [insert] of a [std::map] keeps the value of a key that is there. *)
Definition map_insert (k : bytes) (it : iter) (m : gmap bytes iter) : gmap bytes iter :=
  match m !! k with Some _ => m | None => <[k:=it]> m end.

Definition aborted_onConstruct : Own AbortedContainer unit :=
  on_file fs_compact;;
  each (λ flIt,
    data ← on_file (deref flIt);
    update_state (λ w, set_pointers (map_insert data flIt (ac_pointers w)) w)).

(** The constructor, on a file that the process has opened. *)
Definition aborted_construct : Own AbortedContainer unit :=
  update_state (λ w, mkAborted 0 (ac_filelist w) ∅);;
  aborted_onConstruct.

Definition aborted_insert (condorId : bytes) : Own AbortedContainer bool :=
  p ← state ac_pointers;
  match p !! condorId with
  | Some _ => mret false
  | None =>
      catch (
        last ← on_file (append condorId);
        update_state (λ w, set_pointers (map_insert condorId last (ac_pointers w)) w);;
        update_state (λ w, set_inserted (ac_inserted w + 1) w))
  end.

Definition aborted_remove (condorId : bytes) : Own AbortedContainer bool :=
  p ← state ac_pointers;
  match p !! condorId with
  | None => mret true
  | Some it =>
      catch (
        _ ← on_file (fl_erase it);
        update_state (λ w, set_pointers (delete condorId (ac_pointers w)) w))
  end.

Definition aborted_search (condorId : bytes) : Own AbortedContainer bool :=
  p ← state ac_pointers; mret (bool_decide (is_Some (p !! condorId))).

Definition aborted_compact : Own AbortedContainer unit :=
  update_state (set_pointers ∅);;
  aborted_onConstruct;;
  update_state (set_inserted 0).
(** ** The set of identifiers *)

(** The list in the file has the identifiers of [X], each once, and the map has an
    iterator on each of them. *)
Record aborted_ok (w : AbortedContainer) (D : disk) (L : elems) (X : gset bytes) : Prop := {
  ab_sees : sees D L (ac_filelist w);
  ab_nodup : NoDup L.*2;
  ab_data x : x ∈ X ↔ x ∈ L.*2;
  ab_nonempty : [] ∉ X;
  ab_keys x : x ∈ X ↔ is_Some (ac_pointers w !! x);
  ab_places x it : ac_pointers w !! x = Some it → (pos_of it, x) ∈ L
}.

Definition has_ids (X : gset bytes) (w : AbortedContainer) : Prop := ∃ D L, aborted_ok w D L X.

Section loop.
Context (D : disk) (L : elems) (HL : NoDup L.*2).

(** The map when the first [i] elements have been read. *)
Definition half_mapped (n : Z) (i : nat) (w : AbortedContainer) : Prop :=
  ac_inserted w = n
  ∧ (∀ x, is_Some (ac_pointers w !! x) ↔ x ∈ (take i L).*2)
  ∧ (∀ x it, ac_pointers w !! x = Some it → (pos_of it, x) ∈ L).

Lemma map_element n i q d w :
  L !! i = Some (q, d) → half_mapped n i w → sees D L (ac_filelist w) →
  mruns (data ← on_file (deref (at_nth D L i));
         update_state (λ w, set_pointers (map_insert data (at_nth D L i) (ac_pointers w)) w))
    (λ _ w', half_mapped n (S i) w' ∧ sees D L (ac_filelist w')) w.
Proof.
  intros Hq (Hn&Hk&Hp) Hs. apply mruns_bind, mruns_file. rewrite (at_nth_some D L _ _ _ Hq).
  eapply (runs_deref (T := bytes) d); [done|done|]. rewrite <- (at_nth_some D L _ _ _ Hq), with_file_of.
  apply mruns_update. split; [|exact Hs].
  assert (Hnew : ac_pointers w !! d = None).
  { apply eq_None_not_Some. rewrite Hk. intros Hin. rewrite fmap_take in Hin.
    apply elem_of_take in Hin as (j&Hj&Hji). eapply Nat.lt_neq; [exact Hji|].
    eapply NoDup_lookup; [exact HL|exact Hj|]. by rewrite list_lookup_fmap, Hq. }
  unfold map_insert. rewrite Hnew. split_and!; [exact Hn|..]; cbn [ac_pointers set_pointers].
  - intros x. rewrite (take_S_r _ _ _ Hq), fmap_app, elem_of_app, <- Hk, lookup_insert_is_Some.
    cbn. rewrite list_elem_of_singleton. destruct (decide (d = x)) as [->|Hne]; [naive_solver|naive_solver].
  - intros x it [[<- <-]|[_ Hx]]%lookup_insert_Some; [|by apply Hp].
    rewrite (at_nth_pos _ _ _ _ _ Hq). by eapply list_elem_of_lookup_2.
Qed.

End loop.

Lemma aborted_onConstruct_ok w D L X :
  sees D L (ac_filelist w) → NoDup L.*2 → (∀ x, x ∈ X ↔ x ∈ L.*2) → [] ∉ X → file_end D < 2 ^ 63 →
  ac_pointers w = ∅ →
  mruns aborted_onConstruct (λ _ w', has_ids X w' ∧ ac_inserted w' = ac_inserted w) w.
Proof.
  intros Hs Hnd HX Hne He Hp. pose proof Hs as (o&_&Hwf&_).
  pose proof (total_size_end _ _ (wf_list _ _ Hwf)) as Hsz. pose proof (list_of_length _ _ (wf_list _ _ Hwf)) as Hlen.
  unfold aborted_onConstruct. apply mruns_bind, mruns_file.
  eapply runs_mono; [apply (runs_compact_data D L); [exact Hs| |lia|lia]|].
  { apply Forall_forall. intros d Hd ->. by apply Hne, HX. }
  intros [] s1 (D'&Hs1&_). set (L' := placed 391 L.*2) in *.
  assert (HL' : L'.*2 = L.*2) by apply placed_snd.
  eapply mruns_mono.
  { apply (each_ok D' L' _ (half_mapped L' (ac_inserted w))).
    - intros i s w' H. exact H.
    - intros i q d w'. apply map_element. by rewrite HL'.
    - exact Hs1.
    - split_and!; [done|..]; cbn [ac_pointers with_file aborted_owner]; rewrite Hp.
      + intros x. rewrite lookup_empty. split; [by intros [??]|by intros ?%elem_of_nil].
      + intros x it. by rewrite lookup_empty. }
  intros [] w' [(Hn&Hk&Hpl) Hs']. split; [|exact Hn]. exists D', L'. split.
  - exact Hs'.
  - by rewrite HL'.
  - by rewrite HL'.
  - exact Hne.
  - intros x. by rewrite HX, <- HL', Hk, firstn_all.
  - exact Hpl.
Qed.
(** *** What the operations do to it *)

Section operations.
Context (w : AbortedContainer) (D : disk) (L : elems) (X : gset bytes) (Hw : aborted_ok w D L X).

Lemma no_id x : x ∉ X → ac_pointers w !! x = None.
Proof. intros Hx. apply eq_None_not_Some. by rewrite <- (ab_keys _ _ _ _ Hw). Qed.

Lemma aborted_insert_new x :
  x ∉ X → x ≠ [] → room D 1 (file_end D + data_size x) →
  mruns (aborted_insert x) (λ b w', b = false ∧ has_ids ({[x]} ∪ X) w') w.
Proof.
  intros Hx Hne Hr. unfold aborted_insert. apply mruns_bind, mruns_state. rewrite (no_id x Hx).
  apply mruns_catch, mruns_bind, mruns_file. eapply runs_mono.
  { by apply (runs_append D L x x); [apply (ab_sees _ _ _ _ Hw)|..]. }
  intros it s (D'&[Hs _]&->). set (e := file_end D) in *. set (n := e + data_size x) in *.
  set (L' := L ++ [(e, x)]) in *. apply mruns_bind, mruns_update, mruns_update. split; [done|]. exists D', L'.
  assert (HL' : L'.*2 = L.*2 ++ [x]) by (unfold L'; by rewrite fmap_app).
  assert (Hl : L' !! length L = Some (e, x)) by (unfold L'; by apply list_lookup_middle).
  assert (Hp : ac_pointers w !! x = None) by by apply no_id.
  split; cbn [ac_filelist ac_pointers set_inserted set_pointers with_file aborted_owner].
  - exact Hs.
  - rewrite HL'. apply NoDup_app. split_and!; [apply (ab_nodup _ _ _ _ Hw)| |apply NoDup_singleton].
    intros y Hy ->%list_elem_of_singleton. by apply Hx, (ab_data _ _ _ _ Hw).
  - intros y. rewrite HL', elem_of_app, list_elem_of_singleton, elem_of_union, elem_of_singleton.
    rewrite (ab_data _ _ _ _ Hw). tauto.
  - rewrite elem_of_union, elem_of_singleton. intros [H|H]; [by apply Hne|by apply (ab_nonempty _ _ _ _ Hw)].
  - intros y. unfold map_insert. rewrite Hp, lookup_insert_is_Some, elem_of_union, elem_of_singleton.
    rewrite (ab_keys _ _ _ _ Hw). destruct (decide (x = y)); naive_solver.
  - intros y it. unfold map_insert. rewrite Hp. intros [[<- <-]|[_ Hy]]%lookup_insert_Some.
    + unfold pos_of. cbn [bi_iterator]. rewrite (iter_nth_current _ _ _ _ _ Hl). by eapply list_elem_of_lookup_2.
    + apply elem_of_app. left. by apply (ab_places _ _ _ _ Hw).
Qed.

Lemma aborted_insert_known x : x ∈ X → mruns (aborted_insert x) (λ b w', b = false ∧ w' = w) w.
Proof.
  intros Hx. unfold aborted_insert. apply mruns_bind, mruns_state.
  apply (ab_keys _ _ _ _ Hw) in Hx as [it ->]. by apply mruns_ret.
Qed.

Lemma aborted_remove_known x :
  x ∈ X → room D 1 (file_end D) → mruns (aborted_remove x) (λ b w', b = false ∧ has_ids (X ∖ {[x]}) w') w.
Proof.
  intros Hx [Hc He]. unfold aborted_remove. apply mruns_bind, mruns_state.
  destruct (proj1 (ab_keys _ _ _ _ Hw x) Hx) as [it Hit]. rewrite Hit. apply mruns_catch.
  pose proof (ab_places _ _ _ _ Hw x it Hit) as Hin. apply list_elem_of_split in Hin as (L1&L2&HLs).
  pose proof (ab_sees _ _ _ _ Hw) as Hs. rewrite HLs in Hs. apply mruns_bind, mruns_file.
  eapply runs_mono; [by eapply (runs_fl_erase D L1 (pos_of it) x L2)|]. intros y s (D'&_&Hs'&_).
  apply mruns_update. split; [done|]. exists D', (L1 ++ L2).
  pose proof (ab_nodup _ _ _ _ Hw) as Hnd. rewrite HLs, fmap_app, fmap_cons in Hnd. cbn [snd] in Hnd.
  assert (Hnin : x ∉ L1.*2 ++ L2.*2 ∧ NoDup (L1.*2 ++ L2.*2)).
  { rewrite <- Permutation_middle in Hnd. by apply NoDup_cons in Hnd. }
  assert (Hdata : ∀ y, y ∈ X ↔ y = x ∨ y ∈ L1.*2 ++ L2.*2).
  { intros z. rewrite (ab_data _ _ _ _ Hw), HLs, fmap_app, fmap_cons, !elem_of_app, elem_of_cons. cbn [snd]. tauto. }
  destruct Hnin as [Hnin Hnd'].
  split; cbn [ac_filelist ac_pointers set_pointers with_file aborted_owner].
  - exact Hs'.
  - by rewrite fmap_app.
  - intros z. rewrite elem_of_difference, elem_of_singleton, Hdata, fmap_app. split; [tauto|].
    intros Hz. split; [by right|]. by intros ->.
  - rewrite elem_of_difference. intros [H _]. by apply (ab_nonempty _ _ _ _ Hw).
  - intros z. rewrite lookup_delete_is_Some, elem_of_difference, elem_of_singleton, (ab_keys _ _ _ _ Hw).
    naive_solver.
  - intros z it' [Hne Hz]%lookup_delete_Some. apply (ab_places _ _ _ _ Hw) in Hz.
    rewrite HLs, elem_of_app, elem_of_cons in Hz. apply elem_of_app.
    destruct Hz as [Hz|[Hz|Hz]]; [by left|congruence|by right].
Qed.

Lemma aborted_remove_unknown x : x ∉ X → mruns (aborted_remove x) (λ b w', b = true ∧ w' = w) w.
Proof.
  intros Hx. unfold aborted_remove. apply mruns_bind, mruns_state. rewrite (no_id x Hx). by apply mruns_ret.
Qed.

Lemma aborted_search_ok x :
  mruns (aborted_search x) (λ b w', b = bool_decide (x ∈ X) ∧ w' = w) w.
Proof.
  unfold aborted_search. apply mruns_bind, mruns_state, mruns_ret. split; [|done].
  apply bool_decide_ext. symmetry. apply (ab_keys _ _ _ _ Hw).
Qed.

Lemma aborted_compact_ok : file_end D < 2 ^ 63 → mruns aborted_compact (λ _ w', has_ids X w') w.
Proof.
  intros He. unfold aborted_compact. apply mruns_bind, mruns_update, mruns_bind.
  eapply mruns_mono.
  { apply (aborted_onConstruct_ok (set_pointers ∅ w) D L X); [apply Hw|apply Hw|apply Hw|apply Hw|exact He|done]. }
  intros [] w' [(D'&L'&H) _]. apply mruns_update. exists D', L'. destruct H. by constructor.
Qed.

Lemma aborted_reopen_ok now :
  off_ok now → file_end D < 2 ^ 63 →
  mruns aborted_construct (λ _ w', has_ids X w') (reopened now w).
Proof.
  intros Hn He. unfold aborted_construct. apply mruns_bind, mruns_update.
  eapply mruns_mono; [apply (aborted_onConstruct_ok _ D L X); [|apply Hw|apply Hw|apply Hw|exact He|done]|].
  - exact (sees_reopened (W := AbortedContainer) D L w now (ab_sees _ _ _ _ Hw) Hn).
  - by intros [] w' [H _].
Qed.
End operations.
(** ** Sequences of requests *)

Inductive aborted_request :=
  | AddId (condorId : bytes)
  | DropId (condorId : bytes)
  | HasId (condorId : bytes)
  | CompactIds
  | ReopenIds (now : Z).

Definition aborted_serve (x : aborted_request) : Own AbortedContainer bool :=
  match x with
  | AddId c => aborted_insert c
  | DropId c => aborted_remove c
  | HasId c => aborted_search c
  | CompactIds => aborted_compact;; mret false
  | ReopenIds now => update_state (reopened now);; aborted_construct;; mret false
  end.

(** What the set answers and becomes; [true] is an error of [insert] and [remove]. *)
Definition aborted_spec (x : aborted_request) (X : gset bytes) : bool * gset bytes :=
  match x with
  | AddId c => (false, {[c]} ∪ X)
  | DropId c => (bool_decide (c ∉ X), X ∖ {[c]})
  | HasId c => (bool_decide (c ∈ X), X)
  | CompactIds | ReopenIds _ => (false, X)
  end.

Definition aborted_can (x : aborted_request) (w : AbortedContainer) : Prop :=
  fits 1 match x with AddId c => data_size c | _ => 0 end w
  ∧ match x with AddId c => c ≠ [] | ReopenIds now => off_ok now | _ => True end.

Lemma aborted_serve_ok x w X :
  has_ids X w → aborted_can x w →
  mruns (aborted_serve x) (λ b w', b = (aborted_spec x X).1 ∧ has_ids (aborted_spec x X).2 w') w.
Proof.
  intros (D&L&Hw) [Hf Hx]. pose proof (fits_room (W := AbortedContainer) _ _ w D L (ab_sees _ _ _ _ Hw) Hf) as Hr.
  assert (Hthese : has_ids X w) by (by exists D, L). clear Hf.
  destruct x as [c|c|c| |now]; cbn [aborted_serve aborted_spec fst snd].
  - destruct (decide (c ∈ X)) as [Hc|Hc]; [|by eapply aborted_insert_new].
    replace ({[c]} ∪ X) with X by set_solver.
    eapply mruns_mono; [by eapply aborted_insert_known|]. by intros b w' [-> ->].
  - destruct (decide (c ∈ X)) as [Hc|Hc].
    + rewrite bool_decide_eq_false_2 by (intros H; by apply H).
      eapply aborted_remove_known; [exact Hw|exact Hc|]. eapply room_less; [exact Hr|lia|lia].
    + rewrite bool_decide_eq_true_2 by done. replace (X ∖ {[c]}) with X by set_solver.
      eapply mruns_mono; [by eapply aborted_remove_unknown|]. by intros b w' [-> ->].
  - eapply mruns_mono; [by eapply aborted_search_ok|]. by intros b w' [-> ->].
  - apply mruns_bind. eapply mruns_mono; [eapply aborted_compact_ok; [exact Hw|destruct Hr; lia]|].
    intros [] w' H. by apply mruns_ret.
  - apply mruns_bind, mruns_update, mruns_bind.
    eapply mruns_mono; [eapply aborted_reopen_ok; [exact Hw|exact Hx|destruct Hr; lia]|].
    intros [] w' H. by apply mruns_ret.
Qed.

(** The container of a process that has created the file. *)
Definition new_aborted (now : Z) : option AbortedContainer :=
  match create (open_file [] now None) with
  | Some (inr _, s) => snd <$> aborted_construct (mkAborted 0 s ∅)
  | _ => None
  end.

Lemma new_aborted_ok now : off_ok now → ∃ w, new_aborted now = Some w ∧ has_ids ∅ w.
Proof.
  intros Hn. destruct (create_ok now Hn) as (s&D&o&E&H&Hwf&Hsy&Hb). unfold new_aborted. rewrite E.
  assert (Hs : sees D [] s).
  { exists o. split_and!; [done|done| |done]. apply valid_synced; [done|apply Hwf]. }
  assert (Hend : file_end D < 2 ^ 63).
  { pose proof (lo_empty _ _ (wf_list _ _ Hwf) eq_refl) as Hr. pose proof (lo_tail _ _ (wf_list _ _ Hwf)) as Ht.
    unfold file_end. rewrite Hr, Ht. simpl. lia. }
  destruct (aborted_onConstruct_ok (mkAborted 0 s ∅) D [] ∅) as ([]&w&Ew&Hw&_).
  - exact Hs.
  - apply NoDup_nil_2.
  - intros x. cbn. split; [by intros ?%elem_of_empty|by intros ?%elem_of_nil].
  - by intros ?%elem_of_empty.
  - exact Hend.
  - done.
  - exists w. unfold aborted_construct. split; [|exact Hw].
    change (snd <$> aborted_onConstruct (mkAborted 0 s ∅) = Some w). by rewrite Ew.
Qed.

(** C21. The list of aborted jobs that a process creates serves every sequence of requests
    that has room as a set of identifiers does, through compactions and processes that
    open the file again; and at the end the file and the map in memory have the set. *)
Theorem aborted_container_refines_set now xs :
  off_ok now → let r := spec_all aborted_spec xs ∅ in ∃ w, new_aborted now = Some w ∧
    (all_can aborted_serve aborted_can xs w →
     ∃ w', run_all aborted_serve xs w = Some (inr r.1, w') ∧ has_ids r.2 w').
Proof.
  intros Hn r. destruct (new_aborted_ok now Hn) as (w&E&Hw). exists w. split; [exact E|]. intros Hs.
  destruct (run_all_ok aborted_serve aborted_spec aborted_can has_ids) with (xs := xs) (w := w) (m := ∅ : gset bytes)
    as (rs&w'&Er&->&Hm); [|exact Hw|exact Hs|by exists w'].
  intros x w1 X1. apply aborted_serve_ok.
Qed.

(** *** Its witness *)

Definition aborted_sample : list aborted_request :=
  [AddId a1; AddId b1; AddId a1; HasId b1; DropId a1; DropId a1; CompactIds; ReopenIds (sample_time + 3);
   HasId a1; HasId b1].
Definition aborted_start : AbortedContainer :=
  default (mkAborted 0 (open_file [] 0 None) ∅) (new_aborted sample_time).

Lemma aborted_start_new : new_aborted sample_time = Some aborted_start.
Proof. vm_compute. reflexivity. Qed.

Lemma aborted_container_refines_set_witness :
  off_ok sample_time ∧ ∃ w', run_all aborted_serve aborted_sample aborted_start
      = Some (inr [false; false; false; true; false; true; false; false; false; true], w')
    ∧ has_ids {[b1]} w'.
Proof.
  split; [done|].
  destruct (aborted_container_refines_set sample_time aborted_sample) as (w&E&H); [done|].
  assert (Hw : w = aborted_start) by (rewrite aborted_start_new in E; congruence). subst w.
  assert (Hc : all_can aborted_serve aborted_can aborted_sample aborted_start).
  { vm_compute. repeat split; done. }
  destruct (H Hc) as (w'&Er&Hw'). exists w'. split; [exact Er|].
  assert (Hx : (spec_all aborted_spec aborted_sample (∅ : gset bytes)).2 = {[b1]}) by (vm_compute; reflexivity).
  by rewrite <- Hx.
Defined.
