(* ===== verification/SizeFile.v ===== *)
(** * The position files of the log monitor (SizeFile.cpp)

    Beside each log of Condor the log monitor keeps a file with a header and one line per
    update: the position in the log up to which the events have been processed, the number
    of jobs that are pending, and whether the last one was submitted. The object has the
    current field and closes the file between two operations. Numbers and lines are read
    and written by the streams of FileText.v and FileContainer.v; the rules are those of
    FileOwner.v.

    The name of the file ([createDotFile]) is a parameter that does not matter here: the
    file exists and can be opened, as after [create_file]. A number with a sign is not
    read; none is written. *)

From S2P Require Import Prelude Machine.
From S2P Require Import FileText FileContainer FileLayout FileRules FileList.
From S2P Require Import FileOps FileRemove FileCrash FileReading FileSafety FileWays FileSpec.
From S2P Require Import FileSequence FileOwner.

(** ** Fields and headers *)

(** [SizeField] *)
Record SizeField := mkField {
  fd_good : bool;
  fd_last : bool;
  fd_pending : Z;
  fd_position : Z
}.

Definition new_field : SizeField := mkField false false 0 0.
Definition reset_field (position pending : Z) (last : bool) : SizeField := mkField true last pending position.

Definition sf_s_long : Z := Eval cbv in integer_size 8 10.
Definition sf_s_unsigned : Z := Eval cbv in integer_size 4 10.
Definition dimension : Z := sf_s_long + sf_s_unsigned + 5.

Definition max_long : Z := 2 ^ 63 - 1.
Definition max_unsigned : Z := 2 ^ 32 - 1.

(** [operator<<]; a position in a file is not negative. *)
Definition write_field (f : SizeField) : bytes :=
  print_num 10 (Z.to_nat sf_s_long) (fd_position f) ++ blank
    :: print_num 10 (Z.to_nat sf_s_unsigned) (fd_pending f) ++ blank
    :: (if fd_last f then "1" else "0")%char :: blank :: ["|"%char].

(** [operator>>]: a boolean is a number that is 0 or 1. *)
Definition read_field (sf : SizeField) : E SizeField :=
  position ← extract 10 max_long 0;
  pending ← extract 10 max_unsigned 0;
  last ← extract 10 1 0;
  c ← extract_char "000"%char;
  is_ok ← good;
  let ok := is_ok && bool_decide (c = "|"%char) in
  mret (if ok then mkField ok (negb (last =? 0)) pending position
        else mkField ok (fd_last sf) (fd_pending sf) (fd_position sf)).

(** [SizeHeader] *)
Record SizeHeader := mkHeader { sh_good : bool; sh_header : bytes }.

Definition dots : bytes := ["."; "."; "."]%char.
Definition reset_header (header : bytes) : SizeHeader := mkHeader (negb (bool_decide (header = []))) header.
Definition sh_size (h : SizeHeader) : Z := Z.of_nat (length (sh_header h)) + 4.
Definition write_header (h : SizeHeader) : bytes := sh_header h ++ newline :: dots.

(** [operator>>]: the lines before the one of three dots, without the last newline; with
    no line before it [erase] is not defined. *)
Fixpoint read_header (fuel : nat) (header : bytes) : E SizeHeader :=
  match fuel with
  | O => undefined
  | S fuel =>
      buffer ← getline;
      let last := bool_decide (buffer = dots) in
      is_ok ← good;
      if last : bool then
        match header with
        | [] => undefined
        | _ => mret (mkHeader true (take (length header - 1) header))
        end
      else if is_ok : bool then read_header fuel (header ++ line buffer)
      else mret (mkHeader false [])
  end.

Definition text_of (s : string) : bytes := String.list_ascii_of_string s.
Definition sf_s_defaultHeader : bytes :=
  line (text_of "Condor log size file, DAG enabled.") ++
  line (text_of "This header is made to contain the dagId.") ++
  text_of "In this moment the DAG Id is unknown.".

(** ** The file *)

Record SizeFile := mkSize {
  sf_good : bool;
  sf_stashed : bool;
  sf_stash_pos : Z;
  sf_header : SizeHeader;
  sf_current : SizeField;
  sf_stream : St
}.

#[export] Instance size_owner : Owner SizeFile := {|
  file_of := sf_stream;
  with_file s w := mkSize (sf_good w) (sf_stashed w) (sf_stash_pos w) (sf_header w) (sf_current w) s;
  file_of_with _ _ := eq_refl;
  with_file_of w := match w with mkSize _ _ _ _ _ _ => eq_refl end
|}.

Definition set_good (b : bool) : Own SizeFile unit :=
  update_state (λ w, mkSize b (sf_stashed w) (sf_stash_pos w) (sf_header w) (sf_current w) (sf_stream w)).
Definition set_stashed (b : bool) : Own SizeFile unit :=
  update_state (λ w, mkSize (sf_good w) b (sf_stash_pos w) (sf_header w) (sf_current w) (sf_stream w)).
Definition set_stash_pos (p : Z) : Own SizeFile unit :=
  update_state (λ w, mkSize (sf_good w) (sf_stashed w) p (sf_header w) (sf_current w) (sf_stream w)).
Definition set_header (h : SizeHeader) : Own SizeFile unit :=
  update_state (λ w, mkSize (sf_good w) (sf_stashed w) (sf_stash_pos w) h (sf_current w) (sf_stream w)).
Definition set_current (f : SizeField) : Own SizeFile unit :=
  update_state (λ w, mkSize (sf_good w) (sf_stashed w) (sf_stash_pos w) (sf_header w) f (sf_stream w)).

(** [open] of the stream, for reading and writing and for writing alone, and [clear]. *)
Definition stream_open : E unit := modify (λ s, on_stream (s_file s) 0 false false false s).
Definition stream_truncate : E unit := _ ← ftruncate 0; stream_open.
Definition stream_clear : E unit := modify (λ s, on_stream (s_file s) (s_pos s) false false false s).

Definition stream_good : Own SizeFile bool := on_file good.

Definition newSizeFile : Own SizeFile unit :=
  stashed ← state sf_stashed;
  (if stashed : bool then set_stashed false else on_file stream_clear);;
  on_file stream_truncate;;
  h ← state sf_header;
  (if sh_good h then mret tt else set_header (reset_header sf_s_defaultHeader));;
  h ← state sf_header;
  f ← state sf_current;
  on_file (put (line (write_header h)));;
  on_file (put (line (write_field f)));;
  on_file stream_open;;
  on_file seek_end.

Definition stashFile : Own SizeFile unit :=
  stashed ← state sf_stashed;
  if stashed : bool then mret tt
  else p ← on_file tell; set_stash_pos p;; set_stashed true.

Definition reopenFile : Own SizeFile unit :=
  stashed ← state sf_stashed;
  if stashed : bool then
    on_file stream_open;;
    p ← state sf_stash_pos;
    is_ok ← stream_good;
    (if is_ok : bool then on_file (seek p) else mret tt);;
    is_ok ← stream_good;
    set_good is_ok;;
    set_stashed false
  else mret tt.

Definition readField (position : Z) : Own SizeFile SizeField :=
  reopenFile;;
  on_file (seek position);;
  on_file (read_field new_field).

Definition readLastField : Own SizeFile SizeField :=
  reopenFile;;
  size ← on_file (gets file_size);
  on_file (seek (size - (dimension + 1)));;
  on_file (read_field new_field).

(** [>>] on an empty string. *)
Definition extract_word : E bytes :=
  is_ok ← sentry;
  if is_ok : bool then
    r ← gets rest;
    let '(w, r) := span is_space r in
    let '(d, r) := span (λ c, negb (is_space c)) r in
    advance (length w + length d) (bool_decide (r = [])) (bool_decide (d = []));;
    mret d
  else mret [].

(** When the numbers cannot be read and the end of the file was met the code goes on with
    variables that have no values. *)
Definition checkOldFormat : Own SizeFile bool :=
  reopenFile;;
  on_file stream_clear;;
  on_file (seek 0);;
  position ← on_file (extract 10 max_long 0);
  pending ← on_file (extract 10 max_unsigned 0);
  last ← on_file (extract 10 1 0);
  failed ← on_file (gets s_fail);
  is_ok ← stream_good;
  dagid ← (if is_ok : bool then on_file extract_word else mret []);
  is_ok ← stream_good;
  eof ← on_file (gets s_eof);
  if is_ok || eof then
    if failed : bool then crash
    else
      on_file stream_clear;;
      (if bool_decide (dagid = []) then mret tt
       else set_header (reset_header (line (text_of "Restored from old file") ++ text_of "DagId = " ++ dagid
              ++ newline :: text_of "###########")));;
      set_current (reset_field position pending (negb (last =? 0)));;
      mret true
  else mret false.

(** The search for a good field from the last one backwards; whether there is one. *)
Fixpoint find_field (field_number : nat) : Own SizeFile bool :=
  match field_number with
  | O => mret false
  | S field_number' =>
      h ← state sf_header;
      f ← readField (sh_size h + Z.of_nat field_number * (dimension + 1));
      set_current f;;
      is_ok ← stream_good;
      if fd_good f && is_ok then
        position ← on_file tell;
        on_file (seek position);;
        mret true
      else
        (if is_ok : bool then mret tt else on_file stream_clear);;
        find_field field_number'
  end.

Definition start_again : Own SizeFile unit := set_current (reset_field 0 0 false);; newSizeFile.

Definition recover_fields (filesize : Z) : Own SizeFile unit :=
  is_ok ← stream_good;
  (if is_ok : bool then mret tt else on_file stream_clear);;
  h ← state sf_header;
  found ← find_field (Z.to_nat ((filesize - sh_size h) `quot` (dimension + 1)));
  if found : bool then mret tt else start_again.

(** The fields after a good header. *)
Definition read_fields (filesize : Z) : Own SizeFile unit :=
  f ← readLastField;
  set_current f;;
  is_ok ← stream_good;
  if fd_good f && is_ok then on_file seek_end else recover_fields filesize.

Definition read_contents (filesize : Z) : Own SizeFile unit :=
  on_file (seek 0);;
  fuel ← rounds;
  h ← on_file (read_header fuel []);
  set_header h;;
  eof ← on_file (gets s_eof);
  if sh_good h && negb eof then read_fields filesize
  else if eof : bool then
    old ← checkOldFormat;
    if old : bool then newSizeFile else start_again
  else set_good false.

(** [openFile] on a file that has a name and exists. *)
Definition openFile (create : bool) : Own SizeFile unit :=
  (if create then
     set_header (reset_header sf_s_defaultHeader);;
     set_current (reset_field 0 0 false);;
     newSizeFile;;
     is_ok ← stream_good;
     if is_ok : bool then mret tt else set_good false
   else
     on_file stream_open;;
     is_ok ← stream_good;
     if is_ok : bool then
       on_file seek_end;;
       filesize ← on_file tell;
       if negb (filesize =? 0) then read_contents filesize
       else
         set_header (reset_header sf_s_defaultHeader);;
         set_current (reset_field 0 0 false);;
         on_file (seek 0);;
         h ← state sf_header;
         f ← state sf_current;
         on_file (put (line (write_header h)));;
         on_file (put (line (write_field f)))
     else set_good false);;
  set_stashed false.

(** The constructor, by a process that has just started. *)
Definition size_construct (create : bool) : Own SizeFile unit :=
  update_state (λ w, mkSize true false 0 (mkHeader false []) new_field (sf_stream w));;
  openFile create;;
  stashFile.

(** [open] with a name: the header and the field of the object are kept. *)
Definition size_open (create : bool) : Own SizeFile unit :=
  set_good true;;
  on_file stream_clear;;
  openFile create;;
  stashFile.

Definition dumpField : Own SizeFile unit :=
  reopenFile;;
  is_ok ← stream_good;
  f ← state sf_current;
  (if is_ok : bool then on_file (put (line (write_field f))) else mret tt);;
  is_ok ← stream_good;
  set_good is_ok.

(** What [update_position], [update_pending], [update_last] and [update] do with the
    change [f] of the current field. *)
Definition update_field (f : SizeField → SizeField) : Own SizeFile unit :=
  reopenFile;;
  is_ok ← state sf_good;
  (if is_ok : bool then
     c ← state sf_current;
     set_current (f c);;
     dumpField
   else mret tt);;
  stashFile.

Definition moved_field (p : Z) (f : SizeField) : SizeField := mkField (fd_good f) (fd_last f) (fd_pending f) p.
Definition with_pending (n : Z) (f : SizeField) : SizeField := mkField (fd_good f) (fd_last f) n (fd_position f).
Definition with_last (b : bool) (f : SizeField) : SizeField := mkField (fd_good f) b (fd_pending f) (fd_position f).

Definition update_position (p : Z) : Own SizeFile unit := update_field (moved_field p).
Definition update_pending (n : Z) : Own SizeFile unit := update_field (with_pending n).
Definition update_last (b : bool) : Own SizeFile unit := update_field (with_last b).
Definition size_update (p n : Z) (b : bool) : Own SizeFile unit := update_field (λ _, reset_field p n b).

(** The others change the field in memory alone. *)
Definition change_field (f : SizeField → SizeField) : Own SizeFile unit :=
  is_ok ← state sf_good;
  if is_ok : bool then c ← state sf_current; set_current (f c) else mret tt.

Definition incremented (f : SizeField) : SizeField := with_pending (u32 (fd_pending f + 1)) f.
Definition decremented (f : SizeField) : SizeField :=
  if 0 <? fd_pending f then with_pending (fd_pending f - 1) f else f.
Definition completed_field (f : SizeField) : SizeField := with_last true (with_pending 0 f).

Definition set_last (b : bool) : Own SizeFile unit := change_field (with_last b).
Definition set_completed : Own SizeFile unit := change_field completed_field.
Definition increment_pending : Own SizeFile unit := change_field incremented.
Definition decrement_pending : Own SizeFile unit := change_field decremented.

Definition size_completed (w : SizeFile) : bool :=
  sf_good w && fd_last (sf_current w) && (fd_pending (sf_current w) =? 0).

Definition hashes (n : nat) : bytes := replicate n "#"%char.

Definition update_header (newheader : bytes) : Own SizeFile unit :=
  reopenFile;;
  is_ok ← state sf_good;
  (if is_ok : bool then
     h ← state sf_header;
     if (length (sh_header h) <=? length newheader)%nat then
       let space := (length newheader - length (sh_header h))%nat in
       let buffer :=
         if (1 <? space)%nat then newheader ++ newline :: hashes (space - 1)
         else if (space =? 1)%nat then newheader ++ [" "%char] else newheader in
       set_header (reset_header buffer);;
       h ← state sf_header;
       is_ok ← stream_good;
       if is_ok : bool then
         on_file (seek 0);;
         on_file (put (write_header h));;
         on_file seek_end;;
         is_ok ← stream_good;
         set_good is_ok
       else set_good false
     else
       set_header (reset_header newheader);;
       on_file (seek 0);;
       is_ok ← on_file (ftruncate 0);
       if is_ok : bool then
         h ← state sf_header;
         f ← state sf_current;
         on_file (put (line (write_header h)));;
         on_file (put (line (write_field f)));;
         is_ok ← stream_good;
         set_good is_ok
       else set_good false
   else mret tt);;
  stashFile.

(** ** The stream on a file *)

(** A stream on the file [f] without a failed device; it is good and at [p]; it has failed. *)
Record intact (f : bytes) (s : St) : Prop := {
  in_file : s_file s = f;
  in_bad : s_bad s = false;
  in_budget : s_budget s = None;
  in_pos : 0 ≤ s_pos s
}.
Definition at_pos (f : bytes) (p : Z) (s : St) : Prop := intact f s ∧ is_good s = true ∧ s_pos s = p.
Definition spoiled (f : bytes) (s : St) : Prop := intact f s ∧ is_good s = false.

Section stream.
Context (f : bytes).

Lemma intact_set_pos s p : intact f s → 0 ≤ p → intact f (set_pos p s).
Proof. intros [] Hp. by constructor. Qed.
Lemma intact_advance s n eof fail : intact f s →
  intact f (on_stream (s_file s) (s_pos s + Z.of_nat n) (s_eof s || eof) (s_fail s || fail) (s_bad s) s).
Proof. intros []. constructor; cbn; [done..|lia]. Qed.
Lemma at_pos_pos s p : at_pos f p s → 0 ≤ p.
Proof. intros (Hi&_&<-). apply Hi. Qed.
Lemma at_pos_set s p q : at_pos f p s → 0 ≤ q → at_pos f q (set_pos q s).
Proof. intros (Hi&Hg&_) Hq. split_and!; [by apply intact_set_pos|done|done]. Qed.

Lemma runs_ok {A} (m : E A) (Q : A → St → Prop) s a s' : m s = Some (inr a, s') → Q a s' → runs m Q s.
Proof. intros E H. by exists a, s'. Qed.

Lemma runs_seek s p q : at_pos f p s → 0 ≤ q → runs (seek q) (λ _ s', at_pos f q s') s.
Proof.
  intros Hs Hq. eapply runs_ok; [apply seek_ok; [apply Hs|done]|]. by eapply at_pos_set.
Qed.
Lemma runs_seek_end s p : at_pos f p s → runs seek_end (λ _ s', at_pos f (Z.of_nat (length f)) s') s.
Proof.
  intros Hs. unfold seek_end. apply runs_bind, runs_gets. unfold file_size. rewrite (in_file _ _ (proj1 Hs)).
  by eapply runs_seek; [|lia].
Qed.
Lemma runs_tell s p : at_pos f p s → runs tell (λ x s', x = p ∧ s' = s) s.
Proof. intros (Hi&Hg&<-). by eapply runs_ok; [apply tell_ok|]. Qed.
Lemma runs_good s p : at_pos f p s → runs good (λ b s', b = true ∧ s' = s) s.
Proof. intros (_&Hg&_). by eapply runs_ok; [apply good_ok|]. Qed.
Lemma runs_stream_open s : intact f s → runs stream_open (λ _ s', at_pos f 0 s') s.
Proof. intros [<- ? ? ?]. by eexists tt, _. Qed.
Lemma runs_clear s : intact f s → runs stream_clear (λ _ s', at_pos f (s_pos s') s') s.
Proof. intros [<- ? ? ?]. by eexists tt, _. Qed.
Lemma runs_put s p l :
  at_pos f p s → runs (put l) (λ _ s', at_pos (overwrite f (Z.to_nat p) l) (p + Z.of_nat (length l)) s') s.
Proof.
  intros ([Hf Hb Hn Hp]&Hg&<-). unfold put. apply runs_bind. eapply runs_ok; [by apply sentry_ok|]. cbn beta iota.
  eapply runs_ok; [unfold flush; rewrite Hn, Hf; reflexivity|]. split_and!; [|done|done]. constructor; cbn; [done..|lia].
Qed.

(** *** Numbers and fields *)

Lemma cursor_at s p : at_pos f p s → cursor s (drop (Z.to_nat p) f).
Proof. intros (Hi&Hg&<-). constructor; [done|apply Hi|]. unfold rest. by rewrite (in_file _ _ Hi). Qed.

Lemma runs_extract s p w d r top v :
  at_pos f p s → drop (Z.to_nat p) f = w ++ d ++ r → Forall (λ c, is_space c = true) w → numeral 10 d →
  r ≠ [] → ends_numeral 10 r → number 10 d ≤ top →
  runs (extract 10 top v) (λ x s', x = number 10 d ∧ ∃ q, at_pos f q s' ∧ drop (Z.to_nat q) f = r) s.
Proof.
  intros Hs Hr Hw Hd Hne He Ht. pose proof (cursor_at s p Hs) as Hc. rewrite Hr in Hc.
  eapply runs_ok; [by eapply (extract_ok s w d r)|]. split; [done|].
  set (q := s_pos s + Z.of_nat (length w + length d)).
  assert (Hc2 : cursor (set_pos q s) r).
  { eapply (cursor_advance s (w ++ d)); [by rewrite <- app_assoc|by rewrite length_app]. }
  exists q. pose proof (in_pos _ _ (proj1 Hs)). assert (Hq : 0 ≤ q) by lia. split; [by eapply at_pos_set|].
  destruct Hc2 as [_ _ Hr2]. unfold rest in Hr2. by rewrite (in_file f) in Hr2 by (apply intact_set_pos; [apply Hs|done]).
Qed.

(** No number where the next character is none. *)
Lemma runs_extract_bad s p w c r top v :
  at_pos f p s → drop (Z.to_nat p) f = w ++ c :: r → Forall (λ c, is_space c = true) w →
  is_space c = false → is_digit 10 c = false → runs (extract 10 top v) (λ _ s', spoiled f s') s.
Proof.
  intros Hs Hr Hw Hc Hd. destruct (cursor_at s p Hs) as [Hg Hp Hre]. rewrite Hr in Hre. unfold extract.
  apply runs_bind. eapply runs_ok; [by apply sentry_ok|]. cbn beta iota. apply runs_bind, runs_gets. rewrite Hre.
  rewrite span_stop by (done || exact Hw). cbn [span]. rewrite Hd. cbn [bool_decide].
  apply runs_bind. eapply runs_ok; [reflexivity|]. apply runs_ret. split; [by apply intact_advance, Hs|].
  unfold is_good. cbn. by rewrite !orb_true_r, ?orb_true_r.
Qed.
Lemma runs_extract_spoiled s top v : spoiled f s → runs (extract 10 top v) (λ _ s', spoiled f s') s.
Proof.
  intros [[] Hg]. unfold extract. apply runs_bind. unfold sentry. eapply runs_ok; [by rewrite Hg|]. cbn beta iota.
  apply runs_ret. split; [by constructor|]. unfold is_good. cbn. by rewrite orb_true_r.
Qed.
Lemma runs_extract_char_spoiled s v : spoiled f s → runs (extract_char v) (λ _ s', spoiled f s') s.
Proof.
  intros [[] Hg]. unfold extract_char. apply runs_bind. unfold sentry. eapply runs_ok; [by rewrite Hg|]. cbn beta iota.
  apply runs_ret. split; [by constructor|]. unfold is_good. cbn. by rewrite orb_true_r.
Qed.

Definition bit (b : bool) : ascii := if b then "1"%char else "0"%char.
Lemma bit_numeral b : numeral 10 [bit b].
Proof. split; [done|]. by destruct b; repeat constructor. Qed.
Lemma bit_number b : number 10 [bit b] = Z.b2z b.
Proof. by destruct b. Qed.

(** The text of a field from its first number on. *)
Definition field_from (d1 d2 : bytes) (b : bool) : bytes := d1 ++ blank :: d2 ++ blank :: bit b :: blank :: ["|"%char].

Lemma runs_read_field sf s p w d1 d2 b r :
  at_pos f p s → drop (Z.to_nat p) f = w ++ field_from d1 d2 b ++ r → Forall (λ c, is_space c = true) w →
  numeral 10 d1 → number 10 d1 ≤ max_long → numeral 10 d2 → number 10 d2 ≤ max_unsigned →
  runs (read_field sf) (λ x s', x = mkField true b (number 10 d2) (number 10 d1)
    ∧ ∃ q, at_pos f q s' ∧ drop (Z.to_nat q) f = r) s.
Proof.
  intros Hs Hr Hw H1 Hb1 H2 Hb2. unfold field_from in Hr. rewrite <- !app_assoc in Hr. cbn [app] in Hr.
  rewrite <- app_assoc in Hr. cbn [app] in Hr. unfold read_field.
  apply runs_bind. eapply runs_mono; [eapply runs_extract; [exact Hs|exact Hr|exact Hw|exact H1|done|apply blank_ends|exact Hb1]|].
  intros x1 s1 (->&q1&Hs1&Hr1). apply runs_bind.
  eapply runs_mono; [eapply (runs_extract s1 q1 [blank]); [exact Hs1|exact Hr1|by repeat constructor|exact H2|done|apply blank_ends|exact Hb2]|].
  intros x2 s2 (->&q2&Hs2&Hr2). apply runs_bind.
  eapply runs_mono; [eapply (runs_extract s2 q2 [blank] [bit b]); [exact Hs2|exact Hr2|by repeat constructor|apply bit_numeral|done|apply blank_ends|]|].
  { rewrite bit_number. by destruct b. }
  intros x3 s3 (->&q3&Hs3&Hr3). apply runs_bind. pose proof (cursor_at s3 q3 Hs3) as Hc3. rewrite Hr3 in Hc3.
  eapply runs_ok; [by eapply extract_char_ok|]. apply runs_bind.
  assert (Hq : 0 ≤ s_pos s3 + 2) by (pose proof (in_pos _ _ (proj1 Hs3)); lia).
  assert (Hs4 : at_pos f (s_pos s3 + 2) (set_pos (s_pos s3 + 2) s3)) by (by eapply at_pos_set).
  eapply runs_mono; [by eapply runs_good|]. intros ok s4 [-> ->]. apply runs_ret. split.
  - rewrite bit_number. by destruct b.
  - exists (s_pos s3 + 2). split; [done|].
    destruct (cursor_advance s3 [blank; "|"%char] r 2 Hc3 eq_refl) as [_ _ Hr4].
    unfold rest in Hr4. by rewrite (in_file f) in Hr4 by apply Hs4.
Qed.

(** No field is read where something else is found. *)
Lemma runs_good_spoiled s : spoiled f s → runs good (λ b s', b = false ∧ s' = s) s.
Proof. intros [_ Hg]. by exists (is_good s), s. Qed.

Ltac spoiled_rest :=
  repeat (apply runs_bind; eapply runs_mono;
    [first [by apply runs_extract_spoiled|by apply runs_extract_char_spoiled]|intros ? ? ?]);
  apply runs_bind; eapply runs_mono; [by apply runs_good_spoiled|intros ? ? [-> ->]]; apply runs_ret; by split.

Definition no_number (r : bytes) : Prop :=
  match r with c :: _ => is_space c = false ∧ is_digit 10 c = false | [] => False end.

Lemma runs_read_none sf s p w r :
  at_pos f p s → drop (Z.to_nat p) f = w ++ r → Forall (λ c, is_space c = true) w → no_number r →
  runs (read_field sf) (λ x s', fd_good x = false ∧ spoiled f s') s.
Proof.
  intros Hs Hr Hw Hn. destruct r as [|c r]; [done|]. destruct Hn as [Hc1 Hc2]. unfold read_field.
  apply runs_bind. eapply runs_mono; [by eapply runs_extract_bad|]. intros x1 s1 Hs1. spoiled_rest.
Qed.
Lemma runs_read_one sf s p w d r :
  at_pos f p s → drop (Z.to_nat p) f = w ++ d ++ blank :: r → Forall (λ c, is_space c = true) w →
  numeral 10 d → number 10 d ≤ max_long → no_number r →
  runs (read_field sf) (λ x s', fd_good x = false ∧ spoiled f s') s.
Proof.
  intros Hs Hr Hw Hd Hb Hn. destruct r as [|c r]; [done|]. destruct Hn as [Hc1 Hc2]. unfold read_field.
  apply runs_bind. eapply runs_mono; [eapply runs_extract; [exact Hs|exact Hr|exact Hw|exact Hd|done|apply blank_ends|exact Hb]|].
  intros x1 s1 (_&q1&Hs1&Hr1). apply runs_bind.
  eapply runs_mono; [eapply (runs_extract_bad s1 q1 [blank]); [exact Hs1|exact Hr1|by repeat constructor|done|done]|].
  intros x2 s2 Hs2. spoiled_rest.
Qed.
Lemma runs_read_two sf s p w d1 d2 r :
  at_pos f p s → drop (Z.to_nat p) f = w ++ d1 ++ blank :: d2 ++ blank :: r → Forall (λ c, is_space c = true) w →
  numeral 10 d1 → number 10 d1 ≤ max_long → numeral 10 d2 → number 10 d2 ≤ max_unsigned → no_number r →
  runs (read_field sf) (λ x s', fd_good x = false ∧ spoiled f s') s.
Proof.
  intros Hs Hr Hw H1 Hb1 H2 Hb2 Hn. destruct r as [|c r]; [done|]. destruct Hn as [Hc1 Hc2]. unfold read_field.
  apply runs_bind. eapply runs_mono; [eapply runs_extract; [exact Hs|exact Hr|exact Hw|exact H1|done|apply blank_ends|exact Hb1]|].
  intros x1 s1 (_&q1&Hs1&Hr1). apply runs_bind.
  eapply runs_mono; [eapply (runs_extract s1 q1 [blank]); [exact Hs1|exact Hr1|by repeat constructor|exact H2|done|apply blank_ends|exact Hb2]|].
  intros x2 s2 (_&q2&Hs2&Hr2). apply runs_bind.
  eapply runs_mono; [eapply (runs_extract_bad s2 q2 [blank]); [exact Hs2|exact Hr2|by repeat constructor|done|done]|].
  intros x3 s3 Hs3. spoiled_rest.
Qed.

(** Nor in a text without the mark. *)
Lemma rest_advance s n eof fail : intact f s →
  rest (on_stream (s_file s) (s_pos s + Z.of_nat n) eof fail (s_bad s) s) = drop n (rest s).
Proof.
  intros Hi. pose proof (in_pos _ _ Hi). unfold rest. cbn. rewrite Z2Nat.inj_add, Nat2Z.id, drop_drop by lia. done.
Qed.
Lemma runs_extract_any s top v :
  intact f s → runs (extract 10 top v) (λ _ s', intact f s' ∧ rest s' ⊆ rest s) s.
Proof.
  intros Hi. unfold extract. apply runs_bind. unfold sentry. destruct (is_good s) eqn:Hg.
  - eapply runs_ok; [by rewrite Hg|]. cbn beta iota. apply runs_bind, runs_gets.
    destruct (span is_space (rest s)) as [w r]. destruct (span (is_digit 10) r) as [d r'].
    apply runs_bind. eapply runs_ok; [reflexivity|]. apply runs_ret. split; [by apply intact_advance|].
    intros x. rewrite rest_advance by done. intros Hx. rewrite <- (take_drop (length w + length d) (rest s)).
    apply elem_of_app. by right.
  - eapply runs_ok; [by rewrite Hg|]. cbn beta iota. apply runs_ret. split; [by destruct Hi|done].
Qed.
Lemma runs_extract_char_any s v :
  intact f s → runs (extract_char v) (λ c s', intact f s' ∧ (c = v ∨ c ∈ rest s)) s.
Proof.
  intros Hi. unfold extract_char. apply runs_bind. unfold sentry. destruct (is_good s) eqn:Hg.
  - eapply runs_ok; [by rewrite Hg|]. cbn beta iota. apply runs_bind, runs_gets.
    pose proof (span_app is_space (rest s)) as Hsp. destruct (span is_space (rest s)) as [w r].
    destruct r as [|c r]; apply runs_bind; (eapply runs_ok; [reflexivity|]); apply runs_ret;
      (split; [by apply intact_advance|]); [by left|right].
    cbn [fst snd] in Hsp. rewrite <- Hsp. apply elem_of_app. right. by left.
  - eapply runs_ok; [by rewrite Hg|]. cbn beta iota. apply runs_ret. split; [by destruct Hi|by left].
Qed.
Lemma runs_read_unmarked s p :
  at_pos f p s → "|"%char ∉ drop (Z.to_nat p) f →
  runs (read_field new_field) (λ x s', fd_good x = false ∧ intact f s') s.
Proof.
  intros Hs Hn. destruct (cursor_at s p Hs) as [_ _ Hr]. unfold read_field. apply runs_bind.
  eapply runs_mono; [by apply runs_extract_any, Hs|]. intros x1 s1 [Hs1 Hr1]. apply runs_bind.
  eapply runs_mono; [by apply runs_extract_any|]. intros x2 s2 [Hs2 Hr2]. apply runs_bind.
  eapply runs_mono; [by apply runs_extract_any|]. intros x3 s3 [Hs3 Hr3]. apply runs_bind.
  eapply runs_mono; [by apply runs_extract_char_any|]. intros c s4 [Hs4 Hc]. apply runs_bind, runs_gets, runs_ret.
  split; [|done]. destruct (decide (c = "|"%char)) as [->|Hne].
  - exfalso. apply Hn. rewrite <- Hr. destruct Hc as [Hc|Hc]; [done|]. auto.
  - rewrite (bool_decide_eq_false_2 _ Hne), andb_false_r. done.
Qed.
End stream.

(** ** What the file has *)

Record field_ok (x : SizeField) : Prop := {
  fo_good : fd_good x = true;
  fo_position : 0 ≤ fd_position x ≤ max_long;
  fo_pending : 0 ≤ fd_pending x ≤ max_unsigned
}.

Definition field_line (x : SizeField) : bytes := line (write_field x).
Definition file_text (h : bytes) (xs : list SizeField) : bytes :=
  line (write_header (mkHeader true h)) ++ concat (field_line <$> xs).

(** Lines that do not end the header. *)
Definition header_ok (h : bytes) : Prop := ∃ ls,
  ls ≠ [] ∧ Forall (λ l, Forall (λ c, c ≠ newline) l ∧ l ≠ dots) ls ∧ h ++ [newline] = concat (line <$> ls).

Section fields.
Context (x : SizeField) (Hx : field_ok x).
Let d1 : bytes := print_num 10 (Z.to_nat sf_s_long) (fd_position x).
Let d2 : bytes := print_num 10 (Z.to_nat sf_s_unsigned) (fd_pending x).

Lemma position_printed : printed 10 20 (fd_position x) d1.
Proof.
  apply print_num_spec; [by left|cbn; lia|]. pose proof (fo_position _ Hx). unfold max_long in *.
  change (Z.of_nat (Z.to_nat sf_s_long)) with 20. lia.
Qed.
Lemma pending_printed : printed 10 10 (fd_pending x) d2.
Proof.
  apply print_num_spec; [by left|cbn; lia|]. pose proof (fo_pending _ Hx). unfold max_unsigned in *.
  change (Z.of_nat (Z.to_nat sf_s_unsigned)) with 10. lia.
Qed.
Lemma position_numeral : numeral 10 d1.
Proof. apply (printed_numeral 10 20 (fd_position x)); [lia|apply position_printed]. Qed.
Lemma pending_numeral : numeral 10 d2.
Proof. apply (printed_numeral 10 10 (fd_pending x)); [lia|apply pending_printed]. Qed.

Lemma field_line_from : field_line x = field_from d1 d2 (fd_last x) ++ [newline].
Proof. unfold field_line, line, write_field, field_from. by destruct (fd_last x). Qed.
Lemma field_line_length : length (field_line x) = 36%nat.
Proof.
  rewrite field_line_from. unfold field_from. rewrite !length_app. cbn [length]. rewrite length_app. cbn [length].
  rewrite (pr_length _ _ _ _ position_printed), (pr_length _ _ _ _ pending_printed). done.
Qed.

Lemma runs_read_this f sf s p w r :
  at_pos f p s → drop (Z.to_nat p) f = w ++ field_line x ++ r → Forall (λ c, is_space c = true) w →
  runs (read_field sf) (λ y s', y = x ∧ ∃ q, at_pos f q s' ∧ drop (Z.to_nat q) f = newline :: r) s.
Proof.
  intros Hs Hr Hw. rewrite field_line_from, <- app_assoc in Hr. cbn [app] in Hr.
  pose proof (fo_position _ Hx). pose proof (fo_pending _ Hx).
  eapply runs_mono; [eapply runs_read_field; [exact Hs|exact Hr|exact Hw|apply position_numeral| |apply pending_numeral|]|].
  - rewrite (pr_number _ _ _ _ position_printed). lia.
  - rewrite (pr_number _ _ _ _ pending_printed). lia.
  - intros y s' [-> Hq]. split; [|done].
    rewrite (pr_number _ _ _ _ position_printed), (pr_number _ _ _ _ pending_printed).
    pose proof (fo_good _ Hx). destruct x; cbn in *. congruence.
Qed.
End fields.

Lemma field_lines_length xs : Forall field_ok xs → length (concat (field_line <$> xs)) = (36 * length xs)%nat.
Proof.
  induction 1 as [|x xs Hx _ IH]; [done|]. cbn [fmap list_fmap concat length].
  rewrite length_app, field_line_length, IH by done. lia.
Qed.

Lemma runs_getline f s p l r :
  at_pos f p s → drop (Z.to_nat p) f = l ++ newline :: r → Forall (λ c, c ≠ newline) l →
  runs getline (λ x s', x = l ∧ ∃ q, at_pos f q s' ∧ drop (Z.to_nat q) f = r) s.
Proof.
  intros Hs Hr Hl. pose proof (cursor_at f s p Hs) as Hc. rewrite Hr in Hc.
  eapply runs_ok; [by eapply getline_ok|]. split; [done|]. pose proof (in_pos _ _ (proj1 Hs)).
  set (q := s_pos s + Z.of_nat (S (length l))). assert (Hq : 0 ≤ q) by lia. exists q. split; [by eapply at_pos_set|].
  assert (Hc2 : cursor (set_pos q s) r).
  { eapply (cursor_advance s (l ++ [newline])); [by rewrite <- app_assoc|]. rewrite length_app. cbn. lia. }
  destruct Hc2 as [_ _ Hr2]. unfold rest in Hr2. by rewrite (in_file f) in Hr2 by (apply intact_set_pos; [apply Hs|done]).
Qed.

Lemma runs_read_header f r ls : Forall (λ l, Forall (λ c, c ≠ newline) l ∧ l ≠ dots) ls → ∀ fuel acc s p,
  at_pos f p s → drop (Z.to_nat p) f = concat (line <$> ls) ++ dots ++ newline :: r →
  (length ls < fuel)%nat → acc ++ concat (line <$> ls) ≠ [] → let h := acc ++ concat (line <$> ls) in
  runs (read_header fuel acc) (λ x s', x = mkHeader true (take (length h - 1) h)
    ∧ ∃ q, at_pos f q s' ∧ drop (Z.to_nat q) f = r) s.
Proof.
  induction 1 as [|l ls [Hl Hd] _ IH]; intros fuel acc s p Hs Hr Hf Hne h; (destruct fuel as [|fuel]; [cbn in Hf; lia|]); cbn [read_header].
  - apply runs_bind. eapply runs_mono; [eapply (runs_getline f s p dots r); [exact Hs|exact Hr|by repeat constructor]|].
    intros x s1 (->&q&Hq&Hqr). rewrite bool_decide_eq_true_2 by done. apply runs_bind.
    eapply runs_mono; [by eapply runs_good|]. intros ok s2 [-> ->]. cbn [fmap list_fmap concat] in *.
    unfold h. rewrite app_nil_r in *. destruct acc; [done|]. apply runs_ret. split; [done|]. by exists q.
  - cbn [fmap list_fmap concat] in *. unfold line at 1 in Hr. rewrite <- !app_assoc in Hr. cbn [app] in Hr.
    apply runs_bind. eapply runs_mono; [eapply (runs_getline f s p l); [exact Hs|exact Hr|exact Hl]|].
    intros x s1 (->&q&Hq&Hqr). rewrite bool_decide_eq_false_2 by done. apply runs_bind.
    eapply runs_mono; [by eapply runs_good|]. intros ok s2 [-> ->].
    unfold h. rewrite app_assoc. eapply (IH fuel (acc ++ line l) s1 q); [exact Hq|exact Hqr|cbn in Hf; lia|].
    rewrite <- app_assoc. unfold line. by destruct acc, l.
Qed.

(** ** What the operations do *)

(** The object between two operations: the fields that are written, and the current one. *)
Record saved (h : bytes) (xs : list SizeField) (c : SizeField) (w : SizeFile) : Prop := {
  sv_good : sf_good w = true;
  sv_stashed : sf_stashed w = true;
  sv_file : intact (file_text h xs) (sf_stream w);
  sv_pos : sf_stash_pos w = Z.of_nat (length (file_text h xs));
  sv_current : sf_current w = c;
  sv_field : field_ok c;
  sv_fields : Forall field_ok xs
}.

(** The object within one, with the stream on a file at its end. *)
Record at_end (f : bytes) (c : SizeField) (w : SizeFile) : Prop := {
  ae_good : sf_good w = true;
  ae_stashed : sf_stashed w = false;
  ae_stream : at_pos f (Z.of_nat (length f)) (sf_stream w);
  ae_current : sf_current w = c
}.

Lemma file_text_snoc h xs x : file_text h (xs ++ [x]) = file_text h xs ++ field_line x.
Proof. unfold file_text. rewrite fmap_app, concat_app, <- app_assoc. cbn. by rewrite app_nil_r. Qed.

Lemma runs_put_end f s l :
  at_pos f (Z.of_nat (length f)) s → runs (put l) (λ _ s', at_pos (f ++ l) (Z.of_nat (length (f ++ l))) s') s.
Proof.
  intros Hs. eapply runs_mono; [by eapply runs_put|]. intros [] s' H.
  rewrite (overwrite_end _ _ _ (Nat2Z.id _)) in H. rewrite length_app, Nat2Z.inj_add. exact H.
Qed.

Lemma reopenFile_ok f c w :
  sf_stashed w = true → intact f (sf_stream w) → sf_stash_pos w = Z.of_nat (length f) → sf_current w = c →
  mruns reopenFile (λ _ w', at_end f c w' ∧ sf_header w' = sf_header w) w.
Proof.
  intros H1 H2 H3 H4. unfold reopenFile. apply mruns_bind, mruns_state. rewrite H1.
  apply mruns_bind, mruns_file. eapply runs_mono; [by apply runs_stream_open|]. intros [] s1 Hs1.
  apply mruns_bind, mruns_state, mruns_bind, mruns_file.
  eapply runs_mono; [by eapply runs_good|]. intros b s2 [-> ->]. apply mruns_bind, mruns_file.
  cbn [sf_stash_pos with_file size_owner]. eapply runs_mono; [eapply runs_seek; [exact Hs1|rewrite H3; lia]|].
  intros [] s3 Hs3. rewrite H3 in Hs3. apply mruns_bind, mruns_file.
  eapply runs_mono; [by eapply runs_good|]. intros b s4 [-> ->]. apply mruns_bind, mruns_update, mruns_update. split; [by split|done].
Qed.

Lemma dumpField_ok f c w :
  at_end f c w → mruns dumpField (λ _ w', at_end (f ++ field_line c) c w') w.
Proof.
  intros [H1 H2 H3 H4]. unfold dumpField, reopenFile. apply mruns_bind, mruns_bind, mruns_state. rewrite H2.
  apply mruns_ret, mruns_bind, mruns_file. eapply runs_mono; [by eapply runs_good|]. intros b s1 [-> ->].
  rewrite with_file_of. apply mruns_bind, mruns_state. rewrite H4. apply mruns_bind, mruns_file.
  eapply runs_mono; [by apply runs_put_end|]. intros [] s2 Hs2. apply mruns_bind, mruns_file.
  eapply runs_mono; [by eapply runs_good|]. intros b s3 [-> ->]. apply mruns_update. by split.
Qed.

Lemma stashFile_ok h xs c w :
  at_end (file_text h xs) c w → field_ok c → Forall field_ok xs → mruns stashFile (λ _ w', saved h xs c w') w.
Proof.
  intros [H1 H2 H3 H4] Hc Hxs. unfold stashFile. apply mruns_bind, mruns_state. rewrite H2. apply mruns_bind, mruns_file.
  eapply runs_mono; [by eapply runs_tell|]. intros p s [-> ->]. apply mruns_bind, mruns_update, mruns_update.
  split; [done|done|apply H3|done|done|done|done].
Qed.

Lemma update_field_ok h xs c w g :
  saved h xs c w → field_ok (g c) → mruns (update_field g) (λ _ w', saved h (xs ++ [g c]) (g c) w') w.
Proof.
  intros Hw Hg. unfold update_field. apply mruns_bind.
  eapply mruns_mono; [by eapply reopenFile_ok; apply Hw|]. intros [] w1 [[H1 H2 H3 H4] _].
  apply mruns_bind, mruns_state. rewrite H1. apply mruns_bind, mruns_bind, mruns_state, mruns_bind, mruns_update.
  rewrite H4. eapply mruns_mono; [eapply (dumpField_ok (file_text h xs) (g c)); by split|]. intros [] w2 Hw2.
  rewrite <- file_text_snoc in Hw2. apply stashFile_ok; [exact Hw2|exact Hg|].
  apply Forall_app. split; [apply Hw|by apply Forall_singleton].
Qed.

Lemma change_field_ok h xs c w g :
  saved h xs c w → field_ok (g c) → mruns (change_field g) (λ _ w', saved h xs (g c) w') w.
Proof.
  intros Hw Hg. unfold change_field. apply mruns_bind, mruns_state. rewrite (sv_good _ _ _ _ Hw).
  apply mruns_bind, mruns_state, mruns_update. rewrite (sv_current _ _ _ _ Hw). destruct Hw. by split.
Qed.

(** *** Opening *)

(** A position in the file, and what is there. *)
Lemma runs_seek_to f s p q l1 l2 :
  at_pos f p s → f = l1 ++ l2 → q = Z.of_nat (length l1) →
  runs (seek q) (λ _ s', at_pos f q s' ∧ drop (Z.to_nat q) f = l2) s.
Proof.
  intros Hs Hf ->. eapply runs_mono; [eapply runs_seek; [exact Hs|lia]|]. intros [] s' Hs'. split; [exact Hs'|].
  rewrite Nat2Z.id, Hf. apply drop_app_length.
Qed.

Section opening.
Context (h : bytes) (Hh : header_ok h).

Lemma header_text xs : ∃ ls, Forall (λ l, Forall (λ c, c ≠ newline) l ∧ l ≠ dots) ls ∧ ls ≠ [] ∧ h ++ [newline] = concat (line <$> ls)
  ∧ file_text h xs = concat (line <$> ls) ++ dots ++ newline :: concat (field_line <$> xs).
Proof.
  destruct Hh as (ls&Hne&Hls&Heq). exists ls. split_and!; [done..|]. rewrite <- Heq.
  unfold file_text, write_header, line. cbn [sh_header]. rewrite <- !app_assoc. done.
Qed.

(** Opening up to the header of a file that begins with that of [h]. *)
Lemma size_header_length xs : Z.of_nat (length (file_text h xs)) = sh_size (mkHeader true h) + 1 + Z.of_nat (length (concat (field_line <$> xs))).
Proof.
  unfold file_text, sh_size, write_header, line, dots. cbn [sh_header]. rewrite !length_app. cbn [length]. lia.
Qed.

Lemma lines_length ls : (length ls ≤ length (concat (line <$> ls)))%nat.
Proof.
  induction ls as [|l ls IH]; [done|]. rewrite fmap_cons. cbn [concat length]. rewrite length_app.
  assert (length (line l) = S (length l)) as -> by (unfold line; rewrite length_app; cbn; lia). lia.
Qed.

Lemma read_header_text f xs r s p :
  at_pos f p s → p = 0 → f = file_text h xs ++ r →
  runs (read_header (S (length f)) []) (λ x s', x = mkHeader true h ∧ ∃ q, at_pos f q s') s.
Proof.
  intros Hs -> Hf. destruct (header_text xs) as (ls&Hls&Hne&Heq&Ht).
  eapply runs_mono; [eapply (runs_read_header f (concat (field_line <$> xs) ++ r) ls Hls _ [] s 0); [exact Hs|..]|].
  - rewrite Hf, Ht, <- !app_assoc. done.
  - rewrite Hf, Ht, !length_app. pose proof (lines_length ls). lia.
  - cbn. destruct ls as [|[|? ?] ?]; done.
  - intros x s' [-> (q&Hq&_)]. split; [|by exists q]. cbn [app]. rewrite <- Heq, length_app. cbn [length].
    by rewrite Nat.add_sub, take_app_length.
Qed.

Lemma readLastField_ok f f0 x w :
  sf_stashed w = false → field_ok x → f = f0 ++ field_line x → (∃ p, at_pos f p (sf_stream w)) →
  mruns readLastField (λ y w', y = x ∧ ∃ s q, w' = with_file s w ∧ at_pos f q s) w.
Proof.
  intros Hst Hx Hf (p&Hs). unfold readLastField, reopenFile. apply mruns_bind, mruns_bind, mruns_state. rewrite Hst.
  apply mruns_ret, mruns_bind, mruns_file, runs_gets. cbn [file_of size_owner].
  unfold file_size. rewrite (in_file _ _ (proj1 Hs)). apply mruns_bind, mruns_file.
  eapply runs_mono; [eapply (runs_seek_to f _ p _ f0 (field_line x)); [exact Hs|exact Hf|]|].
  { rewrite Hf, length_app, field_line_length by done. unfold dimension, sf_s_long, sf_s_unsigned. lia. }
  intros [] s1 [Hs1 Hd]. apply mruns_file.
  eapply runs_mono; [eapply (runs_read_this x Hx f _ _ _ [] []); [exact Hs1|by rewrite app_nil_r|constructor]|].
  intros y s2 [-> (q&Hq&_)]. split; [done|]. by exists s2, q.
Qed.

(** The object when the header has been read. *)
Record size_header_read (f : bytes) (w : SizeFile) : Prop := {
  hr_good : sf_good w = true;
  hr_stashed : sf_stashed w = false;
  hr_header : sf_header w = mkHeader true h;
  hr_stream : ∃ p, at_pos f p (sf_stream w)
}.

Lemma openFile_fields f xs r w (Q : SizeFile → Prop) :
  intact f (sf_stream w) → sf_good w = true → sf_stashed w = false → f = file_text h xs ++ r →
  (∀ w1, size_header_read f w1 → mruns (read_fields (Z.of_nat (length f))) (λ _ w', Q w') w1) →
  (∀ w1, Q w1 → mruns (set_stashed false) (λ _ w', Q w') w1) →
  mruns (openFile false) (λ _ w', Q w') w.
Proof.
  intros Hi Hg Hst Hf HK HQ. unfold openFile. apply mruns_bind.
  eapply (mruns_mono _ (λ _ w', Q w')); [|intros [] w'; apply HQ].
  apply mruns_bind, mruns_file. eapply runs_mono; [by apply runs_stream_open|]. intros [] s1 Hs1.
  apply mruns_bind, mruns_file. eapply runs_mono; [by eapply runs_good|]. intros b s2 [-> ->].
  apply mruns_bind, mruns_file. eapply runs_mono; [by eapply runs_seek_end|]. intros [] s3 Hs3.
  apply mruns_bind, mruns_file. eapply runs_mono; [by eapply runs_tell|]. intros n s4 [-> ->].
  assert (Hn : (Z.of_nat (length f) =? 0) = false).
  { apply Z.eqb_neq. rewrite Hf, length_app. pose proof (size_header_length xs) as H. unfold sh_size in H. lia. }
  rewrite Hn. cbn [negb]. unfold read_contents.
  apply mruns_bind, mruns_file. eapply runs_mono; [eapply runs_seek; [exact Hs3|done]|]. intros [] s5 Hs5.
  apply mruns_bind. unfold rounds. apply mruns_state. cbn [file_of size_owner with_file sf_stream].
  rewrite (in_file _ _ (proj1 Hs5)). apply mruns_bind, mruns_file.
  eapply runs_mono; [by eapply read_header_text|]. intros x s6 (->&q&Hq).
  apply mruns_bind, mruns_update, mruns_bind, mruns_file, runs_gets. cbn [file_of size_owner with_file sf_stream].
  assert (He : s_eof s6 = false).
  { destruct Hq as (_&Hgo&_). unfold is_good in Hgo. by destruct (s_eof s6). }
  rewrite He. cbn [sh_good negb andb]. apply HK. by split; [..|exists q].
Qed.
End opening.

Lemma read_fields_last h f f0 x w :
  field_ok x → f = f0 ++ field_line x → size_header_read h f w →
  mruns (read_fields (Z.of_nat (length f))) (λ _ w', at_end f x w') w.
Proof.
  intros Hx Hf [H1 H2 H3 H4]. unfold read_fields. apply mruns_bind.
  eapply mruns_mono; [by eapply readLastField_ok|]. intros y w1 (->&s&q&->&Hs). apply mruns_bind, mruns_update.
  apply mruns_bind, mruns_file. eapply runs_mono; [by eapply runs_good|]. intros b s2 [-> ->].
  rewrite (fo_good _ Hx). cbn [andb]. apply mruns_file. eapply runs_mono; [by eapply runs_seek_end|].
  intros [] s3 Hs3. by split.
Qed.

Lemma at_end_stashed f c w : at_end f c w → mruns (set_stashed false) (λ _ w', at_end f c w') w.
Proof. intros []. apply mruns_update. by split. Qed.

(** A process that starts has the last field that was written. *)
Lemma construct_last h xs x w :
  header_ok h → Forall field_ok (xs ++ [x]) → intact (file_text h (xs ++ [x])) (sf_stream w) →
  mruns (size_construct false) (λ _ w', saved h (xs ++ [x]) x w') w.
Proof.
  intros Hh Hxs Hi. assert (Hx : field_ok x) by (apply Forall_app in Hxs as [_ Hx]; by inversion Hx).
  unfold size_construct. apply mruns_bind, mruns_update, mruns_bind.
  eapply mruns_mono; [eapply (openFile_fields h Hh (file_text h (xs ++ [x])) (xs ++ [x]) [] _
    (at_end (file_text h (xs ++ [x])) x)); [exact Hi|done|done|by rewrite app_nil_r| |apply at_end_stashed]|].
  - intros w1. eapply read_fields_last; [exact Hx|apply file_text_snoc].
  - intros [] w1 Hw1. by apply stashFile_ok.
Qed.

(** *** A new file *)

Lemma default_header_ok : header_ok sf_s_defaultHeader.
Proof.
  exists [text_of "Condor log size file, DAG enabled."; text_of "This header is made to contain the dagId.";
    text_of "In this moment the DAG Id is unknown."].
  split; [done|]. split; [|done]. repeat constructor; by compute.
Qed.

Definition zero_field : SizeField := reset_field 0 0 false.
Lemma zero_field_ok : field_ok zero_field.
Proof. by split. Qed.

Lemma ftruncate_ok f s : intact f s → runs (ftruncate 0) (λ b s', b = true ∧ intact [] s') s.
Proof. intros [Hf Hb Hn Hp]. unfold ftruncate. eapply runs_ok; [by rewrite Hn|]. split; [done|]. by constructor. Qed.

Lemma newSizeFile_ok f h w :
  intact f (sf_stream w) → sf_good w = true → sf_header w = mkHeader true h → sf_stashed w = false →
  mruns newSizeFile (λ _ w', at_end (file_text h [sf_current w]) (sf_current w) w') w.
Proof.
  intros Hi Hg Hh Hst. unfold newSizeFile. apply mruns_bind, mruns_state. rewrite Hst. apply mruns_bind, mruns_file.
  eapply runs_mono; [by apply (runs_clear f)|]. intros [] s1 Hs1. apply mruns_bind, mruns_file.
  unfold stream_truncate. apply runs_bind. eapply runs_mono; [apply (ftruncate_ok f), Hs1|]. intros b s2 [-> Hs2].
  eapply runs_mono; [by apply (runs_stream_open [])|]. intros [] s3 Hs3. apply mruns_bind, mruns_state.
  cbn [sf_header with_file size_owner]. rewrite Hh. cbn [sh_good]. apply mruns_bind, mruns_ret, mruns_bind, mruns_state.
  apply mruns_bind, mruns_state, mruns_bind, mruns_file. cbn [sf_header sf_current].
  eapply runs_mono; [apply (runs_put_end []); exact Hs3|]. intros [] s4 Hs4. apply mruns_bind, mruns_file.
  eapply runs_mono; [apply runs_put_end; exact Hs4|]. intros [] s5 Hs5. apply mruns_bind, mruns_file.
  eapply runs_mono; [apply runs_stream_open, Hs5|]. intros [] s6 Hs6. apply mruns_file.
  eapply runs_mono; [by eapply runs_seek_end|]. intros [] s7 Hs7.
  assert (Ht : file_text h [sf_current w] = ([] ++ line (write_header (mkHeader true h))) ++ line (write_field (sf_current w))).
  { unfold file_text. cbn. by rewrite app_nil_r. }
  rewrite Ht. by split.
Qed.

Lemma construct_new f w :
  intact f (sf_stream w) → mruns (size_construct true) (λ _ w', saved sf_s_defaultHeader [zero_field] zero_field w') w.
Proof.
  intros Hi. unfold size_construct, openFile. apply mruns_bind, mruns_update, mruns_bind, mruns_bind.
  apply (mruns_mono _ (λ _ w', at_end (file_text sf_s_defaultHeader [zero_field]) zero_field w')).
  - apply mruns_bind, mruns_update, mruns_bind, mruns_update, mruns_bind.
    eapply mruns_mono; [by eapply (newSizeFile_ok f sf_s_defaultHeader)|]. intros [] w1 Hw1.
    apply mruns_bind, mruns_file. eapply runs_mono; [eapply runs_good, Hw1|]. intros b s [-> ->]. rewrite with_file_of.
    by apply mruns_ret.
  - intros [] w1 Hw1. eapply mruns_mono; [by apply at_end_stashed|]. intros [] w2 Hw2.
    apply stashFile_ok; [exact Hw2|apply zero_field_ok|by apply Forall_singleton, zero_field_ok].
Qed.

(** ** An update that is interrupted *)

Lemma number_bound base l : base_ok base → Forall (λ c, is_digit base c = true) l → 0 ≤ number base l < base ^ Z.of_nat (length l).
Proof.
  intros Hb. assert (1 < base) by (destruct Hb; lia). induction l as [|c l IH] using rev_ind; [cbn; lia|].
  intros [Hl Hc]%Forall_app. specialize (IH Hl). apply Forall_cons in Hc as [Hc _].
  rewrite number_app, length_app, Nat2Z.inj_add, Z.pow_add_r by lia. cbn [fold_left length].
  unfold is_digit in Hc. destruct (digit_value c) as [d|] eqn:Hd; [|done]. apply Z.ltb_lt in Hc.
  assert (0 ≤ d).
  { unfold digit_value in Hd.
    destruct (_ && _) eqn:E1 in Hd; [|destruct (_ && _) eqn:E2 in Hd; [|destruct (_ && _) eqn:E3 in Hd; [|done]]];
      injection Hd as <-; breflect; lia. }
  cbn. change (Z.of_nat 1) with 1. rewrite Z.pow_1_r. nia.
Qed.

Lemma number_drop base l n : base_ok base → Forall (λ c, is_digit base c = true) l → (n ≤ length l)%nat →
  number base (drop n l) = number base l mod base ^ Z.of_nat (length l - n).
Proof.
  intros Hb Hl Hn. assert (1 < base) by (destruct Hb; lia).
  pose proof (number_bound base (drop n l) Hb (Forall_drop _ n _ Hl)) as Hd. rewrite length_drop in Hd.
  rewrite <- (take_drop n l) at 2. rewrite number_app, number_shift, length_drop.
  rewrite Z.add_comm, Z.mod_add by (apply Z.pow_nonzero; lia). symmetry. by apply Z.mod_small.
Qed.

#[local] Opaque print_num.

Section torn.
Context (x : SizeField) (Hx : field_ok x).
Let d1 : bytes := print_num 10 (Z.to_nat sf_s_long) (fd_position x).
Let d2 : bytes := print_num 10 (Z.to_nat sf_s_unsigned) (fd_pending x).
Let rest_of : bytes := [blank; bit (fd_last x); blank; "|"%char; newline].

Lemma line_parts : field_line x = d1 ++ blank :: d2 ++ rest_of.
Proof. rewrite field_line_from. unfold field_from. rewrite <- !app_assoc. cbn [app]. by rewrite <- app_assoc. Qed.

Lemma digits_ok : length d1 = 20%nat ∧ Forall (λ c, is_digit 10 c = true) d1 ∧ number 10 d1 = fd_position x
  ∧ length d2 = 10%nat ∧ Forall (λ c, is_digit 10 c = true) d2 ∧ number 10 d2 = fd_pending x.
Proof.
  pose proof (position_printed x Hx) as [A1 A2 A3]. pose proof (pending_printed x Hx) as [B1 B2 B3].
  exact (conj A1 (conj A2 (conj A3 (conj B1 (conj B2 B3))))).
Qed.

(** What is left of a line, when its position loses digits. *)
Lemma drop_position k : (k < 20)%nat →
  drop k (field_line x) = field_from (drop k d1) d2 (fd_last x) ++ [newline]
  ∧ numeral 10 (drop k d1) ∧ number 10 (drop k d1) = fd_position x mod 10 ^ Z.of_nat (20 - k).
Proof.
  intros Hk. destruct digits_ok as (L1&D1&N1&_). split_and!.
  - rewrite field_line_from. unfold field_from. fold d1 d2. rewrite <- !app_assoc.
    rewrite drop_app_le by lia. done.
  - split; [|by apply Forall_drop]. intros E. apply (f_equal length) in E. rewrite length_drop, L1 in E. cbn in E. lia.
  - rewrite number_drop, N1, L1 by (done || (by left) || lia). done.
Qed.

(** Less than the whole of the position is no field. *)
Lemma read_torn f sf s p k r :
  at_pos f p s → (20 ≤ k < 35)%nat → drop (Z.to_nat p) f = drop k (field_line x) ++ r →
  runs (read_field sf) (λ z s', fd_good z = false ∧ spoiled f s') s.
Proof.
  intros Hs Hk Hr. destruct digits_ok as (L1&D1&N1&L2&D2&N2). rewrite line_parts in Hr.
  assert (Hb : numeral 10 [bit (fd_last x)]) by apply bit_numeral.
  assert (Hbn : number 10 [bit (fd_last x)] ≤ 1) by (rewrite bit_number; by destruct (fd_last x)).
  replace k with (length d1 + (k - 20))%nat in Hr by lia. rewrite drop_app_add in Hr.
  destruct (k - 20)%nat as [|j] eqn:Ej.
  { rewrite drop_0 in Hr. cbn [app] in Hr. rewrite <- app_assoc in Hr.
    eapply (runs_read_two f sf s p [blank] d2 [bit (fd_last x)]); [exact Hs|exact Hr|by repeat constructor| | |exact Hb| |done].
    - apply pending_numeral, Hx.
    - rewrite N2. pose proof (fo_pending _ Hx). unfold max_long, max_unsigned in *. lia.
    - unfold max_unsigned. lia. }
  cbn [drop] in Hr. destruct (decide (j < 10)%nat) as [Hj|Hj].
  { rewrite drop_app_le in Hr by lia. rewrite <- app_assoc in Hr. cbn [rest_of app] in Hr.
    eapply (runs_read_two f sf s p [] (drop j d2) [bit (fd_last x)]); [exact Hs|exact Hr|constructor| | |exact Hb| |done].
    - split; [|by apply Forall_drop]. intros E. apply (f_equal length) in E. rewrite length_drop, L2 in E. cbn in E. lia.
    - pose proof (number_bound 10 (drop j d2) (or_introl eq_refl) (Forall_drop _ j _ D2)) as Hn.
      assert (10 ^ Z.of_nat (length (drop j d2)) ≤ 10 ^ 10) by (apply Z.pow_le_mono_r; [lia|rewrite length_drop; lia]).
      unfold max_long. lia.
    - unfold max_unsigned. lia. }
  replace j with (length d2 + (j - 10))%nat in Hr by lia. rewrite drop_app_add in Hr.
  assert (Hl : number 10 [bit (fd_last x)] ≤ max_long) by (unfold max_long; lia).
  destruct (j - 10)%nat as [|[|[|[|?]]]] eqn:Ei; [| | | |lia]; cbn [rest_of drop app] in Hr.
  - by eapply (runs_read_one f sf s p [blank] [bit (fd_last x)]); [exact Hs|exact Hr|repeat constructor|..].
  - by eapply (runs_read_one f sf s p [] [bit (fd_last x)]); [exact Hs|exact Hr|constructor|..].
  - by eapply (runs_read_none f sf s p [blank]); [exact Hs|exact Hr|repeat constructor|].
  - by eapply (runs_read_none f sf s p []); [exact Hs|exact Hr|constructor|].
Qed.

(** The beginning of a line has no mark. *)
Lemma take_unmarked k : (k < 35)%nat → "|"%char ∉ newline :: take k (field_line x).
Proof.
  intros Hk. destruct digits_ok as (L1&D1&_&L2&D2&_).
  assert (Hd : ∀ l, Forall (λ c, is_digit 10 c = true) l → "|"%char ∉ l).
  { intros l Hl Hin. rewrite Forall_forall in Hl. by specialize (Hl _ Hin). }
  assert (Ht : take k (field_line x) = take k (d1 ++ blank :: d2 ++ [blank; bit (fd_last x); blank])).
  { rewrite line_parts. rewrite <- (take_app_le (d1 ++ blank :: d2 ++ [blank; bit (fd_last x); blank]) ["|"%char; newline]).
    - rewrite <- !app_assoc. cbn [app]. by rewrite <- !app_assoc.
    - rewrite !length_app. cbn [length]. rewrite length_app. cbn [length]. lia. }
  rewrite Ht. intros [Hin|Hin]%elem_of_cons; [done|]. apply elem_of_take in Hin as (i&Hi&_).
  apply list_elem_of_lookup_2 in Hi. rewrite elem_of_app, elem_of_cons, elem_of_app in Hi.
  destruct Hi as [Hi|[Hi|[Hi|Hi]]]; [exact (Hd _ D1 Hi)|discriminate Hi|exact (Hd _ D2 Hi)|].
  rewrite !elem_of_cons in Hi. destruct (fd_last x); destruct Hi as [Hi|[Hi|[Hi|Hi%elem_of_nil]]]; try discriminate Hi; exact Hi.
Qed.
End torn.

(** What a process finds after [k] characters of the line of [y] have been written after
    the fields [xs] and [x]: a position without its first digits, the last whole field,
    or nothing; and [y] when only the end of the line is missing. *)
Definition torn_field (xs : list SizeField) (x y : SizeField) (k : nat) : SizeField :=
  if (k <? 20)%nat then mkField true (fd_last x) (fd_pending x) (fd_position x mod 10 ^ Z.of_nat (20 - k))
  else if (k <? 35)%nat then match xs with [] => zero_field | _ => x end
  else y.

Section interrupted.
Context (h : bytes) (Hh : header_ok h) (xs : list SizeField) (x y : SizeField).
Context (Hxs : Forall field_ok xs) (Hx : field_ok x) (Hy : field_ok y).

(** The object within an operation, with the stream anywhere. *)
Record holding (c : SizeField) (w : SizeFile) : Prop := {
  hd_good : sf_good w = true;
  hd_stashed : sf_stashed w = false;
  hd_current : sf_current w = c;
  hd_stream : ∃ f p, at_pos f p (sf_stream w)
}.

Lemma at_end_holding f c w : at_end f c w → holding c w.
Proof. intros []. split; [done..|]. by eexists _, _. Qed.

(** A field is read where the last one would be. *)
Lemma read_fields_found f f0 l c r w :
  size_header_read h f w → f = f0 ++ l → length l = 36%nat →
  (∀ s p, at_pos f p s → drop (Z.to_nat p) f = l →
    runs (read_field new_field) (λ z s', z = c ∧ ∃ q, at_pos f q s' ∧ drop (Z.to_nat q) f = r) s) →
  fd_good c = true → mruns (read_fields (Z.of_nat (length f))) (λ _ w', holding c w') w.
Proof.
  intros [H1 H2 H3 (p&H4)] Hf Hl Hread Hc. unfold read_fields, readLastField, reopenFile.
  apply mruns_bind, mruns_bind, mruns_bind, mruns_state. rewrite H2. apply mruns_ret, mruns_bind, mruns_file, runs_gets.
  cbn [file_of size_owner]. unfold file_size. rewrite (in_file _ _ (proj1 H4)). apply mruns_bind, mruns_file.
  eapply runs_mono; [eapply (runs_seek_to f _ p _ f0 l); [exact H4|exact Hf|]|].
  { rewrite Hf, length_app, Hl. unfold dimension, sf_s_long, sf_s_unsigned. lia. }
  intros [] s1 [Hs1 Hd]. apply mruns_file. eapply runs_mono; [by eapply Hread|]. intros z s2 (->&q&Hq&_).
  apply mruns_bind, mruns_update, mruns_bind, mruns_file. eapply runs_mono; [by eapply runs_good|]. intros b s3 [-> ->].
  rewrite Hc. cbn [andb]. apply mruns_file. eapply runs_mono; [by eapply runs_seek_end|].
  intros [] s4 Hs4. split; [done..|]. by eexists _, _.
Qed.

(** The search for a field. *)
Lemma readField_ok f w p (Q : SizeField → SizeFile → Prop) q f0 l :
  sf_stashed w = false → at_pos f p (sf_stream w) → f = f0 ++ l → q = Z.of_nat (length f0) →
  (∀ s, at_pos f q s → drop (Z.to_nat q) f = l → runs (read_field new_field) (λ z s', Q z (with_file s' w)) s) →
  mruns (readField q) Q w.
Proof.
  intros Hst Hs Hf Hq Hr. unfold readField, reopenFile. apply mruns_bind, mruns_bind, mruns_state. rewrite Hst.
  apply mruns_ret, mruns_bind, mruns_file. eapply runs_mono; [by eapply runs_seek_to|]. intros [] s1 [Hs1 Hd].
  apply mruns_file. by apply Hr.
Qed.

Context (k : nat) (Hk : (k ≤ 35)%nat).
Let f : bytes := file_text h (xs ++ [x]) ++ take k (field_line y).

Lemma take_line_length : length (take k (field_line y)) = k.
Proof. rewrite length_take, field_line_length by done. lia. Qed.
Lemma all_ok : Forall field_ok (xs ++ [x]).
Proof. apply Forall_app. split; [done|by apply Forall_singleton]. Qed.

Lemma fields_length : Z.of_nat (length f) = sh_size (mkHeader true h) + 1 + 36 * (Z.of_nat (length xs) + 1) + Z.of_nat k.
Proof.
  unfold f. rewrite length_app, take_line_length, Nat2Z.inj_add, size_header_length, field_lines_length by apply all_ok.
  rewrite length_app. cbn [length]. lia.
Qed.

(** The newline before the field of an index, and what follows. *)
Lemma file_at i : (i ≤ length xs + 1)%nat → ∃ f0, f = f0 ++ newline :: concat (field_line <$> drop i (xs ++ [x])) ++ take k (field_line y)
  ∧ Z.of_nat (length f0) = sh_size (mkHeader true h) + Z.of_nat i * 36.
Proof.
  intros Hi.
  exists (removelast (line (write_header (mkHeader true h)) ++ concat (field_line <$> take i (xs ++ [x])))).
  set (g := line (write_header (mkHeader true h)) ++ concat (field_line <$> take i (xs ++ [x]))).
  assert (Hlast : ∃ g0, g = g0 ++ [newline]).
  { unfold g. destruct (take i (xs ++ [x])) as [|z l] eqn:E using rev_ind.
    - exists (write_header (mkHeader true h)). cbn. by rewrite app_nil_r.
    - exists (line (write_header (mkHeader true h)) ++ concat (field_line <$> l) ++ write_field z).
      rewrite fmap_app, concat_app, <- !app_assoc. cbn [fmap list_fmap concat]. by rewrite app_nil_r. }
  destruct Hlast as [g0 Hg0]. fold g. rewrite Hg0, removelast_last. split.
  - change (newline :: concat (field_line <$> drop i (xs ++ [x])) ++ take k (field_line y)) with
      ([newline] ++ concat (field_line <$> drop i (xs ++ [x])) ++ take k (field_line y)).
    rewrite app_assoc, <- Hg0. unfold g, f, file_text. rewrite <- !app_assoc. f_equal.
    rewrite app_assoc, <- concat_app, <- fmap_app, take_drop. done.
  - assert (Hg : length g = (length h + 5 + 36 * i)%nat).
    { unfold g. rewrite length_app, field_lines_length by apply Forall_take, all_ok.
      rewrite length_take, length_app. cbn [length]. unfold line, write_header, dots. rewrite !length_app. cbn [length sh_header]. lia. }
    rewrite Hg0, length_app in Hg. cbn [length] in Hg. unfold sh_size. cbn [sh_header]. lia.
Qed.

(** The current field when nothing of [y] can be read is the last one, or there is none. *)
Definition last_field : SizeField := match xs with [] => zero_field | _ => x end.

Lemma header_bound : 0 ≤ sh_size (mkHeader true h).
Proof. unfold sh_size. lia. Qed.

(** The position of the field of an index. *)
Lemma readField_at w p i (Q : SizeField → SizeFile → Prop) :
  sf_stashed w = false → at_pos f p (sf_stream w) → (i ≤ length xs + 1)%nat →
  (∀ s q, at_pos f q s → drop (Z.to_nat q) f = newline :: concat (field_line <$> drop i (xs ++ [x])) ++ take k (field_line y) →
    runs (read_field new_field) (λ z s', Q z (with_file s' w)) s) →
  mruns (readField (sh_size (mkHeader true h) + Z.of_nat i * (dimension + 1))) Q w.
Proof.
  intros Hst Hs Hi Hr. destruct (file_at i Hi) as (f0&Hf&Hl). eapply readField_ok; [exact Hst|exact Hs|exact Hf| |].
  - rewrite Hl. unfold dimension, sf_s_long, sf_s_unsigned. lia.
  - intros s Hs1 Hd. by eapply Hr.
Qed.

Lemma find_skips w : (k < 35)%nat → size_header_read h f w →
  ∀ Q, (∀ w1, size_header_read h f w1 → mruns (find_field (length xs)) Q w1) → mruns (find_field (S (length xs))) Q w.
Proof.
  intros Hk1 [H1 H2 H3 (p&H4)] Q HQ. cbn [find_field]. apply mruns_bind, mruns_state. rewrite H3. apply mruns_bind.
  replace (Z.of_nat (S (length xs))) with (Z.of_nat (length xs + 1)) by lia.
  eapply (readField_at w p); [exact H2|exact H4|lia|]. intros s q Hs Hd.
  rewrite (drop_ge (xs ++ [x])) in Hd by (rewrite length_app; cbn; lia). cbn [fmap list_fmap concat app] in Hd.
  eapply runs_mono; [eapply (runs_read_unmarked f s q); [exact Hs|]|].
  { rewrite Hd. by apply take_unmarked. }
  intros z s' [Hz Hs']. apply mruns_bind, mruns_update, mruns_bind, mruns_file. apply runs_gets. rewrite Hz. cbn [andb].
  destruct (is_good _) eqn:Hg; apply mruns_bind.
  - apply mruns_ret, HQ. split; [exact H1|exact H2|exact H3|]. eexists. by split.
  - apply mruns_file. eapply runs_mono; [by apply (runs_clear f)|]. intros [] s2 Hs2. apply HQ.
    split; [exact H1|exact H2|exact H3|]. by eexists.
Qed.

Lemma find_stops w i : xs ≠ [] → length xs = i → size_header_read h f w → mruns (find_field i) (λ b w', b = true ∧ holding x w') w.
Proof.
  intros Hne Hi [H1 H2 H3 (p&H4)]. destruct i as [|i]; [by destruct xs|]. cbn [find_field].
  apply mruns_bind, mruns_state. rewrite H3. apply mruns_bind.
  eapply (readField_at w p); [exact H2|exact H4|lia|]. intros s q Hs Hd.
  rewrite <- Hi, drop_app_length in Hd. cbn [fmap list_fmap concat] in Hd. rewrite app_nil_r in Hd.
  eapply runs_mono; [eapply (runs_read_this x Hx f _ s q [newline]); [exact Hs|exact Hd|by repeat constructor]|].
  intros z s' (->&q2&Hq2&_). apply mruns_bind, mruns_update, mruns_bind, mruns_file.
  eapply runs_mono; [by eapply runs_good|]. intros b s2 [-> ->]. rewrite (fo_good _ Hx). cbn [andb].
  apply mruns_bind, mruns_file. eapply runs_mono; [by eapply runs_tell|]. intros n s3 [-> ->].
  apply mruns_bind, mruns_file. eapply runs_mono; [eapply runs_seek; [exact Hq2|by eapply at_pos_pos]|].
  intros [] s4 Hs4. apply mruns_ret. split; [done|]. split; [exact H1|exact H2|done|]. by eexists _, _.
Qed.

Lemma start_again_ok w : size_header_read h f w → mruns start_again (λ _ w', holding zero_field w') w.
Proof.
  intros [H1 H2 H3 (p&H4)]. unfold start_again. apply mruns_bind, mruns_update.
  eapply mruns_mono; [eapply (newSizeFile_ok f h); [apply H4|exact H1|exact H3|exact H2]|].
  intros [] w1 Hw1. by eapply at_end_holding.
Qed.

Lemma recover_fields_ok w : (k < 35)%nat → sf_good w = true → sf_stashed w = false → sf_header w = mkHeader true h →
  spoiled f (sf_stream w) → mruns (recover_fields (Z.of_nat (length f))) (λ _ w', holding last_field w') w.
Proof.
  intros Hk1 H1 H2 H3 Hs. unfold recover_fields. apply mruns_bind, mruns_file.
  eapply runs_mono; [by eapply runs_good_spoiled|]. intros b s1 [-> ->]. apply mruns_bind, mruns_file.
  eapply runs_mono; [apply (runs_clear f), Hs|]. intros [] s2 Hs2. apply mruns_bind, mruns_state.
  cbn [sf_header with_file size_owner]. rewrite H3.
  assert (Hn : Z.to_nat ((Z.of_nat (length f) - sh_size (mkHeader true h)) `quot` (dimension + 1)) = S (length xs)).
  { rewrite fields_length. unfold dimension, sf_s_long, sf_s_unsigned.
    replace (sh_size (mkHeader true h) + 1 + 36 * (Z.of_nat (length xs) + 1) + Z.of_nat k - sh_size (mkHeader true h))
      with ((Z.of_nat (length xs) + 1) * 36 + (1 + Z.of_nat k)) by lia.
    replace (20 + 10 + 5 + 1) with 36 by lia. rewrite Z.quot_div_nonneg by lia.
    rewrite Z.div_add_l, Z.div_small by lia. lia. }
  rewrite Hn. apply mruns_bind, find_skips; [done|by split; [..|eexists]|]. intros w1 Hw1.
  destruct (decide (xs = [])) as [E|E].
  - rewrite E. cbn [length find_field]. apply mruns_ret. unfold last_field. rewrite E. by apply start_again_ok.
  - eapply mruns_mono; [by eapply find_stops|]. intros b w2 [-> Hw2]. apply mruns_ret. unfold last_field. by destruct xs.
Qed.

(** The three ways the last field can be. *)
Lemma reads_leading w : (k < 20)%nat → size_header_read h f w →
  mruns (read_fields (Z.of_nat (length f))) (λ _ w', holding (torn_field xs x y k) w') w.
Proof.
  intros Hk1 Hw. destruct (drop_position x Hx k Hk1) as (Hl&Hd&Hn). destruct (digits_ok x Hx) as (_&_&_&L2&D2&N2).
  assert (Ht : torn_field xs x y k = mkField true (fd_last x) (fd_pending x) (fd_position x mod 10 ^ Z.of_nat (20 - k))).
  { unfold torn_field. by rewrite (proj2 (Nat.ltb_lt _ _) Hk1). }
  eapply (read_fields_found f (file_text h xs ++ take k (field_line x)) (drop k (field_line x) ++ take k (field_line y)) _
    (newline :: take k (field_line y))); [exact Hw| | | |by rewrite Ht].
  - unfold f. rewrite file_text_snoc, <- !app_assoc. f_equal. by rewrite app_assoc, take_drop.
  - rewrite length_app, take_line_length, length_drop, field_line_length by done. lia.
  - intros s p Hs Hr. rewrite Hl, <- app_assoc in Hr. pose proof (fo_position _ Hx). pose proof (fo_pending _ Hx).
    assert (fd_position x mod 10 ^ Z.of_nat (20 - k) ≤ fd_position x) by (apply Z.mod_le; [lia|apply Z.pow_pos_nonneg; lia]).
    eapply runs_mono; [eapply (runs_read_field f new_field s p []); [exact Hs|exact Hr|constructor|exact Hd|lia|by apply pending_numeral|]|].
    + rewrite N2. lia.
    + intros z s' [-> Hq]. split; [|exact Hq]. rewrite Ht, Hn, N2. done.
Qed.

Lemma reads_nothing w : (20 ≤ k < 35)%nat → size_header_read h f w →
  mruns (read_fields (Z.of_nat (length f))) (λ _ w', holding (torn_field xs x y k) w') w.
Proof.
  intros Hk1 [H1 H2 H3 (p&H4)].
  assert (Ht : torn_field xs x y k = last_field).
  { unfold torn_field. rewrite (proj2 (Nat.ltb_ge k 20)), (proj2 (Nat.ltb_lt k 35)) by lia. done. }
  assert (Hf : f = (file_text h xs ++ take k (field_line x)) ++ drop k (field_line x) ++ take k (field_line y)).
  { unfold f. rewrite file_text_snoc, <- !app_assoc. f_equal. by rewrite app_assoc, take_drop. }
  rewrite Ht. unfold read_fields, readLastField, reopenFile.
  apply mruns_bind, mruns_bind, mruns_bind, mruns_state. rewrite H2. apply mruns_ret, mruns_bind, mruns_file, runs_gets.
  cbn [file_of size_owner]. unfold file_size. rewrite (in_file _ _ (proj1 H4)). apply mruns_bind, mruns_file.
  eapply runs_mono; [eapply (runs_seek_to f _ p _ _ _); [exact H4|exact Hf|]|].
  { rewrite Hf at 1. rewrite !length_app, take_line_length, length_drop, length_take, field_line_length by done.
    unfold dimension, sf_s_long, sf_s_unsigned. lia. }
  intros [] s1 [Hs1 Hd]. apply mruns_file. eapply runs_mono; [by eapply (read_torn x Hx f)|]. intros z s2 [Hz Hs2].
  apply mruns_bind, mruns_update, mruns_bind, mruns_file. eapply runs_mono; [by eapply runs_good_spoiled|].
  intros b s3 [-> ->]. rewrite andb_false_r. apply recover_fields_ok; [lia|exact H1|exact H2|exact H3|exact Hs2].
Qed.

Lemma reads_whole w : k = 35%nat → size_header_read h f w →
  mruns (read_fields (Z.of_nat (length f))) (λ _ w', holding (torn_field xs x y k) w') w.
Proof.
  intros Hk1 Hw. assert (Ht : torn_field xs x y k = y) by (unfold torn_field; by rewrite Hk1).
  destruct (file_at (length xs + 1)) as (f0&Hf&_); [lia|].
  rewrite (drop_ge (xs ++ [x])) in Hf by (rewrite length_app; cbn; lia). cbn [fmap list_fmap concat app] in Hf.
  assert (Hy1 : take k (field_line y) = field_from (print_num 10 (Z.to_nat sf_s_long) (fd_position y))
    (print_num 10 (Z.to_nat sf_s_unsigned) (fd_pending y)) (fd_last y)).
  { pose proof (field_line_length y Hy) as Hl. rewrite field_line_from in *. rewrite length_app in Hl. cbn [length] in Hl.
    apply take_app_length'. lia. }
  eapply (read_fields_found f f0 (newline :: take k (field_line y)) _ []); [exact Hw|exact Hf| | |rewrite Ht; apply Hy].
  - cbn [length]. rewrite take_line_length. lia.
  - intros s p Hs Hr. rewrite Hy1 in Hr. destruct (digits_ok y Hy) as (_&_&N1&_&_&N2).
    pose proof (fo_position _ Hy). pose proof (fo_pending _ Hy).
    eapply runs_mono; [eapply (runs_read_field f new_field s p [newline]);
      [exact Hs|cbn [app]; rewrite app_nil_r; exact Hr|by repeat constructor|by apply position_numeral| |by apply pending_numeral|]|].
    + rewrite N1. lia.
    + rewrite N2. lia.
    + intros z s' [-> Hq]. split; [|exact Hq]. rewrite Ht, N1, N2. pose proof (fo_good _ Hy). destruct y; cbn in *. congruence.
Qed.

Lemma reads_interrupted w : size_header_read h f w →
  mruns (read_fields (Z.of_nat (length f))) (λ _ w', holding (torn_field xs x y k) w') w.
Proof.
  intros Hw. destruct (decide (k < 20)%nat); [by apply reads_leading|].
  destruct (decide (k = 35)%nat); [by apply reads_whole|]. apply reads_nothing; [lia|exact Hw].
Qed.
End interrupted.

Lemma holding_stashed c w : holding c w → mruns (set_stashed false) (λ _ w', holding c w') w.
Proof. intros []. apply mruns_update. by split. Qed.

(** C20. An update of the position file that stops after [k] of the 35 characters of its
    field. A process that starts takes what it finds at the place of the last field: when
    [k] is less than 20 that is the field before, with a position that has lost its first
    [k] digits. From 20 on no field is found there and the search goes back to the field
    before; but it does not try the first of the file, and starts again from zero when
    that is the only one. With the mark of the end the new field is there. *)
Theorem interrupted_update h xs x y k w :
  header_ok h → Forall field_ok xs → field_ok x → field_ok y → (k ≤ 35)%nat →
  intact (file_text h (xs ++ [x]) ++ take k (field_line y)) (sf_stream w) →
  mruns (size_construct false) (λ _ w', sf_good w' = true ∧ sf_current w' = torn_field xs x y k) w.
Proof.
  intros Hh Hxs Hx Hy Hk Hi. unfold size_construct. apply mruns_bind, mruns_update, mruns_bind.
  eapply mruns_mono; [eapply (openFile_fields h Hh _ (xs ++ [x]) _ _ (holding (torn_field xs x y k)));
    [exact Hi|done|done|reflexivity| |apply holding_stashed]|].
  - intros w1 Hw1. by apply reads_interrupted.
  - intros [] w1 [H1 H2 H3 (f&p&H4)]. unfold stashFile. apply mruns_bind, mruns_state. rewrite H2.
    apply mruns_bind, mruns_file. eapply runs_mono; [by eapply runs_tell|]. intros n s [-> ->].
    apply mruns_bind, mruns_update, mruns_update. by split.
Qed.

(** ** Sequences of requests *)

Inductive size_request :=
  | UpdatePosition (position : Z)
  | UpdatePending (pending : Z)
  | UpdateLast (last : bool)
  | UpdateField (position pending : Z) (last : bool)
  | SetLast (last : bool)
  | SetCompleted
  | IncrementPending
  | DecrementPending
  | RestartMonitor.

(** Each answers with the current field ([size_field]). *)
Definition size_serve (r : size_request) : Own SizeFile SizeField :=
  (match r with
   | UpdatePosition p => update_position p
   | UpdatePending n => update_pending n
   | UpdateLast b => update_last b
   | UpdateField p n b => size_update p n b
   | SetLast b => set_last b
   | SetCompleted => set_completed
   | IncrementPending => increment_pending
   | DecrementPending => decrement_pending
   | RestartMonitor => size_construct false
   end);;
  state sf_current.

(** The specification: the field that is kept in the file, and the current one. *)
Definition kept_and_current : Type := SizeField * SizeField.
Definition keep (f : SizeField → SizeField) (m : kept_and_current) : kept_and_current := (f m.2, f m.2).
Definition change (f : SizeField → SizeField) (m : kept_and_current) : kept_and_current := (m.1, f m.2).

Definition size_effect (r : size_request) : kept_and_current → kept_and_current :=
  match r with
  | UpdatePosition p => keep (moved_field p)
  | UpdatePending n => keep (with_pending n)
  | UpdateLast b => keep (with_last b)
  | UpdateField p n b => keep (λ _, reset_field p n b)
  | SetLast b => change (with_last b)
  | SetCompleted => change completed_field
  | IncrementPending => change incremented
  | DecrementPending => change decremented
  | RestartMonitor => λ m, (m.1, m.1)
  end.
Definition size_spec (r : size_request) (m : kept_and_current) : SizeField * kept_and_current :=
  let m := size_effect r m in (m.2, m).

(** The arguments have their types. *)
Definition is_long (p : Z) : bool := (0 <=? p) && (p <=? max_long).
Definition is_unsigned (n : Z) : bool := (0 <=? n) && (n <=? max_unsigned).
Definition request_ok (r : size_request) : bool :=
  match r with
  | UpdatePosition p => is_long p
  | UpdatePending n => is_unsigned n
  | UpdateField p n _ => is_long p && is_unsigned n
  | _ => true
  end.

Definition has_fields (m : kept_and_current) (w : SizeFile) : Prop :=
  ∃ h xs, header_ok h ∧ saved h (xs ++ [m.1]) m.2 w.

Lemma is_long_bounds p : is_long p = true → 0 ≤ p ≤ max_long.
Proof. unfold is_long. intros H. breflect. lia. Qed.
Lemma is_unsigned_bounds p : is_unsigned p = true → 0 ≤ p ≤ max_unsigned.
Proof. unfold is_unsigned. intros H. breflect. lia. Qed.
#[local] Hint Resolve is_long_bounds is_unsigned_bounds : core.

(** The changes keep the values within their types. *)
Lemma moved_field_ok p x : is_long p = true → field_ok x → field_ok (moved_field p x).
Proof. intros Hp []. split; cbn; auto. Qed.
Lemma with_pending_ok n x : 0 ≤ n ≤ max_unsigned → field_ok x → field_ok (with_pending n x).
Proof. intros Hn []. by split. Qed.
Lemma with_last_ok b x : field_ok x → field_ok (with_last b x).
Proof. intros []. by split. Qed.
Lemma reset_field_ok p n b : is_long p && is_unsigned n = true → field_ok (reset_field p n b).
Proof. intros [Hp Hn]%andb_prop. split; cbn; auto. Qed.
Lemma incremented_ok x : field_ok x → field_ok (incremented x).
Proof.
  apply with_pending_ok. unfold max_unsigned. pose proof (u32_range (fd_pending x + 1)). lia.
Qed.
Lemma decremented_ok x : field_ok x → field_ok (decremented x).
Proof.
  intros Hx. unfold decremented. destruct (0 <? fd_pending x) eqn:E; [|done]. breflect. pose proof (fo_pending _ Hx).
  apply with_pending_ok; [lia|done].
Qed.
Lemma completed_field_ok x : field_ok x → field_ok (completed_field x).
Proof. intros Hx. by apply with_last_ok, with_pending_ok. Qed.
#[local] Hint Resolve moved_field_ok with_pending_ok with_last_ok reset_field_ok incremented_ok decremented_ok
  completed_field_ok : core.

Section requests.
Context (w : SizeFile) (m : kept_and_current) (Hm : has_fields m w).

Lemma served (u : Own SizeFile unit) m' :
  mruns u (λ _ w', has_fields m' w') w → mruns (u;; state sf_current) (λ r w', r = m'.2 ∧ has_fields m' w') w.
Proof.
  intros H. apply mruns_bind. eapply mruns_mono; [exact H|]. intros [] w1 (h&xs&Hh&Hw). apply mruns_state.
  split; [apply (sv_current _ _ _ _ Hw)|by exists h, xs].
Qed.

Lemma served_update g : (∀ x, field_ok x → field_ok (g x)) → mruns (update_field g) (λ _ w', has_fields (keep g m) w') w.
Proof.
  intros Hg. destruct Hm as (h&xs&Hh&Hw). eapply mruns_mono; [eapply (update_field_ok _ _ _ _ g Hw), Hg, (sv_field _ _ _ _ Hw)|].
  intros [] w' Hw'. by exists h, (xs ++ [m.1]).
Qed.
Lemma served_change g : (∀ x, field_ok x → field_ok (g x)) → mruns (change_field g) (λ _ w', has_fields (change g m) w') w.
Proof.
  intros Hg. destruct Hm as (h&xs&Hh&Hw). eapply mruns_mono; [eapply (change_field_ok _ _ _ _ g Hw), Hg, (sv_field _ _ _ _ Hw)|].
  intros [] w' Hw'. by exists h, xs.
Qed.
Lemma served_restart : mruns (size_construct false) (λ _ w', has_fields (m.1, m.1) w') w.
Proof.
  destruct Hm as (h&xs&Hh&Hw). eapply mruns_mono; [eapply (construct_last h xs m.1); [exact Hh|apply Hw..]|].
  intros [] w' Hw'. by exists h, xs.
Qed.

Lemma size_serve_ok r : request_ok r = true →
  mruns (size_serve r) (λ x w', x = (size_spec r m).1 ∧ has_fields (size_spec r m).2 w') w.
Proof.
  intros Hr. apply served. destruct r; cbn [request_ok] in Hr;
    first [by apply served_restart|apply served_update; intros; by auto|apply served_change; intros; by auto].
Qed.
End requests.

Lemma all_requests_ok rs : Forall (λ r, request_ok r = true) rs → ∀ w, all_can size_serve (λ r _, request_ok r = true) rs w.
Proof. induction 1 as [|r rs Hr _ IH]; intros w; cbn; [done|]. split; [done|]. by destruct (size_serve r w) as [[]|]. Qed.

(** C19. A log monitor that creates the position file of a log, and asks for any sequence of
    updates, changes in memory and starts of new processes, gets the answers of a pair of
    a field that is kept and a current one: an update makes the current one the one that
    is kept, and a new process has the one that was kept. At the end the file has it. *)
Theorem size_file_refines_pair f rs w :
  intact f (sf_stream w) → Forall (λ r, request_ok r = true) rs →
  let answers := spec_all size_spec rs (zero_field, zero_field) in
  mruns (size_construct true;; run_all size_serve rs) (λ out w', out = answers.1 ∧ has_fields answers.2 w') w.
Proof.
  intros Hi Hrs answers. apply mruns_bind. eapply mruns_mono; [by eapply construct_new|]. intros [] w1 Hw1.
  apply (run_all_ok size_serve size_spec (λ r _, request_ok r = true) has_fields).
  - intros r w2 m Hm Hr. by apply size_serve_ok.
  - exists sf_s_defaultHeader, []. split; [apply default_header_ok|exact Hw1].
  - by apply all_requests_ok.
Qed.

(** *** A header that is not longer *)

Lemma overwrite_header h h' xs b :
  length h' = length h → overwrite (file_text h xs) 0 (write_header (mkHeader b h')) = file_text h' xs.
Proof.
  intros Hl. unfold file_text, line, write_header. cbn [sh_header]. rewrite <- !(app_assoc _ [newline]).
  apply (overwrite_app [] (h ++ newline :: dots) ([newline] ++ _) (h' ++ newline :: dots)); [|done].
  rewrite !length_app. cbn [length]. lia.
Qed.

Lemma ftruncate_at f s : at_pos f 0 s → runs (ftruncate 0) (λ b s', b = true ∧ at_pos [] 0 s') s.
Proof.
  intros ([Hf Hb Hn Hp]&Hg&Hq). unfold ftruncate. eapply runs_ok; [by rewrite Hn|]. split; [done|].
  split_and!; [by constructor|exact Hg|exact Hq].
Qed.

Lemma update_header_ok h xs c h' w :
  saved h xs c w → sh_header (sf_header w) = h → (length h' ≤ length h)%nat →
  mruns (update_header h') (λ _ w', saved h' (if (length h' =? length h)%nat then xs else [c]) c w') w.
Proof.
  intros Hw Hh Hle. unfold update_header. apply mruns_bind.
  eapply mruns_mono; [by eapply (reopenFile_ok (file_text h xs) c w); apply Hw|]. intros [] w1 [[H1 H2 H3 H4] H5].
  apply mruns_bind, mruns_state. rewrite H1. apply mruns_bind, mruns_bind, mruns_state. rewrite H5, Hh.
  destruct (length h' =? length h)%nat eqn:E.
  - apply Nat.eqb_eq in E. rewrite (proj2 (Nat.leb_le _ _)) by lia. rewrite E, Nat.sub_diag. cbn [Nat.ltb Nat.leb Nat.eqb].
    apply mruns_bind, mruns_update, mruns_bind, mruns_state, mruns_bind, mruns_file.
    eapply runs_mono; [eapply runs_good, H3|]. intros b s [-> ->]. cbn [sf_header with_file size_owner].
    apply mruns_bind, mruns_file. eapply runs_mono; [eapply runs_seek; [exact H3|lia]|]. intros [] s2 Hs2.
    apply mruns_bind, mruns_file. eapply runs_mono; [by eapply runs_put|]. intros [] s3 Hs3.
    assert (Ho : overwrite (file_text h xs) (Z.to_nat 0) (write_header (reset_header h')) = file_text h' xs) by exact (overwrite_header h h' xs _ E).
    rewrite Ho in Hs3.
    apply mruns_bind, mruns_file. eapply runs_mono; [by eapply runs_seek_end|]. intros [] s4 Hs4.
    apply mruns_bind, mruns_file. eapply runs_mono; [by eapply runs_good|]. intros b s5 [-> ->].
    apply mruns_update. apply stashFile_ok; [by split|apply Hw..].
  - apply Nat.eqb_neq in E. rewrite (proj2 (Nat.leb_gt _ _)) by lia.
    apply mruns_bind, mruns_update, mruns_bind, mruns_file. eapply runs_mono; [eapply runs_seek; [exact H3|lia]|]. intros [] s2 Hs2.
    apply mruns_bind, mruns_file. eapply runs_mono; [apply (ftruncate_at (file_text h xs)), Hs2|]. intros b s3 [-> Hs3].
    apply mruns_bind, mruns_state, mruns_bind, mruns_state, mruns_bind, mruns_file. cbn [sf_header sf_current with_file size_owner].
    rewrite H4. eapply runs_mono; [apply (runs_put_end []), Hs3|]. intros [] s4 Hs4.
    apply mruns_bind, mruns_file. eapply runs_mono; [apply runs_put_end, Hs4|]. intros [] s5 Hs5.
    apply mruns_bind, mruns_file. eapply runs_mono; [by eapply runs_good|]. intros b s6 [-> ->].
    apply mruns_update. apply stashFile_ok; [|apply Hw|apply Forall_singleton, Hw].
    assert (Ht : file_text h' [c] = ([] ++ line (write_header (reset_header h'))) ++ line (write_field c)).
    { unfold file_text. cbn [fmap list_fmap concat]. by rewrite app_nil_r. }
    rewrite Ht. by split.
Qed.
(** *** Witnesses *)

Definition size_start (f : bytes) : SizeFile := mkSize true false 0 (mkHeader false []) new_field (open_file f 0 None).
Lemma start_intact f : intact f (sf_stream (size_start f)).
Proof. by split. Qed.

Definition size_sample : list size_request :=
  [UpdatePosition 120; IncrementPending; UpdatePosition 4096; IncrementPending; SetLast true; RestartMonitor;
   DecrementPending; UpdateField 8000 0 true; DecrementPending].

Lemma size_file_refines_pair_witness :
  Forall (λ r, request_ok r = true) size_sample ∧
  ∃ w', (size_construct true;; run_all size_serve size_sample) (size_start []) =
    Some (inr [mkField true false 0 120; mkField true false 1 120; mkField true false 1 4096;
               mkField true false 2 4096; mkField true true 2 4096; mkField true false 1 4096;
               mkField true false 0 4096; mkField true true 0 8000; mkField true true 0 8000], w')
    ∧ has_fields (mkField true true 0 8000, mkField true true 0 8000) w'.
Proof.
  assert (Hr : Forall (λ r, request_ok r = true) size_sample) by (repeat constructor). split; [exact Hr|].
  destruct (size_file_refines_pair [] size_sample (size_start [])) as (out&w'&E&Ho&Hw); [apply start_intact|exact Hr|].
  exists w'. rewrite E, Ho. split; [by vm_compute|exact Hw].
Defined.

Definition torn_sample : SizeField * SizeField := (mkField true false 2 4096, mkField true false 2 8000).

Lemma interrupted_update_witness :
  let text k := file_text sf_s_defaultHeader [zero_field; torn_sample.1] ++ take k (field_line torn_sample.2) in
  let found k := mruns (size_construct false) (λ _ w', sf_good w' = true ∧ sf_current w' = k) in
  found (mkField true false 2 96) (size_start (text 18%nat))
  ∧ found (mkField true false 2 4096) (size_start (text 30%nat))
  ∧ found (mkField true false 2 8000) (size_start (text 35%nat)).
Proof.
  intros text found. assert (H : Forall field_ok [zero_field; torn_sample.1; torn_sample.2]).
  { repeat constructor; cbn; unfold max_long, max_unsigned; lia. }
  apply Forall_cons in H as [H0 H]. apply Forall_cons in H as [H1 H]. apply Forall_cons in H as [H2 _].
  assert (Hk : ∀ k, (k ≤ 35)%nat → found (torn_field [zero_field] torn_sample.1 torn_sample.2 k) (size_start (text k))).
  { intros k Hk. unfold found. apply (interrupted_update sf_s_defaultHeader [zero_field] torn_sample.1 torn_sample.2 k);
      [apply default_header_ok|by apply Forall_singleton|exact H1|exact H2|exact Hk|apply start_intact]. }
  split; [exact (Hk 18%nat ltac:(lia))|]. split; [exact (Hk 30%nat ltac:(lia))|exact (Hk 35%nat ltac:(lia))].
Defined.

(** ** The header *)

(** A header that is longer than the one of the file is written over the fields: a process
    that starts afterwards has none of them. *)
Lemma longer_header_loses_fields :
  let updates := size_construct true;; update_position 4096 in
  let h := sf_s_defaultHeader ++ replicate 40 "x"%char in
  (fst <$> (updates;; size_construct false;; state sf_current) (size_start [])) = Some (inr (mkField true false 0 4096))
  ∧ (fst <$> (updates;; update_header h;; size_construct false;; state sf_current) (size_start [])) = Some (inr zero_field).
Proof. vm_compute. split; reflexivity. Qed.
