(* ===== verification/TimerEvent.v ===== *)
(** * The events of the timers (Timer.cpp: TimeoutEvent)

    The log monitor keeps the timers that it has started in a file: the event of each is
    written as an ad ([to_classad], [event_to_classad] here) and made again from it after a
    restart ([to_event], [classad_to_event]). Condor's events and the ClassAd library are
    interfaces. Twenty of the classes of events come back; those with the use of resources
    cannot be restored, and four others lose a member. *)

From S2P Require Import Prelude.
From S2P Require Import WmWorld.
From S2P Require Import SmallAds.

(** ** Condor's events *)

Inductive ULogEventNumber :=
  | ULOG_SUBMIT | ULOG_EXECUTE | ULOG_EXECUTABLE_ERROR | ULOG_CHECKPOINTED | ULOG_JOB_EVICTED
  | ULOG_JOB_TERMINATED | ULOG_IMAGE_SIZE | ULOG_SHADOW_EXCEPTION | ULOG_GENERIC | ULOG_JOB_ABORTED
  | ULOG_JOB_SUSPENDED | ULOG_JOB_UNSUSPENDED | ULOG_JOB_HELD | ULOG_JOB_RELEASED | ULOG_NODE_EXECUTE
  | ULOG_NODE_TERMINATED | ULOG_POST_SCRIPT_TERMINATED | ULOG_GLOBUS_SUBMIT | ULOG_GLOBUS_SUBMIT_FAILED
  | ULOG_GLOBUS_RESOURCE_UP | ULOG_GLOBUS_RESOURCE_DOWN | ULOG_REMOTE_ERROR | ULOG_JOB_DISCONNECTED
  | ULOG_JOB_RECONNECTED | ULOG_JOB_RECONNECT_FAILED | ULOG_GRID_SUBMIT | ULOG_GRID_RESOURCE_UP
  | ULOG_GRID_RESOURCE_DOWN.

#[export] Instance ULogEventNumber_eq_dec : EqDecision ULogEventNumber.
Proof. solve_decision. Defined.

(** [struct rusage], whose times are in seconds and microseconds. *)
Record Rusage := mkRusage {
  ru_maxrss : Z; ru_ixrss : Z; ru_idrss : Z; ru_isrss : Z; ru_minflt : Z; ru_majflt : Z; ru_nswap : Z;
  ru_inblock : Z; ru_oublock : Z; ru_msgsnd : Z; ru_msgrcv : Z; ru_nsignals : Z; ru_nvcsw : Z; ru_nivcsw : Z;
  ru_utime : Z * Z; ru_stime : Z * Z
}.

(** The members of the events that are kept. A [char *] may be null, and a text ends at its
    first null character: it has none; an array of
    characters that has no terminator is [None]; a [float] is its 32 bits. *)
Inductive event_body :=
  | SubmitEvent (submitEventLogNotes submitEventUserNotes : option string)
  | ExecuteEvent (executeHost : option string)
  | ExecutableErrorEvent (errType : Z)
  | CheckpointedEvent (run_local_rusage run_remote_rusage : Rusage)
  | JobEvictedEvent (checkpointed : bool) (sent_bytes recvd_bytes : Z) (terminate_and_requeued normal : bool)
      (return_value signal_number : Z) (reason core_file : option string)
      (run_local_rusage run_remote_rusage : Rusage)
  | JobTerminatedEvent (normal : bool) (returnValue signalNumber : Z)
      (sent_bytes recvd_bytes total_sent_bytes total_recvd_bytes : Z) (core_file : option string)
      (run_local_rusage run_remote_rusage total_local_rusage total_remote_rusage : Rusage)
  | JobImageSizeEvent (image_size_kb : Z)
  | ShadowExceptionEvent (message : option string) (sent_bytes recvd_bytes : Z)
  | GenericEvent (info : option string)
  | JobAbortedEvent (reason : option string)
  | JobSuspendedEvent (num_pids : Z)
  | JobUnsuspendedEvent
  | JobHeldEvent (reason : option string) (reason_code reason_subcode : Z)
  | JobReleasedEvent (reason : option string)
  | NodeExecuteEvent (node : Z) (executeHost : option string)
  | NodeTerminatedEvent (node : Z) (normal : bool) (returnValue signalNumber : Z)
      (sent_bytes recvd_bytes total_sent_bytes total_recvd_bytes : Z) (core_file : option string)
      (run_local_rusage run_remote_rusage total_local_rusage total_remote_rusage : Rusage)
  | PostScriptTerminatedEvent (normal : bool) (returnValue signalNumber : Z)
  | GlobusSubmitEvent (rmContact jmContact : option string) (restartableJM : bool)
  | GlobusSubmitFailedEvent (reason : option string)
  | GlobusResourceUpEvent (rmContact : option string)
  | GlobusResourceDownEvent (rmContact : option string)
  | RemoteErrorEvent (execute_host daemon_name error_str : option string) (critical_error : bool)
  | JobDisconnectedEvent (startd_addr startd_name disconnect_reason no_reconnect_reason : option string)
      (can_reconnect : bool)
  | JobReconnectedEvent (startd_addr startd_name starter_addr : option string)
  | JobReconnectFailedEvent (startd_name reason : option string)
  | GridSubmitEvent (resourceName jobId : option string)
  | GridResourceUpEvent (resourceName : option string)
  | GridResourceDownEvent (resourceName : option string).

(** The number of an event is that of its class. *)
Definition number_of (b : event_body) : ULogEventNumber :=
  match b with
  | SubmitEvent _ _ => ULOG_SUBMIT
  | ExecuteEvent _ => ULOG_EXECUTE
  | ExecutableErrorEvent _ => ULOG_EXECUTABLE_ERROR
  | CheckpointedEvent _ _ => ULOG_CHECKPOINTED
  | JobEvictedEvent _ _ _ _ _ _ _ _ _ _ _ => ULOG_JOB_EVICTED
  | JobTerminatedEvent _ _ _ _ _ _ _ _ _ _ _ _ => ULOG_JOB_TERMINATED
  | JobImageSizeEvent _ => ULOG_IMAGE_SIZE
  | ShadowExceptionEvent _ _ _ => ULOG_SHADOW_EXCEPTION
  | GenericEvent _ => ULOG_GENERIC
  | JobAbortedEvent _ => ULOG_JOB_ABORTED
  | JobSuspendedEvent _ => ULOG_JOB_SUSPENDED
  | JobUnsuspendedEvent => ULOG_JOB_UNSUSPENDED
  | JobHeldEvent _ _ _ => ULOG_JOB_HELD
  | JobReleasedEvent _ => ULOG_JOB_RELEASED
  | NodeExecuteEvent _ _ => ULOG_NODE_EXECUTE
  | NodeTerminatedEvent _ _ _ _ _ _ _ _ _ _ _ _ _ => ULOG_NODE_TERMINATED
  | PostScriptTerminatedEvent _ _ _ => ULOG_POST_SCRIPT_TERMINATED
  | GlobusSubmitEvent _ _ _ => ULOG_GLOBUS_SUBMIT
  | GlobusSubmitFailedEvent _ => ULOG_GLOBUS_SUBMIT_FAILED
  | GlobusResourceUpEvent _ => ULOG_GLOBUS_RESOURCE_UP
  | GlobusResourceDownEvent _ => ULOG_GLOBUS_RESOURCE_DOWN
  | RemoteErrorEvent _ _ _ _ => ULOG_REMOTE_ERROR
  | JobDisconnectedEvent _ _ _ _ _ => ULOG_JOB_DISCONNECTED
  | JobReconnectedEvent _ _ _ => ULOG_JOB_RECONNECTED
  | JobReconnectFailedEvent _ _ => ULOG_JOB_RECONNECT_FAILED
  | GridSubmitEvent _ _ => ULOG_GRID_SUBMIT
  | GridResourceUpEvent _ => ULOG_GRID_RESOURCE_UP
  | GridResourceDownEvent _ => ULOG_GRID_RESOURCE_DOWN
  end.

(** Condor's library and the conversions that the code calls. *)
Class UserLog := {
  tm : Type;                                         (* struct tm *)
  mktime : tm → Z;
  localtime_r : Z → tm;
  ulog_number : ULogEventNumber → Z;                 (* the constants of the enumeration *)
  instantiateEvent : Z → option event_body;          (* None: a null pointer *)
  new_cluster : Z; new_proc : Z; new_subproc : Z;    (* of an event that has just been made *)
  no_reconnect : bool → bool;                        (* what setNoReconnectReason makes of can_reconnect *)
  lexical_string : Z → string;                       (* boost::lexical_cast *)
  lexical_time : string → option Z;                  (* None: bad_lexical_cast *)
  float_double : Z → Z;                              (* conversions of floating-point numbers, by their bits *)
  double_float : Z → Z;
  int_double : Z → Z;
  double_long : Z → Z;
  BUFSIZ : nat
}.

Record ULogEvent `{UserLog} := mkEvent {
  eventTime : tm;
  cluster : Z;
  proc : Z;
  subproc : Z;
  body : event_body
}.

(** ** The attributes *)

Definition te_s_Timeout : string := "Timeout".
Definition te_s_EventNumber : string := "EventNumber".
Definition te_s_EventTime : string := "EventTime".
Definition te_s_Cluster : string := "Cluster".
Definition te_s_Proc : string := "Proc".
Definition te_s_SubProc : string := "SubProc".
Definition te_s_LogNotes : string := "LogNotes".
Definition te_s_ExecuteHost : string := "ExecuteHost".
Definition te_s_Node : string := "Node".
Definition te_s_ExecErrorType : string := "ExecErrorType".
Definition te_s_RunLocalRusage : string := "RunLocalRusage".
Definition te_s_RunRemoteRusage : string := "RunRemoteRusage".
Definition te_s_TotalLocalRusage : string := "TotalLocalRusage".
Definition te_s_TotalRemoteRusage : string := "TotalRemoteRusage".
Definition te_s_SentBytes : string := "SentBytes".
Definition te_s_RecvdBytes : string := "RecvdBytes".
Definition te_s_Terminate : string := "Terminate".
Definition te_s_Normal : string := "Normal".
Definition te_s_ReturnValue : string := "ReturnValue".
Definition te_s_SignalNumber : string := "SignalNumber".
Definition te_s_Reason : string := "Reason".
Definition te_s_CoreFile : string := "CoreFile".
Definition te_s_TotalSentBytes : string := "TotalSentBytes".
Definition te_s_TotalRecvdBytes : string := "TotalRecvdBytes".
Definition te_s_Size : string := "Size".
Definition te_s_NumPids : string := "NumPids".
Definition te_s_Message : string := "Message".
Definition te_s_Info : string := "Info".
Definition te_s_RmContact : string := "RmContact".
Definition te_s_JmContact : string := "JmContact".
Definition te_s_RestartableJM : string := "RestartableJM".
Definition te_s_CheckPointed : string := "CheckPointed".
Definition te_s_DaemonName : string := "DaemonName".
Definition te_s_ErrorStr : string := "ErrorText".
Definition te_s_CriticalError : string := "CriticalError".
Definition te_s_ReasonCode : string := "ReasonCode".
Definition te_s_ReasonSubCode : string := "ReasonSubCode".
Definition te_s_UserNotes : string := "UserNotes".
Definition te_s_StartdAddr : string := "StartdAddr".
Definition te_s_StartdName : string := "StartdName".
Definition te_s_StarterAddr : string := "StartesAddr".
Definition te_s_DisconnReason : string := "DisconnReason".
Definition te_s_NoReconnReason : string := "NoReconnReason".
Definition te_s_CanReconn : string := "CanReconn".
Definition te_s_ResourceName : string := "GridResource".
Definition te_s_JobId : string := "GridJobId".

Definition rusage_names : list string :=
  ["ru_maxrss"; "ru_ixrss"; "ru_idrss"; "ru_isrss"; "ru_minflt"; "ru_majflt"; "ru_nswap"; "ru_inblock";
   "ru_oublock"; "ru_msgsnd"; "ru_msgrcv"; "ru_nsignals"; "ru_nvcsw"; "ru_nivcsw"; "ru_utime"; "ru_stime"].

(** ** From events to ads *)

Section TimeoutEvent.
Context `{CA : ClassAds} `{UL : UserLog}.

Definition NullString (c : option string) : string := default "" c.

Definition rusage_values (ru : Rusage) : list Z :=
  [ru_maxrss ru; ru_ixrss ru; ru_idrss ru; ru_isrss ru; ru_minflt ru; ru_majflt ru; ru_nswap ru; ru_inblock ru;
   ru_oublock ru; ru_msgsnd ru; ru_msgrcv ru; ru_nsignals ru; ru_nvcsw ru; ru_nivcsw ru; (ru_utime ru).1;
   (ru_stime ru).1].

(** Each number is inserted as a string. *)
Definition toClassAd (ru : Rusage) : ad :=
  foldl (λ a x, Insert a x.1 (AString (lexical_string x.2))) WmWorld.ad_empty
    (zip rusage_names (rusage_values ru)).

Definition put_string (n : string) (x : string) (a : ad) : ad := Insert a n (AString x).
Definition put_int (n : string) (x : Z) (a : ad) : ad := Insert a n (AInt x).
Definition put_bool (n : string) (x : bool) (a : ad) : ad := Insert a n (ABool x).
Definition put_float (n : string) (x : Z) (a : ad) : ad := Insert a n (AReal (float_double x)).
Definition put_ad (n : string) (x : ad) (a : ad) : ad := Insert a n (AAd x).

(** The attributes of the event itself; an array without a terminator is not to be read. *)
Definition body_to_classad (b : event_body) (a : ad) : option ad :=
  match b with
  | SubmitEvent lnotes unotes =>
      let a := match lnotes with Some x => put_string te_s_LogNotes x a | None => a end in
      let a := match unotes with Some x => put_string te_s_UserNotes x a | None => a end in
      Some a
  | ExecuteEvent _ => Some a
  | ExecutableErrorEvent errType => Some (put_int te_s_ExecErrorType errType a)
  | CheckpointedEvent local remote =>
      let a := put_ad te_s_RunLocalRusage (toClassAd local) a in
      let a := put_ad te_s_RunRemoteRusage (toClassAd remote) a in
      Some a
  | JobEvictedEvent checkpointed sent recvd terminate normal return_value signal_number reason corefile local remote =>
      let a := put_bool te_s_CheckPointed checkpointed a in
      let a := put_float te_s_SentBytes sent a in
      let a := put_float te_s_RecvdBytes recvd a in
      let a := put_bool te_s_Terminate terminate a in
      let a := put_bool te_s_Normal normal a in
      let a := put_int te_s_ReturnValue return_value a in
      let a := put_int te_s_SignalNumber signal_number a in
      let a := put_string te_s_Reason (NullString reason) a in
      let a := put_string te_s_CoreFile (NullString corefile) a in
      let a := put_ad te_s_RunLocalRusage (toClassAd local) a in
      let a := put_ad te_s_RunRemoteRusage (toClassAd remote) a in
      Some a
  | JobTerminatedEvent normal returnValue signalNumber sent recvd total_sent total_recvd corefile
      local remote total_local total_remote =>
      let a := put_bool te_s_Normal normal a in
      let a := put_int te_s_ReturnValue returnValue a in
      let a := put_int te_s_SignalNumber signalNumber a in
      let a := put_float te_s_SentBytes sent a in
      let a := put_float te_s_RecvdBytes recvd a in
      let a := put_float te_s_TotalSentBytes total_sent a in
      let a := put_float te_s_TotalRecvdBytes total_recvd a in
      let a := put_string te_s_CoreFile (NullString corefile) a in
      let a := put_ad te_s_RunLocalRusage (toClassAd local) a in
      let a := put_ad te_s_RunRemoteRusage (toClassAd remote) a in
      let a := put_ad te_s_TotalLocalRusage (toClassAd total_local) a in
      let a := put_ad te_s_TotalRemoteRusage (toClassAd total_remote) a in
      Some a
  | JobImageSizeEvent size => Some (put_int te_s_Size size a)
  | ShadowExceptionEvent message sent recvd =>
      message ← message;
      let a := put_string te_s_Message message a in
      let a := put_float te_s_SentBytes sent a in
      let a := put_float te_s_RecvdBytes recvd a in
      Some a
  | GenericEvent info => info ← info; Some (put_string te_s_Info info a)
  | JobAbortedEvent reason => Some (put_string te_s_Reason (NullString reason) a)
  | JobSuspendedEvent num_pids => Some (put_int te_s_NumPids num_pids a)
  | JobUnsuspendedEvent => Some a
  | JobHeldEvent reason code subcode =>
      let a := put_string te_s_Reason (NullString reason) a in
      let a := put_int te_s_ReasonCode code a in
      let a := put_int te_s_ReasonSubCode subcode a in
      Some a
  | JobReleasedEvent reason => Some (put_string te_s_Reason (NullString reason) a)
  | NodeExecuteEvent node _ => Some (put_int te_s_Node node a)
  | NodeTerminatedEvent node normal returnValue signalNumber sent recvd total_sent total_recvd corefile
      local remote total_local total_remote =>
      let a := put_bool te_s_Normal normal a in
      let a := put_int te_s_ReturnValue returnValue a in
      let a := put_int te_s_SignalNumber signalNumber a in
      let a := put_int te_s_Node node a in
      let a := put_float te_s_SentBytes sent a in
      let a := put_float te_s_RecvdBytes recvd a in
      let a := put_float te_s_TotalSentBytes total_sent a in
      let a := put_float te_s_TotalRecvdBytes total_recvd a in
      let a := put_string te_s_CoreFile (NullString corefile) a in
      let a := put_ad te_s_RunLocalRusage (toClassAd local) a in
      let a := put_ad te_s_RunRemoteRusage (toClassAd remote) a in
      let a := put_ad te_s_TotalLocalRusage (toClassAd total_local) a in
      let a := put_ad te_s_TotalRemoteRusage (toClassAd total_remote) a in
      Some a
  | PostScriptTerminatedEvent normal returnValue signalNumber =>
      let a := put_bool te_s_Normal normal a in
      let a := put_int te_s_ReturnValue returnValue a in
      let a := put_int te_s_SignalNumber signalNumber a in
      Some a
  | GlobusSubmitEvent rmContact jmContact restartableJM =>
      let a := put_string te_s_RmContact (NullString rmContact) a in
      let a := put_string te_s_JmContact (NullString jmContact) a in
      let a := put_bool te_s_RestartableJM restartableJM a in
      Some a
  | GlobusSubmitFailedEvent reason => Some (put_string te_s_Reason (NullString reason) a)
  | GlobusResourceUpEvent rmContact => Some (put_string te_s_RmContact (NullString rmContact) a)
  | GlobusResourceDownEvent rmContact => Some (put_string te_s_RmContact (NullString rmContact) a)
  | RemoteErrorEvent exeHost daemonName errorStr critical =>
      let a := put_string te_s_ExecuteHost (NullString exeHost) a in
      let a := put_string te_s_DaemonName (NullString daemonName) a in
      let a := put_string te_s_ErrorStr (NullString errorStr) a in
      let a := put_bool te_s_CriticalError critical a in
      Some a
  | JobDisconnectedEvent startdAddr startdName disconnReason noreconnReason can_reconnect =>
      let a := put_string te_s_StartdAddr (NullString startdAddr) a in
      let a := put_string te_s_StartdName (NullString startdName) a in
      let a := put_string te_s_DisconnReason (NullString disconnReason) a in
      let a := put_string te_s_NoReconnReason (NullString noreconnReason) a in
      let a := put_bool te_s_CanReconn can_reconnect a in
      Some a
  | JobReconnectedEvent startdAddr startdName starterAddr =>
      let a := put_string te_s_StartdAddr (NullString startdAddr) a in
      let a := put_string te_s_StartdName (NullString startdName) a in
      let a := put_string te_s_StarterAddr (NullString starterAddr) a in
      Some a
  | JobReconnectFailedEvent startdName reason =>
      let a := put_string te_s_StartdName (NullString startdName) a in
      let a := put_string te_s_Reason (NullString reason) a in
      Some a
  | GridSubmitEvent resourceName jobId =>
      let a := put_string te_s_ResourceName (NullString resourceName) a in
      let a := put_string te_s_JobId (NullString jobId) a in
      Some a
  | GridResourceUpEvent resourceName => Some (put_string te_s_ResourceName (NullString resourceName) a)
  | GridResourceDownEvent resourceName => Some (put_string te_s_ResourceName (NullString resourceName) a)
  end.

Definition event_to_classad (te_epoch : Z) (e : ULogEvent) : option ad :=
  let a := WmWorld.ad_empty in
  let a := put_string te_s_Timeout (lexical_string te_epoch) a in
  let a := put_int te_s_EventNumber (ulog_number (number_of (body e))) a in
  let a := put_string te_s_EventTime (lexical_string (mktime (eventTime e))) a in
  let a := put_int te_s_Cluster (cluster e) a in
  let a := put_int te_s_Proc (proc e) a in
  let a := put_int te_s_SubProc (subproc e) a in
  body_to_classad (body e) a.
End TimeoutEvent.

(** ** From ads to events *)

(** A conversion of text may throw; a null pointer or a variable that has no value is not
    to be used. *)
Inductive decoded (A : Type) := Undefined | BadLexicalCast | Decoded (a : A).
Arguments Undefined {A}.
Arguments BadLexicalCast {A}.
Arguments Decoded {A} a.

#[export] Instance decoded_ret : MRet decoded := @Decoded.
#[export] Instance decoded_bind : MBind decoded := λ A B k m,
  match m with Undefined => Undefined | BadLexicalCast => BadLexicalCast | Decoded a => k a end.

(** What has to have a value. *)
Definition has_value {A} (x : option A) : decoded A := match x with Some a => Decoded a | None => Undefined end.

(** [strncpy] to an array of [n] characters. *)
Definition strncpy (n : nat) (s : string) : option string :=
  if (String.length s <? n)%nat then Some s else None.

Section to_event.
Context `{CA : ClassAds} `{UL : UserLog}.

(** [EvaluateAttrString] and the others leave the variable as it was when the attribute is
    not there or has another type; a variable that has not been set is [None]. *)
Definition get_string (a : ad) (n : string) (old : string) : string := default old (evaluate_string a n).
Definition get_int (a : ad) (n : string) (old : Z) : Z := default old (evaluate_int a n).
Definition get_bool (a : ad) (n : string) (old : bool) : bool := default old (evaluate_bool a n).
Definition get_double (a : ad) (n : string) (old : option Z) : option Z :=
  match evaluate a n with
  | Some (AReal x) => Some x
  | Some (AInt x) => Some (int_double x)
  | _ => old
  end.

(** The variable [val] keeps its value from one number to the next. *)
Fixpoint rusage_numbers (a : ad) (val : option Z) (names : list string) : decoded (list Z) :=
  match names with
  | [] => mret []
  | n :: names =>
      let val := get_double a n val in
      x ← has_value val;
      l ← rusage_numbers a val names;
      mret (double_long x :: l)
  end.

Definition toRusage (a : option ad) : decoded Rusage :=
  a ← has_value a;
  l ← rusage_numbers a None rusage_names;
  match l with
  | [x1; x2; x3; x4; x5; x6; x7; x8; x9; x10; x11; x12; x13; x14; x15; x16] =>
      mret (mkRusage x1 x2 x3 x4 x5 x6 x7 x8 x9 x10 x11 x12 x13 x14 (x15, 0) (x16, 0))
  | _ => Undefined
  end.

(** The members that are set, of an event [b] that has just been made. The variables of
    the function have the values that the common part leaves: [sval] is the text of the
    time of the event, and [ival] its number. *)
Definition body_to_event (a : ad) (sval : string) (ival : Z) (b : event_body) : decoded event_body :=
  match b with
  | SubmitEvent lnotes unotes =>
      let lnotes := match evaluate_string a te_s_LogNotes with Some x => Some x | None => lnotes end in
      let unotes := match evaluate_string a te_s_UserNotes with Some x => Some x | None => unotes end in
      mret (SubmitEvent lnotes unotes)
  | ExecuteEvent _ =>
      let sval := get_string a te_s_ExecuteHost sval in
      mret (ExecuteEvent (Some (String.substring 0 128 sval)))
  | ExecutableErrorEvent _ => mret (ExecutableErrorEvent (get_int a te_s_ExecErrorType ival))
  | CheckpointedEvent _ _ =>
      local ← toRusage (evaluate_classad a te_s_RunLocalRusage);
      remote ← toRusage (evaluate_classad a te_s_RunRemoteRusage);
      mret (CheckpointedEvent local remote)
  | JobEvictedEvent checkpointed _ _ terminate normal return_value signal_number _ _ _ _ =>
      let checkpointed := get_bool a te_s_CheckPointed checkpointed in
      let dval := get_double a te_s_SentBytes None in sent ← has_value dval;
      let dval := get_double a te_s_RecvdBytes dval in recvd ← has_value dval;
      let terminate := get_bool a te_s_Terminate terminate in
      let normal := get_bool a te_s_Normal normal in
      let return_value := get_int a te_s_ReturnValue return_value in
      let signal_number := get_int a te_s_SignalNumber signal_number in
      let sval := get_string a te_s_Reason sval in let reason := Some sval in
      let sval := get_string a te_s_CoreFile sval in let corefile := Some sval in
      local ← toRusage (evaluate_classad a te_s_RunLocalRusage);
      remote ← toRusage (evaluate_classad a te_s_RunRemoteRusage);
      mret (JobEvictedEvent checkpointed (double_float sent) (double_float recvd) terminate normal return_value
        signal_number reason corefile local remote)
  | JobTerminatedEvent normal returnValue signalNumber _ _ _ _ _ _ _ _ _ =>
      let normal := get_bool a te_s_Normal normal in
      let returnValue := get_int a te_s_ReturnValue returnValue in
      let signalNumber := get_int a te_s_SignalNumber signalNumber in
      let dval := get_double a te_s_SentBytes None in sent ← has_value dval;
      let dval := get_double a te_s_RecvdBytes dval in recvd ← has_value dval;
      let dval := get_double a te_s_TotalSentBytes dval in total_sent ← has_value dval;
      let dval := get_double a te_s_TotalRecvdBytes dval in total_recvd ← has_value dval;
      let sval := get_string a te_s_CoreFile sval in
      local ← toRusage (evaluate_classad a te_s_RunLocalRusage);
      remote ← toRusage (evaluate_classad a te_s_RunRemoteRusage);
      total_local ← toRusage (evaluate_classad a te_s_TotalLocalRusage);
      total_remote ← toRusage (evaluate_classad a te_s_TotalRemoteRusage);
      mret (JobTerminatedEvent normal returnValue signalNumber (double_float sent) (double_float recvd)
        (double_float total_sent) (double_float total_recvd) (Some sval) local remote total_local total_remote)
  | JobImageSizeEvent image_size_kb =>
      let size := get_int a te_s_Size image_size_kb in
      mret (JobImageSizeEvent image_size_kb)
  | ShadowExceptionEvent _ _ _ =>
      let sval := get_string a te_s_Message sval in
      let dval := get_double a te_s_SentBytes None in sent ← has_value dval;
      let dval := get_double a te_s_RecvdBytes dval in recvd ← has_value dval;
      mret (ShadowExceptionEvent (strncpy BUFSIZ sval) (double_float sent) (double_float recvd))
  | GenericEvent _ => mret (GenericEvent (strncpy 128 (get_string a te_s_Info sval)))
  | JobAbortedEvent _ => mret (JobAbortedEvent (Some (get_string a te_s_Reason sval)))
  | JobSuspendedEvent num_pids => mret (JobSuspendedEvent (get_int a te_s_NumPids num_pids))
  | JobUnsuspendedEvent => mret JobUnsuspendedEvent
  | JobHeldEvent _ _ _ =>
      let sval := get_string a te_s_Reason sval in
      let ival := get_int a te_s_ReasonCode ival in let code := ival in
      let ival := get_int a te_s_ReasonSubCode ival in let subcode := ival in
      mret (JobHeldEvent (Some sval) code subcode)
  | JobReleasedEvent _ => mret (JobReleasedEvent (Some (get_string a te_s_Reason sval)))
  | NodeExecuteEvent node _ =>
      let node := get_int a te_s_Node node in
      let sval := get_string a te_s_ExecuteHost sval in
      mret (NodeExecuteEvent node (Some (String.substring 0 128 sval)))
  | NodeTerminatedEvent node normal returnValue signalNumber _ _ _ _ _ _ _ _ _ =>
      let normal := get_bool a te_s_Normal normal in
      let returnValue := get_int a te_s_ReturnValue returnValue in
      let signalNumber := get_int a te_s_SignalNumber signalNumber in
      let node := get_int a te_s_Node node in
      let dval := get_double a te_s_SentBytes None in sent ← has_value dval;
      let dval := get_double a te_s_RecvdBytes dval in recvd ← has_value dval;
      let dval := get_double a te_s_TotalSentBytes dval in total_sent ← has_value dval;
      let dval := get_double a te_s_TotalRecvdBytes dval in total_recvd ← has_value dval;
      let sval := get_string a te_s_CoreFile sval in
      local ← toRusage (evaluate_classad a te_s_RunLocalRusage);
      remote ← toRusage (evaluate_classad a te_s_RunRemoteRusage);
      total_local ← toRusage (evaluate_classad a te_s_TotalLocalRusage);
      total_remote ← toRusage (evaluate_classad a te_s_TotalRemoteRusage);
      mret (NodeTerminatedEvent node normal returnValue signalNumber (double_float sent) (double_float recvd)
        (double_float total_sent) (double_float total_recvd) (Some sval) local remote total_local total_remote)
  | PostScriptTerminatedEvent normal returnValue signalNumber =>
      mret (PostScriptTerminatedEvent (get_bool a te_s_Normal normal) (get_int a te_s_ReturnValue returnValue)
        (get_int a te_s_SignalNumber signalNumber))
  | GlobusSubmitEvent _ _ restartableJM =>
      let restartableJM := get_bool a te_s_RestartableJM restartableJM in
      let sval := get_string a te_s_RmContact sval in let rmContact := Some sval in
      let sval := get_string a te_s_JmContact sval in let jmContact := Some sval in
      mret (GlobusSubmitEvent rmContact jmContact restartableJM)
  | GlobusSubmitFailedEvent _ => mret (GlobusSubmitFailedEvent (Some (get_string a te_s_Reason sval)))
  | GlobusResourceUpEvent _ => mret (GlobusResourceUpEvent (Some (get_string a te_s_RmContact sval)))
  | GlobusResourceDownEvent _ => mret (GlobusResourceDownEvent (Some (get_string a te_s_RmContact sval)))
  | RemoteErrorEvent _ _ _ _ =>
      let sval := get_string a te_s_ExecuteHost sval in let exeHost := Some sval in
      let sval := get_string a te_s_DaemonName sval in let daemonName := Some sval in
      let sval := get_string a te_s_ErrorStr sval in let errorStr := Some sval in
      critical ← has_value (evaluate_bool a te_s_CriticalError);
      mret (RemoteErrorEvent exeHost daemonName errorStr critical)
  | JobDisconnectedEvent _ _ _ _ can_reconnect =>
      let sval := get_string a te_s_StartdAddr sval in let startdAddr := Some sval in
      let sval := get_string a te_s_StartdName sval in let startdName := Some sval in
      let sval := get_string a te_s_DisconnReason sval in let disconnReason := Some sval in
      let sval := get_string a te_s_NoReconnReason sval in let noreconnReason := Some sval in
      mret (JobDisconnectedEvent startdAddr startdName disconnReason noreconnReason (no_reconnect can_reconnect))
  | JobReconnectedEvent _ _ _ =>
      let sval := get_string a te_s_StartdAddr sval in let startdAddr := Some sval in
      let sval := get_string a te_s_StartdName sval in let startdName := Some sval in
      let sval := get_string a te_s_StarterAddr sval in let starterAddr := Some sval in
      mret (JobReconnectedEvent startdAddr startdName starterAddr)
  | JobReconnectFailedEvent _ _ =>
      let sval := get_string a te_s_StartdName sval in let startdName := Some sval in
      let sval := get_string a te_s_Reason sval in let reason := Some sval in
      mret (JobReconnectFailedEvent startdName reason)
  | GridSubmitEvent _ _ =>
      let sval := get_string a te_s_ResourceName sval in let resourceName := Some sval in
      let sval := get_string a te_s_JobId sval in let jobId := Some sval in
      mret (GridSubmitEvent resourceName jobId)
  | GridResourceUpEvent _ => mret (GridResourceUpEvent (Some (get_string a te_s_ResourceName sval)))
  | GridResourceDownEvent _ => mret (GridResourceDownEvent (Some (get_string a te_s_ResourceName sval)))
  end.

Definition lexical_cast_time (s : string) : decoded Z :=
  match lexical_time s with Some t => Decoded t | None => BadLexicalCast end.

(** The time of the timeout and the event. *)
Definition classad_to_event (a : ad) : decoded (Z * ULogEvent) :=
  let ival := evaluate_int a te_s_EventNumber in
  let sval := get_string a te_s_Timeout "" in
  te_epoch ← lexical_cast_time sval;
  ival ← has_value ival;
  b ← has_value (instantiateEvent ival);
  let sval := get_string a te_s_EventTime sval in
  tval ← lexical_cast_time sval;
  let cluster := get_int a te_s_Cluster new_cluster in
  let proc := get_int a te_s_Proc new_proc in
  let subproc := get_int a te_s_SubProc new_subproc in
  b ← body_to_event a sval ival b;
  mret (te_epoch, mkEvent _ (localtime_r tval) cluster proc subproc b).
End to_event.

(** ** What the libraries do *)

Definition event_attributes : list string :=
  [te_s_Timeout; te_s_EventNumber; te_s_EventTime; te_s_Cluster; te_s_Proc; te_s_SubProc; te_s_LogNotes;
   te_s_ExecuteHost; te_s_Node; te_s_ExecErrorType; te_s_RunLocalRusage; te_s_RunRemoteRusage; te_s_TotalLocalRusage;
   te_s_TotalRemoteRusage; te_s_SentBytes; te_s_RecvdBytes; te_s_Terminate; te_s_Normal; te_s_ReturnValue;
   te_s_SignalNumber; te_s_Reason; te_s_CoreFile; te_s_TotalSentBytes; te_s_TotalRecvdBytes; te_s_Size; te_s_NumPids;
   te_s_Message; te_s_Info; te_s_RmContact; te_s_JmContact; te_s_RestartableJM; te_s_CheckPointed; te_s_DaemonName;
   te_s_ErrorStr; te_s_CriticalError; te_s_ReasonCode; te_s_ReasonSubCode; te_s_UserNotes; te_s_StartdAddr;
   te_s_StartdName; te_s_StarterAddr; te_s_DisconnReason; te_s_NoReconnReason; te_s_CanReconn; te_s_ResourceName;
   te_s_JobId] ++ rusage_names.

(** An attribute that is inserted has its value, and the others keep theirs. *)
Class EventAds `{CA : ClassAds} : Prop := {
  event_empty e : e ∈ event_attributes → evaluate WmWorld.ad_empty e = None;
  event_insert a n v : n ∈ event_attributes → evaluate (Insert a n v) n = Some v;
  event_insert_ne a n v e :
    n ∈ event_attributes → e ∈ event_attributes → n ≠ e → evaluate (Insert a n v) e = evaluate a e
}.

(** Condor makes an event of the number that is asked for, without notes when it is that
    of a submission; and a time is read back from its text. *)
Class UserLogLaws `{UL : UserLog} : Prop := {
  new_event k : ∃ b, instantiateEvent (ulog_number k) = Some b ∧ number_of b = k;
  new_submit : instantiateEvent (ulog_number ULOG_SUBMIT) = Some (SubmitEvent None None);
  time_text t : lexical_time (lexical_string t) = Some t
}.

(** ** What comes back *)

Section restored.
Context `{CA : ClassAds} `{UL : UserLog}.

(** The events whose members come back. *)
Definition restorable (b : event_body) : bool :=
  match b with
  | ExecuteEvent _ | CheckpointedEvent _ _ | JobEvictedEvent _ _ _ _ _ _ _ _ _ _ _
  | JobTerminatedEvent _ _ _ _ _ _ _ _ _ _ _ _ | JobImageSizeEvent _ | NodeExecuteEvent _ _
  | NodeTerminatedEvent _ _ _ _ _ _ _ _ _ _ _ _ _ | JobDisconnectedEvent _ _ _ _ _ => false
  | ShadowExceptionEvent message _ _ => from_option (λ m, String.length m <? BUFSIZ)%nat false message
  | GenericEvent info => from_option (λ m, String.length m <? 128)%nat false info
  | _ => true
  end.

(** A null pointer comes back as the empty string. *)
Definition kept (c : option string) : option string := Some (NullString c).

Definition restored_body (b : event_body) : event_body :=
  match b with
  | ShadowExceptionEvent message sent recvd =>
      ShadowExceptionEvent message (double_float (float_double sent)) (double_float (float_double recvd))
  | JobAbortedEvent reason => JobAbortedEvent (kept reason)
  | JobHeldEvent reason code subcode => JobHeldEvent (kept reason) code subcode
  | JobReleasedEvent reason => JobReleasedEvent (kept reason)
  | GlobusSubmitEvent rm jm restartable => GlobusSubmitEvent (kept rm) (kept jm) restartable
  | GlobusSubmitFailedEvent reason => GlobusSubmitFailedEvent (kept reason)
  | GlobusResourceUpEvent rm => GlobusResourceUpEvent (kept rm)
  | GlobusResourceDownEvent rm => GlobusResourceDownEvent (kept rm)
  | RemoteErrorEvent host daemon error critical => RemoteErrorEvent (kept host) (kept daemon) (kept error) critical
  | JobReconnectedEvent addr name starter => JobReconnectedEvent (kept addr) (kept name) (kept starter)
  | JobReconnectFailedEvent name reason => JobReconnectFailedEvent (kept name) (kept reason)
  | GridSubmitEvent resource job => GridSubmitEvent (kept resource) (kept job)
  | GridResourceUpEvent resource => GridResourceUpEvent (kept resource)
  | GridResourceDownEvent resource => GridResourceDownEvent (kept resource)
  | b => b
  end.

Definition restored (e : ULogEvent) (b : event_body) : ULogEvent :=
  mkEvent _ (localtime_r (mktime (eventTime e))) (cluster e) (proc e) (subproc e) b.
End restored.

(** ** The round trip *)

Section roundtrip.
Context `{CA : ClassAds} `{UL : UserLog} {EA : EventAds} {LA : UserLogLaws}.

Lemma event_attribute n : bool_decide (n ∈ event_attributes) = true → n ∈ event_attributes.
Proof. apply bool_decide_eq_true_1. Qed.

(** Evaluate through the insertions. *)
Ltac looks :=
  repeat first
    [ rewrite event_insert by (by apply event_attribute)
    | rewrite event_insert_ne by (by first [apply event_attribute|idtac])
    | rewrite event_empty by (by apply event_attribute) ]; cbn [from_option id].
Ltac looks_up :=
  unfold get_string, get_int, get_bool, get_double, evaluate_string, evaluate_int, evaluate_bool, evaluate_classad,
    put_string, put_int, put_bool, put_float, put_ad; looks.

(** The common part: what is left is to read the body. *)
Definition header (epoch : Z) (e : ULogEvent) (a : ad) : Prop :=
  evaluate_string a te_s_Timeout = Some (lexical_string epoch) ∧
  evaluate_int a te_s_EventNumber = Some (ulog_number (number_of (body e))) ∧
  evaluate_string a te_s_EventTime = Some (lexical_string (mktime (eventTime e))) ∧
  evaluate_int a te_s_Cluster = Some (cluster e) ∧
  evaluate_int a te_s_Proc = Some (proc e) ∧
  evaluate_int a te_s_SubProc = Some (subproc e).

Lemma header_read epoch e a b0 d :
  header epoch e a → instantiateEvent (ulog_number (number_of (body e))) = Some b0 →
  body_to_event a (lexical_string (mktime (eventTime e))) (ulog_number (number_of (body e))) b0 = d →
  classad_to_event a = b ← d; mret (epoch, restored e b).
Proof.
  intros (Ht&Hn&He&Hc&Hp&Hs) Hb0 Hd. unfold classad_to_event, get_string, get_int, lexical_cast_time, restored.
  rewrite Ht, Hn, He, Hc, Hp, Hs. cbn. rewrite !time_text. cbn. rewrite Hb0. cbn. by rewrite Hd.
Qed.

Ltac written :=
  cbn [body_to_classad];
  repeat match goal with |- context [match ?o with None => _ | Some _ => _ end] => is_var o; destruct o end;
  try match goal with |- ?o ≫= _ = _ → _ => destruct o; [|done] end; cbn [mbind option_bind]; intros [= <-].

Lemma header_written epoch e a : event_to_classad epoch e = Some a → header epoch e a.
Proof.
  unfold event_to_classad, header. destruct e as [t c p sp b]. cbn [body eventTime cluster proc subproc].
  destruct b; written; looks_up; done.
Qed.

Lemma strncpy_short n s : (String.length s <? n)%nat = true → strncpy n s = Some s.
Proof. unfold strncpy. by intros ->. Qed.

Lemma body_restored epoch e a sval ival b0 :
  restorable (body e) = true → event_to_classad epoch e = Some a →
  instantiateEvent (ulog_number (number_of (body e))) = Some b0 →
  body_to_event a sval ival b0 = Decoded (restored_body (body e)).
Proof.
  intros Hr Ha Hb0. assert (Hn : number_of b0 = number_of (body e)).
  { destruct (new_event (number_of (body e))) as (b1&Hb1&Hn). congruence. }
  revert Ha. unfold event_to_classad. destruct e as [t c p sp b]. cbn [body eventTime cluster proc subproc] in *.
  destruct b; try discriminate Hr; destruct b0; try discriminate Hn; clear Hn; cbn [number_of] in *;
    try (rewrite new_submit in Hb0; injection Hb0 as <- <-); try clear Hb0.
  all: written; cbn [body_to_event restored_body]; looks_up; cbn [has_value].
  all: try (rewrite strncpy_short by exact Hr).
  all: try done.
Qed.

(** C22. A timeout that is kept in the file comes back: the ad that is written for an event
    is read as the same time of expiry and an event with the same cluster, process and
    subprocess, and with the members of its class, where a null pointer has become an
    empty text and a number of bytes has been a [double] in between. The time of the event
    is what [localtime_r] makes of the seconds that [mktime] gives. This holds of the
    twenty classes of events that are [restorable], those of the timers that the log
    monitor starts among them. *)
Theorem timeout_restored epoch e a :
  restorable (body e) = true → event_to_classad epoch e = Some a →
  classad_to_event a = Decoded (epoch, restored e (restored_body (body e))).
Proof.
  intros Hr Ha. destruct (new_event (number_of (body e))) as (b0&Hb0&_).
  rewrite (header_read epoch e a b0 _ (header_written _ _ _ Ha) Hb0 eq_refl).
  by rewrite (body_restored _ _ _ _ _ _ Hr Ha Hb0).
Qed.

(** The events with the use of resources. *)
Definition has_usage (b : event_body) : bool :=
  match b with
  | CheckpointedEvent _ _ | JobEvictedEvent _ _ _ _ _ _ _ _ _ _ _ | JobTerminatedEvent _ _ _ _ _ _ _ _ _ _ _ _
  | NodeTerminatedEvent _ _ _ _ _ _ _ _ _ _ _ _ _ => true
  | _ => false
  end.

Lemma rusage_numbers_text a s n names :
  evaluate a n = Some (AString s) → rusage_numbers a None (n :: names) = Undefined.
Proof.
  intros E. change (rusage_numbers a None (n :: names)) with
    (x ← has_value (get_double a n None); l ← rusage_numbers a (get_double a n None) names; mret (double_long x :: l)).
  assert (get_double a n None = None) as -> by (unfold get_double; by rewrite E). done.
Qed.

Lemma toClassAd_text ru : evaluate (toClassAd ru) "ru_maxrss" = Some (AString (lexical_string (ru_maxrss ru))).
Proof. unfold toClassAd, rusage_names, rusage_values. cbn [zip zip_with foldl fst snd]. looks. done. Qed.

Lemma toRusage_undefined ru : toRusage (Some (toClassAd ru)) = Undefined.
Proof.
  unfold toRusage. cbn [has_value mbind decoded_bind].
  change rusage_names with ("ru_maxrss" :: tail rusage_names).
  by rewrite (rusage_numbers_text _ _ _ _ (toClassAd_text ru)).
Qed.

(** C37. The use of resources cannot be read back: [toClassAd] inserts the numbers as
    texts, for which [EvaluateAttrNumber] leaves the variable [val] of [toRusage] as it
    was, and it has not been given a value; so to restore one of the events of the end of
    a job is undefined. *)
Theorem usage_is_not_restored epoch e a :
  has_usage (body e) = true → event_to_classad epoch e = Some a → classad_to_event a = Undefined.
Proof.
  intros Hu Ha. destruct (new_event (number_of (body e))) as (b0&Hb0&Hn).
  rewrite (header_read epoch e a b0 _ (header_written _ _ _ Ha) Hb0 eq_refl).
  enough (body_to_event a (lexical_string (mktime (eventTime e))) (ulog_number (number_of (body e))) b0 = Undefined)
    as -> by done.
  revert Ha. unfold event_to_classad. destruct e as [t c p sp b]. cbn [body eventTime cluster proc subproc] in *.
  destruct b; try discriminate Hu; destruct b0; try discriminate Hn; clear Hn.
  all: written; cbn [body_to_event]; looks_up; cbn [has_value mbind decoded_bind].
  all: by rewrite !toRusage_undefined.
Qed.

(** What other classes of events come back as, when Condor makes the event [b0]. *)
Definition changed_body (e : ULogEvent) (b0 : event_body) : option event_body :=
  let stale := Some (String.substring 0 128 (lexical_string (mktime (eventTime e)))) in
  match body e, b0 with
  | ExecuteEvent _, _ => Some (ExecuteEvent stale)
  | NodeExecuteEvent node _, _ => Some (NodeExecuteEvent node stale)
  | JobImageSizeEvent _, JobImageSizeEvent size => Some (JobImageSizeEvent size)
  | JobDisconnectedEvent addr name disconn noreconn _, JobDisconnectedEvent _ _ _ _ can_reconnect =>
      Some (JobDisconnectedEvent (kept addr) (kept name) (kept disconn) (kept noreconn) (no_reconnect can_reconnect))
  | _, _ => None
  end.

(** C38. The host of an execution is not written, and the variable that it is read to still
    holds the text of the time of the event: the event comes back with that time as its
    host. The size of an image comes back as Condor makes it in a new event, and whether a
    disconnected job can reconnect as [setNoReconnectReason] leaves it in a new event. *)
Theorem members_are_not_restored epoch e a b0 b :
  instantiateEvent (ulog_number (number_of (body e))) = Some b0 → event_to_classad epoch e = Some a →
  changed_body e b0 = Some b → classad_to_event a = Decoded (epoch, restored e b).
Proof.
  intros Hb0 Ha Hb. rewrite (header_read epoch e a b0 _ (header_written _ _ _ Ha) Hb0 eq_refl).
  enough (body_to_event a (lexical_string (mktime (eventTime e))) (ulog_number (number_of (body e))) b0 = Decoded b)
    as -> by done.
  assert (Hn : number_of b0 = number_of (body e)).
  { destruct (new_event (number_of (body e))) as (b1&Hb1&Hn). congruence. }
  revert Ha Hb. unfold event_to_classad, changed_body. destruct e as [t c p sp b1].
  cbn [body eventTime cluster proc subproc] in *.
  destruct b1; try done; destruct b0; try discriminate Hn; clear Hn Hb0.
  all: written; intros [= <-]; cbn [body_to_event]; looks_up; done.
Qed.
End roundtrip.

(** ** Events of a small log *)

#[local] Definition fresh_event (k : ULogEventNumber) : event_body :=
  let ru := mkRusage 0 0 0 0 0 0 0 0 0 0 0 0 0 0 (0, 0) (0, 0) in
  match k with
  | ULOG_SUBMIT => SubmitEvent None None
  | ULOG_EXECUTE => ExecuteEvent None
  | ULOG_EXECUTABLE_ERROR => ExecutableErrorEvent 0
  | ULOG_CHECKPOINTED => CheckpointedEvent ru ru
  | ULOG_JOB_EVICTED => JobEvictedEvent false 0 0 false false 0 0 None None ru ru
  | ULOG_JOB_TERMINATED => JobTerminatedEvent false 0 0 0 0 0 0 None ru ru ru ru
  | ULOG_IMAGE_SIZE => JobImageSizeEvent (-1)
  | ULOG_SHADOW_EXCEPTION => ShadowExceptionEvent (Some EmptyString) 0 0
  | ULOG_GENERIC => GenericEvent (Some EmptyString)
  | ULOG_JOB_ABORTED => JobAbortedEvent None
  | ULOG_JOB_SUSPENDED => JobSuspendedEvent (-1)
  | ULOG_JOB_UNSUSPENDED => JobUnsuspendedEvent
  | ULOG_JOB_HELD => JobHeldEvent None 0 0
  | ULOG_JOB_RELEASED => JobReleasedEvent None
  | ULOG_NODE_EXECUTE => NodeExecuteEvent (-1) None
  | ULOG_NODE_TERMINATED => NodeTerminatedEvent (-1) false 0 0 0 0 0 0 None ru ru ru ru
  | ULOG_POST_SCRIPT_TERMINATED => PostScriptTerminatedEvent false (-1) (-1)
  | ULOG_GLOBUS_SUBMIT => GlobusSubmitEvent None None false
  | ULOG_GLOBUS_SUBMIT_FAILED => GlobusSubmitFailedEvent None
  | ULOG_GLOBUS_RESOURCE_UP => GlobusResourceUpEvent None
  | ULOG_GLOBUS_RESOURCE_DOWN => GlobusResourceDownEvent None
  | ULOG_REMOTE_ERROR => RemoteErrorEvent None None None true
  | ULOG_JOB_DISCONNECTED => JobDisconnectedEvent None None None None true
  | ULOG_JOB_RECONNECTED => JobReconnectedEvent None None None
  | ULOG_JOB_RECONNECT_FAILED => JobReconnectFailedEvent None None
  | ULOG_GRID_SUBMIT => GridSubmitEvent None None
  | ULOG_GRID_RESOURCE_UP => GridResourceUpEvent None
  | ULOG_GRID_RESOURCE_DOWN => GridResourceDownEvent None
  end.

#[local] Definition event_numbers : list ULogEventNumber :=
  [ULOG_SUBMIT; ULOG_EXECUTE; ULOG_EXECUTABLE_ERROR; ULOG_CHECKPOINTED; ULOG_JOB_EVICTED; ULOG_JOB_TERMINATED;
   ULOG_IMAGE_SIZE; ULOG_SHADOW_EXCEPTION; ULOG_GENERIC; ULOG_JOB_ABORTED; ULOG_JOB_SUSPENDED; ULOG_JOB_UNSUSPENDED;
   ULOG_JOB_HELD; ULOG_JOB_RELEASED; ULOG_NODE_EXECUTE; ULOG_NODE_TERMINATED; ULOG_POST_SCRIPT_TERMINATED;
   ULOG_GLOBUS_SUBMIT; ULOG_GLOBUS_SUBMIT_FAILED; ULOG_GLOBUS_RESOURCE_UP; ULOG_GLOBUS_RESOURCE_DOWN;
   ULOG_REMOTE_ERROR; ULOG_JOB_DISCONNECTED; ULOG_JOB_RECONNECTED; ULOG_JOB_RECONNECT_FAILED; ULOG_GRID_SUBMIT;
   ULOG_GRID_RESOURCE_UP; ULOG_GRID_RESOURCE_DOWN].

(** The number of an event is its place, a time is its seconds, and a number is written by
    the digits of its code. *)
Definition small_log : UserLog := {|
  tm := Z;
  mktime t := t;
  localtime_r t := t;
  ulog_number k := from_option (λ x : nat * _, Z.of_nat x.1) 0 (list_find (k =.) event_numbers);
  instantiateEvent n := fresh_event <$> event_numbers !! Z.to_nat n;
  new_cluster := -1;
  new_proc := -1;
  new_subproc := -1;
  no_reconnect _ := false;
  lexical_string z := digits (encode z);
  lexical_time s := of_digits s ≫= decode;
  float_double z := z;
  double_float z := z;
  int_double z := z;
  double_long z := z;
  BUFSIZ := 100
|}.

#[export] Instance small_log_laws : UserLogLaws (UL := small_log).
Proof.
  constructor.
  - intros k. exists (fresh_event k). by destruct k.
  - done.
  - intros t. change (of_digits (digits (encode t)) ≫= decode = Some t).
    rewrite of_digits_digits. exact (decode_encode t).
Qed.

#[export] Instance small_event_ads : EventAds (CA := small_ads).
Proof.
  constructor.
  - done.
  - intros a n v _. exact (small_insert_same a n v).
  - intros a n v e _ _ Hne. exact (small_insert_other a n v e Hne).
Qed.

Lemma timeout_restored_witness :
  classad_to_event (CA := small_ads) (UL := small_log)
    (default [] (event_to_classad (CA := small_ads) (UL := small_log) 1200
      (mkEvent small_log 600 17 0 0 (GlobusSubmitFailedEvent None)))) =
  Decoded (1200, mkEvent small_log 600 17 0 0 (GlobusSubmitFailedEvent (Some EmptyString))).
Proof.
  exact (timeout_restored (CA := small_ads) (UL := small_log) 1200
    (mkEvent small_log 600 17 0 0 (GlobusSubmitFailedEvent None)) _ eq_refl eq_refl).
Defined.

Lemma usage_is_not_restored_witness :
  let ru := mkRusage 10 0 0 0 0 0 0 0 0 0 0 0 0 0 (60, 0) (2, 0) in
  let e := mkEvent small_log 600 17 0 0 (JobTerminatedEvent true 0 0 0 0 0 0 None ru ru ru ru) in
  match event_to_classad (CA := small_ads) (UL := small_log) 1200 e with
  | Some a => classad_to_event (CA := small_ads) (UL := small_log) a = Undefined
  | None => False
  end.
Proof.
  intros ru e. exact (usage_is_not_restored (CA := small_ads) (UL := small_log) 1200 e _ eq_refl eq_refl).
Defined.

Lemma members_are_not_restored_witness :
  let e := mkEvent small_log 600 17 0 0 (ExecuteEvent (Some "ce01")) in
  match event_to_classad (CA := small_ads) (UL := small_log) 1200 e with
  | Some a => classad_to_event (CA := small_ads) (UL := small_log) a =
      Decoded (1200, mkEvent small_log 600 17 0 0 (ExecuteEvent (Some (digits (encode 600)))))
  | None => False
  end.
Proof.
  intros e. exact (members_are_not_restored (CA := small_ads) (UL := small_log) 1200 e _ _ _ eq_refl eq_refl eq_refl).
Defined.

