(* ===== verification/Timer.v ===== *)
(** * The timers of the log monitor (Timer.cpp)

    A timer is the time at which it expires and an event to be processed then. The object
    has a multimap of timers by their times, and a list of their ads in a file that is
    opened for each change: the timers outlive the process. The events are those of
    TimerEvent.v, the file is that of FileSequence.v, the multimap that of EventQueue.v. *)

From S2P Require Import Prelude Machine EventQueue WmWorld.
From S2P Require Import FileText FileContainer FileLayout FileRules FileList.
From S2P Require Import FileOps FileRemove FileCrash FileReading FileSafety FileWays FileSpec.
From S2P Require Import FileSequence FileOwner FileCompact.
From S2P Require Import SmallAds IdTables IdContainer TimerEvent.

(** ** Operations *)

(** [open] and [close] of a list whose file exists. The stream of a closed list is not
    used, and what the members of the container hold is not read again. *)
Definition fresh_stream (now : Z) (s : St) : St :=
  mkSt (s_file s) 0 false false false (s_budget s) (s_bak s) now
    (mkFC false (fc_size (fc s)) (fc_stamp (fc s)) (fc_limits (fc s)) (fc_removed (fc s))).
Definition fs_open (now : Z) : E unit := λ s, Some (inr tt, fresh_stream now s).
Definition fs_close : E unit := λ s, Some (inr tt, fresh_stream (s_now s) s).

(** [te_event] and [te_classad] may be null. *)
Record TimeoutEvent `{CA : ClassAds} `{UL : UserLog} := mkTimeout {
  te_epoch : Z;
  te_event : option ULogEvent;
  te_classad : option ad;
  te_pointer : iter
}.

(** [t_events] is a multimap to shared objects; its nodes are numbered in the order in
    which they are made, and an iterator is the number of its node, or the end. *)
Record Timer `{CA : ClassAds} `{UL : UserLog} := mkTimer {
  t_events : list (Z * (nat * TimeoutEvent));
  t_made : nat;
  t_backup : St
}.

#[export] Instance timer_owner `{CA : ClassAds} `{UL : UserLog} : Owner Timer := {|
  file_of := t_backup;
  with_file s w := mkTimer _ _ (t_events w) (t_made w) s;
  file_of_with _ _ := eq_refl;
  with_file_of w := match w with mkTimer _ _ _ _ _ => eq_refl end
|}.

Definition EventIterator : Type := option nat.

Section Timer.
Context `{CA : ClassAds} `{UL : UserLog}.

Definition set_pointer (it : iter) (te : TimeoutEvent) : TimeoutEvent :=
  mkTimeout _ _ (te_epoch te) (te_event te) (te_classad te) it.

(** [to_event] and [to_classad], which do what they do once. *)
Definition to_event (te : TimeoutEvent) : decoded TimeoutEvent :=
  match te_event te with
  | Some _ => mret te
  | None =>
      a ← has_value (te_classad te);
      '(epoch, event) ← classad_to_event a;
      mret (mkTimeout _ _ epoch (Some event) (te_classad te) (te_pointer te))
  end.

Definition to_classad (te : TimeoutEvent) : option (ad * TimeoutEvent) :=
  match te_classad te with
  | Some a => Some (a, te)
  | None =>
      event ← te_event te;
      a ← event_to_classad (te_epoch te) event;
      Some (a, mkTimeout _ _ (te_epoch te) (te_event te) (Some a) (te_pointer te))
  end.

(** A [bad_lexical_cast] is not one of the exceptions of the list, and no operation of the
    timer catches it: here they are not defined when it is thrown. *)
Definition lift_decoded {A} (x : decoded A) : Own Timer A := match x with Decoded a => mret a | _ => crash end.

(** [t_events.insert] *)
Definition insert_event (epoch : Z) (te : TimeoutEvent) : Own Timer unit :=
  update_state (λ w, mkTimer _ _ (mm_insert Z.ltb epoch (t_made w, te) (t_events w)) (S (t_made w)) (t_backup w)).

(** [t_events.erase] *)
Definition erase_node (n : nat) : Own Timer unit :=
  update_state (λ w, mkTimer _ _ (filter (λ x, x.2.1 ≠ n) (t_events w)) (t_made w) (t_backup w)).

(** [it->second] *)
Fixpoint find_node (n : nat) (l : list (Z * (nat * TimeoutEvent))) : option TimeoutEvent :=
  match l with
  | [] => None
  | x :: l => if bool_decide (x.2.1 = n) then Some x.2.2 else find_node n l
  end.
Definition object (n : nat) : Own Timer TimeoutEvent := x ← state (λ w, find_node n (t_events w)); lift_option x.

(** [it->second->to_event()] *)
Definition set_object (te : TimeoutEvent) (n : nat) : Own Timer unit :=
  update_state (λ w, mkTimer _ _
    ((λ x, if bool_decide (x.2.1 = n) then (x.1, (n, te)) else x) <$> t_events w) (t_made w) (t_backup w)).
Definition node_event (n : nat) : Own Timer ULogEvent :=
  te ← object n;
  match te_event te with
  | Some event => mret event
  | None => te ← lift_decoded (to_event te); set_object te n;; lift_option (te_event te)
  end.

(** The constructor, on a file that the process has opened. *)
Definition restore_timer (fileIt : iter) : Own Timer unit :=
  a ← on_file (deref fileIt);
  te ← lift_decoded (to_event (mkTimeout _ _ 0 None (Some a) fileIt));
  insert_event (te_epoch te) te.

Definition timer_construct : Own Timer unit :=
  end_ ← on_file fl_end;
  none ← on_file fs_empty;
  (if none : bool then mret tt
   else
     fileIt ← on_file fl_begin;
     fuel ← rounds;
     for_each restore_timer fuel fileIt end_);;
  on_file fs_close.

Definition start_timer (now expire : Z) (event : ULogEvent) : Own Timer unit :=
  on_file (fs_open now);;
  '(a, te) ← lift_option (to_classad (mkTimeout _ _ expire (Some event) None no_iter));
  fIt ← on_file (append a);
  insert_event expire (set_pointer fIt te);;
  on_file fs_close.

Definition remove_timeout (now : Z) (evIt : EventIterator) : Own Timer unit :=
  match evIt with
  | None => mret tt
  | Some n =>
      te ← object n;
      on_file (fs_open now);;
      _ ← on_file (fl_erase (te_pointer te));
      on_file fs_close;;
      erase_node n
  end.

(** The loop that makes [evList], and the loop over it. *)
Fixpoint find_timeouts (chosen : ULogEvent → bool) (nodes : list nat) : Own Timer (list nat) :=
  match nodes with
  | [] => mret []
  | n :: nodes =>
      event ← node_event n;
      evList ← find_timeouts chosen nodes;
      mret (if chosen event then n :: evList else evList)
  end.
Fixpoint remove_list (now : Z) (evList : list nat) : Own Timer unit :=
  match evList with
  | [] => mret tt
  | n :: evList => remove_timeout now (Some n);; remove_list now evList
  end.
Definition nodes_of (l : list (Z * (nat * TimeoutEvent))) : list nat := (λ x, x.2.1) <$> l.

Definition remove_chosen (now : Z) (chosen : ULogEvent → bool) : Own Timer unit :=
  nodes ← state (λ w, nodes_of (t_events w));
  evList ← find_timeouts chosen nodes;
  remove_list now evList.

Definition with_code (condorid eventcode : Z) (e : ULogEvent) : bool :=
  (cluster e =? condorid) && (ulog_number (number_of (body e)) =? eventcode).
Definition of_cluster (condorid : Z) (e : ULogEvent) : bool := cluster e =? condorid.

Definition remove_timeouts (now condorid eventcode : Z) : Own Timer unit :=
  remove_chosen now (with_code condorid eventcode).
Definition remove_all_timeouts (now condorid : Z) : Own Timer unit := remove_chosen now (of_cluster condorid).

(** [++timerIt], when the node is still there. *)
Fixpoint node_after (n : nat) (l : list (Z * (nat * TimeoutEvent))) : option EventIterator :=
  match l with
  | [] => None
  | x :: l => if bool_decide (x.2.1 = n) then Some (head (nodes_of l)) else node_after n l
  end.
End Timer.

(** ** Multimaps *)

Lemma filter_all {A} (P : A → Prop) `{∀ x, Decision (P x)} l : Forall P l → filter P l = l.
Proof. induction 1 as [|x l Hx _ IH]; [done|]. by rewrite filter_cons, decide_True, IH. Qed.
Lemma filter_fmap {A B} (f : A → B) (P : B → Prop) `{∀ y, Decision (P y)} (l : list A) :
  filter P (f <$> l) = f <$> filter (λ x, P (f x)) l.
Proof. induction l as [|x l IH]; [done|]. cbn [fmap list_fmap]. rewrite !filter_cons, IH. by destruct (decide (P (f x))). Qed.
Lemma filter_none {A} (P : A → Prop) `{∀ x, Decision (P x)} l : Forall (λ x, ¬ P x) l → filter P l = [].
Proof. induction 1 as [|x l Hx _ IH]; [done|]. by rewrite filter_cons, decide_False, IH. Qed.
Lemma Forall_filter {A} (P Q : A → Prop) `{∀ x, Decision (P x)} l : Forall Q l → Forall Q (filter P l).
Proof. rewrite !Forall_forall. intros HQ x [_ Hx]%list_elem_of_filter. by apply HQ. Qed.

Section multimap.
Context {V : Type}.
Implicit Types (l xs : list (Z * V)) (k : Z) (v : V).

Definition le_key (x y : Z * V) : Prop := x.1 ≤ y.1.
#[local] Instance le_key_trans : Transitive le_key.
Proof. intros x y z. unfold le_key. lia. Qed.

Lemma mm_sorted k v l : StronglySorted le_key l → StronglySorted le_key (mm_insert Z.ltb k v l).
Proof.
  apply (mm_insert_sorted Z.ltb le_key); intros e; unfold le_key; cbn; [intros ?%Z.ltb_lt|intros ?%Z.ltb_ge]; lia.
Qed.
Lemma mm_range_sorted xs : ∀ l, StronglySorted le_key l → StronglySorted le_key (mm_insert_range Z.ltb xs l).
Proof. induction xs as [|[k v] xs IH]; intros l Hl; [done|]. apply IH. by apply mm_sorted. Qed.

(** To remove elements from a multimap is to make it without them. *)
Section filter.
Context (P : Z * V → Prop) `{∀ x, Decision (P x)}.

Lemma mm_insert_lt k v l : Forall (λ x, k < x.1) l → mm_insert Z.ltb k v l = (k, v) :: l.
Proof. destruct 1 as [|x l Hx]; [done|]. cbn. by rewrite (proj2 (Z.ltb_lt _ _) Hx). Qed.

Lemma mm_insert_filter k v l : StronglySorted le_key l →
  filter P (mm_insert Z.ltb k v l) = if decide (P (k, v)) then mm_insert Z.ltb k v (filter P l) else filter P l.
Proof.
  induction 1 as [|x l Hl IH Hx]; cbn [mm_insert].
  { rewrite filter_cons, !filter_nil. done. }
  destruct (Z.ltb_spec k x.1) as [Hk|Hk].
  - rewrite filter_cons. destruct (decide (P (k, v))); [|done]. symmetry. apply mm_insert_lt, Forall_filter.
    constructor; [done|]. eapply Forall_impl; [exact Hx|]. intros y. unfold le_key. lia.
  - rewrite !(filter_cons P x), IH. destruct (decide (P (k, v))); [|done].
    destruct (decide (P x)); [|done]. cbn [mm_insert]. by rewrite (proj2 (Z.ltb_ge _ _) Hk).
Qed.

Lemma mm_range_filter xs : ∀ l, StronglySorted le_key l →
  filter P (mm_insert_range Z.ltb xs l) = mm_insert_range Z.ltb (filter P xs) (filter P l).
Proof.
  induction xs as [|[k v] xs IH]; intros l Hl; [done|]. cbn [mm_insert_range].
  rewrite IH, mm_insert_filter, filter_cons by (try done; by apply mm_sorted).
  by destruct (decide (P (k, v))).
Qed.
End filter.

Lemma mm_range_app xs ys l :
  mm_insert_range Z.ltb (xs ++ ys) l = mm_insert_range Z.ltb ys (mm_insert_range Z.ltb xs l).
Proof. revert l. induction xs as [|[k v] xs IH]; intros l; [done|]. cbn. apply IH. Qed.

Lemma mm_range_map {W} (f : V → W) xs : ∀ l, let g := λ x : Z * V, (x.1, f x.2) in
  g <$> mm_insert_range Z.ltb xs l = mm_insert_range Z.ltb (g <$> xs) (g <$> l).
Proof.
  assert (Hi : ∀ k v l, let g := λ x : Z * V, (x.1, f x.2) in
    g <$> mm_insert Z.ltb k v l = mm_insert Z.ltb k (f v) (g <$> l)).
  { intros k v l g. induction l as [|x l IH]; [done|]. cbn [mm_insert fmap list_fmap fst g].
    by destruct (k <? x.1); cbn [fmap list_fmap]; [|rewrite <- IH]. }
  induction xs as [|[k v] xs IH]; intros l g; [done|]. cbn [mm_insert_range fmap list_fmap]. cbn [g fst snd].
  rewrite <- Hi. apply IH.
Qed.

(** What comes first of a sorted list. *)
Lemma sorted_prefix now l : StronglySorted le_key l → ∃ pre suf, l = pre ++ suf
  ∧ pre = filter (λ x, x.1 ≤ now) l ∧ suf = filter (λ x, ¬ x.1 ≤ now) l.
Proof.
  induction 1 as [|x l Hl (pre&suf&->&Hp&Hs) Hx]; [by exists [], []|].
  destruct (decide (x.1 ≤ now)) as [Hd|Hd].
  - exists (x :: pre), suf. rewrite !filter_cons, decide_True, decide_False by naive_solver.
    by rewrite <- Hp, <- Hs.
  - exists [], (x :: pre ++ suf). split; [done|].
    assert (Ha : Forall (λ y, ¬ y.1 ≤ now) (x :: pre ++ suf)).
    { constructor; [done|]. eapply Forall_impl; [exact Hx|]. intros y. unfold le_key. lia. }
    split; symmetry; [by apply filter_none|by apply filter_all].
Qed.
End multimap.

(** ** The timers of an object *)

(** An ad that is written and parsed again has the strings, the integers and the truth
    values it had, and its text is not empty. *)
Class TimerAds `{CA : ClassAds} : Prop := {
  timer_events : EventAds;
  timer_parse a : ∃ b, parse_classad (unparse_classad a) = Some b ∧ same_ad b a;
  timer_text a : unparse_classad a ≠ ""
}.
#[export] Existing Instance timer_events.

Section entries.
Context `{CA : ClassAds} `{UL : UserLog}.

(** A timer that has been started: its node and its object, and the place and the data of
    its element of the list in the file. *)
Record entry := mkEntry {
  en_epoch : Z;
  en_event : ULogEvent;
  en_node : nat;
  en_object : TimeoutEvent;
  en_pos : Z;
  en_data : bytes
}.

Definition timer_of (x : entry) : Z * ULogEvent := (en_epoch x, en_event x).
Definition item_of (x : entry) : Z * (nat * TimeoutEvent) := (en_epoch x, (en_node x, en_object x)).
Definition elem_of_entry (x : entry) : Z * bytes := (en_pos x, en_data x).

(** The data can be read as the timer. *)
Definition decodes (data : bytes) (epoch : Z) (event : ULogEvent) : Prop :=
  ∃ a, of_string (T := ad) data = Some a ∧ classad_to_event a = Decoded (epoch, event).

Record entry_ok (x : entry) : Prop := {
  eo_epoch : te_epoch (en_object x) = en_epoch x;
  eo_event : te_event (en_object x) = Some (en_event x);
  eo_pointer : pos_of (te_pointer (en_object x)) = en_pos x;
  eo_data : decodes (en_data x) (en_epoch x) (en_event x)
}.

(** The multimap is made of the timers in the order in which they were started. *)
Record memory_ok (w : Timer) (Y : list entry) : Prop := {
  tk_events : t_events w = mm_insert_range Z.ltb (item_of <$> Y) [];
  tk_nodes : NoDup (en_node <$> Y);
  tk_made : Forall (λ x, en_node x < t_made w)%nat Y;
  tk_entries : Forall entry_ok Y
}.

(** The list in the file has them in this order. *)
Definition timers_ok (w : Timer) (D : disk) (Y : list entry) : Prop :=
  sees D (elem_of_entry <$> Y) (t_backup w) ∧ memory_ok w Y.

Definition has_timers (X : list (Z * ULogEvent)) (w : Timer) : Prop :=
  ∃ D Y, timers_ok w D Y ∧ timer_of <$> Y = X.

(** *** Opening and closing *)

Lemma sees_fresh D L s now : sees D L s → off_ok now → sees D L (fresh_stream now s).
Proof.
  intros (o&H&Hwf&(Hv1&Hv2&Hv3)&Hb) Hn. pose proof (h_fc _ _ _ H) as Ho.
  exists (fc (fresh_stream now s)). split_and!; [|exact Hwf| |exact Hb].
  - destruct H. by constructor.
  - unfold valid, fresh_stream. cbn [fc fc_limits fc_stamp fc_initialized]. by rewrite Ho.
Qed.
Lemma runs_fs_open D L s now :
  sees D L s → off_ok now → runs (fs_open now) (λ _ s', sees D L s') s.
Proof. intros Hs Hn. exists tt, (fresh_stream now s). split; [done|]. by apply sees_fresh. Qed.
Lemma runs_fs_close D L s : sees D L s → runs fs_close (λ _ s', sees D L s') s.
Proof.
  intros Hs. exists tt, (fresh_stream (s_now s) s). split; [done|]. apply sees_fresh; [done|].
  destruct Hs as (o&H&_). apply H.
Qed.

(** *** Nodes *)

Lemma find_node_elem k n te l : NoDup (nodes_of l) → (k, (n, te)) ∈ l → find_node n l = Some te.
Proof.
  unfold nodes_of. induction l as [|[k' [n' te']] l IH]; [by intros _ ?%elem_of_nil|]. cbn.
  intros [Hn Hnd]%NoDup_cons [Heq|Hin]%elem_of_cons.
  - injection Heq as <- <- <-. by rewrite bool_decide_eq_true_2.
  - rewrite bool_decide_eq_false_2; [by apply IH|]. intros ->. apply Hn.
    apply list_elem_of_fmap. by exists (k, (n, te)).
Qed.
Lemma node_after_app pre x suf :
  NoDup (nodes_of (pre ++ x :: suf)) → node_after x.2.1 (pre ++ x :: suf) = Some (head (nodes_of suf)).
Proof.
  induction pre as [|y pre IH]; cbn [app node_after].
  - intros _. by rewrite bool_decide_eq_true_2.
  - unfold nodes_of. rewrite fmap_cons. intros [Hn Hnd]%NoDup_cons. rewrite bool_decide_eq_false_2; [by apply IH|].
    intros Heq. apply Hn. rewrite Heq, fmap_app. apply elem_of_app. right. by left.
Qed.

Section entries_ok.
Context (w : Timer) (Y : list entry) (Hw : memory_ok w Y).

Lemma events_Permutation : t_events w ≡ₚ item_of <$> Y.
Proof. rewrite (tk_events _ _ Hw), mm_insert_range_Permutation. by rewrite app_nil_r. Qed.
Lemma events_sorted : StronglySorted le_key (t_events w).
Proof. rewrite (tk_events _ _ Hw). apply mm_range_sorted. constructor. Qed.
Lemma nodes_items (Z' : list entry) : nodes_of (item_of <$> Z') = en_node <$> Z'.
Proof. unfold nodes_of. by rewrite <- list_fmap_compose. Qed.
Lemma events_nodes : NoDup (nodes_of (t_events w)).
Proof. unfold nodes_of. rewrite events_Permutation. fold (nodes_of (item_of <$> Y)). rewrite nodes_items. apply Hw. Qed.
Lemma event_entry x : x ∈ t_events w → ∃ y, y ∈ Y ∧ x = item_of y ∧ entry_ok y.
Proof.
  rewrite events_Permutation, list_elem_of_fmap. intros (y&->&Hy). exists y. split_and!; [done..|].
  pose proof (tk_entries _ _ Hw) as H. rewrite Forall_forall in H. by apply H.
Qed.
Lemma find_event x : x ∈ t_events w → find_node x.2.1 (t_events w) = Some x.2.2.
Proof. intros Hx. destruct x as [k [n te]]. by apply (find_node_elem k), Hx; apply events_nodes. Qed.

Lemma mruns_object x (Q : TimeoutEvent → Timer → Prop) : x ∈ t_events w → Q x.2.2 w → mruns (object x.2.1) Q w.
Proof.
  intros Hx HQ. unfold object. apply mruns_bind, mruns_state. rewrite find_event by done. by apply mruns_ret.
Qed.
Lemma mruns_node_event y (Q : ULogEvent → Timer → Prop) :
  item_of y ∈ t_events w → entry_ok y → Q (en_event y) w → mruns (node_event (en_node y)) Q w.
Proof.
  intros Hx Hy HQ. unfold node_event. apply mruns_bind, (mruns_object (item_of y)); [done|].
  cbn [item_of snd]. rewrite (eo_event _ Hy). by apply mruns_ret.
Qed.
End entries_ok.

Lemma memory_ok_file w Y s : memory_ok w Y → memory_ok (with_file s w) Y.
Proof. intros []. by constructor. Qed.

(** A timer is added. *)
Lemma memory_insert w Y x :
  memory_ok w Y → en_node x = t_made w → entry_ok x →
  memory_ok (mkTimer _ _ (mm_insert Z.ltb (en_epoch x) (t_made w, en_object x) (t_events w)) (S (t_made w)) (t_backup w))
    (Y ++ [x]).
Proof.
  intros [He Hn Hm Ho] Hx Hxo. split; cbn [t_events t_made].
  - rewrite fmap_app, mm_range_app, <- He, <- Hx. done.
  - rewrite fmap_app. apply NoDup_app. split_and!; [done| |apply NoDup_singleton].
    intros n (y&->&Hy)%list_elem_of_fmap Heq%list_elem_of_singleton.
    rewrite Forall_forall in Hm. specialize (Hm y Hy). lia.
  - apply Forall_app. split; [eapply Forall_impl; [exact Hm|]; cbn; lia|]. constructor; [lia|done].
  - apply Forall_app. split; [done|]. by constructor.
Qed.

(** Timers are removed. *)
Lemma memory_filter w Y n :
  memory_ok w Y →
  memory_ok (mkTimer _ _ (filter (λ x, x.2.1 ≠ n) (t_events w)) (t_made w) (t_backup w)) (filter (λ y, en_node y ≠ n) Y).
Proof.
  intros [He Hn Hm Ho]. split; cbn [t_events t_made].
  - rewrite He, mm_range_filter by apply SSorted_nil. by rewrite filter_nil, filter_fmap.
  - eapply sublist_NoDup; [exact Hn|]. apply fmap_sublist, sublist_filter.
  - by apply Forall_filter.
  - by apply Forall_filter.
Qed.
End entries.

(** ** What the file has of a timer *)

(** The events whose members are texts, integers and truth values. *)
Definition textual (b : event_body) : bool :=
  match b with ShadowExceptionEvent _ _ _ => false | b => negb (has_usage b) end.

Lemma textual_number b b' : number_of b = number_of b' → textual b = textual b'.
Proof. by destruct b, b'. Qed.

Section stored.
Context `{CA : ClassAds} `{UL : UserLog} {TA : TimerAds} {LA : UserLogLaws}.

Lemma same_body a b sval ival b0 :
  same_ad b a → textual b0 = true → body_to_event b sval ival b0 = body_to_event a sval ival b0.
Proof.
  intros Hs Ht.
  assert (H1 : ∀ n, evaluate_string b n = evaluate_string a n) by (intros n; apply Hs).
  assert (H2 : ∀ n old, get_string b n old = get_string a n old) by (intros n old; unfold get_string; by rewrite H1).
  assert (H3 : ∀ n old, get_int b n old = get_int a n old)
    by (intros n old; unfold get_int; by destruct (Hs n) as (_&->&_)).
  assert (H4 : ∀ n, evaluate_bool b n = evaluate_bool a n) by (intros n; apply Hs).
  assert (H5 : ∀ n old, get_bool b n old = get_bool a n old) by (intros n old; unfold get_bool; by rewrite H4).
  destruct b0; try discriminate Ht; cbn [body_to_event]; rewrite ?H1, ?H2, ?H3, ?H4, ?H5; done.
Qed.

(** What comes back as it was, also from the text of its ad. *)
Definition storable (e : ULogEvent) : Prop :=
  restorable (body e) = true ∧ textual (body e) = true ∧ restored e (restored_body (body e)) = e.

Lemma stored_decodes epoch e a :
  storable e → event_to_classad epoch e = Some a → decodes (ad_text a) epoch e.
Proof.
  intros (Hr&Ht&He) Ha. destruct (timer_parse a) as (b&Hb&Hs). exists b. split.
  { unfold of_string, ad_converter, ad_text. by rewrite String.string_of_list_ascii_of_string. }
  destruct (new_event (number_of (body e))) as (b0&Hb0&Hn).
  assert (Hh : header epoch e b).
  { destruct (header_written _ _ _ Ha) as (H1&H2&H3&H4&H5&H6). unfold header.
    destruct (Hs te_s_Timeout) as (->&_&_), (Hs te_s_EventNumber) as (_&->&_), (Hs te_s_EventTime) as (->&_&_),
      (Hs te_s_Cluster) as (_&->&_), (Hs te_s_Proc) as (_&->&_), (Hs te_s_SubProc) as (_&->&_). done. }
  rewrite (header_read epoch e b b0 _ Hh Hb0 eq_refl), (same_body a).
  - rewrite (body_restored _ _ _ _ _ _ Hr Ha Hb0). cbn. by rewrite He.
  - exact Hs.
  - by rewrite (textual_number b0 (body e) Hn).
Qed.

Lemma storable_written epoch e : storable e → ∃ a, event_to_classad epoch e = Some a.
Proof.
  intros (Hr&Ht&_). unfold event_to_classad. destruct (body e); try discriminate Ht; cbn [body_to_classad]; try by eexists.
  destruct info; [by eexists|discriminate Hr].
Qed.
End stored.

(** ** What the operations do *)

Section operations.
Context `{CA : ClassAds} `{UL : UserLog} {TA : TimerAds} {LA : UserLogLaws}.

(** *** The constructor *)

Lemma take_fmap_S {A B} (f : A → B) (Y : list A) (l : list B) i x :
  f <$> Y = take i l → l !! i = Some (f x) → f <$> (Y ++ [x]) = take (S i) l.
Proof. intros HY Hx. by rewrite fmap_app, HY, (take_S_r _ _ _ Hx). Qed.

Section restoring.
Context (D : disk) (L : elems) (X : list (Z * ULogEvent)).
Context (HX : Forall2 (λ l x, decodes l.2 x.1 x.2) L X).

(** The timers when the first [i] elements have been read. *)
Definition half_restored (i : nat) (w : Timer) : Prop :=
  ∃ Y, memory_ok w Y ∧ elem_of_entry <$> Y = take i L ∧ timer_of <$> Y = take i X.

Lemma restore_element i q d w :
  L !! i = Some (q, d) → half_restored i w → sees D L (t_backup w) →
  mruns (restore_timer (at_nth D L i)) (λ _ w', half_restored (S i) w' ∧ sees D L (t_backup w')) w.
Proof.
  intros Hq (Y&HY&HL&HXi) Hs. destruct (Forall2_lookup_l _ _ _ _ _ HX Hq) as ([epoch e]&Hx&a&Ha&Hd). cbn [fst snd] in *.
  unfold restore_timer. apply mruns_bind, mruns_file. rewrite (at_nth_some D L _ _ _ Hq).
  eapply (runs_deref (T := ad) a); [done|exact Ha|]. rewrite <- (at_nth_some D L _ _ _ Hq), with_file_of.
  unfold to_event. cbn [te_event te_classad has_value mbind decoded_bind]. rewrite Hd. cbn [mbind decoded_bind].
  set (te := mkTimeout _ _ epoch (Some e) (Some a) (at_nth D L i)). apply mruns_bind, mruns_ret, mruns_update.
  split; [|exact Hs]. set (x := mkEntry epoch e (t_made w) te q d). exists (Y ++ [x]). split_and!.
  - apply (memory_insert w Y x); [exact HY|done|]. split; [done|done| |by exists a].
    exact (at_nth_pos D L _ _ _ Hq).
  - by apply take_fmap_S.
  - by apply take_fmap_S.
Qed.

Lemma timer_construct_ok w :
  sees D L (t_backup w) → t_events w = [] → mruns timer_construct (λ _ w', has_timers X w') w.
Proof.
  intros Hs Hw. unfold timer_construct. apply mruns_bind, mruns_file.
  eapply runs_mono; [by apply (runs_fl_end D L)|]. intros it s1 [-> Hs1].
  apply mruns_bind, mruns_file. eapply runs_mono; [by apply (runs_fs_empty D L)|]. intros none s2 [-> Hs2].
  apply mruns_bind.
  apply (mruns_mono _ (λ _ w', half_restored (length L) w' ∧ sees D L (t_backup w'))).
  - assert (H0 : ∀ s w', t_events w' = [] → half_restored 0 (with_file s w')).
    { intros s w' He. exists []. split_and!; [|done..]. split; [exact He|apply NoDup_nil_2|constructor..]. }
    case_bool_decide as HL.
    + apply mruns_ret. split; [|exact Hs2]. rewrite HL. by apply H0.
    + apply mruns_bind, mruns_file. eapply runs_mono; [by apply (runs_fl_begin D L)|]. intros it s3 [-> Hs3].
      apply mruns_bind, mruns_state. rewrite file_of_with. pose proof Hs3 as (o3&H3&Hwf&_).
      pose proof (list_of_length _ _ (wf_list _ _ Hwf)) as Hlen.
      pose proof (layout_length D (wf_ok _ _ Hwf)) as Hlay. rewrite (h_file _ _ _ H3).
      assert (HI : ∀ i s w', half_restored i w' → half_restored i (with_file s w')).
      { intros i s w' (Y&HY&H1&H2). exists Y. split; [by apply memory_ok_file|done]. }
      refine (for_each_ok (W := Timer) D L restore_timer half_restored HI restore_element (length L) _ 0 _ _ _ _ _);
        [lia|lia|exact Hs3|by apply H0].
  - intros [] w1 [(Y&HY&HL&HXi) Hs3]. apply mruns_file. eapply runs_mono; [by apply (runs_fs_close D L)|].
    intros [] s4 Hs4. exists D, Y. pose proof (Forall2_length _ _ _ HX) as Hlen.
    rewrite firstn_all in HL. rewrite Hlen, firstn_all in HXi. split; [|exact HXi]. split; [|by apply memory_ok_file].
    by rewrite HL.
Qed.
End restoring.

(** *** Starting *)

Definition written (epoch : Z) (e : ULogEvent) : Z :=
  from_option (λ a, data_size (ad_text a)) 0 (event_to_classad epoch e).

Lemma timer_text_nonempty a : ad_text a ≠ [].
Proof. pose proof (timer_text a) as H. unfold ad_text. by destruct (unparse_classad a). Qed.

Lemma start_timer_ok w D Y now epoch e :
  timers_ok w D Y → off_ok now → storable e → room D 1 (file_end D + written epoch e) →
  mruns (start_timer now epoch e) (λ _ w', has_timers ((timer_of <$> Y) ++ [(epoch, e)]) w') w.
Proof.
  intros [Hs HY] Hn He Hr. destruct (storable_written epoch e He) as [a Ha].
  pose proof (stored_decodes epoch e a He Ha) as Hd. unfold written in Hr. rewrite Ha in Hr. cbn [from_option] in Hr.
  unfold start_timer. apply mruns_bind, mruns_file. eapply runs_mono; [by eapply runs_fs_open|]. intros [] s1 Hs1.
  unfold to_classad. cbn [te_classad te_event te_epoch te_pointer mbind option_bind lift_option]. rewrite Ha.
  cbn [mbind option_bind lift_option]. apply mruns_bind, mruns_ret, mruns_bind, mruns_file. rewrite file_of_with.
  eapply runs_mono; [by eapply (runs_append D (elem_of_entry <$> Y) a (ad_text a)), timer_text_nonempty|].
  intros it s2 (D'&[Hs2 _]&->). apply mruns_bind, mruns_update, mruns_file.
  eapply runs_mono; [by eapply runs_fs_close|]. intros [] s3 Hs3.
  set (n := file_end D + data_size (ad_text a)) in *. set (L := elem_of_entry <$> Y) in *.
  set (it := mkIter true true (iter_nth (L ++ [(file_end D, ad_text a)]) n (length L)) (ad_text a)) in *.
  set (te := mkTimeout _ _ epoch (Some e) (Some a) it).
  set (x := mkEntry epoch e (t_made w) te (file_end D) (ad_text a)).
  exists D', (Y ++ [x]). split; [|by rewrite fmap_app]. split.
  - by rewrite fmap_app.
  - apply memory_ok_file. apply (memory_insert _ Y x); [by do 2 apply memory_ok_file|done|]. split; [done|done| |done].
    unfold pos_of. cbn [x te it en_object en_pos te_pointer bi_iterator].
    eapply iter_nth_current. by apply list_lookup_middle.
Qed.

(** *** Removing *)

Lemma filter_nodes (Y1 Y2 : list entry) x :
  NoDup (en_node <$> Y1 ++ x :: Y2) → filter (λ y, en_node y ≠ en_node x) (Y1 ++ x :: Y2) = Y1 ++ Y2.
Proof.
  rewrite fmap_app, fmap_cons, <- Permutation_middle. intros [Hx _]%NoDup_cons.
  rewrite filter_app, filter_cons, decide_False by naive_solver.
  rewrite <- fmap_app in Hx. rewrite <- filter_app. apply filter_all, Forall_forall.
  intros y Hy Heq. apply Hx. rewrite <- Heq. by apply list_elem_of_fmap_2.
Qed.

Lemma remove_timeout_ok w D Y now x :
  timers_ok w D Y → off_ok now → x ∈ Y → room D 1 (file_end D) →
  mruns (remove_timeout now (Some (en_node x)))
    (λ _ w', ∃ D', timers_ok w' D' (filter (λ y, en_node y ≠ en_node x) Y)
      ∧ ts_counter (d_stamp D') ≤ ts_counter (d_stamp D) + 1 ∧ file_end D' ≤ file_end D) w.
Proof.
  intros [Hs HY] Hn Hx [Hc He]. unfold remove_timeout. apply mruns_bind.
  assert (Hin : item_of x ∈ t_events w).
  { rewrite (events_Permutation w Y HY). by apply list_elem_of_fmap_2. }
  apply (mruns_object w Y HY (item_of x)); [done|]. cbn [item_of snd].
  apply mruns_bind, mruns_file. eapply runs_mono; [by eapply runs_fs_open|]. intros [] s1 Hs1.
  pose proof (tk_entries _ _ HY) as Ho. rewrite Forall_forall in Ho. specialize (Ho x Hx).
  apply list_elem_of_split in Hx as (Y1&Y2&->).
  pose proof (filter_nodes Y1 Y2 x (tk_nodes _ _ HY)) as HF. rewrite fmap_app, fmap_cons in Hs1.
  apply mruns_bind, mruns_file. rewrite file_of_with.
  eapply runs_mono; [eapply (runs_fl_erase D _ (en_pos x) (en_data x) _ (te_pointer (en_object x)))|].
  { apply Ho. } { exact Hs1. } { exact Hc. } { exact He. }
  intros it s2 (D'&_&Hs2&He'&Hla). apply mruns_bind, mruns_file.
  eapply runs_mono; [by eapply runs_fs_close|]. intros [] s3 Hs3. apply mruns_update. exists D'. rewrite HF.
  split_and!; [|apply Hla|rewrite He'; apply removed_end_le, file_end_pos].
  rewrite <- HF. split.
  - rewrite HF, fmap_app. exact Hs3.
  - apply memory_filter. by do 3 apply memory_ok_file.
Qed.

Lemma remove_list_ok now ns : ∀ w D Y,
  timers_ok w D Y → off_ok now → NoDup ns → Forall (λ n, n ∈ en_node <$> Y) ns →
  room D (Z.of_nat (length ns)) (file_end D) →
  mruns (remove_list now ns) (λ _ w', ∃ D', timers_ok w' D' (filter (λ y, en_node y ∉ ns) Y)) w.
Proof.
  induction ns as [|n ns IH]; intros w D Y Hw Hn Hnd Hin Hr; cbn [remove_list].
  - apply mruns_ret. exists D. rewrite filter_all; [done|]. apply Forall_forall. by intros y _ ?%elem_of_nil.
  - apply NoDup_cons in Hnd as [Hnn Hnd]. apply Forall_cons in Hin as [Hn0 Hin].
    apply list_elem_of_fmap in Hn0 as (x&->&Hx). apply mruns_bind.
    eapply mruns_mono; [eapply remove_timeout_ok; [done..|]|].
    { eapply room_less; [exact Hr|cbn; lia|lia]. }
    intros [] w1 (D1&Hw1&Hc1&He1). cbn [length] in Hr. eapply mruns_mono; [eapply IH; [exact Hw1|done|done|..]|].
    + rewrite Forall_forall in *. intros m Hm. pose proof (Hin m Hm) as (y&->&Hy)%list_elem_of_fmap.
      apply list_elem_of_fmap_2, list_elem_of_filter. split; [|done]. by intros Heq; rewrite Heq in Hm.
    + destruct Hr. split; lia.
    + intros [] w2 (D2&Hw2). exists D2. rewrite list_filter_filter in Hw2.
      erewrite list_filter_iff; [exact Hw2|]. intros y. cbn. rewrite not_elem_of_cons. tauto.
Qed.

(** What [to_event] gives for a node. *)
Definition event_in (x : Z * (nat * TimeoutEvent)) : option ULogEvent := te_event x.2.2.
Definition chosen_in (chosen : ULogEvent → bool) (x : Z * (nat * TimeoutEvent)) : bool :=
  from_option chosen false (event_in x).

Lemma find_timeouts_ok w Y chosen xs :
  memory_ok w Y → xs ⊆ t_events w →
  mruns (find_timeouts chosen (nodes_of xs))
    (λ l w', l = nodes_of (filter (λ x, chosen_in chosen x) xs) ∧ w' = w) w.
Proof.
  intros HY. induction xs as [|x xs IH]; intros Hxs; [by apply mruns_ret|].
  unfold nodes_of. rewrite fmap_cons. fold (nodes_of xs). cbn [find_timeouts].
  assert (Hx : x ∈ t_events w) by (apply Hxs; by left).
  destruct (event_entry w Y HY x Hx) as (y&Hy&->&Ho). apply mruns_bind.
  apply (mruns_node_event w Y HY y); [done|done|].
  apply mruns_bind. eapply mruns_mono; [apply IH; intros z Hz; apply Hxs; by right|].
  intros l w' [-> ->]. apply mruns_ret. split; [|done]. rewrite filter_cons.
  unfold chosen_in, event_in. cbn [item_of snd]. rewrite (eo_event _ Ho). cbn [from_option].
  destruct (chosen (en_event y)) eqn:Hc; [rewrite decide_True by done|rewrite decide_False by (by intros ?)]; done.
Qed.

(** The timers that are left when those of some of the nodes are removed. *)
Lemma filter_items w Y (P : Z * (nat * TimeoutEvent) → Prop) `{∀ x, Decision (P x)} :
  memory_ok w Y →
  filter (λ y, en_node y ∉ nodes_of (filter P (t_events w))) Y = filter (λ y, ¬ P (item_of y)) Y.
Proof.
  intros HY. assert (Hin : ∀ y, y ∈ Y → en_node y ∈ nodes_of (filter P (t_events w)) ↔ P (item_of y)).
  { intros y Hy. unfold nodes_of. rewrite list_elem_of_fmap. split.
    - intros (x&Hn&[HP Hx]%list_elem_of_filter). pose proof (event_entry w Y HY x Hx) as (z&Hz&->&_).
      enough (y = z) as -> by done. cbn [item_of fst snd] in Hn. pose proof (tk_nodes _ _ HY) as Hnd.
      apply list_elem_of_lookup in Hy as [i Hi]. apply list_elem_of_lookup in Hz as [j Hj].
      enough (i = j) by congruence. eapply (NoDup_lookup _ _ _ (en_node y) Hnd); rewrite list_lookup_fmap.
      + by rewrite Hi.
      + rewrite Hj. cbn. by rewrite <- Hn.
    - intros HP. exists (item_of y). split; [done|]. apply list_elem_of_filter. split; [done|].
      rewrite (events_Permutation w Y HY). by apply list_elem_of_fmap_2. }
  clear HY. induction Y as [|y Y IH]; [done|]. rewrite !filter_cons, IH by (intros z Hz; apply Hin; by right).
  assert (Hy : y ∈ y :: Y) by by left. specialize (Hin y Hy).
  by destruct (decide (P (item_of y))); [rewrite !decide_False by tauto|rewrite !decide_True by tauto].
Qed.

Lemma remove_nodes_ok w D Y now (P : Z * (nat * TimeoutEvent) → Prop) `{∀ x, Decision (P x)}
    (Q : Z * ULogEvent → Prop) `{∀ x, Decision (Q x)} :
  timers_ok w D Y → off_ok now → room D (Z.of_nat (length (t_events w))) (file_end D) →
  (∀ y, entry_ok y → P (item_of y) ↔ Q (timer_of y)) →
  mruns (remove_list now (nodes_of (filter P (t_events w))))
    (λ _ w', has_timers (filter (λ x, ¬ Q x) (timer_of <$> Y)) w') w.
Proof.
  intros Hw Hn Hr HPQ. pose proof Hw as [_ HY]. eapply mruns_mono; [eapply (remove_list_ok now); [exact Hw|exact Hn|..]|].
  - eapply sublist_NoDup; [exact (events_nodes w Y HY)|]. apply fmap_sublist, sublist_filter.
  - apply Forall_forall. intros n (x&->&[_ Hx]%list_elem_of_filter)%list_elem_of_fmap.
    destruct (event_entry w Y HY x Hx) as (y&Hy&->&_). by apply (list_elem_of_fmap_2 en_node).
  - eapply room_less; [exact Hr| |lia]. unfold nodes_of. rewrite length_fmap. apply Nat2Z.inj_le, length_filter.
  - intros [] w' (D'&Hw'). rewrite (filter_items w Y P HY) in Hw'. exists D'. eexists. split; [exact Hw'|].
    rewrite filter_fmap. f_equal. pose proof (tk_entries _ _ HY) as Ho. clear -HPQ Ho.
    induction Ho as [|y Y Hy _ IH]; [done|]. rewrite !filter_cons, IH. specialize (HPQ y Hy).
    destruct (decide (P (item_of y))).
    + rewrite !decide_False by tauto. done.
    + rewrite !decide_True by tauto. done.
Qed.

Lemma remove_chosen_ok w D Y now chosen :
  timers_ok w D Y → off_ok now → room D (Z.of_nat (length (t_events w))) (file_end D) →
  mruns (remove_chosen now chosen) (λ _ w', has_timers (filter (λ x, ¬ chosen x.2) (timer_of <$> Y)) w') w.
Proof.
  intros Hw Hn Hr. pose proof Hw as [_ HY]. unfold remove_chosen. apply mruns_bind, mruns_state, mruns_bind.
  eapply mruns_mono; [by apply (find_timeouts_ok w Y chosen (t_events w) HY)|]. intros l w' [-> ->].
  eapply remove_nodes_ok with (Q := λ x, chosen x.2); [done..|].
  intros y Hy. unfold chosen_in, event_in. cbn [item_of timer_of snd]. by rewrite (eo_event _ Hy).
Qed.

(** *** A new object *)

Lemma entries_decode (Y : list entry) : Forall entry_ok Y →
  Forall2 (λ l x, decodes l.2 x.1 x.2) (elem_of_entry <$> Y) (timer_of <$> Y).
Proof. induction 1 as [|y Y Hy _ IH]; [constructor|]. constructor; [apply Hy|done]. Qed.

(** The timers of a process that has created the file. *)
Definition new_timer (now : Z) : option Timer :=
  match create (open_file [] now None) with
  | Some (inr _, s) => snd <$> timer_construct (mkTimer _ _ [] 0 s)
  | _ => None
  end.

Lemma new_timer_ok now : off_ok now → ∃ w, new_timer now = Some w ∧ has_timers [] w.
Proof.
  intros Hn. destruct (create_ok now Hn) as (s&D&o&E&H&Hwf&Hsy&Hb). unfold new_timer. rewrite E.
  assert (Hs : sees D [] s).
  { exists o. split_and!; [done|done| |done]. apply valid_synced; [done|apply Hwf]. }
  destruct (timer_construct_ok D [] [] ltac:(constructor) (mkTimer _ _ [] 0 s) Hs eq_refl) as ([]&w&Ew&Hw).
  exists w. by rewrite Ew.
Qed.
End operations.

#[export] Instance small_timer_ads : TimerAds (CA := small_ads).
Proof.
  constructor.
  - exact small_event_ads.
  - intros a. exists a. split; [|done]. cbn. rewrite of_digits_digits. exact (decode_encode a).
  - intros a. apply digits_nonempty.
Qed.
