(* ===== verification/LogMonitor.v ===== *)
(** * The log monitor and its timers (CondorMonitor.cpp, logmonitor/processer)

    The event processors start and remove the timers of Timer.v: a processor is created for
    each event that is read from Condor's log, and for the event of each timer that has
    expired. What a processor does to the timers is modelled for every class of events.
    What it finds in the repository of the jobs, and whether an exception ends what else it
    does (the repository, the list of the aborted jobs, the position file, the job
    controller, the logger), are arguments: it is modelled where the source has it, before
    or after the change of the timers. *)

From S2P Require Import Prelude Machine EventQueue WmWorld.
From S2P Require Import FileText FileContainer FileLayout FileRules FileList.
From S2P Require Import FileOps FileRemove FileCrash FileReading FileSafety FileWays FileSpec.
From S2P Require Import FileSequence FileOwner FileCompact.
From S2P Require Import SmallAds IdTables IdContainer TimerEvent Timer.

(** ** The processors *)

(** The values that the configuration has. *)
Class LMConfiguration := {
  aborted_jobs_timeout : Z;
  globus_down_timeout : Z;
  force_cancellation_retries : Z
}.

(** [generic_event_t] *)
Inductive generic_event_t := null_event | cancelled_event | retry_remove | cannot_cancel_event | user_cancelled_event.

Definition generic_event_code (x : generic_event_t) : Z :=
  match x with
  | null_event => 0
  | cancelled_event => 1
  | retry_remove => 2
  | cannot_cancel_event => 3
  | user_cancelled_event => 4
  end.

(** The [static_cast], with the default of the [switch]. *)
Definition generic_event_of (cn : Z) : generic_event_t :=
  match cn with
  | 1 => cancelled_event
  | 2 => retry_remove
  | 3 => cannot_cancel_event
  | 4 => user_cancelled_event
  | _ => null_event
  end.

(** What the processing of an event finds and meets: the count of the retries of the job
    that the repository has for a job of Condor's, and whether what the processor does
    besides the timers ends with an exception. *)
Record around := mkAround {
  retry_count : string → option Z;
  throws : bool
}.

(** The regular expressions of [process_event] on the whole of a text: the sender, the
    digits of a number, which are the result, a dash and anything. *)
Definition skip (prefix s : bytes) : option bytes :=
  if bool_decide (take (length prefix) s = prefix) then Some (drop (length prefix) s) else None.
Definition generic_code (sender info : string) : option bytes :=
  s ← skip (String.list_ascii_of_string sender) (String.list_ascii_of_string info);
  let '(code, s) := span (is_digit 10) s in
  _ ← skip (String.list_ascii_of_string " - ") s;
  if bool_decide (code = []) then None else Some code.

(** [lexical_cast<int>] of digits. *)
Definition lexical_cast_int (code : bytes) : option Z :=
  let n := number 10 code in if n <? 2 ^ 31 then Some n else None.

Section processers.
Context `{CA : ClassAds} `{UL : UserLog} `{LM : LMConfiguration}.

(** An exception of what is not modelled; which one it is plays no part. *)
Definition throw_other {A} : Own Timer A := λ w, Some (inl unknown, w).
Definition other_work (a : around) : Own Timer unit := if throws a then throw_other else mret tt.

(** [ei_condor] *)
Definition ei_condor (e : ULogEvent) : string :=
  String.append (lexical_string (cluster e))
    (if negb (proc e =? 0) then String.append "." (lexical_string (proc e)) else "").

(** The texts of the two events that are started. *)
Definition generic_event_msg (evn : generic_event_t) : string :=
  match evn with
  | retry_remove =>
      String.append (String.append "LM: " (String.string_of_list_ascii (print_num 10 0 (generic_event_code evn))))
        " - Must retry job removal"
  | _ => "LM: 0 - Null event"
  end.
Definition globus_down_reason : string := "LM message: the timeout attached to the globus-down event expired.".

Definition instantiate_generic_event (evn : generic_event_t) (condorid epoch : Z) : Own Timer ULogEvent :=
  b ← lift_option (instantiateEvent (ulog_number ULOG_GENERIC));
  match b with
  | GenericEvent _ => mret (mkEvent _ (localtime_r epoch) condorid 0 0 (GenericEvent (strncpy 128 (generic_event_msg evn))))
  | _ => crash
  end.

(** The timer that makes the log monitor try again to remove a job. *)
Definition start_removal (now : Z) (e : ULogEvent) : Own Timer unit :=
  let epoch := i64 (now + aborted_jobs_timeout) in
  event ← instantiate_generic_event retry_remove (cluster e) epoch;
  start_timer now epoch event.

(** *** [EventGeneric] *)
Definition finalProcess (now : Z) (a : around) (e : ULogEvent) (cn : Z) : Own Timer unit :=
  match retry_count a (ei_condor e) with
  | None => mret tt
  | Some retry =>
      match generic_event_of cn with
      | null_event => mret tt
      | user_cancelled_event => other_work a
      | cancelled_event => start_removal now e
      | retry_remove => other_work a
      | cannot_cancel_event =>
          if force_cancellation_retries <? retry then
            other_work a;;
            remove_all_timeouts now (cluster e)
          else
            let epoch := i64 (now + aborted_jobs_timeout) in
            event ← instantiate_generic_event retry_remove (cluster e) epoch;
            other_work a;;
            start_timer now epoch event
      end
  end.

(** A number that is not an [int] ends it with a [bad_lexical_cast]; the array of a text
    without a terminator would be read beyond its end. *)
Definition generic_process_event (now : Z) (a : around) (e : ULogEvent) (info : option string) : Own Timer unit :=
  info ← lift_option info;
  let final code := match lexical_cast_int code with Some cn => finalProcess now a e cn | None => throw_other end in
  match generic_code "JC: " info with
  | Some code => final code
  | None =>
      match generic_code "LM: " info with
      | Some code => final code
      | None => mret tt
      end
  end.

(** *** [EventGlobusResourceDown], [EventGlobusResourceUp] *)
Definition down_process_event (now : Z) (e : ULogEvent) : Own Timer unit :=
  let epoch := i64 (now + globus_down_timeout) in
  b ← lift_option (instantiateEvent (ulog_number ULOG_GLOBUS_SUBMIT_FAILED));
  match b with
  | GlobusSubmitFailedEvent _ =>
      start_timer now epoch
        (mkEvent _ (localtime_r epoch) (cluster e) 0 0 (GlobusSubmitFailedEvent (strncpy 128 globus_down_reason)))
  | _ => crash
  end.
Definition up_process_event (now : Z) (e : ULogEvent) : Own Timer unit :=
  remove_timeouts now (cluster e) (ulog_number ULOG_GLOBUS_SUBMIT_FAILED).

(** *** [EventTerminated], [EventAborted] *)
Definition terminated_process_event (now : Z) (a : around) (e : ULogEvent) : Own Timer unit :=
  match retry_count a (ei_condor e) with
  | None => mret tt
  | Some _ => remove_all_timeouts now (cluster e);; other_work a
  end.
Definition aborted_process_event (now : Z) (a : around) (e : ULogEvent) (removeTimer : bool) : Own Timer unit :=
  match retry_count a (ei_condor e) with
  | None => mret tt
  | Some _ => (if removeTimer then remove_all_timeouts now (cluster e) else mret tt);; other_work a
  end.

(** *** [create_processor], and [process_event] of what it creates *)
Definition process_event (now : Z) (a : around) (e : ULogEvent) (removeTimer : bool) : Own Timer unit :=
  match body e with
  | JobTerminatedEvent _ _ _ _ _ _ _ _ _ _ _ _ => terminated_process_event now a e
  | JobAbortedEvent _ => aborted_process_event now a e removeTimer
  | GlobusResourceDownEvent _ => down_process_event now e
  | GlobusResourceUpEvent _ => up_process_event now e
  | GenericEvent info => generic_process_event now a e info
  | _ => other_work a
  end.

(** ** [checkAndProcessTimers] *)

(** [CondorMonitor::status_t] *)
Inductive monitor_status := no_events | event_read | timer_expired | event_error.

(** The loop: the nodes to remove, and the events that have been processed; [env] is what
    the processing of each finds. Each round reads the clock; here it is that of the call. *)
Fixpoint process_timers (fuel : nat) (now : Z) (env : nat → around) (timerIt : EventIterator) (removed : list nat)
    (events : list ULogEvent) : Own Timer (list nat * list ULogEvent) :=
  match fuel, timerIt with
  | O, _ => crash
  | S _, None => mret (removed, events)
  | S fuel, Some n =>
      event ← node_event n;
      te ← object n;
      if te_epoch te <=? now then
        process_event now (env (length events)) event true;;
        next ← state (λ w, node_after n (t_events w));
        next ← lift_option next;
        process_timers fuel now env next (removed ++ [n]) (events ++ [event])
      else mret (removed, events)
  end.

Definition checkAndProcessTimers (fuel : nat) (now : Z) (env : nat → around) :
    Own Timer (monitor_status * list ULogEvent) :=
  timerIt ← state (λ w, head (nodes_of (t_events w)));
  '(removedTimers, events) ← process_timers fuel now env timerIt [] [];
  remove_list now removedTimers;;
  mret (if bool_decide (removedTimers = []) then no_events else timer_expired, events).

(** Who calls it sees that there was an exception. *)
Definition try_own {A} (m : Own Timer A) : Own Timer (option A) := λ w,
  match m w with
  | Some (inr x, w) => Some (inr (Some x), w)
  | Some (inl _, w) => Some (inr None, w)
  | None => None
  end.
End processers.

(** ** The specification *)

Section specification.
Context `{CA : ClassAds} `{UL : UserLog} `{LM : LMConfiguration}.

(** The events of the two timers: the removal of a job is tried again, and a submission to
    a resource that has not come up again has failed. *)
Definition removal_event (c epoch : Z) : ULogEvent :=
  mkEvent _ (localtime_r epoch) c 0 0 (GenericEvent (Some "LM: 2 - Must retry job removal")).
Definition failed_event (c epoch : Z) : ULogEvent :=
  mkEvent _ (localtime_r epoch) c 0 0 (GlobusSubmitFailedEvent (Some globus_down_reason)).

(** The message of a generic event: its number, when it is one of the job controller's or
    of the log monitor's. *)
Definition message_of (e : ULogEvent) : option bytes :=
  match body e with
  | GenericEvent (Some info) =>
      match generic_code "JC: " info with Some code => Some code | None => generic_code "LM: " info end
  | _ => None
  end.

(** An event of Condor's log: whether its processing ends without an exception, and the
    timers after it. That a job has been cancelled starts a timer for its cluster, and so
    does that it cannot be cancelled, until it has been tried too often; a resource that is
    down starts one and a resource that is up removes those; a job that has ended has no
    timers any more. *)
Definition log_spec (now : Z) (a : around) (e : ULogEvent) (X : list (Z * ULogEvent)) : bool * list (Z * ULogEvent) :=
  let c := cluster e in
  let without (P : ULogEvent → bool) := filter (λ x : Z * ULogEvent, ¬ P x.2) X in
  let removal := let epoch := i64 (now + aborted_jobs_timeout) in X ++ [(epoch, removal_event c epoch)] in
  match number_of (body e), retry_count a (ei_condor e) with
  | ULOG_GLOBUS_RESOURCE_DOWN, _ =>
      let epoch := i64 (now + globus_down_timeout) in (true, X ++ [(epoch, failed_event c epoch)])
  | ULOG_GLOBUS_RESOURCE_UP, _ => (true, without (with_code c (ulog_number ULOG_GLOBUS_SUBMIT_FAILED)))
  | (ULOG_JOB_TERMINATED | ULOG_JOB_ABORTED), None => (true, X)
  | (ULOG_JOB_TERMINATED | ULOG_JOB_ABORTED), Some _ => (negb (throws a), without (of_cluster c))
  | ULOG_GENERIC, known =>
      match message_of e with
      | None => (true, X)
      | Some code =>
          if 2 ^ 31 <=? number 10 code then (false, X)
          else match known with
               | None => (true, X)
               | Some retries =>
                   if number 10 code =? 1 then (true, removal)
                   else if number 10 code =? 3 then
                     if throws a then (false, X)
                     else (true, if retries <=? force_cancellation_retries then removal else without (of_cluster c))
                   else if bool_decide (number 10 code ∈ [2; 4]) then (negb (throws a), X)
                   else (true, X)
               end
      end
  | _, _ => (negb (throws a), X)
  end.

(** The events that have expired are processed in turn, until an exception. *)
Fixpoint all_processed (now : Z) (env : nat → around) (i : nat) (events : list ULogEvent) : bool :=
  match events with
  | [] => true
  | e :: events => (log_spec now (env i) e []).1 && all_processed now env (S i) events
  end.

(** The timers that have expired are removed, when all their events have been processed. *)
Definition in_order (X : list (Z * ULogEvent)) : list (Z * ULogEvent) := mm_insert_range Z.ltb X [].
Definition check_spec (now : Z) (env : nat → around) (X : list (Z * ULogEvent)) :
    option (monitor_status * list ULogEvent) * list (Z * ULogEvent) :=
  let expired := filter (λ x, x.1 ≤ now) (in_order X) in
  if all_processed now env 0 expired.*2 then
    (Some (if bool_decide (expired = []) then no_events else timer_expired, expired.*2), filter (λ x, ¬ x.1 ≤ now) X)
  else (None, X).
End specification.

(** The C library makes a time of what it has made of one. *)
Class TimeLaws `{UL : UserLog} : Prop :=
  local_time t : localtime_r (mktime (localtime_r t)) = localtime_r t.

(** ** The processors meet it *)

Section try.
Context `{CA : ClassAds} `{UL : UserLog}.

Lemma mruns_try {A} (m : Own Timer A) Q w : mruns m (λ x w', Q (Some x) w') w → mruns (try_own m) Q w.
Proof. intros (x&w'&E&H). exists (Some x), w'. split; [|done]. unfold try_own. by rewrite E. Qed.
Lemma mruns_try_throw {A} (Q : option A → Timer → Prop) w : Q None w → mruns (try_own throw_other) Q w.
Proof. intros H. by exists None, w. Qed.
Lemma mruns_try_bind {A B} (m : Own Timer A) (k : A → Own Timer B) Q w :
  mruns (try_own m) (λ r w', match r with Some x => mruns (try_own (k x)) Q w' | None => Q None w' end) w →
  mruns (try_own (m ≫= k)) Q w.
Proof.
  intros (r&w1&E&H). unfold try_own in E |- *. unfold mbind, Own_bind. unfold mruns.
  destruct (m w) as [[[e|x] w2]|]; [| |done]; injection E as <- <-; [by exists None, w2|].
  destruct H as (b&w3&E3&H). exists b, w3. by split.
Qed.
Lemma mruns_try_then {A B} (m : Own Timer A) (k : A → Own Timer B) Q w :
  mruns m (λ x w', mruns (try_own (k x)) Q w') w → mruns (try_own (m ≫= k)) Q w.
Proof. intros H. by apply mruns_try_bind, mruns_try. Qed.

Lemma mruns_other_work a (Q : option unit → Timer → Prop) w :
  Q (if negb (throws a) then Some tt else None) w → mruns (try_own (other_work a)) Q w.
Proof. unfold other_work. destruct (throws a); [apply mruns_try_throw|intros H; by apply mruns_try, mruns_ret]. Qed.
End try.

Section processers_ok.
Context `{CA : ClassAds} `{UL : UserLog} `{LM : LMConfiguration}.
Context {TA : TimerAds} {LA : UserLogLaws} {TL : TimeLaws}.

Lemma removal_storable c epoch : storable (removal_event c epoch).
Proof. split_and!; [done|done|]. unfold restored, removal_event. cbn. by rewrite local_time. Qed.
Lemma failed_storable c epoch : storable (failed_event c epoch).
Proof. split_and!; [done|done|]. unfold restored, failed_event. cbn. by rewrite local_time. Qed.

Lemma mruns_generic_event c epoch (Q : ULogEvent → Timer → Prop) w :
  Q (removal_event c epoch) w → mruns (instantiate_generic_event retry_remove c epoch) Q w.
Proof.
  intros H. unfold instantiate_generic_event. destruct (new_event ULOG_GENERIC) as (b&->&Hb).
  destruct b; try discriminate Hb. by exists (removal_event c epoch), w.
Qed.

(** The numbers of the messages. *)
Lemma digit_value_range c d : digit_value c = Some d → 0 ≤ d.
Proof. unfold digit_value. repeat case_match; intros [= <-]; rewrite ?andb_true_iff, ?Z.leb_le in *; lia. Qed.
Lemma number_nonneg s : 0 ≤ number 10 s.
Proof.
  unfold number. assert (H : ∀ x, 0 ≤ x → 0 ≤ fold_left (λ a c, a * 10 + default 0 (digit_value c)) s x); [|by apply H].
  induction s as [|c s IH]; intros x Hx; [done|]. cbn [fold_left]. apply IH.
  destruct (digit_value c) as [d|] eqn:E; cbn; [apply digit_value_range in E|]; lia.
Qed.

Inductive code_case : Z → generic_event_t → Prop :=
  | code_cancelled : code_case 1 cancelled_event
  | code_remove : code_case 2 retry_remove
  | code_cannot : code_case 3 cannot_cancel_event
  | code_user : code_case 4 user_cancelled_event
  | code_other n : n ∉ [1; 2; 3; 4] → code_case n null_event.
Lemma code_cases n : code_case n (generic_event_of n).
Proof.
  destruct (decide (n ∈ [1; 2; 3; 4])) as [H|H].
  - rewrite !elem_of_cons, elem_of_nil in H. destruct H as [->|[->|[->|[->|[]]]]]; constructor.
  - replace (generic_event_of n) with null_event; [by constructor|].
    rewrite !not_elem_of_cons in H. unfold generic_event_of. repeat case_match; subst. all: first [done|tauto].
Qed.

(** What the processing of an event needs: an event that starts a timer needs room for it,
    and the text of a generic event has a terminator. *)
Definition legible (e : ULogEvent) : Prop := match body e with GenericEvent None => False | _ => True end.
Definition started (now : Z) (a : around) (e : ULogEvent) : list (Z * ULogEvent) := (log_spec now a e []).2.

Section one_event.
Context (now : Z) (a : around) (e : ULogEvent) (w : Timer) (D : disk) (Y : list entry).
Context (Hw : timers_ok w D Y) (Hn : off_ok now).

(** The result of the processing is that of the specification. *)
Definition as_specified (r : bool * list (Z * ULogEvent)) (x : option unit) (w' : Timer) : Prop :=
  x = (if r.1 then Some tt else None) ∧ has_timers r.2 w'.

Lemma as_before ok : as_specified (ok, timer_of <$> Y) (if ok : bool then Some tt else None) w.
Proof. split; [done|]. by exists D, Y. Qed.

Lemma started_ok epoch e' : storable e' → room D 1 (file_end D + written epoch e') →
  mruns (start_timer now epoch e') (λ _ w', as_specified (true, (timer_of <$> Y) ++ [(epoch, e')]) (Some tt) w') w.
Proof. intros He Hr. eapply mruns_mono; [by eapply start_timer_ok|]. by intros [] w' Hw'. Qed.

Lemma start_removal_ok : let epoch := i64 (now + aborted_jobs_timeout) in
  room D 1 (file_end D + written epoch (removal_event (cluster e) epoch)) →
  mruns (try_own (start_removal now e))
    (as_specified (true, (timer_of <$> Y) ++ [(epoch, removal_event (cluster e) epoch)])) w.
Proof.
  intros epoch Hr. apply mruns_try, mruns_bind, mruns_generic_event.
  eapply mruns_mono; [by apply started_ok, Hr; apply removal_storable|]. by intros [].
Qed.

Context (Hroom : room D (Z.of_nat (length (t_events w))) (file_end D)).

Lemma removed_ok chosen :
  mruns (remove_chosen now chosen) (λ _ w', has_timers (filter (λ x, ¬ chosen x.2) (timer_of <$> Y)) w') w.
Proof. by eapply remove_chosen_ok. Qed.

Context (Hstarted : Forall (λ x, room D 1 (file_end D + written x.1 x.2)) (started now a e)).
Context (Hlegible : legible e).

Lemma finalProcess_ok n (known := retry_count a (ei_condor e)) :
  number_of (body e) = ULOG_GENERIC → (∃ code, message_of e = Some code ∧ lexical_cast_int code = Some n) →
  mruns (try_own (finalProcess now a e n)) (as_specified (log_spec now a e (timer_of <$> Y))) w.
Proof.
  intros Hb (code&Hm&Hc). revert Hstarted. unfold started, log_spec. rewrite Hb, Hm. fold known.
  unfold lexical_cast_int in Hc. destruct (Z.ltb_spec (number 10 code) (2 ^ 31)) as [Hlt|]; [|done].
  injection Hc as Hc. rewrite Hc in *. rewrite (proj2 (Z.leb_gt _ _)) by done.
  unfold finalProcess. fold known. destruct known as [retries|]; [|intros _; by apply mruns_try, mruns_ret, as_before].
  destruct (code_cases n) as [| | | |n Hn']; cbn [Z.eqb Pos.eqb].
  - intros [Hr _]%Forall_cons. by apply start_removal_ok.
  - intros _. rewrite bool_decide_eq_true_2 by by left. by apply mruns_other_work, as_before.
  - destruct (Z.ltb_spec force_cancellation_retries retries) as [Hf|Hf].
    + rewrite (proj2 (Z.leb_gt _ _)) by done. intros _. apply mruns_try_bind, mruns_other_work.
      destruct (throws a); [exact (as_before false)|]. apply mruns_try. eapply mruns_mono; [apply removed_ok|]. by intros [].
    + rewrite (proj2 (Z.leb_le _ _)) by done. intros Hr. apply mruns_try_then, mruns_generic_event.
      apply mruns_try_bind, mruns_other_work. destruct (throws a); [exact (as_before false)|].
      apply Forall_cons in Hr as [Hr _]. apply mruns_try.
      eapply mruns_mono; [by apply started_ok, Hr; apply removal_storable|]. by intros [].
  - intros _. rewrite bool_decide_eq_true_2 by (right; by left). by apply mruns_other_work, as_before.
  - intros _. rewrite !not_elem_of_cons in Hn'. destruct Hn' as (H1&H2&H3&H4&_).
    rewrite (proj2 (Z.eqb_neq n 1)), (proj2 (Z.eqb_neq n 3)) by done.
    rewrite bool_decide_eq_false_2 by (rewrite !not_elem_of_cons; repeat split; try done; apply not_elem_of_nil).
    by apply mruns_try, mruns_ret, as_before.
Qed.

Lemma generic_ok info :
  body e = GenericEvent info →
  mruns (try_own (generic_process_event now a e info)) (as_specified (log_spec now a e (timer_of <$> Y))) w.
Proof.
  intros Hb. unfold legible in Hlegible. rewrite Hb in Hlegible. destruct info as [info|]; [|done].
  unfold generic_process_event. apply mruns_try_then, mruns_ret.
  assert (Hnum : number_of (body e) = ULOG_GENERIC) by by rewrite Hb.
  assert (Hfinal : ∀ code, message_of e = Some code →
    mruns (try_own match lexical_cast_int code with Some cn => finalProcess now a e cn | None => throw_other end)
      (as_specified (log_spec now a e (timer_of <$> Y))) w).
  { intros code Hm. destruct (lexical_cast_int code) as [cn|] eqn:Hc.
    - apply finalProcess_ok; [done|by exists code].
    - apply mruns_try_throw. unfold log_spec. rewrite Hnum, Hm. unfold lexical_cast_int in Hc.
      rewrite (proj2 (Z.leb_le _ _)) by (destruct (Z.ltb_spec (number 10 code) (2 ^ 31)); [done|lia]). exact (as_before false). }
  unfold message_of in Hfinal. rewrite Hb in Hfinal.
  destruct (generic_code "JC: " info) as [code|] eqn:H1; [by apply Hfinal|].
  destruct (generic_code "LM: " info) as [code|] eqn:H2; [by apply Hfinal|].
  apply mruns_try, mruns_ret. unfold log_spec, message_of. rewrite Hnum, Hb, H1, H2. exact (as_before true).
Qed.

Lemma process_event_ok :
  mruns (try_own (process_event now a e true)) (as_specified (log_spec now a e (timer_of <$> Y))) w.
Proof.
  unfold process_event. destruct (body e) as [| | | | | | | |info| | | | | | | | | | | | | | | | | | |] eqn:Hb;
    try (unfold log_spec; rewrite Hb; cbn [number_of]; by apply mruns_other_work, as_before).
  - unfold log_spec. rewrite Hb. cbn [number_of]. unfold terminated_process_event.
    destruct (retry_count a (ei_condor e)); [|by apply mruns_try, mruns_ret, (as_before true)].
    apply mruns_try_then. eapply mruns_mono; [apply removed_ok|]. intros [] w' Hw'. by apply mruns_other_work.
  - by apply generic_ok.
  - unfold log_spec. rewrite Hb. cbn [number_of]. unfold aborted_process_event.
    destruct (retry_count a (ei_condor e)); [|by apply mruns_try, mruns_ret, (as_before true)].
    apply mruns_try_then. eapply mruns_mono; [apply removed_ok|]. intros [] w' Hw'. by apply mruns_other_work.
  - unfold log_spec. rewrite Hb. cbn [number_of]. apply mruns_try. eapply mruns_mono; [apply removed_ok|]. by intros [].
  - unfold started, log_spec in Hstarted |- *. rewrite Hb in Hstarted |- *. cbn [number_of snd app] in Hstarted |- *.
    apply Forall_cons in Hstarted as [Hr _]. apply mruns_try. unfold down_process_event.
    destruct (new_event ULOG_GLOBUS_SUBMIT_FAILED) as (b&->&Hb'). apply mruns_bind, mruns_ret.
    destruct b; try discriminate Hb'. eapply mruns_mono; [by eapply started_ok, Hr; apply failed_storable|]. by intros [].
Qed.
End one_event.

(** *** The events of the timers *)

(** The events that are on timers, with any clusters and times. *)
Definition timer_event (e : ULogEvent) : Prop := ∃ c epoch, e = removal_event c epoch ∨ e = failed_event c epoch.

Lemma timer_event_alone now a e w (X : list (Z * ULogEvent)) : timer_event e →
  (log_spec now a e X).2 = X ∧
  mruns (try_own (process_event now a e true))
    (λ r w', r = (if (log_spec now a e []).1 then Some tt else None) ∧ w' = w) w.
Proof.
  intros (c&epoch&[->| ->]).
  - unfold log_spec, message_of. cbn [number_of body removal_event].
    replace (generic_code "JC: " "LM: 2 - Must retry job removal") with (@None bytes) by done.
    replace (generic_code "LM: " "LM: 2 - Must retry job removal") with (Some ["2"]%char) by done.
    replace (number 10 ["2"%char]) with 2 by done. cbn [Z.leb Z.compare Z.eqb Pos.eqb].
    replace (2 ^ 31 <=? 2) with false by done. rewrite bool_decide_eq_true_2 by by left.
    unfold process_event, generic_process_event. cbn [body removal_event].
    destruct (retry_count a (ei_condor (removal_event c epoch))) as [n|] eqn:Ha; (split; [done|]);
      apply mruns_try_then, mruns_ret;
      replace (generic_code "JC: " "LM: 2 - Must retry job removal") with (@None bytes) by done;
      replace (generic_code "LM: " "LM: 2 - Must retry job removal") with (Some ["2"]%char) by done;
      replace (lexical_cast_int ["2"%char]) with (Some 2) by done; unfold finalProcess; rewrite Ha.
    + by apply mruns_other_work.
    + by apply mruns_try, mruns_ret.
  - split; [done|]. by apply mruns_other_work.
Qed.

(** An event that is processed starts the timers of such events only. *)
Lemma log_spec_events now a e X :
  Forall (λ x, timer_event x.2) X → Forall (λ x, timer_event x.2) (log_spec now a e X).2.
Proof.
  intros HX. assert (Hf : ∀ chosen : ULogEvent → bool, Forall (λ x, timer_event x.2) (filter (λ x, ¬ chosen x.2) X))
    by (intros chosen; by apply Forall_filter).
  assert (H1 : ∀ c k, Forall (λ x, timer_event x.2) (X ++ [(k, removal_event c k)])).
  { intros c k. apply Forall_app. split; [done|]. constructor; [|constructor]. exists c, k. by left. }
  assert (H2 : ∀ c k, Forall (λ x, timer_event x.2) (X ++ [(k, failed_event c k)])).
  { intros c k. apply Forall_app. split; [done|]. constructor; [|constructor]. exists c, k. by right. }
  unfold log_spec. repeat case_match; cbn [snd]; auto.
Qed.

(** *** [checkAndProcessTimers] *)

Section checking.
Context (now : Z) (env : nat → around) (w : Timer) (D : disk) (Y : list entry).
Context (Hw : timers_ok w D Y) (Hown : Forall (λ x, timer_event x.2) (timer_of <$> Y)).

(** The loop at the elements [suf], of those that have expired. *)
Lemma process_timers_ok suf : ∀ fuel pre removed events,
  t_events w = pre ++ suf → (length suf < fuel)%nat →
  StronglySorted le_key suf → let l := filter (λ x, x.1 ≤ now) suf in
  mruns (try_own (process_timers fuel now env (head (nodes_of suf)) removed events))
    (λ r w', r = (if all_processed now env (length events) (omap event_in l)
      then Some (removed ++ nodes_of l, events ++ omap event_in l) else None) ∧ w' = w) w.
Proof.
  pose proof Hw as [_ HY].
  induction suf as [|x suf IH]; intros fuel pre removed events Hps Hf Hsort l; destruct fuel as [|fuel]; try (cbn in Hf; lia).
  - apply mruns_try, mruns_ret. cbn. by rewrite !app_nil_r.
  - assert (Hx : x ∈ t_events w) by (rewrite Hps, elem_of_app; right; by left).
    destruct (event_entry w Y HY x Hx) as (y&Hy&->&Ho). unfold nodes_of. rewrite fmap_cons. cbn [head process_timers].
    apply mruns_try_then, (mruns_node_event w Y HY y); [done|done|].
    apply mruns_try_then. apply (mruns_object w Y HY (item_of y)); [done|]. cbn [item_of snd].
    rewrite (eo_epoch _ Ho). inversion_clear Hsort as [|? ? Hss Hall].
    unfold l. rewrite filter_cons. cbn [item_of fst]. destruct (Z.leb_spec (en_epoch y) now) as [Hle|Hgt].
    + rewrite decide_True by done. set (expired := filter _ suf).
      replace (omap event_in (item_of y :: expired)) with (en_event y :: omap event_in expired)
        by (cbn [omap list_omap]; change (event_in (item_of y)) with (te_event (en_object y)); by rewrite (eo_event _ Ho)).
      apply mruns_try_bind. rewrite Forall_fmap, Forall_forall in Hown.
      eapply mruns_mono; [by apply (timer_event_alone now (env (length events)) (en_event y) w []), (Hown y)|].
      intros r w' [-> ->]. cbn [all_processed]. destruct (log_spec now (env (length events)) (en_event y) []).1; [|done].
      cbn [andb]. apply mruns_try_then, mruns_state. pose proof (events_nodes w Y HY) as Hnd. rewrite Hps in Hnd |- *.
      apply mruns_try_then. change (en_node y) with ((item_of y).2.1). rewrite node_after_app by done.
      apply mruns_ret. eapply mruns_mono; [apply (IH fuel (pre ++ [item_of y])); [|cbn in Hf; lia|done]|].
      { by rewrite Hps, <- app_assoc. }
      intros r w' [-> ->]. split; [|done]. rewrite length_app, Nat.add_1_r, <- !app_assoc. done.
    + rewrite decide_False by lia. apply mruns_try, mruns_ret. rewrite filter_none; [cbn; by rewrite !app_nil_r|].
      eapply Forall_impl; [exact Hall|]. intros z. unfold le_key. cbn. lia.
Qed.
End checking.

Lemma same_order w Y : memory_ok w Y →
  Forall2 (λ x z, x.1 = z.1 ∧ event_in x = Some z.2) (t_events w) (in_order (timer_of <$> Y)).
Proof.
  intros HY. assert (H : (λ x : Z * (nat * TimeoutEvent), (x.1, event_in x)) <$> t_events w
    = (λ z : Z * ULogEvent, (z.1, Some z.2)) <$> in_order (timer_of <$> Y)).
  { rewrite (tk_events _ _ HY). unfold in_order.
    etrans; [exact (mm_range_map (λ v : nat * TimeoutEvent, te_event v.2) (item_of <$> Y) [])|].
    etrans; [|symmetry; exact (mm_range_map Some (timer_of <$> Y) [])]. rewrite <- !list_fmap_compose.
    f_equal. apply list_fmap_ext. intros i y Hy. pose proof (tk_entries _ _ HY) as Ho.
    rewrite Forall_lookup in Ho. unfold compose. cbn. by rewrite (eo_event _ (Ho i y Hy)). }
  revert H. generalize (in_order (timer_of <$> Y)). induction (t_events w) as [|x l IH]; intros [|z l']; try done.
  rewrite !fmap_cons. intros [= H1 H2 H3]. constructor; [done|by apply IH].
Qed.

Lemma events_in_order w Y now : memory_ok w Y →
  Forall2 (λ x z, event_in x = Some z.2) (filter (λ x, x.1 ≤ now) (t_events w))
    (filter (λ x, x.1 ≤ now) (in_order (timer_of <$> Y))).
Proof.
  intros HY. induction (same_order w Y HY) as [|x z l l' [Hk He] _ IH]; [constructor|].
  rewrite !filter_cons, Hk. destruct (decide (z.1 ≤ now)); [by constructor|done].
Qed.

Lemma checkAndProcessTimers_ok fuel w D Y now env :
  timers_ok w D Y → Forall (λ x, timer_event x.2) (timer_of <$> Y) →
  off_ok now → room D (Z.of_nat (length (t_events w))) (file_end D) → (length (t_events w) < fuel)%nat →
  mruns (try_own (checkAndProcessTimers fuel now env))
    (λ r w', r = (check_spec now env (timer_of <$> Y)).1 ∧ has_timers (check_spec now env (timer_of <$> Y)).2 w') w.
Proof.
  intros Hw Hown Hn Hr Hf. pose proof Hw as [_ HY]. unfold checkAndProcessTimers, check_spec.
  set (X := timer_of <$> Y). set (expired := filter (λ x, x.1 ≤ now) (in_order X)).
  pose proof (events_in_order w Y now HY) as HF. fold X in HF. fold expired in HF.
  assert (He : omap event_in (filter (λ x, x.1 ≤ now) (t_events w)) = expired.*2).
  { clear -HF. induction HF as [|x z l l' Hx _ IH]; [done|]. cbn [omap list_omap]. by rewrite Hx, IH. }
  apply mruns_try_then, mruns_state, mruns_try_bind.
  eapply mruns_mono; [by apply (process_timers_ok now env w D Y Hw Hown (t_events w) fuel []), (events_sorted w Y HY)|].
  intros r w' [-> ->]. cbn [length app]. rewrite He. destruct (all_processed now env 0 expired.*2).
  - apply mruns_try, mruns_bind.
    eapply mruns_mono; [eapply (remove_nodes_ok w D Y now _ (λ x, x.1 ≤ now)); [done..|]|].
    { by intros y Hy. }
    intros [] w' Hw'. apply mruns_ret. split; [|exact Hw']. cbn [fst]. f_equal. f_equal. unfold nodes_of. by destruct HF.
  - split; [done|]. by exists D, Y.
Qed.
End processers_ok.

(** ** Sequences of requests *)

Section requests.
Context `{CA : ClassAds} `{UL : UserLog} `{LM : LMConfiguration}.

(** The processing of an event that has been read from the log, the end of the log, and a process that makes
    the timers again from the file; each at the time that its clock has. *)
Inductive monitor_request :=
  | LogEvent (now : Z) (a : around) (event : ULogEvent)
  | CheckTimers (now : Z) (env : nat → around)
  | RestartTimers (now : Z).

Definition clock_of (x : monitor_request) : Z :=
  match x with LogEvent now _ _ | CheckTimers now _ | RestartTimers now => now end.

(** The result: the status and the events that have been processed, unless there was an
    exception. *)
Definition monitor_serve (x : monitor_request) : Own Timer (option (monitor_status * list ULogEvent)) :=
  match x with
  | LogEvent now a event => try_own (process_event now a event true;; mret (event_read, []))
  | CheckTimers now env =>
      fuel ← state (λ w, S (length (t_events w)));
      try_own (checkAndProcessTimers fuel now env)
  | RestartTimers now =>
      update_state (λ w, mkTimer _ _ [] 0 (t_backup w));; update_state (reopened now);; timer_construct;;
      mret (Some (no_events, []))
  end.

Definition monitor_spec (x : monitor_request) (X : list (Z * ULogEvent)) :
    option (monitor_status * list ULogEvent) * list (Z * ULogEvent) :=
  match x with
  | LogEvent now a e => let r := log_spec now a e X in (if r.1 then Some (event_read, []) else None, r.2)
  | CheckTimers now env => check_spec now env X
  | RestartTimers _ => (Some (no_events, []), X)
  end.

(** What a request needs: room for what it starts, a clock of 64 bits, and a text that has
    a terminator. *)
Definition monitor_can (x : monitor_request) (w : Timer) : Prop :=
  let n := match x with LogEvent now a e => from_option (λ x, written x.1 x.2) 0 (head (started now a e)) | _ => 0 end in
  off_ok (clock_of x) ∧ fits (1 + Z.of_nat (length (t_events w))) n w
  ∧ match x with LogEvent _ _ e => legible e | _ => True end.

Context {TA : TimerAds} {LA : UserLogLaws} {TL : TimeLaws}.

(** The timers of the monitor, whose events are those that it has started. *)
Definition has_own_timers (X : list (Z * ULogEvent)) (w : Timer) : Prop :=
  has_timers X w ∧ Forall (λ x, timer_event x.2) X.

Lemma started_one now a e : started now a e = [] ∨ ∃ x, started now a e = [x].
Proof. unfold started, log_spec. repeat case_match; cbn [snd app]; rewrite ?filter_nil; eauto. Qed.

Lemma check_spec_events now env X :
  Forall (λ x, timer_event x.2) X → Forall (λ x, timer_event x.2) (check_spec now env X).2.
Proof. intros HX. unfold check_spec. case_match; [by apply Forall_filter|done]. Qed.

Lemma monitor_serve_ok x w X :
  has_own_timers X w → monitor_can x w →
  mruns (monitor_serve x) (λ r w', r = (monitor_spec x X).1 ∧ has_own_timers (monitor_spec x X).2 w') w.
Proof.
  intros [(D&Y&Hw&<-) Hown] (Hn&Hf&Hx). pose proof Hw as [Hs HY].
  pose proof (fits_room (W := Timer) _ _ w D _ Hs Hf) as Hr.
  assert (Hw0 : ∀ epoch e, 0 ≤ written epoch e).
  { intros epoch e. unfold written. destruct (event_to_classad epoch e); cbn; [|lia]. rewrite data_size_rec. lia. }
  assert (Hr' : room D (Z.of_nat (length (t_events w))) (file_end D)).
  { eapply room_less; [exact Hr|lia|]. destruct x as [now a e| |]; try lia.
    destruct (head (started now a e)) as [y|]; cbn [from_option]; [specialize (Hw0 y.1 y.2)|]; lia. }
  destruct x as [now a e|now env|now]; cbn [monitor_serve monitor_spec clock_of fst snd] in *.
  - apply mruns_try_bind. eapply mruns_mono; [eapply (process_event_ok now a e w D Y); [done..| |done]|].
    { destruct (started_one now a e) as [E|[y E]]; rewrite E in Hr |- *; [constructor|].
      constructor; [|constructor]. eapply room_less; [exact Hr|lia|cbn; lia]. }
    intros r w' [-> Hw']. pose proof (log_spec_events now a e _ Hown) as Ho.
    destruct (log_spec now a e (timer_of <$> Y)).1; [by apply mruns_try, mruns_ret|done].
  - apply mruns_bind, mruns_state. eapply mruns_mono; [eapply checkAndProcessTimers_ok; [done..|lia]|].
    intros r w' [-> Hw']. split; [done|]. split; [done|]. by apply check_spec_events.
  - apply mruns_bind, mruns_update, mruns_bind, mruns_update, mruns_bind.
    eapply mruns_mono; [eapply timer_construct_ok; [apply entries_decode, HY| |done]|].
    { exact (sees_reopened (W := Timer) D _ (mkTimer _ _ [] 0 (t_backup w)) now Hs Hn). }
    intros [] w' Hw'. by apply mruns_ret.
Qed.

(** C18. The log monitor's processing of every sequence of events of Condor's log, ends of
    the log and starts of new processes that has room does to its timers what the
    specification does to a list of times and events: the processors start and remove the
    timers of the cluster of the event; those that have expired are processed once and in
    the order of their times and then removed, but all of them stay, to be processed
    again, when the processing of one ends with an exception; and a process that is started
    again makes all of them from the file, with their events as they were. *)
Theorem timers_survive_restarts now xs :
  off_ok now → let r := spec_all monitor_spec xs [] in ∃ w, new_timer now = Some w ∧
    (all_can monitor_serve monitor_can xs w →
     ∃ w', run_all monitor_serve xs w = Some (inr r.1, w') ∧ has_timers r.2 w').
Proof.
  intros Hn r. destruct (new_timer_ok now Hn) as (w&E&Hw). exists w. split; [exact E|]. intros Hs.
  destruct (run_all_ok monitor_serve monitor_spec monitor_can has_own_timers) with (xs := xs) (w := w)
    (m := [] : list (Z * ULogEvent)) as (rs&w'&Er&->&Hm&_); [|by split|exact Hs|by exists w'].
  intros x w1 X1. apply monitor_serve_ok.
Qed.
End requests.

(** *** Its witness *)

#[export] Instance small_time_laws : TimeLaws (UL := small_log).
Proof. done. Qed.

#[local] Existing Instances small_ads small_log.
#[local] Instance sample_monitor : LMConfiguration :=
  {| aborted_jobs_timeout := 30; globus_down_timeout := 20; force_cancellation_retries := 3 |}.

(** The jobs 17 and 18 are known, the first has been tried once and the second too often. *)
Definition sample_around : around :=
  mkAround (λ c, if bool_decide (c = lexical_string 17) then Some 1 else if bool_decide (c = lexical_string 18) then Some 4 else None) false.
Definition failing_around : around := mkAround (retry_count sample_around) true.

Definition job_event (c : Z) (b : event_body) : ULogEvent := mkEvent _ sample_time c 0 0 b.

(** A job is cancelled and its resource goes down; another resource goes down and comes up
    again. The timers are made again by a new process; the first that expires meets an
    exception and is processed again; the job that cannot be cancelled is given up. *)
Definition monitor_sample : list monitor_request :=
  let t := sample_time in let a := sample_around in let info s := GenericEvent (Some s) in
  [LogEvent (t + 1) a (job_event 17 (info "JC: 1 - Cancelled")); LogEvent (t + 2) a (job_event 17 (GlobusResourceDownEvent None));
   LogEvent (t + 3) a (job_event 18 (GlobusResourceDownEvent None)); RestartTimers (t + 4);
   LogEvent (t + 5) a (job_event 18 (GlobusResourceUpEvent None)); CheckTimers (t + 6) (λ _, a);
   CheckTimers (t + 23) (λ _, failing_around); CheckTimers (t + 24) (λ _, a);
   LogEvent (t + 25) a (job_event 18 (GlobusResourceDownEvent None)); RestartTimers (t + 26);
   LogEvent (t + 27) a (job_event 18 (info "JC: 3 - Cannot cancel")); LogEvent (t + 28) a (job_event 19 (info "JC: 1 - Cancelled"))].
Definition monitor_start : Timer := default (mkTimer _ _ [] 0 (open_file [] 0 None)) (new_timer sample_time).

Definition sample_answers : list (option (monitor_status * list ULogEvent)) :=
  let t := sample_time in let nothing := Some (no_events, []) in let read := Some (event_read, []) in
  [read; read; read; nothing; read; nothing; None; Some (timer_expired, [failed_event 17 (t + 22)]);
   read; nothing; read; read].

Lemma monitor_start_new : new_timer sample_time = Some monitor_start.
Proof. vm_compute. reflexivity. Qed.

Lemma monitor_sample_can : all_can monitor_serve monitor_can monitor_sample monitor_start.
Proof. vm_compute. repeat split; intros [=]. Qed.

Lemma timers_survive_restarts_witness :
  off_ok sample_time ∧ ∃ w', run_all monitor_serve monitor_sample monitor_start = Some (inr sample_answers, w')
    ∧ has_timers [(sample_time + 31, removal_event 17 (sample_time + 31))] w'.
Proof.
  split; [done|].
  destruct (timers_survive_restarts sample_time monitor_sample) as (w&E&H); [done|].
  assert (Hw : w = monitor_start) by (rewrite monitor_start_new in E; congruence). subst w.
  destruct (H monitor_sample_can) as (w'&Er&Hw'). exists w'. split; [exact Er|exact Hw'].
Defined.
